(* ===== verification/_CoqProject ===== *)
-Q . S2P
Prelude.v
GoStrings.v
NetAddr.v
Errors.v
LRU.v
CacheStore.v
Bloom.v
Admission.v
Group.v
Maintenance.v
Read.v
Consistency.v
FlightReads.v
Directory.v
Discovery.v
Protocol.v
Postgres.v
Outbox.v
Relay.v
Cluster.v
Spec.v
Api.v
Writes.v
Updates.v
Config.v
Bootstrap.v
Demo.v
Lifecycle.v
Operator.v
Kube.v
Gateway.v
Reconcile.v
MemKube.v
ReconcileSafety.v
ReconcileStable.v
ReconcilePass.v
StaleReads.v
Measurement.v
Dataset.v
LoadClient.v
Arrival.v
LoadRun.v
Probe.v
LoadLoop.v
GatewayRun.v
Diagnostics.v
DiagLoad.v
Children.v
Report.v
Telemetry.v
Commands.v
Programs.v
