(* ===== verification/Prelude.v ===== *)
(** * SimpleCache: a verification library of the cache engine and its operator

    ** The program

    SimpleCache is a read-mostly cache in front of an authoritative source.
    A node ([geecache-engine]) answers reads from a byte-bounded LRU, loads
    misses from the source through admission control and shared flights, and
    takes writes that go to the source first and are then announced to every
    known member as invalidations of a committed source version. PostgreSQL
    writes each version together with an outbox event; a relay redelivers
    what the first announcement missed. Members are found through Kubernetes
    EndpointSlices, and an operator ([simplecache-operator]) turns a resource
    into the workload that runs the nodes.

    The guarantee the parts work for: once a version has been acknowledged as
    invalidated on a node, that node neither keeps nor returns an older value,
    although readers, shared flights, retries, expirations and a bounded
    version table race with it; what it returns is byte for byte what the
    source held under the version it says; and every committed version is
    announced until the members have acknowledged it.

    Beside the system the repository has programs that drive it over HTTP and
    judge what they see: a load generator, a continuity probe, a benchmark of
    separate server processes, and the report that puts the evidence of a
    validation run together. They are modelled as clients of the system.

    ** Files (all sources are under [src/geecache-engine/internal] unless said)

    - [Prelude]: integers at their width, time, lists of element pointers,
      tactics, the hint database [simplecache].
    - [GoStrings], [NetAddr]: what is used of [strconv], [strings],
      [unicode/utf8], [net], [net/netip] and [net/url], as functions on byte
      strings with round-trip lemmas.
    - [Errors] ([cache/errors.go]): sentinel errors, wrapping, [ValidateKey].
    - [LRU] ([cache/lru/lru.go]): the list, the index and the cursor alias one
      heap of elements; state [Cache], operations [Get], [AddUntil], [Remove],
      [PruneExpired]; abstract specification [add_spec], [get_spec].
    - [CacheStore] ([cache/cache.go]): [ByteView] and the locked area; the
      interface [Store]/[StoreLaws] is what the group relies on, and the area
      is its instance.
    - [Bloom] ([cache/bloomfilter.go]), [Admission] ([cache/admission.go]):
      the filter at 64 bits; channels and the limiter as a step machine.
    - [Group] ([cache/group.go], [cache/versions.go]): options, epoch stripes,
      version floors, [InvalidateVersion], over any [Store].
    - [Maintenance] ([CleanExpired], [RunMaintenance] of [cache/cache.go]).
    - [Read] ([cache/read.go], [cache/load.go]): the read path as programs of
      a small monad whose actions are the critical sections of the code.
    - [Consistency]: the node as a step relation (readers, flights,
      invalidations, commits, expirations) over any relation of what the
      source answers for a key at a version ([Genuine]), its invariant, and a
      rely-guarantee weakest precondition for the programs of [Read].
      [FlightReads]: the paths of these programs, and what they ask the source.
    - [Directory] ([cluster/directory.go]), [Discovery]
      ([discovery/endpoints.go]), [Protocol] ([cluster/protocol.go],
      [server.go], [invalidation.go]): membership, the watcher as a step
      relation, and the invalidation protocol between members.
    - [Postgres] ([source/postgres]): the two tables, every statement, what
      can become of a statement ([fate]), and runs [db_step].
    - [Outbox] ([outbox/worker.go], [outboxSender] of [app/bootstrap.go]):
      the relay over the interface [Queue], of which PostgreSQL is an instance.
    - [Relay] ([Run] of [outbox/worker.go]): the loop of the relay over the
      tables.
    - [Cluster]: the parts together. Several nodes of [Consistency] that read
      the tables of [Postgres] as they are at that moment ([rows_answer]), and
      relays that claim, broadcast ([outboxSender]) and finish, with lost
      answers, dying relays and joining nodes. [Spec]: the abstract machine that
      the cluster promises to be (a history of contents per key, a floor per
      key and node, reads, deliveries) and the forward simulation.
    - [Api] ([app/api.go], [mutations.go], [mutations_http.go]): the public
      routes over the interface [MutableSource].
    - [Writes]: a write of [Api] taken by a node of [Cluster], and the reads
      that start on that node afterwards. [Updates]: conditional writes over
      what a client has read from a cache.
    - [Config] ([app/config.go]), [Bootstrap] ([app/bootstrap.go]):
      environment, validation, assembly and shutdown of a node.
    - [Demo] ([demo/source.go], [Run] of [app/bootstrap.go]): the demo source
      and the choice between it and PostgreSQL. [Lifecycle] ([Run],
      [RunWithSource], [serve] of [app/bootstrap.go]): the deferred calls and
      the running process as a step relation.
    - [Operator] ([api/v1], [resources.go], [validation.go] of
      [src/simplecache-operator]): defaults, validation, generated objects.
    - [Kube]: objects, errors and the class of the API server's operations,
      with the laws the controller relies on ([KubeLaws]). [Gateway]
      ([controller/gateway.go]): gateway objects as JSON documents,
      [desiredSubset], conditions. [Reconcile] ([simplecache_controller.go],
      [template.go]): [ensure], every mutation, status, [Reconcile].
      [MemKube]: a store in memory that satisfies the laws, used by witnesses.
      [ReconcileSafety], [ReconcileStable], [ReconcilePass]: what a pass may
      touch, that a settled cluster is left alone, what a pass achieves, for a
      client whose reads are up to date ([FreshReads]). [StaleReads]: an instance
      with a client cache that lags, and what a pass then reports.
    - [Measurement] ([bench/measurement/latency.go]): nearest-rank percentiles
      with binary64 ranks. [Dataset] ([bench/gateway/config.go], [dataset.go],
      [products.go]): keys, values, manifest, fixture. [LoadClient]
      ([client.go], [records.go]): one request and its verdict. [Arrival]
      ([arrival.go]): validation, the open-loop plan, dispatcher and workers
      as a step relation, counting. [LoadRun] ([run.go]): the summary and the
      mixed closed-loop workload. [LoadLoop] ([run.go]): the worker loop of the
      other closed-loop scenarios as a step relation, and the TTL loop.
      [GatewayRun] ([Run] of [run.go], the end of [runArrival],
      [cmd/gateway-bench]): a whole run with its files and exit status.
    - [Probe] ([bench/democlient/client.go], [validation/probe/run.go]): a
      checked read of the demo dataset, the workers of the probe as a step
      relation with the stop file and the deadline, the summary.
    - [Diagnostics] ([bench/diagnostics/load.go], [run.go]): the metrics that
      are read back, a trial with every early return, the run. [DiagLoad]
      ([load.go]): the workers of the warm-up and of the load, with the
      sampler, as step relations. [Children] ([process.go], [profiles.go]): a
      server process, its reader and its stop, and the profiles. [Report]
      ([validation/report]): stages, test events, Ginkgo reports, the judgement
      of a performance run, the status.
    - [Telemetry] ([telemetry/metrics.go]): what every recording method does to
      the registry, over histories of observations, and with the writes of
      [Api]. [Commands] ([cmd/diagnostic-server], [cmd/arrival-reference],
      [cmd/validation-report]): the programs around the system. [Programs]: how
      the probe, the report and the remaining commands end, and the entry point
      of the operator ([cmd/main.go] of [src/simplecache-operator]).

    ** Conventions

    [None] as the result of an operation that returns no option is a panic.
    A Go [error] is [option error]. Values that come from outside (clock
    readings, whether a context has ended, what a send or a statement answers,
    completion orders) are arguments, so a theorem about a function is about
    every such behaviour. A sequence of statements under one mutex is one
    function; between critical sections everything may interleave.

    ** What the theorems show

    - Reads: [Consistency.reads_return_source_values], no interleaving returns
      or keeps bytes other than those the source has under that key and
      version; [invalidated_never_returned] and [invalidated_never_resident];
      the read path never panics; a flight reads the source at most twice, the
      second time only after a stale answer
      ([FlightReads.flight_reads_bounded]);
      flights are shared only between equal fences
      ([Read.flightKey_injective]); the contract of [InvalidateVersion].
    - Storage: the LRU refines its list specification, the area respects its
      capacity, expiration is bounded, complete and touches nothing else; the
      Bloom filter has no false negatives; the limiter keeps its bounds.
    - Cluster: the client and the handler of two members agree, a broadcast
      reports the truth, [Update] meets its contract, discovery converges.
    - Source: every committed version has its event until it is delivered,
      versions only grow, conditional writes are compare-and-set, a lost lease
      cannot finish an event, retention removes delivered events only, and a
      relay whose sends succeed delivers everything that is pending
      ([Relay.relay_drains]).
    - API: keys and preconditions are accepted in one canonical form only,
      unauthorised or malformed requests change nothing, and what a write
      reports is true of the source and of the cache.
    - The whole: [Cluster.delivered_everywhere], an event that is not pending
      any more has reached every running node, which returns nothing older,
      and, when it is the newest, exactly the current row of the table;
      [Writes.read_your_writes], the reads on a node see every write this node
      has reported as committed; [Updates.no_lost_update], a conditional write
      takes place only over exactly the bytes its client has read; and
      [Spec.system_refines_spec], every behaviour of the cluster is one of an
      abstract machine of histories and floors.
    - Deployment: what [FromEnv] accepts can be assembled without a panic, and
      what the operator generates is accepted by [FromEnv]; a node's process
      takes nothing away from what is still at work, and a shutdown ends
      ([Lifecycle.node_lifecycle], [shutdown_terminates]).
    - Operator: with up-to-date reads [Reconcile] reports ready only what is
      rolled out, touches only objects it owns, leaves a settled cluster as it
      is, removes exactly the shard Services beyond the size and fails on foreign
      objects; it does not panic. With a lagging client cache it can report ready
      what is not rolled out ([StaleReads.stale_ready]).
    - Load generator: the plan is what validation promises, every planned
      request is accounted for once, the verdict on an answer of [apiRoute] is
      the truth about it, a passed mixed run means that three different
      members acknowledged every write and no reader saw an older version, and
      the closed-loop workers make each request of the trace at most once; the
      calibration fixture answers what the generator expects. A run that
      reports no error has made and verified every request it planned
      ([GatewayRun.gateway_run_passes]), and every run ends
      ([gateway_run_returns]). A load of the benchmark counts every number that
      was drawn once ([DiagLoad.load_exact]).
    - Evidence: a passed probe means that every read got the exact value; the
      benchmark and the report agree on what a complete performance run is
      ([Report.performance_agreement]); a passed report has its evidence behind
      every stage ([passed_report_sound]); the metrics count what happened and
      the counter of unknown commits follows the writes
      ([Telemetry.metrics_truthful], [unknown_commits_counted]); a process ends
      with status 0 only after what it was started for
      ([Programs.probe_exit], [report_exit], [operatorMain_sound]).

    ** Bounds and fuel

    [LRU.evictLoop] and [pruneLoop] run on the length of the list, each round
    removing or visiting one entry. [Read.acquireFrom] has fuel 4, the longest
    path through [acquire]; [attempts] has fuel 4 in [flight], where the code's
    loop makes two rounds; that neither runs out is part of
    [read_path_never_panics], and the bound of two reads is proved for any fuel.
    [Outbox.retryLoop] has fuel 6, since 2^6 seconds exceed the minute at which the loop stops.
    [Outbox.purgeLoop] takes its fuel as an argument, and [maintain_terminates]
    says how much suffices. [Api.json_scan] has twice the length of its input.
    [NetAddr.parseIPv6Groups] has 8, the groups of an address. Epochs are 64-bit
    counters: the consistency theorems hold for up to 2^63 invalidations. A
    cache capacity is below 2^62, so that no byte count wraps. Percentile ranks
    are proved exact for up to 2000 observations ([Measurement.rank_bound]),
    by evaluation of the binary64 product at each of them. [Dataset.growPadding]
    has one round more than a padding of 64-byte blocks needs.

    ** What is not modelled, and what is assumed

    The HTTP transport, the PostgreSQL driver, Prometheus, the Kubernetes
    client and [singleflight] are libraries: the models take their answers as
    arguments, and of [singleflight] only that a channel yields the result of
    one execution of the function handed in under the same name. The two sizing
    formulas of the Bloom filter (floating point), the reading of bracketed
    hosts by [net/url] and Unicode lower-casing are parameters. So are SHA-256,
    the Zipf generator, [json.Unmarshal], [strconv.ParseFloat] and
    [strconv.Quote] in the load generator and the validation tools, and the
    files of a report directory are a function from names to what opening them
    gives; encoding to JSON is defined for valid UTF-8. Process identifiers of
    a benchmark are positive and a child's differs from its parent's.

    A pass of the controller runs alone against the API server, whose operations are the class [Kube]; the laws
    are its documented behaviour and [MemKube] satisfies them. The manager's
    client reads typed objects from a cache; [KubeLaws] says nothing of its age,
    and the theorems about a pass suppose by name that it is up to date
    ([FreshReads]). In [Cluster] a broadcast starts from a snapshot that names
    every node then running ([sees_everyone]); members it does not see rely on
    the TTL, as [outbox/README.md] says. A statement that commits after its
    client has given up is a refused one followed by a write of its own
    ([fate]), and a write of the source and the invalidation on the same node
    are one step ([executeMutation]). In
    [Lifecycle] the relay returns after its context has ended: every call it
    makes has a time limit.

    Left out, because nothing is decided there or the code is not the
    program's own: the debug routes (net/http/pprof), the set-up of HTTP
    transports, the fixed prose of the rendered reports and the figures that
    are only printed in them (throughput, medians with three decimals), the
    encoding of summaries to JSON, logging, and of the operator the generated
    deep copies (values are immutable here, so a copy is the value itself) and
    the registration of its types. *)
From Stdlib Require Export ZArith Lia Ascii.
From stdpp Require Export base tactics numbers list strings gmap fin_maps sorting.

Open Scope Z_scope.

(** ** Machine integers

    Go's [int64]/[int] and [uint64] are integers of [Z] brought back to
    their range after every arithmetic operation. *)
Definition two63 : Z := 9223372036854775808.
Definition two64 : Z := 18446744073709551616.
Definition maxInt64 : Z := 9223372036854775807.
Definition u64 (z : Z) : Z := z mod two64.
Definition i64 (z : Z) : Z := (z + two63) mod two64 - two63.

(** ** Time

    A [time.Time] is the number of nanoseconds since Go's zero time (January
    1, year 1), so the zero value of the type is [0]; a [time.Duration] is a
    number of nanoseconds. *)
Definition Time : Type := Z.
Definition Duration : Type := Z.
Definition Millisecond : Duration := 1000000.
Definition Second : Duration := 1000000000.
Definition Minute : Duration := 60 * Second.
Definition Hour : Duration := 60 * Minute.
Definition IsZero (t : Time) : bool := t =? 0.
Definition After (t u : Time) : bool := u <? t.
Definition Before (t u : Time) : bool := t <? u.

(** ** Strings and byte slices

    A Go [string] is a sequence of bytes, here [string]; a [[]byte] is a
    [list] of bytes. [len] counts bytes. *)
Definition bytes : Type := list Byte.byte.
Definition slen (s : string) : Z := Z.of_nat (String.length s).
Definition blen (b : bytes) : Z := Z.of_nat (length b).

(** ** Doubly linked lists

    [container/list] lists are lists of element pointers, front first.
    [unlink] is [List.Remove], [prev_of] is [Element.Prev]. *)
Definition ptr : Type := nat.
Definition unlink (e : ptr) (l : list ptr) : list ptr := filter (fun x => x <> e) l.

Fixpoint prev_from (p : option ptr) (e : ptr) (l : list ptr) : option ptr :=
  match l with
  | [] => None
  | x :: l' => if decide (x = e) then p else prev_from (Some x) e l'
  end.

Definition prev_of (e : ptr) (l : list ptr) : option ptr := prev_from None e l.

(** Sum of a measure over a list. *)
Fixpoint Zsum {A} (f : A -> Z) (l : list A) : Z :=
  match l with
  | [] => 0
  | x :: l' => f x + Zsum f l'
  end.

(** ** Automation *)

(** Case analysis on the boolean tests and options of a translated function,
    then arithmetic. *)
Ltac case_bool :=
  match goal with
  | |- context [if ?b then _ else _] => destruct b eqn:?
  | H : context [if ?b then _ else _] |- _ => destruct b eqn:?
  end.

Ltac split_and_lia := repeat split; try lia.

(** Turn boolean comparisons into propositions. *)
Ltac reflect_bool :=
  repeat match goal with
  | H : (_ && _)%bool = true |- _ => apply andb_true_iff in H as [? ?]
  | H : (_ || _)%bool = false |- _ => apply orb_false_iff in H as [? ?]
  | H : negb _ = true |- _ => apply negb_true_iff in H
  | H : negb _ = false |- _ => apply negb_false_iff in H
  | H : (_ <? _) = true |- _ => apply Z.ltb_lt in H
  | H : (_ <? _) = false |- _ => apply Z.ltb_ge in H
  | H : (_ <=? _) = true |- _ => apply Z.leb_le in H
  | H : (_ <=? _) = false |- _ => apply Z.leb_gt in H
  | H : (_ =? _) = true |- _ => apply Z.eqb_eq in H
  | H : (_ =? _) = false |- _ => apply Z.eqb_neq in H
  | H : bool_decide _ = true |- _ => apply bool_decide_eq_true in H
  | H : bool_decide _ = false |- _ => apply bool_decide_eq_false in H
  end.

Create HintDb simplecache.

(** ** Machine-integer lemmas *)

Lemma i64_id z : - two63 <= z < two63 -> i64 z = z.
Proof. unfold i64, two63, two64. intros H. rewrite Z.mod_small; lia. Qed.

Lemma u64_id z : 0 <= z < two64 -> u64 z = z.
Proof. intros. by apply Z.mod_small. Qed.

Lemma u64_range z : 0 <= u64 z < two64.
Proof. apply Z.mod_pos_bound. reflexivity. Qed.

Lemma u64_succ_ne z : u64 (u64 z + 1) <> u64 z.
Proof.
  pose proof (u64_range z) as H. intros E.
  destruct (decide (u64 z + 1 = two64)) as [H1|H1].
  - rewrite H1 in E. unfold u64 in E at 1. rewrite Z.mod_same in E by done.
    rewrite <- E in H1. done.
  - rewrite (u64_id (u64 z + 1)) in E by lia. lia.
Qed.

(** Two counters congruent modulo [2^64] and less than [2^64] apart are equal. *)
Lemma u64_inj_close a b : u64 a = u64 b -> b <= a < b + two64 -> a = b.
Proof.
  unfold u64, two64. intros E H.
  pose proof (Z.div_mod a 18446744073709551616 ltac:(lia)).
  pose proof (Z.div_mod b 18446744073709551616 ltac:(lia)). lia.
Qed.

Lemma slen_nonneg s : 0 <= slen s.
Proof. unfold slen. lia. Qed.

Lemma blen_nonneg b : 0 <= blen b.
Proof. unfold blen. lia. Qed.

(** ** Filters *)

Lemma filter_all_false {A} (P : A -> Prop) `{forall x, Decision (P x)} (l : list A) :
  (forall x, x ∈ l -> ~ P x) -> filter P l = [].
Proof.
  intros HP. destruct (filter P l) as [|x l'] eqn:E; [done|].
  assert (x ∈ filter P l) as [Hx Hin]%list_elem_of_filter by (rewrite E; set_solver).
  by destruct (HP x).
Qed.

Lemma filter_all_true {A} (P : A -> Prop) `{forall x, Decision (P x)} (l : list A) :
  (forall x, x ∈ l -> P x) -> filter P l = l.
Proof.
  induction l as [|x l IH]; intros HP; [done|].
  rewrite filter_cons_True; [|apply HP; constructor]. f_equal. apply IH.
  intros y Hy. apply HP. by constructor.
Qed.

Lemma filter_ext_elem {A} (P Q : A -> Prop) `{forall x, Decision (P x)} `{forall x, Decision (Q x)} (l : list A) :
  (forall x, x ∈ l -> P x <-> Q x) -> filter P l = filter Q l.
Proof.
  induction l as [|x l IH]; intros HPQ; [done|].
  assert (filter P l = filter Q l) as E by (apply IH; intros y Hy; apply HPQ; by constructor).
  destruct (decide (P x)) as [HP|HP].
  - rewrite !filter_cons_True; [by rewrite E| |done]. apply HPQ; [constructor|done].
  - rewrite !filter_cons_False; [done| |done]. intros HQ. apply HP. apply HPQ; [constructor|done].
Qed.

(** Splitting a list by a test. *)
Lemma filter_partition {A} (P : A -> Prop) `{forall x, Decision (P x)} (l : list A) :
  l ≡ₚ filter P l ++ filter (fun x => ~ P x) l.
Proof.
  induction l as [|x l IH]; [done|]. destruct (decide (P x)).
  - rewrite filter_cons_True, filter_cons_False by naive_solver. simpl. by f_equiv.
  - rewrite filter_cons_False, filter_cons_True by naive_solver. rewrite <- Permutation_middle. by f_equiv.
Qed.

(** ** Linked-list lemmas *)

Lemma elem_of_unlink x e l : x ∈ unlink e l <-> x ∈ l /\ x <> e.
Proof. unfold unlink. rewrite list_elem_of_filter. naive_solver. Qed.


Lemma unlink_not_elem e l : e ∉ l -> unlink e l = l.
Proof. intros H. apply filter_all_true. naive_solver. Qed.

Lemma unlink_app e A B : unlink e (A ++ B) = unlink e A ++ unlink e B.
Proof. apply filter_app. Qed.

Lemma unlink_middle e A B :
  e ∉ A -> e ∉ B -> unlink e (A ++ e :: B) = A ++ B.
Proof.
  intros HA HB. rewrite unlink_app, (unlink_not_elem _ A) by done. f_equal.
  unfold unlink. rewrite filter_cons_False by naive_solver.
  by apply unlink_not_elem.
Qed.

Lemma NoDup_unlink e l : NoDup l -> NoDup (unlink e l).
Proof. apply NoDup_filter. Qed.

Lemma prev_from_app p e A B :
  e ∉ A -> prev_from p e (A ++ e :: B) = from_option Some p (last A).
Proof.
  revert p. induction A as [|x A IH]; intros p HA; simpl.
  - by rewrite decide_True.
  - rewrite decide_False by set_solver. rewrite IH by set_solver.
    destruct A; [done|]. rewrite last_cons_cons. simpl.
    by destruct (last (p0 :: A)) eqn:E; [|apply last_None in E].
Qed.

Lemma prev_of_app e A B : e ∉ A -> prev_of e (A ++ e :: B) = last A.
Proof. intros. unfold prev_of. rewrite prev_from_app by done. by destruct (last A). Qed.

Lemma prev_of_elem e l p : NoDup l -> e ∈ l -> prev_of e l = Some p -> p ∈ l /\ p <> e.
Proof.
  intros Hnd He H. apply list_elem_of_split_l in He as (A & B & -> & HA).
  rewrite prev_of_app in H by done.
  apply last_Some_elem_of in H. set_solver.
Qed.

(** ** Sums *)

Lemma Zsum_app {A} (f : A -> Z) l1 l2 : Zsum f (l1 ++ l2) = Zsum f l1 + Zsum f l2.
Proof. induction l1; simpl; lia. Qed.

Lemma Zsum_nonneg {A} (f : A -> Z) l : (forall x, 0 <= f x) -> 0 <= Zsum f l.
Proof. intros H. induction l as [|x l IH]; simpl; [lia|]. specialize (H x). lia. Qed.

Lemma Zsum_sublist {A} (f : A -> Z) l1 l2 :
  (forall x, 0 <= f x) -> l1 `sublist_of` l2 -> Zsum f l1 <= Zsum f l2.
Proof. intros H. induction 1 as [|x|x]; simpl; try specialize (H x); lia. Qed.

Lemma Zsum_insert {A} (f : A -> Z) (l : list A) i x y :
  l !! i = Some x -> Zsum f (<[i := y]> l) = Zsum f l - f x + f y.
Proof.
  revert i. induction l as [|z l IH]; intros [|i]; simpl; try done.
  - intros [= ->]. lia.
  - intros H. rewrite (IH _ H). lia.
Qed.

Lemma Zsum_lookup_le {A} (f : A -> Z) (l : list A) i x :
  (forall x, 0 <= f x) -> l !! i = Some x -> f x <= Zsum f l.
Proof.
  intros Hf. revert i. induction l as [|z l IH]; intros [|i]; simpl; try done.
  - intros [= ->]. pose proof (Zsum_nonneg f l Hf). lia.
  - intros H. specialize (IH _ H). specialize (Hf z). lia.
Qed.

Lemma Zsum_zero {A} (f : A -> Z) (l : list A) : (forall x, x ∈ l -> f x = 0) -> Zsum f l = 0.
Proof.
  induction l as [|z l IH]; simpl; intros H; [done|].
  rewrite (H z), IH; [done| |]; set_solver.
Qed.

(** A pool of workers that can each be driven to a final point, the others
    staying where they are, can be driven there as a whole. *)
Lemma drive_all {St A} (step : St -> St -> Prop) (pool : St -> list A) (gone : A) (I : St -> Prop) :
  (forall s w x, I s -> pool s !! w = Some x -> exists s', rtc step s s' /\ pool s' = <[w := gone]> (pool s) /\ I s') ->
  forall s, I s -> exists s', rtc step s s' /\ Forall (eq gone) (pool s') /\ I s'.
Proof.
  intros Hone s HI.
  assert (forall k, (k <= length (pool s))%nat -> exists s', rtc step s s' /\ length (pool s') = length (pool s) /\ I s' /\
    forall w, (w < k)%nat -> pool s' !! w = Some gone) as H.
  { induction k as [|k IH]; intros Hk; [exists s; split_and!; try done; lia|].
    destruct (IH ltac:(lia)) as (s1 & H1 & H2 & H3 & H4). destruct (lookup_lt_is_Some_2 (pool s1) k) as [x Hx]; [lia|].
    destruct (Hone s1 k x H3 Hx) as (s2 & H5 & H6 & H7). exists s2. split; [by etrans|]. rewrite H6, length_insert.
    split_and!; try done. intros w Hw. destruct (decide (w = k)) as [->|Hne]; [apply list_lookup_insert_eq; lia|].
    rewrite list_lookup_insert_ne by done. apply H4. lia. }
  destruct (H (length (pool s))) as (s' & H1 & H2 & H3 & H4); [done|]. exists s'. split_and!; try done.
  apply Forall_lookup. intros w x Hx. pose proof (lookup_lt_Some _ _ _ Hx) as Hlt. specialize (H4 w ltac:(lia)). congruence.
Qed.

#[export] Hint Resolve slen_nonneg blen_nonneg NoDup_unlink : simplecache.
