(* ===== verification/GoStrings.v ===== *)
(** * The Go standard library's string functions that the engine calls

    [strconv] (decimal integers), [strings], [net/url] (escaping), [net]
    (host:port) and [unicode/utf8], on byte strings. Errors whose text the
    engine never shows are [None]. *)
From S2P Require Import Prelude.

(** ** Bytes *)
Definition byteval (c : ascii) : Z := Z.of_N (N_of_ascii c).
Definition byte_of (z : Z) : ascii := ascii_of_N (Z.to_N z).
Definition is_digit (c : ascii) : bool := (48 <=? byteval c) && (byteval c <=? 57).

(** ** [strconv.FormatInt]/[FormatUint]/[Itoa] and [ParseInt]/[Atoi], base 10 *)
Fixpoint digits_go (fuel : nat) (n : Z) (acc : string) : string :=
  match fuel with
  | O => acc
  | S fuel' =>
      let acc' := String (byte_of (48 + n mod 10)) acc in
      if n <? 10 then acc' else digits_go fuel' (n / 10) acc'
  end.

(** A 64-bit integer has at most 20 decimal digits. *)
Definition FormatUint (n : Z) : string := digits_go 20 n "".
Definition FormatInt (n : Z) : string :=
  if n <? 0 then String "-" (FormatUint (- n)) else FormatUint n.

Fixpoint parse_digits (s : string) (acc : Z) : option Z :=
  match s with
  | EmptyString => Some acc
  | String c s' => if is_digit c then parse_digits s' (10 * acc + (byteval c - 48)) else None
  end.

Definition ParseUint (s : string) : option Z :=
  match s with
  | EmptyString => None
  | _ => n ← parse_digits s 0; if n <? two64 then Some n else None
  end.

Definition ParseInt (s : string) : option Z :=
  match s with
  | String "-" r => n ← ParseUint r; if n <=? two63 then Some (- n) else None
  | String "+" r => n ← ParseUint r; if n <? two63 then Some n else None
  | r => n ← ParseUint r; if n <? two63 then Some n else None
  end.

(** ** [strings] *)
Definition HasPrefix (s p : string) : bool := String.prefix p s.
Definition TrimPrefix (s p : string) : string :=
  if String.prefix p s
  then String.substring (String.length p) (String.length s - String.length p) s else s.

Fixpoint string_rev_app (s acc : string) : string :=
  match s with EmptyString => acc | String c s' => string_rev_app s' (String c acc) end.
Definition string_rev (s : string) : string := string_rev_app s "".
Definition HasSuffix (s p : string) : bool := String.prefix (string_rev p) (string_rev s).

Fixpoint contains_byte (c : ascii) (s : string) : bool :=
  match s with
  | EmptyString => false
  | String d s' => if ascii_dec c d then true else contains_byte c s'
  end.

(** [strings.Cut] on a one-byte separator: the parts around its first
    occurrence, [None] when it does not occur. *)
Fixpoint cut (c : ascii) (s : string) : option (string * string) :=
  match s with
  | EmptyString => None
  | String d s' =>
      if ascii_dec c d then Some ("", s')
      else '(a, b) ← cut c s'; Some (String d a, b)
  end.

(** [strings.Split] on a one-byte separator. *)
Fixpoint split_byte (c : ascii) (s : string) : list string :=
  match s with
  | EmptyString => [""]
  | String d s' =>
      if ascii_dec c d then "" :: split_byte c s'
      else match split_byte c s' with
           | [] => [String d ""]
           | x :: xs => String d x :: xs
           end
  end.

(** The white space of [unicode.IsSpace], as UTF-8 byte sequences. *)
Definition str_of (l : list Z) : string :=
  fold_right (fun z s => String (byte_of z) s) EmptyString l.
Definition white_space : list string :=
  str_of <$> ([[9]; [10]; [11]; [12]; [13]; [32]; [194; 133]; [194; 160]; [225; 154; 128];
   [226; 128; 128]; [226; 128; 129]; [226; 128; 130]; [226; 128; 131]; [226; 128; 132];
   [226; 128; 133]; [226; 128; 134]; [226; 128; 135]; [226; 128; 136]; [226; 128; 137];
   [226; 128; 138]; [226; 128; 168]; [226; 128; 169]; [226; 128; 175]; [226; 129; 159];
   [227; 128; 128]] : list (list Z)).

Fixpoint trim_left_go (fuel : nat) (ws : list string) (s : string) : string :=
  match fuel with
  | O => s
  | S fuel' =>
      match list_find (fun w => String.prefix w s = true) ws with
      | Some (_, w) => trim_left_go fuel' ws (TrimPrefix s w)
      | None => s
      end
  end.

Definition TrimSpace (s : string) : string :=
  let l := trim_left_go (String.length s) white_space s in
  string_rev (trim_left_go (String.length l) (string_rev <$> white_space) (string_rev l)).

(** ** [net/url] escaping *)
Definition is_alnum (c : ascii) : bool :=
  let b := byteval c in
  is_digit c || ((65 <=? b) && (b <=? 90)) || ((97 <=? b) && (b <=? 122)).
Definition unreserved (c : ascii) : bool :=
  is_alnum c || existsb (fun d => Ascii.eqb c d) ["-"; "_"; "."; "~"]%char.

(** [shouldEscape] in the two modes used. *)
Definition escape_query (c : ascii) : bool := negb (unreserved c).
Definition escape_segment (c : ascii) : bool :=
  negb (unreserved c || existsb (fun d => Ascii.eqb c d) ["$"; "&"; "+"; ":"; "="; "@"]%char).

Definition upper_hex (z : Z) : ascii := byte_of (if z <? 10 then 48 + z else 55 + z).
Definition percent (c : ascii) (s : string) : string :=
  String "%" (String (upper_hex (byteval c / 16)) (String (upper_hex (byteval c mod 16)) s)).

Fixpoint QueryEscape (s : string) : string :=
  match s with
  | EmptyString => EmptyString
  | String c s' =>
      if escape_query c then
        if Ascii.eqb c " " then String "+" (QueryEscape s') else percent c (QueryEscape s')
      else String c (QueryEscape s')
  end.

Fixpoint PathEscape (s : string) : string :=
  match s with
  | EmptyString => EmptyString
  | String c s' => if escape_segment c then percent c (PathEscape s') else String c (PathEscape s')
  end.

Definition unhex (c : ascii) : option Z :=
  let b := byteval c in
  if (48 <=? b) && (b <=? 57) then Some (b - 48)
  else if (97 <=? b) && (b <=? 102) then Some (b - 87)
  else if (65 <=? b) && (b <=? 70) then Some (b - 55)
  else None.

(** [url.unescape]; [plus] says whether ['+'] stands for a space. *)
Fixpoint unescape (plus : bool) (s : string) : option string :=
  match s with
  | EmptyString => Some EmptyString
  | String c s1 =>
      if Ascii.eqb c "%" then
        match s1 with
        | String h (String l s2) =>
            hi ← unhex h; lo ← unhex l; r ← unescape plus s2;
            Some (String (byte_of (16 * hi + lo)) r)
        | _ => None
        end
      else r ← unescape plus s1;
           Some (String (if plus && Ascii.eqb c "+" then " "%char else c) r)
  end.
Definition QueryUnescape : string -> option string := unescape true.
Definition PathUnescape : string -> option string := unescape false.

(** [strings.ReplaceAll(s, "+", "%20")]. *)
Fixpoint plus_to_percent20 (s : string) : string :=
  match s with
  | EmptyString => EmptyString
  | String c s' =>
      if Ascii.eqb c "+" then percent " " (plus_to_percent20 s')
      else String c (plus_to_percent20 s')
  end.

(** [url.ParseQuery]: the values by key and whether an error was met; a
    segment with an error is skipped. *)
Fixpoint parse_segments (segs : list string) (m : gmap string (list string)) (ok : bool)
    : gmap string (list string) * bool :=
  match segs with
  | [] => (m, ok)
  | seg :: rest =>
      if contains_byte ";" seg then parse_segments rest m false
      else if String.eqb seg "" then parse_segments rest m ok
      else
        let '(k, v) := match cut "=" seg with Some kv => kv | None => (seg, "") end in
        match QueryUnescape k, QueryUnescape v with
        | Some k', Some v' => parse_segments rest (<[k' := default [] (m !! k') ++ [v']]> m) ok
        | _, _ => parse_segments rest m false
        end
  end.
Definition ParseQuery (q : string) : gmap string (list string) * bool :=
  if String.eqb q "" then (∅, true) else parse_segments (split_byte "&" q) ∅ true.

(** ** [utf8.ValidString] *)
Definition in_range (lo hi : Z) (c : ascii) : bool := (lo <=? byteval c) && (byteval c <=? hi).
Definition cont (c : ascii) : bool := in_range 128 191 c.

Fixpoint ValidString (s : string) : bool :=
  match s with
  | EmptyString => true
  | String c s1 =>
      if in_range 0 127 c then ValidString s1
      else match s1 with
      | EmptyString => false
      | String d s2 =>
          if in_range 194 223 c then cont d && ValidString s2
          else match s2 with
          | EmptyString => false
          | String e s3 =>
              if in_range 224 239 c then
                in_range (if byteval c =? 224 then 160 else 128) (if byteval c =? 237 then 159 else 191) d
                && cont e && ValidString s3
              else match s3 with
              | EmptyString => false
              | String f s4 =>
                  in_range 240 244 c &&
                  in_range (if byteval c =? 240 then 144 else 128) (if byteval c =? 244 then 143 else 191) d
                  && cont e && cont f && ValidString s4
              end
          end
      end
  end.

(** ** [net.SplitHostPort] *)
Fixpoint IndexByte (s : string) (c : ascii) : option nat :=
  match s with
  | EmptyString => None
  | String d s' => if ascii_dec c d then Some 0%nat else S <$> IndexByte s' c
  end.
Fixpoint LastIndexByte (s : string) (c : ascii) : option nat :=
  match s with
  | EmptyString => None
  | String d s' =>
      match LastIndexByte s' c with
      | Some i => Some (S i)
      | None => if ascii_dec c d then Some 0%nat else None
      end
  end.
Definition slice (i j : nat) (s : string) : string := String.substring i (j - i) s.
Definition slice_from (i : nat) (s : string) : string := slice i (String.length s) s.

Definition SplitHostPort (hostport : string) : option (string * string) :=
  i ← LastIndexByte hostport ":";
  '(host, j, k) ←
    (if String.prefix "[" hostport then
       e ← IndexByte hostport "]";
       if (S e =? String.length hostport)%nat then None
       else if (S e =? i)%nat then Some (slice 1 e hostport, 1%nat, S e)
       else None
     else
       let host := slice 0 i hostport in
       if contains_byte ":" host then None else Some (host, 0%nat, 0%nat));
  if contains_byte "[" (slice_from j hostport) then None
  else if contains_byte "]" (slice_from k hostport) then None
  else Some (host, slice_from (S i) hostport).

(** [net.JoinHostPort]. *)
Definition JoinHostPort (host port : string) : string :=
  if contains_byte ":" host then "[" +:+ host +:+ "]:" +:+ port else host +:+ ":" +:+ port.

(** Every byte satisfies a test. *)
Fixpoint all_bytes (p : ascii -> bool) (s : string) : bool :=
  match s with EmptyString => true | String c s' => p c && all_bytes p s' end.

(** ** Lemmas *)

(** Decide a statement about one byte by trying all 256. *)
Ltac each_byte c := destruct c as [[] [] [] [] [] [] [] []]; vm_compute; try done.

Lemma byteval_range c : 0 <= byteval c < 256.
Proof. each_byte c. Qed.

Lemma byteval_byte_of z : 0 <= z < 256 -> byteval (byte_of z) = z.
Proof. intros H. unfold byteval, byte_of. rewrite N_ascii_embedding; lia. Qed.

Lemma byte_of_byteval c : byte_of (byteval c) = c.
Proof. unfold byteval, byte_of. rewrite N2Z.id. apply ascii_N_embedding. Qed.

Lemma is_digit_byte n : is_digit (byte_of (48 + n mod 10)) = true.
Proof.
  pose proof (Z.mod_pos_bound n 10). unfold is_digit. rewrite byteval_byte_of by lia.
  apply andb_true_intro. split; apply Z.leb_le; lia.
Qed.

Lemma parse_digits_go fuel n acc :
  0 <= n < 10 ^ Z.of_nat fuel -> (0 < fuel)%nat ->
  parse_digits (digits_go fuel n acc) 0 = parse_digits acc n.
Proof.
  revert n acc. induction fuel as [|fuel IH]; intros n acc Hn Hf; [lia|]. simpl.
  pose proof (Z.mod_pos_bound n 10). pose proof (Z.div_mod n 10).
  assert (forall a, parse_digits (String (byte_of (48 + n mod 10)) acc) a
                    = parse_digits acc (10 * a + n mod 10)) as Hd.
  { intros a. simpl. rewrite is_digit_byte, byteval_byte_of by lia. f_equal. lia. }
  destruct (n <? 10) eqn:E; reflect_bool.
  - rewrite Hd. f_equal. rewrite Z.mod_small; lia.
  - destruct fuel as [|fuel]; [change (10 ^ Z.of_nat 1) with 10 in Hn; lia|].
    rewrite IH, Hd; [f_equal; lia| |lia].
    rewrite Nat2Z.inj_succ, Z.pow_succ_r in Hn by lia.
    split; [apply Z.div_pos; lia|]. apply Z.div_lt_upper_bound; lia.
Qed.

Lemma all_digits_go fuel n acc :
  all_bytes is_digit acc = true -> all_bytes is_digit (digits_go fuel n acc) = true.
Proof.
  revert n acc. induction fuel as [|fuel IH]; intros n acc H; [done|]. simpl.
  case_match; [|apply IH]; simpl; by rewrite is_digit_byte, H.
Qed.

Lemma FormatUint_digits n : all_bytes is_digit (FormatUint n) = true.
Proof. by apply all_digits_go. Qed.

Lemma digits_go_nonempty fuel n acc :
  (0 < fuel)%nat \/ acc <> "" -> exists d r, digits_go fuel n acc = String d r.
Proof.
  revert n acc. induction fuel as [|fuel IH]; intros n acc H; simpl.
  - destruct acc; [|eauto]. destruct H; [lia|done].
  - case_match; [eauto|]. apply IH. by right.
Qed.

Lemma FormatUint_cons n : exists c r, FormatUint n = String c r /\ is_digit c = true.
Proof.
  pose proof (FormatUint_digits n) as Hall.
  assert (exists c r, FormatUint n = String c r) as (c & r & E).
  { apply digits_go_nonempty. left. lia. }
  exists c, r. rewrite E in Hall. simpl in Hall. by apply andb_true_iff in Hall as [? _].
Qed.

Lemma ParseUint_FormatUint n : 0 <= n < two64 -> ParseUint (FormatUint n) = Some n.
Proof.
  intros H. unfold ParseUint.
  destruct (FormatUint_cons n) as (c & r & E & _). rewrite E, <- E.
  unfold FormatUint. rewrite parse_digits_go; [|unfold two64 in H; simpl; lia|lia].
  simpl. by rewrite (proj2 (Z.ltb_lt _ _)) by lia.
Qed.

Lemma ParseInt_digit c r :
  is_digit c = true ->
  ParseInt (String c r) = (n ← ParseUint (String c r); if n <? two63 then Some n else None).
Proof. intros H. destruct c as [[] [] [] [] [] [] [] []]; vm_compute in H; try discriminate H; reflexivity. Qed.

Lemma ParseInt_FormatInt n : - two63 <= n < two63 -> ParseInt (FormatInt n) = Some n.
Proof.
  intros H. unfold FormatInt, two63 in *. destruct (n <? 0) eqn:E; reflect_bool.
  - cbn [ParseInt]. rewrite ParseUint_FormatUint by (unfold two64; lia). simpl.
    rewrite (proj2 (Z.leb_le _ _)) by (unfold two63; lia). f_equal. lia.
  - destruct (FormatUint_cons n) as (c & r & Ec & Hc). rewrite Ec, ParseInt_digit, <- Ec by done.
    rewrite ParseUint_FormatUint by (unfold two64; lia). simpl.
    by rewrite (proj2 (Z.ltb_lt _ _)) by (unfold two63; lia).
Qed.

Lemma FormatUint_inj n m :
  0 <= n < two64 -> 0 <= m < two64 -> FormatUint n = FormatUint m -> n = m.
Proof.
  intros Hn Hm E. apply (f_equal ParseUint) in E.
  rewrite !ParseUint_FormatUint in E by done. congruence.
Qed.

Lemma FormatInt_inj n m :
  - two63 <= n < two63 -> - two63 <= m < two63 -> FormatInt n = FormatInt m -> n = m.
Proof.
  intros Hn Hm E. apply (f_equal ParseInt) in E.
  rewrite !ParseInt_FormatInt in E by done. congruence.
Qed.

Lemma ParseInt_range s n : ParseInt s = Some n -> - two63 <= n < two63.
Proof.
  assert (forall r m, ParseUint r = Some m -> 0 <= m) as Hpos.
  { assert (forall r a m, 0 <= a -> parse_digits r a = Some m -> 0 <= m) as Hd.
    { induction r as [|c r IH]; simpl; intros a m Ha; [congruence|].
      destruct (is_digit c) eqn:Ec; [|done]. unfold is_digit in Ec. reflect_bool. apply IH. lia. }
    intros [|c r] m; [done|]. unfold ParseUint. intros H.
    apply bind_Some in H as (k & Hk & H). case_match; simplify_eq. by eapply Hd in Hk. }
  assert (forall r m, (k ← ParseUint r; if k <? two63 then Some k else None) = Some m -> 0 <= m < two63) as Hnn.
  { intros r m (k & Hk & H)%bind_Some. apply Hpos in Hk. case_match; simplify_eq. reflect_bool. lia. }
  assert (forall r m, (k ← ParseUint r; if k <=? two63 then Some (- k) else None) = Some m -> - two63 <= m <= 0) as Hng.
  { intros r m (k & Hk & H)%bind_Some. apply Hpos in Hk. case_match; simplify_eq. reflect_bool. lia. }
  assert (0 < two63) as H0 by done.
  intros H. destruct s as [|c r]; [done|].
  assert (exists r', (k ← ParseUint r'; if k <? two63 then Some k else None) = Some n \/
                     (k ← ParseUint r'; if k <=? two63 then Some (- k) else None) = Some n) as (r' & [E|E]).
  { destruct c as [[] [] [] [] [] [] [] []]; cbn [ParseInt] in H; eauto. }
  - apply Hnn in E. lia.
  - apply Hng in E. lia.
Qed.

(** ** Escaping *)

Lemma unescape_percent plus c s :
  unescape plus (percent c s) = (r ← unescape plus s; Some (String c r)).
Proof.
  unfold percent. cbn [unescape]. change (Ascii.eqb "%" "%") with true. cbn iota.
  assert (unhex (upper_hex (byteval c / 16)) = Some (byteval c / 16)) as -> by (each_byte c).
  assert (unhex (upper_hex (byteval c mod 16)) = Some (byteval c mod 16)) as -> by (each_byte c).
  simpl. destruct (unescape plus s); [|done]. simpl. do 2 f_equal.
  rewrite <- Z.div_mod by lia. apply byte_of_byteval.
Qed.

Lemma unescape_plain plus c s :
  Ascii.eqb c "%" = false -> (plus = true -> Ascii.eqb c "+" = false) ->
  unescape plus (String c s) = (r ← unescape plus s; Some (String c r)).
Proof.
  intros H1 H2. cbn [unescape]. rewrite H1. destruct plus; simpl; [by rewrite H2|done].
Qed.

Lemma PathUnescape_PathEscape s : PathUnescape (PathEscape s) = Some s.
Proof.
  unfold PathUnescape. induction s as [|c s IH]; [done|]. cbn [PathEscape].
  destruct (escape_segment c) eqn:E.
  - rewrite unescape_percent, IH. done.
  - rewrite unescape_plain, IH; [done| |done]. revert E. each_byte c.
Qed.

(** The canonical wire form of a query value. *)
Definition wire (key : string) : string := plus_to_percent20 (QueryEscape key).

Lemma plus_percent c s :
  plus_to_percent20 (percent c s) = percent c (plus_to_percent20 s).
Proof.
  unfold percent. cbn [plus_to_percent20].
  assert (Ascii.eqb (upper_hex (byteval c / 16)) "+" = false) as -> by (each_byte c).
  assert (Ascii.eqb (upper_hex (byteval c mod 16)) "+" = false) as -> by (each_byte c).
  done.
Qed.

Lemma wire_cons c s :
  wire (String c s) = if escape_query c then percent c (wire s) else String c (wire s).
Proof.
  unfold wire. cbn [QueryEscape]. destruct (escape_query c) eqn:E.
  - destruct (Ascii.eqb c " ") eqn:Es; [|apply plus_percent].
    apply Ascii.eqb_eq in Es as ->. done.
  - cbn [plus_to_percent20]. assert (Ascii.eqb c "+" = false) as ->; [|done]. revert E. each_byte c.
Qed.

Lemma QueryUnescape_wire s : QueryUnescape (wire s) = Some s.
Proof.
  unfold QueryUnescape. induction s as [|c s IH]; [done|]. rewrite wire_cons.
  destruct (escape_query c) eqn:E.
  - by rewrite unescape_percent, IH.
  - rewrite unescape_plain, IH; [done|revert E; each_byte c|revert E; each_byte c].
Qed.

Definition wire_byte (c : ascii) : bool := unreserved c || Ascii.eqb c "%".

Lemma wire_bytes s : all_bytes wire_byte (wire s) = true.
Proof.
  induction s as [|c s IH]; [done|]. rewrite wire_cons. destruct (escape_query c) eqn:E.
  - unfold percent. cbn [all_bytes]. rewrite IH.
    assert (wire_byte (upper_hex (byteval c / 16)) = true) as -> by (each_byte c).
    assert (wire_byte (upper_hex (byteval c mod 16)) = true) as -> by (each_byte c). done.
  - cbn [all_bytes]. rewrite IH. assert (wire_byte c = true) as ->; [|done]. revert E. each_byte c.
Qed.

Lemma contains_byte_false p c s : all_bytes p s = true -> p c = false -> contains_byte c s = false.
Proof.
  intros H Hc. induction s as [|d s IH]; [done|]. simpl in *. apply andb_true_iff in H as [Hd H].
  destruct (ascii_dec c d) as [->|]; [congruence|auto].
Qed.

Lemma split_byte_none c s : contains_byte c s = false -> split_byte c s = [s].
Proof.
  induction s as [|d s IH]; [done|]. simpl. destruct (ascii_dec c d); [done|].
  intros H. by rewrite IH.
Qed.

Lemma ParseQuery_wire key :
  ParseQuery ("key=" +:+ wire key) = ({["key" := [key]]}, true).
Proof.
  pose proof (wire_bytes key) as Hb. unfold ParseQuery.
  assert (contains_byte "&" ("key=" +:+ wire key) = false) as Hamp
    by (change (contains_byte "&" (wire key) = false); by apply (contains_byte_false wire_byte)).
  assert (contains_byte ";" ("key=" +:+ wire key) = false) as Hsemi
    by (change (contains_byte ";" (wire key) = false); by apply (contains_byte_false wire_byte)).
  change (String.eqb ("key=" +:+ wire key) "") with false. cbv iota.
  rewrite (split_byte_none _ _ Hamp). cbn [parse_segments]. rewrite Hsemi.
  change (String.eqb ("key=" +:+ wire key) "") with false. cbv iota.
  change (cut "=" ("key=" +:+ wire key)) with (Some ("key", wire key)). cbv iota.
  change (QueryUnescape "key") with (Some "key"). rewrite QueryUnescape_wire.
  cbv iota. rewrite lookup_empty. simpl. by rewrite insert_empty.
Qed.

(** Cutting a string at the first occurrence of a byte. *)
Lemma cut_app c a b : contains_byte c a = false -> cut c (a +:+ String c b) = Some (a, b).
Proof.
  induction a as [|d a IH]; intros H.
  - change (cut c (String c b) = Some ("", b)). cbn [cut]. by destruct (ascii_dec c c).
  - change (cut c (String d (a +:+ String c b)) = Some (String d a, b)).
    cbn [cut contains_byte] in *. destruct (ascii_dec c d); [done|]. by rewrite IH.
Qed.

(** ** Prefixes and slices of a concatenation *)
Lemma substring_all s : String.substring 0 (String.length s) s = s.
Proof. induction s as [|c s IH]; [done|]. simpl. by rewrite IH. Qed.

Lemma prefix_app p s : String.prefix p (p +:+ s) = true.
Proof.
  induction p as [|c p IH]; [by destruct s|]. change (String c p +:+ s) with (String c (p +:+ s)).
  simpl. by destruct (ascii_dec c c).
Qed.

Lemma length_app_string a b : String.length (a +:+ b) = (String.length a + String.length b)%nat.
Proof.
  induction a as [|c a IH]; [done|]. change (String c a +:+ b) with (String c (a +:+ b)). simpl. by rewrite IH.
Qed.

Lemma substring_app a b : String.substring (String.length a) (String.length b) (a +:+ b) = b.
Proof.
  induction a as [|c a IH]; [apply substring_all|].
  change (String c a +:+ b) with (String c (a +:+ b)). simpl. apply IH.
Qed.

Lemma TrimPrefix_app p s : TrimPrefix (p +:+ s) p = s.
Proof.
  unfold TrimPrefix. rewrite prefix_app, length_app_string.
  replace (String.length p + String.length s - String.length p)%nat with (String.length s) by lia.
  apply substring_app.
Qed.

Lemma substring_prefix a b : String.substring 0 (String.length a) (a +:+ b) = a.
Proof.
  induction a as [|c a IH]; [by destruct b|].
  change (String c a +:+ b) with (String c (a +:+ b)). simpl. by rewrite IH.
Qed.

Lemma slice_prefix a b : slice 0 (String.length a) (a +:+ b) = a.
Proof. unfold slice. rewrite Nat.sub_0_r. apply substring_prefix. Qed.

Lemma slice_from_app a b : slice_from (String.length a) (a +:+ b) = b.
Proof.
  unfold slice_from, slice. rewrite length_app_string.
  replace (String.length a + String.length b - String.length a)%nat with (String.length b) by lia.
  apply substring_app.
Qed.

Lemma slice_from_app_S a c b : slice_from (S (String.length a)) (a +:+ String c b) = b.
Proof.
  replace (a +:+ String c b) with ((a +:+ String c "") +:+ b)
    by (induction a as [|d a IH]; [done|]; change (String d ((a +:+ String c "") +:+ b) = String d (a +:+ String c b)); by rewrite IH).
  replace (S (String.length a)) with (String.length (a +:+ String c "")) by (rewrite length_app_string; simpl; lia).
  apply slice_from_app.
Qed.

Lemma contains_byte_app c a b : contains_byte c (a +:+ b) = contains_byte c a || contains_byte c b.
Proof.
  induction a as [|d a IH]; [done|]. change (contains_byte c (String d (a +:+ b)) = contains_byte c (String d a) || contains_byte c b).
  simpl. by destruct (ascii_dec c d).
Qed.

Lemma all_bytes_app p a b : all_bytes p (a +:+ b) = all_bytes p a && all_bytes p b.
Proof.
  induction a as [|d a IH]; [done|]. change (all_bytes p (String d (a +:+ b)) = all_bytes p (String d a) && all_bytes p b).
  simpl. rewrite IH. apply andb_assoc.
Qed.

Lemma app_String c a b : String c a +:+ b = String c (a +:+ b).
Proof. done. Qed.

(** A string with a byte splits around its last occurrence. *)
Lemma LastIndexByte_app c a b : contains_byte c b = false -> LastIndexByte (a +:+ String c b) c = Some (String.length a).
Proof.
  intros Hb. assert (LastIndexByte b c = None) as Hn.
  { induction b as [|d b IH]; [done|]. simpl in *. destruct (ascii_dec c d); [done|]. by rewrite IH. }
  induction a as [|d a IH].
  - change (LastIndexByte (String c b) c = Some 0%nat). simpl. rewrite Hn. by destruct (ascii_dec c c).
  - rewrite app_String. cbn [LastIndexByte]. by rewrite IH.
Qed.

Lemma LastIndexByte_split c s i :
  LastIndexByte s c = Some i -> exists a b, s = a +:+ String c b /\ i = String.length a /\ contains_byte c b = false.
Proof.
  revert i. induction s as [|d s IH]; [done|]. intros i. simpl. destruct (LastIndexByte s c) as [j|] eqn:E.
  - intros [= <-]. destruct (IH j eq_refl) as (a & b & -> & -> & Hb). by exists (String d a), b.
  - destruct (ascii_dec c d) as [->|]; [|done]. intros [= <-]. exists "", s. split; [done|]. split; [done|].
    clear IH. induction s as [|e s IH]; [done|]. simpl in *.
    destruct (LastIndexByte s d) eqn:El; [done|]. destruct (ascii_dec d e); [done|]. auto.
Qed.

Lemma LastIndexByte_none c s : LastIndexByte s c = None <-> contains_byte c s = false.
Proof.
  induction s as [|d s IH]; [done|]. simpl. destruct (LastIndexByte s c) eqn:E, (ascii_dec c d); try naive_solver.
Qed.

Lemma split_last_unique c a b a' b' :
  contains_byte c b = false -> contains_byte c b' = false ->
  a +:+ String c b = a' +:+ String c b' -> a = a' /\ b = b'.
Proof.
  intros H1 H2 E. pose proof (LastIndexByte_app c a b H1) as L1. rewrite E, LastIndexByte_app in L1 by done.
  simplify_eq. pose proof (slice_prefix a (String c b)) as S1. pose proof (slice_from_app_S a c b) as S2.
  rewrite E, <- L1 in S1, S2. rewrite slice_prefix in S1. rewrite slice_from_app_S in S2. done.
Qed.

Lemma cut_none c s : contains_byte c s = false -> cut c s = None.
Proof.
  induction s as [|d s IH]; [done|]. simpl. destruct (ascii_dec c d); [done|]. intros H. by rewrite IH.
Qed.

Lemma IndexByte_none c s : contains_byte c s = false -> IndexByte s c = None.
Proof.
  induction s as [|d s IH]; [done|]. simpl. destruct (ascii_dec c d); [done|]. intros H. by rewrite IH.
Qed.

Lemma prefix_absent c s : contains_byte c s = false -> String.prefix (String c "") s = false.
Proof. destruct s as [|d s]; [done|]. cbn [contains_byte String.prefix]. by destruct (ascii_dec c d). Qed.

Lemma contains_byte_cons_ne c d s : c <> d -> contains_byte c (String d s) = contains_byte c s.
Proof. intros H. cbn [contains_byte]. by destruct (ascii_dec c d). Qed.

(** ** [SplitHostPort] of a host and a port without brackets or colons *)
Definition plain_host (s : string) : bool :=
  negb (contains_byte ":" s) && negb (contains_byte "[" s) && negb (contains_byte "]" s).

Lemma SplitHostPort_plain h p :
  plain_host h = true -> plain_host p = true -> SplitHostPort (h +:+ String ":" p) = Some (h, p).
Proof.
  unfold plain_host. intros Hh Hp. rewrite !andb_true_iff, !negb_true_iff in Hh, Hp.
  destruct Hh as [[H1 H2] H3], Hp as [[P1 P2] P3].
  unfold SplitHostPort. rewrite (LastIndexByte_app ":" h p P1). cbn [mbind option_bind].
  assert (String.prefix "[" (h +:+ String ":" p) = false) as ->.
  { apply prefix_absent. rewrite contains_byte_app, H2. by rewrite (contains_byte_cons_ne "[" ":" p). }
  rewrite slice_prefix, H1. cbn [mbind option_bind].
  change (slice_from 0 (h +:+ String ":" p)) with (slice 0 (String.length (h +:+ String ":" p)) (h +:+ String ":" p)).
  unfold slice. rewrite Nat.sub_0_r, substring_all, !contains_byte_app, H2, H3.
  rewrite !contains_byte_cons_ne, P2, P3 by done. cbn [orb]. by rewrite slice_from_app_S.
Qed.

(** Without a bracket, [SplitHostPort] succeeds only on such a string. *)
Lemma SplitHostPort_inv s h p :
  SplitHostPort s = Some (h, p) -> contains_byte "[" s = false ->
  s = h +:+ String ":" p /\ plain_host h = true /\ plain_host p = true.
Proof.
  unfold SplitHostPort. intros (i & Hi & H)%bind_Some Hb.
  apply LastIndexByte_split in Hi as (a & q & -> & -> & Hq).
  rewrite (prefix_absent "[" _ Hb), slice_prefix in H. destruct (contains_byte ":" a) eqn:Ea; [done|]. cbn [mbind option_bind] in H.
  change (slice_from 0 (a +:+ String ":" q)) with (slice 0 (String.length (a +:+ String ":" q)) (a +:+ String ":" q)) in H.
  unfold slice in H at 1 2. rewrite Nat.sub_0_r, substring_all, Hb in H.
  destruct (contains_byte "]" (a +:+ String ":" q)) eqn:Ec; [done|]. rewrite slice_from_app_S in H.
  simplify_eq. split; [done|]. rewrite contains_byte_app in Hb, Ec. apply orb_false_iff in Hb as [B1 B2], Ec as [C1 C2].
  rewrite contains_byte_cons_ne in B2, C2 by done.
  unfold plain_host. by rewrite Ea, B1, B2, C1, C2, Hq.
Qed.
