(* ===== verification/NetAddr.v ===== *)
(** * Addresses and URLs of the Go standard library ([net/netip], [net], [net/url])

    What configuration and discovery call: [net.ParseIP] with the methods used
    on its result, and [url.Parse] on the fields that are read. An address is
    its 16 bytes. The text of the library's errors is never shown by the
    callers, so a failure is [None]. *)
From S2P Require Import Prelude GoStrings.

(** ** [netip.ParseAddr] *)

(** The octets of a dotted quad. [digLen = 0] is "at the start or right after
    a dot". *)
Fixpoint parseIPv4Fields (s : string) (val : Z) (digLen : nat) (fields : list Z) : option (list Z) :=
  match s with
  | EmptyString => if (length fields <? 3)%nat then None else Some (fields ++ [val])
  | String c s' =>
      if is_digit c then
        if (digLen =? 1)%nat && (val =? 0) then None
        else let val := 10 * val + (byteval c - 48) in
             if 255 <? val then None else parseIPv4Fields s' val (S digLen) fields
      else if Ascii.eqb c "." then
        if (digLen =? 0)%nat || String.eqb s' "" then None
        else if (length fields =? 3)%nat then None
        else parseIPv4Fields s' 0 0 (fields ++ [val])
      else None
  end.

(** One group of an IPv6 address: how many hexadecimal digits, their value and
    what follows; [None] for more than four. *)
Fixpoint hex_group (s : string) (off : nat) (acc : Z) : option (nat * Z * string) :=
  match s with
  | EmptyString => Some (off, acc, EmptyString)
  | String c s' =>
      match unhex c with
      | None => Some (off, acc, s)
      | Some d => if (3 <? off)%nat then None else hex_group s' (S off) (16 * acc + d)
      end
  end.

(** The loop over the groups: the rest of the string, the bytes so far and
    where the ellipsis stands. An address has at most eight groups. *)
Fixpoint parseIPv6Groups (fuel : nat) (s : string) (ip : list Z) (ellipsis : option nat)
    : option (string * list Z * option nat) :=
  match fuel with
  | O => Some (s, ip, ellipsis)
  | S fuel' =>
      '(off, acc, rest) ← hex_group s 0 0;
      if (off =? 0)%nat then None
      else
        let ip' := ip ++ [acc / 256; acc mod 256] in
        match rest with
        | EmptyString => Some (EmptyString, ip', ellipsis)
        | String c r =>
            if Ascii.eqb c "." then
              if bool_decide (ellipsis = None) && negb (length ip =? 12)%nat then None
              else if (16 <? length ip + 4)%nat then None
              else fields ← parseIPv4Fields s 0 0 []; Some (EmptyString, ip ++ fields, ellipsis)
            else if negb (Ascii.eqb c ":") then None
            else match r with
            | EmptyString => None
            | String d r' =>
                if Ascii.eqb d ":" then
                  match ellipsis with
                  | Some _ => None
                  | None =>
                      match r' with
                      | EmptyString => Some (EmptyString, ip', Some (length ip'))
                      | _ => parseIPv6Groups fuel' r' ip' (Some (length ip'))
                      end
                  end
                else parseIPv6Groups fuel' r ip' ellipsis
            end
        end
  end.

(** The address and its zone. *)
Definition parseIPv6 (input : string) : option (list Z * string) :=
  let '(s, zone) := match cut "%" input with Some (a, z) => (a, Some z) | None => (input, None) end in
  if bool_decide (zone = Some "") then None
  else
    let zone := default "" zone in
    let lead := HasPrefix s "::" in
    let s := TrimPrefix s "::" in
    if lead && String.eqb s "" then Some (replicate 16 0, zone)
    else
      '(rest, ip, ellipsis) ← parseIPv6Groups 8 s [] (if lead then Some 0%nat else None);
      if negb (String.eqb rest "") then None
      else if (length ip <? 16)%nat then
        e ← ellipsis; Some (take e ip ++ replicate (16 - length ip) 0 ++ drop e ip, zone)
      else match ellipsis with Some _ => None | None => Some (ip, zone) end.

(** An IPv4 address as 16 bytes. *)
Definition mapped (v4 : list Z) : list Z := replicate 10 0 ++ [255; 255] ++ v4.

(** The first of dot, colon and percent decides the form. *)
Fixpoint first_mark (s : string) : option ascii :=
  match s with
  | EmptyString => None
  | String c s' =>
      if Ascii.eqb c "." || Ascii.eqb c ":" || Ascii.eqb c "%" then Some c else first_mark s'
  end.

Definition ParseAddr (s : string) : option (list Z * string) :=
  c ← first_mark s;
  if Ascii.eqb c "." then v4 ← parseIPv4Fields s 0 0 []; Some (mapped v4, "")
  else if Ascii.eqb c ":" then parseIPv6 s
  else None.

(** ** [net.IP] *)
Definition ParseIP (s : string) : option (list Z) :=
  '(ip, zone) ← ParseAddr s; if String.eqb zone "" then Some ip else None.

Definition To4 (ip : list Z) : option (list Z) :=
  if bool_decide (take 12 ip = replicate 10 0 ++ [255; 255]) then Some (drop 12 ip) else None.

Definition IsLoopback (ip : list Z) : bool :=
  match To4 ip with
  | Some (b0 :: _) => b0 =? 127
  | Some [] => false
  | None => bool_decide (ip = replicate 15 0 ++ [1])
  end.

(** [ip.String()] of an address whose [To4] is [v4]. *)
Definition IPv4String (v4 : list Z) : string :=
  match v4 with
  | [a; b; c; d] => FormatInt a +:+ "." +:+ FormatInt b +:+ "." +:+ FormatInt c +:+ "." +:+ FormatInt d
  | _ => ""
  end.

Example ParseIP_samples :
  (ParseIP "127.0.0.1", ParseIP "::1", ParseIP "1.2.3", ParseIP "01.2.3.4", ParseIP "fe80::1%eth0",
   ParseIP "::ffff:10.0.0.7" ≫= To4, IsLoopback <$> ParseIP "127.9.9.9", IsLoopback <$> ParseIP "::2",
   ParseIP "1:2:3:4:5:6:7:8::", ParseIP "2001:db8::12345")
  = (Some (mapped [127; 0; 0; 1]), Some (replicate 15 0 ++ [1]), None, None, None,
     Some [10; 0; 0; 7], Some true, Some false, None, None).
Proof. vm_compute. reflexivity. Qed.

(** ** [url.Parse] *)
Definition is_letter (c : ascii) : bool := in_range 65 90 c || in_range 97 122 c.
Definition lower_byte (c : ascii) : ascii := if in_range 65 90 c then byte_of (byteval c + 32) else c.
Fixpoint lower_ascii (s : string) : string :=
  match s with EmptyString => EmptyString | String c s' => String (lower_byte c) (lower_ascii s') end.

(** The fields the callers read; [u_User] tells whether there is user
    information. *)
Record URL := mkURL {
  u_Scheme : string;
  u_User : bool;
  u_Host : string;
  u_Path : string;
  u_RawQuery : string;
  u_Fragment : string;
}.

(** [getScheme]: no scheme, a colon without one, or the scheme and the rest. *)
Inductive scheme := NoScheme | MissingScheme | Scheme (name rest : string).

Fixpoint getScheme (i : nat) (s : string) : scheme :=
  match s with
  | EmptyString => NoScheme
  | String c s' =>
      let continue := match getScheme (S i) s' with Scheme n r => Scheme (String c n) r | r => r end in
      if is_letter c then continue
      else if is_digit c || Ascii.eqb c "+" || Ascii.eqb c "-" || Ascii.eqb c "." then
        if (i =? 0)%nat then NoScheme else continue
      else if Ascii.eqb c ":" then if (i =? 0)%nat then MissingScheme else Scheme EmptyString s'
      else NoScheme
  end.

(** [shouldEscape] in host mode, for a byte below 128. *)
Definition escape_host (c : ascii) : bool :=
  negb (unreserved c ||
        existsb (fun d => Ascii.eqb c d)
          ["!"; "$"; "&"; "'"; "("; ")"; "*"; "+"; ","; ";"; "="; ":"; "["; "]"; "<"; ">"; "034"]%char).

(** [unescape] in host mode: only non-ASCII bytes and the percent sign may be
    escaped, and an ASCII byte that needs escaping is an error. *)
Fixpoint unescape_host (s : string) : option string :=
  match s with
  | EmptyString => Some EmptyString
  | String c s1 =>
      if Ascii.eqb c "%" then
        match s1 with
        | String h (String l s2) =>
            hi ← unhex h; lo ← unhex l;
            if (hi <? 8) && negb ((hi =? 2) && (lo =? 5)) then None
            else r ← unescape_host s2; Some (String (byte_of (16 * hi + lo)) r)
        | _ => None
        end
      else if (byteval c <? 128) && escape_host c then None
      else r ← unescape_host s1; Some (String c r)
  end.

Definition validOptionalPort (port : string) : bool :=
  match port with
  | EmptyString => true
  | String c ds => Ascii.eqb c ":" && all_bytes is_digit ds
  end.

Definition validUserinfo (s : string) : bool :=
  all_bytes (fun c => is_alnum c ||
    existsb (fun d => Ascii.eqb c d)
      ["-"; "."; "_"; ":"; "~"; "!"; "$"; "&"; "'"; "("; ")"; "*"; "+"; ","; ";"; "="; "%"; "@"]%char) s.

Section Parse.
(** How a host with an IP literal in brackets is read has changed between
    patch releases of the library; it is a parameter. *)
Variable parseIPLiteral : string -> option string.

Definition parseHost (host : string) : option string :=
  if contains_byte "[" host then parseIPLiteral host
  else match LastIndexByte host ":" with
       | Some i => if validOptionalPort (slice_from i host) then unescape_host host else None
       | None => unescape_host host
       end.

(** [parseAuthority]: the host, and whether there is user information. *)
Definition parseAuthority (authority : string) : option (bool * string) :=
  match LastIndexByte authority "@" with
  | None => h ← parseHost authority; Some (false, h)
  | Some i =>
      h ← parseHost (slice_from (S i) authority);
      let userinfo := slice 0 i authority in
      if negb (validUserinfo userinfo) then None
      else
        let '(name, password) := match cut ":" userinfo with Some np => np | None => (userinfo, "") end in
        _ ← PathUnescape name; _ ← PathUnescape password; Some (true, h)
  end.

(** [url.parse] on the part before the fragment. *)
Definition url_parse (raw : string) : option URL :=
  if negb (all_bytes (fun c => (32 <=? byteval c) && negb (byteval c =? 127)) raw) then None
  else if String.eqb raw "*" then Some (mkURL "" false "" "*" "" "")
  else
    '(sch, rest) ← match getScheme 0 raw with
                   | MissingScheme => None
                   | NoScheme => Some ("", raw)
                   | Scheme n r => Some (lower_ascii n, r)
                   end;
    let '(rest, query) := match cut "?" rest with Some rq => rq | None => (rest, "") end in
    if negb (HasPrefix rest "/") && negb (String.eqb sch "") then Some (mkURL sch false "" "" query "")
    else if negb (HasPrefix rest "/") &&
            contains_byte ":" (match cut "/" rest with Some (seg, _) => seg | None => rest end) then None
    else
      '(user, host, path) ←
        (if (negb (String.eqb sch "") || negb (HasPrefix rest "///")) && HasPrefix rest "//" then
           let auth := slice_from 2 rest in
           let '(auth, path) := match IndexByte auth "/" with
                                | Some i => (slice 0 i auth, slice_from i auth)
                                | None => (auth, "")
                                end in
           '(user, host) ← parseAuthority auth; Some (user, host, path)
         else Some (false, "", rest));
      path ← PathUnescape path;
      Some (mkURL sch user host path query "").

Definition url_Parse (raw : string) : option URL :=
  let '(u, frag) := match cut "#" raw with Some uf => uf | None => (raw, "") end in
  url ← url_parse u;
  if String.eqb frag "" then Some url
  else f ← PathUnescape frag;
       Some (mkURL (u_Scheme url) (u_User url) (u_Host url) (u_Path url) (u_RawQuery url) f).

End Parse.

Example url_Parse_samples :
  (url_Parse (fun _ => None) "http://Node-1:8001/", url_Parse (fun _ => None) "http://u@h:1?q#f",
   url_Parse (fun _ => None) "http://h:8x", url_Parse (fun _ => None) "h:80", url_Parse (fun _ => None) ":80")
  = (Some (mkURL "http" false "Node-1:8001" "/" "" ""), Some (mkURL "http" true "h:1" "" "q" "f"),
     None, Some (mkURL "h" false "" "" "" ""), None).
Proof. vm_compute. reflexivity. Qed.

(** ** Lemmas *)

(** Induction along the escapes of a string. *)
Lemma escape_ind (P : string -> Prop) :
  P EmptyString ->
  (forall c s, Ascii.eqb c "%" = false -> P s -> P (String c s)) ->
  P (String "%" EmptyString) -> (forall h, P (String "%" (String h EmptyString))) ->
  (forall h l s, P s -> P (String "%" (String h (String l s)))) ->
  forall s, P s.
Proof.
  intros H0 H1 H2 H3 H4.
  assert (forall n s, (String.length s <= n)%nat -> P s) as Hn; [|intros s; by apply (Hn (String.length s))].
  induction n as [|n IH]; intros [|c s] Hl; simpl in Hl; [done|lia|done|].
  destruct (Ascii.eqb c "%") eqn:E.
  - apply Ascii.eqb_eq in E as ->. destruct s as [|h [|l s]]; [done|auto|]. apply H4, IH. simpl in Hl. lia.
  - apply H1; [done|]. apply IH. lia.
Qed.

(** The bytes an escape may stand for. *)
Lemma host_escape_byte hi lo :
  0 <= hi < 16 -> 0 <= lo < 16 -> (hi <? 8) && negb ((hi =? 2) && (lo =? 5)) = false ->
  byte_of (16 * hi + lo) = "%"%char \/ 128 <= byteval (byte_of (16 * hi + lo)).
Proof.
  intros H1 H2 H. rewrite byteval_byte_of by lia. destruct (hi <? 8) eqn:E; reflect_bool; [|right; lia].
  left. simpl in H. apply negb_false_iff, andb_true_iff in H as [H3 H4]. reflect_bool. by subst.
Qed.

Lemma unhex_range c d : unhex c = Some d -> 0 <= d < 16.
Proof.
  unfold unhex. intros H. repeat case_match; simplify_eq; reflect_bool; lia.
Qed.

(** Host unescaping neither adds nor loses a delimiter. *)
Lemma unescape_host_contains c s r :
  byteval c < 128 -> c <> "%"%char -> unhex c = None -> unescape_host s = Some r ->
  contains_byte c r = contains_byte c s.
Proof.
  intros Hc Hp Hx. revert r. induction s as [|d s E IH| |h|h l s IH] using escape_ind; intros r; cbn [unescape_host].
  - by intros [= <-].
  - rewrite E. destruct (_ && _); [done|]. intros (r' & Hr & [= <-])%bind_Some. cbn [contains_byte].
    by rewrite (IH r' Hr).
  - done.
  - done.
  - rewrite Ascii.eqb_refl. intros (hi & Hhi & (lo & Hlo & H)%bind_Some)%bind_Some.
    destruct ((hi <? 8) && _) eqn:E; [done|]. apply bind_Some in H as (r' & Hr & [= <-]).
    pose proof (host_escape_byte hi lo (unhex_range _ _ Hhi) (unhex_range _ _ Hlo) E) as Hb.
    rewrite !contains_byte_cons_ne; [by apply IH|congruence|congruence|done|].
    intros ->. destruct Hb as [?|?]; [done|lia].
Qed.

Lemma unescape_host_colon p q :
  unescape_host (p +:+ String ":" q) =
    (p' ← unescape_host p; q' ← unescape_host q; Some (p' +:+ String ":" q')).
Proof.
  induction p as [|d p E IH| |h|h l p IH] using escape_ind; rewrite ?app_String; cbn [unescape_host].
  - change (unescape_host (String ":" q) = (q' ← unescape_host q; Some (String ":" q'))). reflexivity.
  - rewrite E. destruct (_ && _); [done|]. rewrite IH.
    destruct (unescape_host p); simpl; [|done]. by destruct (unescape_host q).
  - change (unescape_host (String "%" (String ":" q)) = None). by destruct q.
  - change (unescape_host (String "%" (String h (String ":" q))) = None). cbn [unescape_host].
    rewrite Ascii.eqb_refl. destruct (unhex h); [|done]. done.
  - rewrite Ascii.eqb_refl. destruct (unhex h) as [hi|]; [|done]. destruct (unhex l) as [lo|]; [|done]. simpl.
    destruct ((hi <? 8) && _); [done|]. rewrite IH.
    destruct (unescape_host p); simpl; [|done]. by destruct (unescape_host q).
Qed.

Lemma unescape_host_digits s : all_bytes is_digit s = true -> unescape_host s = Some s.
Proof.
  induction s as [|c s IH]; [done|]. cbn [all_bytes]. intros [Hc Hs]%andb_true_iff. cbn [unescape_host].
  assert (Ascii.eqb c "%" = false /\ escape_host c = false) as [-> ->].
  { revert Hc. clear. each_byte c. }
  rewrite andb_false_r, IH by done. done.
Qed.

Lemma digits_plain s : all_bytes is_digit s = true -> plain_host s = true.
Proof. intros H. unfold plain_host. by rewrite !(contains_byte_false is_digit _ s H). Qed.

(** ** Addresses have sixteen bytes *)
Lemma parseIPv4Fields_length s val digLen fields r :
  (length fields <= 3)%nat -> parseIPv4Fields s val digLen fields = Some r -> length r = 4%nat.
Proof.
  revert val digLen fields. induction s as [|c s IH]; intros val digLen fields Hl; cbn [parseIPv4Fields].
  - destruct (length fields <? 3)%nat eqn:E; [done|]. intros [= <-]. apply Nat.ltb_ge in E.
    rewrite length_app. simpl. lia.
  - destruct (is_digit c).
    + destruct (_ && _); [done|]. destruct (_ <? _); [done|]. by apply IH.
    + destruct (Ascii.eqb c "."); [|done]. destruct (_ || _); [done|].
      destruct (length fields =? 3)%nat eqn:E; [done|]. apply Nat.eqb_neq in E.
      apply IH. rewrite length_app. simpl. lia.
Qed.

Lemma parseIPv6Groups_length fuel s ip ell s' ip' ell' :
  (length ip + 2 * fuel = 16)%nat -> parseIPv6Groups fuel s ip ell = Some (s', ip', ell') -> (length ip' <= 16)%nat.
Proof.
  revert s ip ell. induction fuel as [|fuel IH]; intros s ip ell Hl; cbn [parseIPv6Groups].
  { intros [= _ <- _]. lia. }
  intros ([[off acc] rest] & _ & H)%bind_Some. destruct (off =? 0)%nat; [done|].
  set (ip2 := ip ++ [acc / 256; acc mod 256]) in *.
  assert (length ip2 + 2 * fuel = 16)%nat as Hl' by (subst ip2; rewrite length_app; simpl; lia).
  assert (length ip2 <= 16)%nat as Hle by lia. clearbody ip2.
  destruct rest as [|c r]; [by simplify_eq|]. destruct (Ascii.eqb c ".").
  - destruct (_ && _); [done|]. destruct (16 <? length ip + 4)%nat eqn:E; [done|]. apply Nat.ltb_ge in E.
    apply bind_Some in H as (fs & Hfs & [= _ <- _]). apply parseIPv4Fields_length in Hfs; [|simpl; lia].
    rewrite length_app, Hfs. done.
  - destruct (negb _); [done|]. destruct r as [|d r']; [done|]. destruct (Ascii.eqb d ":"); [|by eapply IH].
    destruct ell; [done|]. destruct r' as [|e r'']; [by simplify_eq|]. by eapply IH.
Qed.

Lemma ParseIP_length s ip : ParseIP s = Some ip -> length ip = 16%nat.
Proof.
  unfold ParseIP, ParseAddr. intros ([ip' zone] & (c & _ & H)%bind_Some & Hz)%bind_Some.
  case_match; [|done]. simplify_eq. destruct (Ascii.eqb c ".").
  { apply bind_Some in H as (v4 & Hv & [= <- _]). apply parseIPv4Fields_length in Hv; [|simpl; lia].
    unfold mapped. rewrite !length_app, Hv. done. }
  destruct (Ascii.eqb c ":"); [|done]. unfold parseIPv6 in H.
  destruct (match cut _ _ with Some (a, z) => _ | None => _ end) as [s' z']. case_match; [done|].
  case_match; [by simplify_eq|]. apply bind_Some in H as ([[rest ip'] ell] & Hg & H).
  apply parseIPv6Groups_length in Hg; [|done]. case_match; [done|].
  destruct (length ip' <? 16)%nat eqn:E.
  - apply Nat.ltb_lt in E. apply bind_Some in H as (e & _ & [= <- _]).
    pose proof (take_drop e ip') as Ht. apply (f_equal length) in Ht. rewrite length_app in Ht.
    rewrite !length_app, length_replicate. lia.
  - apply Nat.ltb_ge in E. destruct ell; [done|]. simplify_eq. lia.
Qed.

Lemma To4_length ip v4 : length ip = 16%nat -> To4 ip = Some v4 -> length v4 = 4%nat.
Proof. unfold To4. case_bool_decide; [|done]. intros Hl [= <-]. rewrite length_drop. lia. Qed.

(** What is printed for them has no delimiter. *)
Definition numeric (c : ascii) : bool := is_digit c || Ascii.eqb c "." || Ascii.eqb c "-".

Lemma numeric_FormatInt n : all_bytes numeric (FormatInt n) = true.
Proof.
  assert (forall s, all_bytes is_digit s = true -> all_bytes numeric s = true) as Hs.
  { induction s as [|c s IH]; [done|]. cbn [all_bytes]. intros [Hc Hr]%andb_true_iff.
    unfold numeric at 1. by rewrite Hc, (IH Hr). }
  unfold FormatInt. destruct (n <? 0); [|apply Hs, FormatUint_digits].
  cbn [all_bytes]. rewrite (Hs _ (FormatUint_digits _)). done.
Qed.

Lemma numeric_IPv4String v4 : all_bytes numeric (IPv4String v4) = true.
Proof.
  unfold IPv4String. repeat case_match; try done. by rewrite !all_bytes_app, !numeric_FormatInt.
Qed.

Lemma FormatInt_nonempty n : FormatInt n <> "".
Proof.
  unfold FormatInt. destruct (n <? 0); [done|]. destruct (FormatUint_cons n) as (c & r & -> & _). done.
Qed.

Lemma IPv4String_nonempty v4 : length v4 = 4%nat -> IPv4String v4 <> "".
Proof.
  destruct v4 as [|a [|b [|c [|d [|]]]]]; try done. intros _. unfold IPv4String.
  pose proof (FormatInt_nonempty a). destruct (FormatInt a); done.
Qed.
