(* ===== verification/Errors.v ===== *)
(** * Errors and key validation ([internal/cache/errors.go])

    A Go [error] is [option error], [None] being nil. Sentinels are
    constructors; an error that unwraps to another ([fmt.Errorf] with [%w],
    [storeError]) is [Wrap]; any other error value is [NewError]. *)
From S2P Require Import Prelude GoStrings.

Inductive error :=
| ErrNotFound
| ErrInvalidKey
| ErrValueTooLarge
| ErrPreconditionFailed
| ErrInvalidVersion
| ErrStaleVersion
| ErrOverloaded
| DeadlineExceeded                       (* context.DeadlineExceeded *)
| Canceled                               (* context.Canceled *)
| ErrShortWrite                          (* io.ErrShortWrite *)
| ErrNoRows                              (* pgx.ErrNoRows *)
| ErrUnversionedInvalidation             (* cluster.ErrUnversionedInvalidation *)
| NewError (message : string)
| Wrap (message : string) (cause : error).

#[export] Instance error_eq_dec : EqDecision error.
Proof. solve_decision. Defined.

(** [err.Error()] *)
Definition Error (e : error) : string :=
  match e with
  | ErrNotFound => "key not found"
  | ErrInvalidKey => "key must contain 1 to 256 UTF-8 bytes without NUL"
  | ErrValueTooLarge => "value exceeds 1MiB"
  | ErrPreconditionFailed => "source version precondition failed"
  | ErrInvalidVersion => "invalid source invalidation version"
  | ErrStaleVersion => "value is older than an observed source version"
  | ErrOverloaded => "cache admission capacity exhausted"
  | DeadlineExceeded => "context deadline exceeded"
  | Canceled => "context canceled"
  | ErrShortWrite => "short write"
  | ErrNoRows => "no rows in result set"
  | ErrUnversionedInvalidation => "member did not acknowledge version-aware invalidation"
  | NewError m => m
  | Wrap m _ => m
  end.

(** [errors.Is]: the error or one it unwraps to is the target. *)
Fixpoint Is (e target : error) : bool :=
  bool_decide (e = target) || match e with Wrap _ c => Is c target | _ => false end.

Definition IsErr (e : option error) (target : error) : bool :=
  match e with Some e => Is e target | None => false end.

Definition MaxValueBytes : Z := 1048576.

Definition Result (err : option error) : string :=
  match err with
  | None => "ok"
  | Some e =>
      if Is e ErrNotFound then "not_found"
      else if Is e ErrOverloaded then "overloaded"
      else if Is e ErrStaleVersion then "stale_version"
      else if Is e ErrPreconditionFailed then "precondition_failed"
      else if Is e DeadlineExceeded || Is e Canceled then "timeout"
      else "error"
  end.

Definition ValidateKey (key : string) : option error :=
  if (slen key =? 0) || (256 <? slen key) || negb (ValidString key) || contains_byte "000" key
  then Some ErrInvalidKey else None.

(** [fmt.Errorf("%w: %s", ErrNotFound, key)] *)
Definition notFoundKey (key : string) : error :=
  Wrap (Error ErrNotFound +:+ ": " +:+ key) ErrNotFound.

Lemma ValidateKey_ok key :
  ValidateKey key = None <->
  1 <= slen key <= 256 /\ ValidString key = true /\ contains_byte "000" key = false.
Proof.
  unfold ValidateKey. pose proof (slen_nonneg key).
  destruct ((slen key =? 0) || (256 <? slen key) || negb (ValidString key) || contains_byte "000" key) eqn:E.
  - split; [done|]. intros (H1 & H2 & H3). rewrite H2, H3, orb_false_r, orb_false_r in E.
    apply orb_true_iff in E as [E|E]; reflect_bool; lia.
  - reflect_bool. split; [intros _|done]. split_and!; auto; lia.
Qed.

Lemma Result_ok_iff err : Result err = "ok" <-> err = None.
Proof.
  split; [|by intros ->]. destruct err as [e|]; [|done]. simpl. repeat case_match; discriminate.
Qed.
