(* ===== verification/LRU.v ===== *)
(** * The LRU cache ([internal/cache/lru/lru.go])

    The Go structure is a [container/list] of entries plus an index from key
    to list element and a cursor into the same list. Pointers matter: the
    index, the cursor and the list alias the same elements, so the model keeps
    a small heap of list elements addressed by [ptr].

    Every operation returns [option]: [None] is a call that does not return
    (a nil dereference, or the capacity loop spinning on an empty list). The
    state threaded beside the cache, of type [W], is what the [onEvicted]
    closure captures and updates. *)
From S2P Require Import Prelude.

(** [lru.Value]: what the cache asks of a stored value. *)
Class Value (V : Type) := {
  Len : V -> Z;
  Len_nonneg : forall v, 0 <= Len v;
}.

Module LRU.
Section LRU.
Context {V : Type} `{!Value V} {W : Type}.

Record entry := mkEntry {
  e_key : string;
  e_value : V;
  e_expireAt : Time;
}.

Record Cache := mkCache {
  bytesTotal : Z;
  byteNow : Z;
  ll : list ptr;                        (* front (most recent) first *)
  elems : gmap ptr entry;               (* the cells the list elements point to *)
  cache : gmap string ptr;
  onEvicted : option (string -> V -> W -> W);
  expireCursor : option ptr;
  nextPtr : ptr;                        (* allocator of [PushFront] *)
}.

Definition New (bytesTotal : Z) (onEvicted : option (string -> V -> W -> W)) : Cache :=
  mkCache bytesTotal 0 [] ∅ ∅ onEvicted None 0%nat.

(** [!kv.expireAt.IsZero() && !kv.expireAt.After(now)] *)
Definition expired (kv : entry) (now : Time) : bool :=
  negb (IsZero (e_expireAt kv)) && negb (After (e_expireAt kv) now).

(** The bytes an entry is charged for. *)
Definition entry_bytes (kv : entry) : Z := slen (e_key kv) + Len (e_value kv).

Definition RemoveElement (c : Cache) (ele : ptr) (w : W) : option (Cache * W) :=
  let cursor := if bool_decide (expireCursor c = Some ele)
                then prev_of ele (ll c) else expireCursor c in
  kv ← elems c !! ele;
  Some (mkCache (bytesTotal c)
          (i64 (byteNow c - i64 (slen (e_key kv) + Len (e_value kv))))
          (unlink ele (ll c)) (delete ele (elems c)) (delete (e_key kv) (cache c))
          (onEvicted c) cursor (nextPtr c),
        match onEvicted c with Some f => f (e_key kv) (e_value kv) w | None => w end).

Definition Peek (c : Cache) (key : string) (now : Time) (w : W)
    : option (Cache * W * option V) :=
  match cache c !! key with
  | Some e =>
      kv ← elems c !! e;
      if expired kv now then
        '(c', w') ← RemoveElement c e w; Some (c', w', None)
      else Some (c, w, Some (e_value kv))
  | None => Some (c, w, None)
  end.

(** [List.MoveToFront]. *)
Definition MoveToFront (c : Cache) (e : ptr) : Cache :=
  mkCache (bytesTotal c) (byteNow c) (e :: unlink e (ll c)) (elems c) (cache c)
    (onEvicted c) (expireCursor c) (nextPtr c).

Definition Get (c : Cache) (key : string) (now : Time) (w : W)
    : option (Cache * W * option V) :=
  '(c1, w1, value) ← Peek c key now w;
  match value with
  | Some v => e ← cache c1 !! key; Some (MoveToFront c1 e, w1, Some v)
  | None => Some (c1, w1, None)
  end.

Definition RemoveOldest (c : Cache) (w : W) : option (Cache * W) :=
  match last (ll c) with
  | Some e => RemoveElement c e w
  | None => Some (c, w)
  end.

Definition Remove (c : Cache) (key : string) (w : W) : option (Cache * W) :=
  match cache c !! key with
  | Some e => RemoveElement c e w
  | None => Some (c, w)
  end.

Definition set_cursor (c : Cache) (cur : option ptr) : Cache :=
  mkCache (bytesTotal c) (byteNow c) (ll c) (elems c) (cache c) (onEvicted c) cur (nextPtr c).

(** The loop of [PruneExpired] with [n] iterations of the entry bound left;
    [clock i] is what the [i]-th [time.Now()] of the loop condition reads. *)
Fixpoint pruneLoop (n : nat) (c : Cache) (w : W) (now deadline : Time)
    (clock : nat -> Time) (checked removed : Z) : option (Cache * W * Z * Z) :=
  match n with
  | O => Some (c, w, checked, removed)
  | S n' =>
      if negb (Before (clock (Z.to_nat checked)) deadline) then Some (c, w, checked, removed)
      else
        let c1 := match expireCursor c with
                  | None => set_cursor c (last (ll c)) | Some _ => c end in
        match expireCursor c1 with
        | None => Some (c1, w, checked, removed)
        | Some current =>
            let c2 := set_cursor c1 (prev_of current (ll c1)) in
            item ← elems c2 !! current;
            if expired item now then
              '(c3, w3) ← RemoveElement c2 current w;
              pruneLoop n' c3 w3 now deadline clock (checked + 1) (removed + 1)
            else pruneLoop n' c2 w now deadline clock (checked + 1) removed
        end
  end.

(** [start] is the reading from which the deadline is computed. *)
Definition PruneExpired (c : Cache) (now : Time) (limit : Z) (budget : Duration)
    (start : Time) (clock : nat -> Time) (w : W) : option (Cache * W * Z * Z) :=
  if (limit <=? 0) || (budget <=? 0) then Some (c, w, 0, 0)
  else
    let limit := Z.min limit (Z.of_nat (length (ll c))) in
    pruneLoop (Z.to_nat limit) c w now (start + budget) clock 0 0.

(** [for c.bytesTotal != 0 && c.byteNow > c.bytesTotal { c.RemoveOldest() }].
    Once the list is empty another iteration changes nothing, so
    [length ll + 1] iterations decide whether the loop is left: [None] when
    it is not. *)
Fixpoint evictLoop (fuel : nat) (c : Cache) (w : W) : option (Cache * W) :=
  if negb (bytesTotal c =? 0) && (bytesTotal c <? byteNow c) then
    match fuel with
    | O => None
    | S fuel' => '(c', w') ← RemoveOldest c w; evictLoop fuel' c' w'
    end
  else Some (c, w).

(** The first half of [AddUntil]: update in place or [PushFront]. *)
Definition place (c : Cache) (key : string) (value : V) (expireAt : Time) : option Cache :=
  match cache c !! key with
  | Some e =>
      let c0 := MoveToFront c e in
      kv ← elems c0 !! e;
      Some (mkCache (bytesTotal c0)
              (i64 (byteNow c0 - i64 (Len (e_value kv) - Len value)))
              (ll c0) (<[e := mkEntry (e_key kv) value expireAt]> (elems c0))
              (cache c0) (onEvicted c0) (expireCursor c0) (nextPtr c0))
  | None =>
      let ele := nextPtr c in
      Some (mkCache (bytesTotal c)
              (i64 (byteNow c + i64 (slen key + Len value)))
              (ele :: ll c) (<[ele := mkEntry key value expireAt]> (elems c))
              (<[key := ele]> (cache c)) (onEvicted c) (expireCursor c) (S ele))
  end.

Definition AddUntil (c : Cache) (key : string) (value : V) (expireAt : Time) (w : W)
    : option (Cache * W) :=
  c1 ← place c key value expireAt;
  evictLoop (S (length (ll c1))) c1 w.

Definition Add (c : Cache) (key : string) (value : V) (ttl : Duration) (now : Time) (w : W)
    : option (Cache * W) :=
  AddUntil c key value (if 0 <? ttl then now + ttl else 0) w.

(** [Len] and [Bytes] of the cache. *)
Definition CacheLen (c : Cache) : Z := Z.of_nat (length (ll c)).
Definition Bytes (c : Cache) : Z := byteNow c.

(** ** Abstract view: the entries from most to least recently used. *)
Definition contents (c : Cache) : list entry := omap (fun e => elems c !! e) (ll c).

Definition drop_key (k : string) (l : list entry) : list entry :=
  filter (fun kv => e_key kv <> k) l.

(** The longest prefix whose total charge is at most [cap]. *)
Fixpoint fit (cap : Z) (l : list entry) : list entry :=
  match l with
  | [] => []
  | kv :: l' => if entry_bytes kv <=? cap then kv :: fit (cap - entry_bytes kv) l' else []
  end.

(** What [AddUntil] promises: the entry goes to the front, an old entry of
    the key disappears, and of the result the most recent entries that fit
    the capacity stay (all of them when the capacity is zero). *)
Definition add_spec (cap : Z) (kv : entry) (l : list entry) : list entry :=
  let l1 := kv :: drop_key (e_key kv) l in
  if cap =? 0 then l1 else fit cap l1.

Definition find_key (k : string) (l : list entry) : option entry :=
  head (filter (fun kv => e_key kv = k) l).

(** What [Get] promises: an expired entry is dropped, a live one is returned
    and moves to the front. *)
Definition get_spec (now : Time) (k : string) (l : list entry) : list entry * option V :=
  match find_key k l with
  | None => (l, None)
  | Some kv => if expired kv now then (drop_key k l, None)
               else (kv :: drop_key k l, Some (e_value kv))
  end.

(** The callback on one removed entry, and on a list of them. *)
Definition notify (c : Cache) (kv : entry) (w : W) : W :=
  match onEvicted c with Some f => f (e_key kv) (e_value kv) w | None => w end.
Definition notify_all (c : Cache) (kvs : list entry) (w : W) : W :=
  foldl (fun w kv => notify c kv w) w kvs.

(** What the index holds: the values by key, expired or not. *)
Definition resident (c : Cache) : gmap string V :=
  omap (fun e => e_value <$> (elems c !! e)) (cache c).

(** ** Invariant *)
Record wf (c : Cache) : Prop := {
  wf_nodup : NoDup (ll c);
  wf_cells : forall e, e ∈ ll c <-> is_Some (elems c !! e);
  wf_index : forall k e, cache c !! k = Some e <->
                         exists kv, elems c !! e = Some kv /\ e_key kv = k;
  wf_bytes : byteNow c = Zsum entry_bytes (contents c);
  wf_range : byteNow c < two63;
  wf_cursor : forall e, expireCursor c = Some e -> e ∈ ll c;
  wf_fresh : forall e, e ∈ ll c -> (e < nextPtr c)%nat;
}.

(** The invariant as an executable test. *)
Definition wfb (c : Cache) : bool :=
  bool_decide (NoDup (ll c)) &&
  bool_decide (list_to_set (ll c) =@{gset ptr} dom (elems c)) &&
  forallb (fun '(k, e) => match elems c !! e with
                          | Some kv => bool_decide (e_key kv = k) | None => false end)
    (map_to_list (cache c)) &&
  forallb (fun '(e, kv) => bool_decide (cache c !! e_key kv = Some e)) (map_to_list (elems c)) &&
  (byteNow c =? Zsum entry_bytes (contents c)) && (byteNow c <? two63) &&
  match expireCursor c with Some e => bool_decide (e ∈ ll c) | None => true end &&
  forallb (fun e => (e <? nextPtr c)%nat) (ll c).

Lemma wfb_sound c : wfb c = true -> wf c.
Proof.
  unfold wfb. rewrite !andb_true_iff, !forallb_forall, !bool_decide_eq_true.
  intros [[[[[[[Hnd Hdom] Hix] Hcell] Hb] Hr] Hcur] Hfr]. reflect_bool.
  split; try done.
  - intros e. by rewrite <- elem_of_dom, <- Hdom, elem_of_list_to_set.
  - intros k e. split.
    + intros Hk%elem_of_map_to_list%list_elem_of_In%Hix. simpl in Hk.
      destruct (elems c !! e) as [kv|]; [|done]. reflect_bool. eauto.
    + intros (kv & Hkv%elem_of_map_to_list%list_elem_of_In%Hcell & <-). by reflect_bool.
  - intros e He. rewrite He in Hcur. by reflect_bool.
  - intros e He%list_elem_of_In%Hfr. by apply Nat.ltb_lt.
Qed.

(** ** Elements and their cells *)

Lemma omap_cells_ext (m1 m2 : gmap ptr entry) (l : list ptr) :
  (forall x, x ∈ l -> m1 !! x = m2 !! x) ->
  omap (fun e => m1 !! e) l = omap (fun e => m2 !! e) l.
Proof.
  induction l as [|x l IH]; intros H; [done|]. simpl.
  rewrite (H x) by set_solver. destruct (m2 !! x); [f_equal|]; apply IH; set_solver.
Qed.

Lemma drop_key_id k l : (forall kv, kv ∈ l -> e_key kv <> k) -> drop_key k l = l.
Proof. apply filter_all_true. Qed.

Lemma elem_of_drop_key kv k l : kv ∈ drop_key k l <-> kv ∈ l /\ e_key kv <> k.
Proof. unfold drop_key. rewrite list_elem_of_filter. naive_solver. Qed.

Lemma entry_bytes_nonneg kv : 0 <= entry_bytes kv.
Proof. unfold entry_bytes. pose proof (slen_nonneg (e_key kv)). pose proof (Len_nonneg (e_value kv)). lia. Qed.

Lemma wf_New cap cb : wf (New cap cb).
Proof.
  split; simpl.
  - constructor.
  - intros e. rewrite lookup_empty. split; [by intros ?%elem_of_nil|by intros [? ?]].
  - intros k e. rewrite lookup_empty. split; [done|]. by intros (kv & H & _).
  - done.
  - done.
  - done.
  - by intros e ?%elem_of_nil.
Qed.

Section invariant.
Variable c : Cache.
Hypothesis Hwf : wf c.

Lemma wf_lookup e : e ∈ ll c -> exists kv, elems c !! e = Some kv.
Proof. intros H. by apply (wf_cells c Hwf). Qed.

Lemma wf_key_inj e1 e2 kv1 kv2 :
  elems c !! e1 = Some kv1 -> elems c !! e2 = Some kv2 -> e_key kv1 = e_key kv2 -> e1 = e2.
Proof.
  intros H1 H2 E.
  assert (cache c !! e_key kv1 = Some e1) as Ha by (apply (wf_index c Hwf); eauto).
  assert (cache c !! e_key kv1 = Some e2) as Hb by (apply (wf_index c Hwf); eauto).
  congruence.
Qed.

Lemma wf_indexed e kv : elems c !! e = Some kv -> cache c !! e_key kv = Some e.
Proof. intros H. apply (wf_index c Hwf). eauto. Qed.

Lemma wf_listed k e : cache c !! k = Some e -> e ∈ ll c.
Proof. intros (kv & H & _)%(wf_index c Hwf). apply (wf_cells c Hwf). eauto. Qed.

Lemma wf_split e kv :
  elems c !! e = Some kv ->
  exists A B, ll c = A ++ e :: B /\ (e ∉ A) /\ (e ∉ B) /\
    contents c = omap (fun x => elems c !! x) A ++ kv :: omap (fun x => elems c !! x) B /\
    drop_key (e_key kv) (contents c)
      = omap (fun x => elems c !! x) A ++ omap (fun x => elems c !! x) B.
Proof.
  intros Hkv.
  assert (e ∈ ll c) as He by (apply (wf_cells c Hwf); eauto).
  pose proof (wf_nodup c Hwf) as Hnd.
  apply list_elem_of_split in He as (A & B & HL). rewrite HL in Hnd.
  apply NoDup_app in Hnd as (_ & HA & [HB _]%NoDup_cons).
  assert (e ∉ A) as HeA by (intros ?; apply (HA e); set_solver).
  exists A, B. unfold contents. rewrite HL, omap_app. simpl. rewrite Hkv.
  repeat split; [done..|]. unfold drop_key. rewrite list.filter_app, filter_cons_False by naive_solver.
  assert (forall l, e ∉ l -> drop_key (e_key kv) (omap (fun x => elems c !! x) l)
                           = omap (fun x => elems c !! x) l) as Hd.
  { intros l Hl. apply drop_key_id. intros kv' (x & Hx & Hx')%list_elem_of_omap Hk.
    apply Hl. by rewrite <- (wf_key_inj x e kv' kv). }
  unfold drop_key in Hd. by rewrite !Hd.
Qed.

Lemma wf_bytes_nonneg : 0 <= byteNow c.
Proof. rewrite (wf_bytes c Hwf). apply Zsum_nonneg, entry_bytes_nonneg. Qed.

Lemma wf_entry_bytes e kv :
  elems c !! e = Some kv ->
  byteNow c = entry_bytes kv + Zsum entry_bytes (drop_key (e_key kv) (contents c)).
Proof.
  intros H. destruct (wf_split e kv H) as (A & B & _ & _ & _ & E1 & E2).
  rewrite (wf_bytes c Hwf), E2, E1, !Zsum_app. simpl. lia.
Qed.

Lemma wf_entry_range e kv : elems c !! e = Some kv -> 0 <= entry_bytes kv <= byteNow c.
Proof.
  intros H. rewrite (wf_entry_bytes e kv H).
  pose proof (entry_bytes_nonneg kv).
  pose proof (Zsum_nonneg entry_bytes (drop_key (e_key kv) (contents c)) entry_bytes_nonneg). lia.
Qed.

(** The state [RemoveElement] leaves. *)
Definition removed (e : ptr) (kv : entry) : Cache :=
  mkCache (bytesTotal c) (byteNow c - entry_bytes kv)
    (unlink e (ll c)) (delete e (elems c)) (delete (e_key kv) (cache c)) (onEvicted c)
    (if bool_decide (expireCursor c = Some e) then prev_of e (ll c) else expireCursor c)
    (nextPtr c).

Lemma RemoveElement_eq e kv w :
  elems c !! e = Some kv -> RemoveElement c e w = Some (removed e kv, notify c kv w).
Proof.
  intros H. unfold RemoveElement. rewrite H. simpl. unfold removed, notify.
  pose proof (wf_entry_range e kv H) as Hr. pose proof (wf_range c Hwf).
  unfold entry_bytes in *. unfold two63 in *. rewrite (i64_id (_ + _)) by (unfold two63; lia).
  rewrite i64_id by (unfold two63; lia). done.
Qed.

Lemma contents_removed e kv :
  elems c !! e = Some kv -> contents (removed e kv) = drop_key (e_key kv) (contents c).
Proof.
  intros H. destruct (wf_split e kv H) as (A & B & HL & HA & HB & _ & ->).
  unfold contents, removed. simpl. rewrite HL, unlink_middle, omap_app by done.
  f_equal; apply omap_cells_ext; intros x Hx; apply lookup_delete_ne; set_solver.
Qed.

Lemma resident_removed e kv :
  elems c !! e = Some kv -> resident (removed e kv) = delete (e_key kv) (resident c).
Proof.
  intros H. apply map_eq. intros k. unfold resident, removed. simpl.
  rewrite lookup_omap, !lookup_delete, lookup_omap. case_decide; [done|].
  destruct (cache c !! k) as [e'|] eqn:E; [|done]. simpl.
  rewrite lookup_delete_ne; [done|]. intros <-.
  apply (wf_index c Hwf) in E as (kv' & H' & <-). congruence.
Qed.

Lemma wf_removed e kv : elems c !! e = Some kv -> wf (removed e kv).
Proof.
  intros H. pose proof (wf_entry_range e kv H) as Hr. pose proof (wf_range c Hwf).
  assert (e ∈ ll c) as He by (apply (wf_cells c Hwf); eauto).
  split; simpl.
  - apply NoDup_unlink, (wf_nodup c Hwf).
  - intros x. rewrite elem_of_unlink, lookup_delete_is_Some, (wf_cells c Hwf). naive_solver.
  - intros k x. rewrite lookup_delete_Some, (wf_index c Hwf). split.
    + intros (Hk & kv' & Hx & <-). exists kv'. split; [|done]. rewrite lookup_delete_ne; [done|].
      intros <-. congruence.
    + intros (kv' & [Hne Hx]%lookup_delete_Some & <-). split; [|eauto].
      intros E. apply Hne. eapply wf_key_inj; eauto.
  - change (byteNow c - entry_bytes kv = Zsum entry_bytes (contents (removed e kv))).
    rewrite contents_removed by done. pose proof (wf_entry_bytes e kv H). lia.
  - lia.
  - intros x. case_bool_decide as Hc; intros Hx.
    + apply elem_of_unlink. eapply prev_of_elem in Hx; eauto. apply (wf_nodup c Hwf).
    + apply elem_of_unlink. split; [by apply (wf_cursor c Hwf)|congruence].
  - intros x [Hx _]%elem_of_unlink. by apply (wf_fresh c Hwf).
Qed.

Lemma wf_set_cursor cur : (forall e, cur = Some e -> e ∈ ll c) -> wf (set_cursor c cur).
Proof. intros H. destruct Hwf. by split. Qed.

Lemma wf_MoveToFront e : e ∈ ll c -> wf (MoveToFront c e).
Proof.
  intros He. destruct (wf_lookup e He) as [kv Hkv].
  destruct (wf_split e kv Hkv) as (A & B & HL & HA & HB & HC & HD).
  assert (forall x, x ∈ e :: unlink e (ll c) <-> x ∈ ll c) as Hin.
  { intros x. rewrite elem_of_cons, elem_of_unlink.
    destruct (decide (x = e)); naive_solver. }
  destruct Hwf as [Hnd Hcells Hidx Hb Hr Hcur Hfr]. split; simpl; try done.
  - apply NoDup_cons. split; [|by apply NoDup_unlink]. rewrite elem_of_unlink. naive_solver.
  - intros x. rewrite Hin. apply Hcells.
  - rewrite Hb. rewrite HC. unfold contents. simpl. rewrite Hkv, HL, unlink_middle by done.
    rewrite omap_app. simpl. rewrite !Zsum_app. simpl. lia.
  - intros x Hx. apply Hin. by apply Hcur.
  - intros x Hx%Hin. by apply Hfr.
Qed.

Lemma contents_MoveToFront e kv :
  elems c !! e = Some kv ->
  contents (MoveToFront c e) = kv :: drop_key (e_key kv) (contents c).
Proof.
  intros H. destruct (wf_split e kv H) as (A & B & HL & HA & HB & _ & ->).
  unfold contents. simpl. rewrite H, HL, unlink_middle, omap_app by done. done.
Qed.
End invariant.

(** ** Insertion *)

Lemma resident_MoveToFront c e : resident (MoveToFront c e) = resident c.
Proof. done. Qed.

Lemma contents_insert_cell (m : gmap ptr entry) (l : list ptr) e kv :
  e ∉ l -> omap (fun x => <[e := kv]> m !! x) l = omap (fun x => m !! x) l.
Proof. intros H. apply omap_cells_ext. intros x Hx. apply lookup_insert_ne. set_solver. Qed.

(** Writing the cell of [e] and indexing it under its key changes the
    resident value of that key only. *)
Lemma resident_insert_cell c kv e idx b l cur n :
  wf c -> cache c !! e_key kv = Some e \/ elems c !! e = None ->
  idx = <[e_key kv := e]> (cache c) ->
  resident (mkCache (bytesTotal c) b l (<[e := kv]> (elems c)) idx (onEvicted c) cur n)
    = <[e_key kv := e_value kv]> (resident c).
Proof.
  intros Hwf He ->. apply map_eq. intros k. unfold resident. simpl. rewrite lookup_omap.
  destruct (decide (k = e_key kv)) as [->|Hne].
  - rewrite !lookup_insert_eq. simpl. by rewrite lookup_insert_eq.
  - rewrite !lookup_insert_ne, lookup_omap by done.
    destruct (cache c !! k) as [x|] eqn:Ex; [|done]. simpl.
    rewrite lookup_insert_ne; [done|]. intros <-.
    apply (wf_index c Hwf) in Ex as (kv1 & E1 & <-).
    destruct He as [(kv2 & E2 & E3)%(wf_index c Hwf)|]; congruence.
Qed.

(** Replacing the value of the front element. *)
Lemma place_update c key value expireAt e :
  wf c -> cache c !! key = Some e ->
  byteNow c + slen key + Len value < two63 ->
  exists c1, place c key value expireAt = Some c1 /\ wf c1 /\
    contents c1 = mkEntry key value expireAt :: drop_key key (contents c) /\
    resident c1 = <[key := value]> (resident c) /\
    bytesTotal c1 = bytesTotal c /\ onEvicted c1 = onEvicted c.
Proof.
  intros Hwf He Hfit. pose proof (wf_listed c Hwf _ _ He) as Hin.
  pose proof He as (kv & Hkv & Hk)%(wf_index c Hwf).
  unfold place. rewrite He. simpl. rewrite Hkv. simpl. eexists. split; [done|].
  pose proof (wf_MoveToFront c Hwf e Hin) as Hm.
  pose proof (wf_entry_bytes c Hwf e kv Hkv) as Hb.
  pose proof (wf_entry_range c Hwf e kv Hkv) as Hr. pose proof (wf_range c Hwf) as Hrange.
  pose proof (Len_nonneg value). pose proof (Len_nonneg (e_value kv)). pose proof (slen_nonneg key).
  assert (entry_bytes kv = slen key + Len (e_value kv)) as Hsz by (unfold entry_bytes; by rewrite Hk).
  rewrite Hk in *. rewrite (i64_id (Len _ - _)) by (unfold two63 in *; lia).
  rewrite i64_id by (unfold two63 in *; lia).
  assert (e ∉ unlink e (ll c)) as Hnot by (rewrite elem_of_unlink; naive_solver).
  assert (contents (mkCache (bytesTotal c) (byteNow c - (Len (e_value kv) - Len value))
     (e :: unlink e (ll c)) (<[e:=mkEntry key value expireAt]> (elems c)) (cache c)
     (onEvicted c) (expireCursor c) (nextPtr c))
     = mkEntry key value expireAt :: drop_key key (contents c)) as HC.
  { unfold contents at 1. simpl. rewrite lookup_insert_eq. simpl.
    change (mkEntry key value expireAt
              :: omap (fun x => <[e:=mkEntry key value expireAt]> (elems c) !! x) (unlink e (ll c))
            = mkEntry key value expireAt :: drop_key key (contents c)).
    rewrite contents_insert_cell by done. f_equal.
    pose proof (contents_MoveToFront c Hwf e kv Hkv) as E. rewrite Hk in E.
    unfold contents at 1 in E. simpl in E. rewrite Hkv in E. by injection E. }
  split; [|split; [exact HC|split; [|done]]].
  - destruct Hm as [Hnd Hcells Hidx _ _ Hcur Hfr]. simpl in *.
    split; simpl; try done.
    + intros x. rewrite Hcells. destruct (decide (x = e)) as [->|].
      * rewrite lookup_insert_eq, Hkv. split; eauto.
      * by rewrite lookup_insert_ne.
    + intros k x. rewrite Hidx. destruct (decide (x = e)) as [->|].
      * rewrite lookup_insert_eq, Hkv. split; intros (kv' & [= <-] & <-); eauto.
      * by rewrite lookup_insert_ne.
    + rewrite HC. simpl. unfold entry_bytes at 1. simpl. lia.
    + lia.
  - apply (resident_insert_cell c (mkEntry key value expireAt)); simpl; auto.
    by rewrite insert_id.
Qed.

Lemma place_insert c key value expireAt :
  wf c -> cache c !! key = None ->
  byteNow c + slen key + Len value < two63 ->
  exists c1, place c key value expireAt = Some c1 /\ wf c1 /\
    contents c1 = mkEntry key value expireAt :: drop_key key (contents c) /\
    resident c1 = <[key := value]> (resident c) /\
    bytesTotal c1 = bytesTotal c /\ onEvicted c1 = onEvicted c.
Proof.
  intros Hwf He Hfit. unfold place. rewrite He. eexists. split; [done|].
  pose proof (wf_bytes_nonneg c Hwf). pose proof (Len_nonneg value). pose proof (slen_nonneg key).
  rewrite (i64_id (slen key + _)) by (unfold two63 in *; lia).
  rewrite i64_id by (unfold two63 in *; lia).
  assert (nextPtr c ∉ ll c) as Hfresh by (intros Hx%(wf_fresh c Hwf); lia).
  assert (elems c !! nextPtr c = None) as Hcell.
  { apply eq_None_not_Some. by rewrite <- (wf_cells c Hwf). }
  assert (drop_key key (contents c) = contents c) as Hdrop.
  { apply drop_key_id. intros kv (x & _ & Hx)%list_elem_of_omap <-.
    rewrite (wf_indexed c Hwf x kv Hx) in He. done. }
  assert (forall b, contents (mkCache (bytesTotal c) b (nextPtr c :: ll c)
     (<[nextPtr c:=mkEntry key value expireAt]> (elems c)) (<[key:=nextPtr c]> (cache c))
     (onEvicted c) (expireCursor c) (S (nextPtr c)))
     = mkEntry key value expireAt :: contents c) as HC.
  { intros b. unfold contents at 1. simpl. rewrite lookup_insert_eq. simpl. f_equal.
    by apply contents_insert_cell. }
  split; [|split; [rewrite Hdrop; apply HC|split; [|done]]].
  - destruct Hwf as [Hnd Hcells Hidx Hb Hr Hcur Hfr]. split; simpl.
    + by apply NoDup_cons.
    + intros x. rewrite elem_of_cons, lookup_insert_is_Some, Hcells.
      destruct (decide (x = nextPtr c)); naive_solver.
    + intros k x. destruct (decide (x = nextPtr c)) as [->|Hx].
      * rewrite lookup_insert_eq. split.
        -- intros [[-> _]|[_ E]]%lookup_insert_Some; [eauto|].
           apply Hidx in E as (kv & E & _). congruence.
        -- intros (kv & [= <-] & <-). simpl. apply lookup_insert_eq.
      * rewrite (lookup_insert_ne (elems c)) by done. rewrite lookup_insert_Some, Hidx. split.
        -- intros [[_ E]|[_ E]]; [congruence|done].
        -- intros (kv & E & <-). right. split; [|eauto]. intros ->.
           assert (cache c !! e_key kv = Some x) as E2 by (apply Hidx; eauto). congruence.
    + rewrite HC. simpl. unfold entry_bytes at 1. simpl. lia.
    + lia.
    + intros x Hx. right. by apply Hcur.
    + intros x [->|Hx]%elem_of_cons; [lia|]. specialize (Hfr x Hx). lia.
  - apply (resident_insert_cell c (mkEntry key value expireAt)); auto.
Qed.

Lemma place_ok c key value expireAt :
  wf c -> byteNow c + slen key + Len value < two63 ->
  exists c1, place c key value expireAt = Some c1 /\ wf c1 /\
    contents c1 = mkEntry key value expireAt :: drop_key key (contents c) /\
    resident c1 = <[key := value]> (resident c) /\
    bytesTotal c1 = bytesTotal c /\ onEvicted c1 = onEvicted c.
Proof.
  intros Hwf Hfit. destruct (cache c !! key) eqn:E.
  - by eapply place_update.
  - by apply place_insert.
Qed.

(** ** Eviction *)

Lemma fit_all cap l : Zsum entry_bytes l <= cap -> fit cap l = l.
Proof.
  revert cap. induction l as [|kv l IH]; intros cap H; [done|]. simpl in *.
  pose proof (Zsum_nonneg entry_bytes l entry_bytes_nonneg).
  rewrite (proj2 (Z.leb_le _ _)) by lia. f_equal. apply IH. lia.
Qed.

Lemma fit_snoc cap l kv :
  cap < Zsum entry_bytes (l ++ [kv]) -> fit cap (l ++ [kv]) = fit cap l.
Proof.
  revert cap. induction l as [|x l IH]; intros cap H; simpl in *.
  - rewrite (proj2 (Z.leb_gt _ _)) by lia. done.
  - case_match; [|done]. f_equal. apply IH. lia.
Qed.

Lemma fit_sum cap l : 0 <= cap -> Zsum entry_bytes (fit cap l) <= cap.
Proof.
  revert cap. induction l as [|x l IH]; intros cap H; simpl; [lia|].
  case_match; simpl; [|lia]. reflect_bool. specialize (IH (cap - entry_bytes x)). lia.
Qed.

Lemma fit_prefix cap l : exists rest, l = fit cap l ++ rest.
Proof.
  revert cap. induction l as [|x l IH]; intros cap; simpl; [by exists []|].
  case_match; [|by eexists]. destruct (IH (cap - entry_bytes x)) as [r E].
  exists r. simpl. by rewrite <- E.
Qed.

Lemma contents_snoc c e :
  wf c -> last (ll c) = Some e ->
  exists kv l, elems c !! e = Some kv /\ contents c = l ++ [kv] /\ drop_key (e_key kv) (contents c) = l.
Proof.
  intros Hwf (A & HL)%last_Some.
  destruct (wf_lookup c Hwf e) as [kv Hkv]; [rewrite HL; set_solver|].
  destruct (wf_split c Hwf e kv Hkv) as (A' & B & HL' & HA & HB & HC & HD).
  assert (B = []) as ->.
  { destruct (decide (B = [])) as [|Hne]; [done|]. exfalso. apply HB.
    rewrite HL in HL'. assert (last (A' ++ e :: B) = Some e) as E.
    { rewrite <- HL'. apply last_snoc. }
    rewrite last_app_cons in E. destruct B; [done|]. rewrite last_cons_cons in E.
    by apply last_Some_elem_of in E. }
  eexists kv, _. split; [done|]. split; [exact HC|]. rewrite HD. by rewrite app_nil_r.
Qed.

Lemma last_ll_None c : wf c -> last (ll c) = None -> contents c = [].
Proof. intros _ H%last_None. unfold contents. by rewrite H. Qed.

(** The capacity loop leaves the longest recent prefix that fits, calling the
    callback once per evicted entry, oldest first. *)
Lemma evictLoop_ok fuel c w :
  wf c -> 0 <= bytesTotal c -> (length (ll c) <= fuel)%nat ->
  exists c' rest,
    evictLoop fuel c w = Some (c', notify_all c (rev rest) w) /\ wf c' /\
    contents c = contents c' ++ rest /\
    contents c' = (if bytesTotal c =? 0 then contents c else fit (bytesTotal c) (contents c)) /\
    resident c' ⊆ resident c /\
    bytesTotal c' = bytesTotal c /\ onEvicted c' = onEvicted c.
Proof.
  revert c w. induction fuel as [|fuel IH]; intros c w Hwf Hcap Hlen; simpl;
    pose proof (wf_bytes c Hwf) as Hb.
  all: destruct (bytesTotal c =? 0) eqn:E0; simpl.
  1,3: exists c, []; by rewrite app_nil_r.
  all: reflect_bool; case_match; reflect_bool.
  2,4: exists c, []; rewrite app_nil_r, fit_all by lia; done.
  - assert (ll c = []) as HL by (destruct (ll c); simpl in *; [done|lia]).
    unfold contents in Hb. rewrite HL in Hb. simpl in Hb. lia.
  - unfold RemoveOldest. destruct (last (ll c)) as [e|] eqn:El.
    2:{ apply last_ll_None in El; [|done]. rewrite El in Hb. simpl in Hb. lia. }
    destruct (contents_snoc c e Hwf El) as (kv & l & Hkv & HC & HD).
    rewrite (RemoveElement_eq c Hwf e kv w Hkv). simpl.
    pose proof (contents_removed c Hwf e kv Hkv) as HC'. rewrite HD in HC'.
    destruct (IH (removed c e kv) (notify c kv w)) as (c' & rest & Hev & Hwf' & HR & HF & Hres & Ht & Ho).
    + by apply wf_removed.
    + done.
    + apply last_Some in El as [A HA]. simpl. rewrite HA, unlink_app, length_app.
      unfold unlink at 2. rewrite filter_cons_False by naive_solver. simpl.
      pose proof (length_filter (fun x => x <> e) A). rewrite HA, length_app in Hlen. simpl in Hlen.
      unfold unlink. lia.
    + exists c', (rest ++ [kv]). rewrite Hev, HC' in *.
      rewrite HC, app_assoc, <- HR. rewrite rev_app_distr. simpl.
      split; [done|]. split; [done|]. split; [done|]. split.
      { rewrite HF. rewrite (proj2 (Z.eqb_neq _ _)) by done. rewrite fit_snoc; [done|].
        rewrite <- HC, <- Hb. done. }
      split; [|done]. etrans; [exact Hres|]. rewrite resident_removed by done. apply delete_subseteq.
Qed.

Lemma AddUntil_ok c key value expireAt w :
  wf c -> 0 <= bytesTotal c -> byteNow c + slen key + Len value < two63 ->
  exists c' rest,
    AddUntil c key value expireAt w = Some (c', notify_all c (rev rest) w) /\ wf c' /\
    contents c' = add_spec (bytesTotal c) (mkEntry key value expireAt) (contents c) /\
    mkEntry key value expireAt :: drop_key key (contents c) = contents c' ++ rest /\
    (bytesTotal c <> 0 -> byteNow c' <= bytesTotal c) /\
    resident c' ⊆ <[key := value]> (resident c) /\
    bytesTotal c' = bytesTotal c /\ onEvicted c' = onEvicted c.
Proof.
  intros Hwf Hcap Hfit. unfold AddUntil.
  destruct (place_ok c key value expireAt Hwf Hfit) as (c1 & -> & Hwf1 & HC & HR & HT & HO).
  simpl. destruct (evictLoop_ok (S (length (ll c1))) c1 w Hwf1) as
    (c' & rest & Hev & Hwf' & Hrest & HF & Hres & HT' & HO'); [lia|lia|].
  exists c', rest. simpl in Hev. rewrite Hev. rewrite HT, HC in HF.
  split_and!; [|done|exact HF|by rewrite <- HC| |by rewrite <- HR|congruence..].
  - unfold notify_all, notify. by rewrite HO.
  - intros Hne. rewrite (wf_bytes c' Hwf'), HF, (proj2 (Z.eqb_neq _ _)) by done.
    by apply fit_sum.
Qed.

(** ** Lookup *)

Lemma find_key_contents c k :
  wf c -> find_key k (contents c) = (e ← cache c !! k; elems c !! e).
Proof.
  intros Hwf. unfold find_key. destruct (cache c !! k) as [e|] eqn:E; simpl.
  - apply (wf_index c Hwf) in E as (kv & Hkv & <-).
    destruct (wf_split c Hwf e kv Hkv) as (A & B & HL & HA & HB & HC & _).
    rewrite Hkv, HC, list.filter_app, filter_cons_True by done.
    assert (filter (fun x => e_key x = e_key kv) (omap (fun x => elems c !! x) A) = []) as ->; [|done].
    apply filter_all_false.
    intros x (e' & He' & Hx)%list_elem_of_omap Ek. apply HA.
    by rewrite <- (wf_key_inj c Hwf e' e x kv).
  - assert (filter (fun x => e_key x = k) (contents c) = []) as ->; [|done].
    apply filter_all_false. intros x (e' & He' & Hx)%list_elem_of_omap <-.
    rewrite (wf_indexed c Hwf e' x Hx) in E. done.
Qed.

Lemma resident_find c k : wf c -> resident c !! k = e_value <$> find_key k (contents c).
Proof.
  intros Hwf. rewrite find_key_contents by done. unfold resident. rewrite lookup_omap.
  by destruct (cache c !! k).
Qed.

Lemma Peek_ok c key now w :
  wf c -> exists c' w',
    Peek c key now w = Some (c', w', snd (get_spec now key (contents c))) /\ wf c' /\
    (c' = c /\ w' = w \/
     exists kv, find_key key (contents c) = Some kv /\ expired kv now = true /\
       contents c' = drop_key key (contents c) /\ resident c' = delete key (resident c) /\
       w' = notify c kv w) /\
    resident c' ⊆ resident c /\ bytesTotal c' = bytesTotal c /\ onEvicted c' = onEvicted c /\
    byteNow c' <= byteNow c /\ snd (get_spec now key (contents c)) = resident c' !! key.
Proof.
  intros Hwf. unfold Peek, get_spec.
  pose proof (resident_find c key Hwf) as Hres. rewrite (find_key_contents c key Hwf) in *.
  destruct (cache c !! key) as [e|] eqn:E; simpl in *.
  2:{ exists c, w. split_and!; auto; lia. }
  pose proof E as (kv & Hkv & Hk)%(wf_index c Hwf). rewrite Hkv in *. simpl in *.
  destruct (expired kv now) eqn:Hexp; simpl.
  - rewrite (RemoveElement_eq c Hwf e kv w Hkv). simpl.
    exists (removed c e kv), (notify c kv w). pose proof (wf_entry_range c Hwf e kv Hkv).
    pose proof (wf_removed c Hwf e kv Hkv).
    pose proof (contents_removed c Hwf e kv Hkv) as HC.
    pose proof (resident_removed c Hwf e kv Hkv) as HR. rewrite Hk in *.
    split_and!; auto; [|rewrite HR; apply delete_subseteq|simpl; lia|by rewrite HR, lookup_delete_eq].
    right. exists kv. split_and!; auto.
  - exists c, w. split_and!; auto; lia.
Qed.

Lemma Get_ok c key now w :
  wf c -> exists c' w',
    Get c key now w = Some (c', w', snd (get_spec now key (contents c))) /\ wf c' /\
    contents c' = fst (get_spec now key (contents c)) /\
    resident c' ⊆ resident c /\ bytesTotal c' = bytesTotal c /\ onEvicted c' = onEvicted c /\
    byteNow c' <= byteNow c.
Proof.
  intros Hwf. destruct (Peek_ok c key now w Hwf) as
    (c' & w' & HP & Hwf' & Hcase & Hres & HT & HO & Hb & _).
  unfold Get. rewrite HP. simpl. unfold get_spec in *.
  rewrite (find_key_contents c key Hwf) in *.
  destruct (cache c !! key) as [e|] eqn:E; simpl in *.
  2:{ exists c', w'. destruct Hcase as [[-> ->]|(kv & ? & _)]; [|done]. by split_and!. }
  pose proof E as (kv & Hkv & Hk)%(wf_index c Hwf). rewrite Hkv in *. simpl in *.
  destruct (expired kv now) eqn:Hexp; simpl in *.
  - exists c', w'. split_and!; auto. destruct Hcase as [[-> ->]|(kv' & [= <-] & _ & -> & _)]; [|done].
    unfold Peek in HP. rewrite E in HP. simpl in HP. rewrite Hkv in HP. simpl in HP. rewrite Hexp in HP.
    rewrite (RemoveElement_eq c Hwf e kv w Hkv) in HP. simpl in HP. injection HP as E1 _.
    rewrite <- Hk, <- (contents_removed c Hwf e kv Hkv). by rewrite E1.
  - destruct Hcase as [[-> ->]|(kv' & [= <-] & ? & _)]; [|congruence].
    rewrite E. simpl. eexists _, _. split; [done|].
    split; [by apply wf_MoveToFront, (wf_listed c Hwf _ _ E)|].
    split_and!; auto. rewrite <- Hk. by apply contents_MoveToFront.
Qed.

Lemma Remove_ok c key w :
  wf c -> exists c' w',
    Remove c key w = Some (c', w') /\ wf c' /\
    contents c' = drop_key key (contents c) /\ resident c' = delete key (resident c) /\
    bytesTotal c' = bytesTotal c /\ onEvicted c' = onEvicted c /\ byteNow c' <= byteNow c.
Proof.
  intros Hwf. unfold Remove. destruct (cache c !! key) as [e|] eqn:E.
  - pose proof E as (kv & Hkv & Hk)%(wf_index c Hwf).
    rewrite (RemoveElement_eq c Hwf e kv w Hkv). eexists _, _. split; [done|].
    pose proof (wf_entry_range c Hwf e kv Hkv). rewrite <- Hk.
    split_and!; [by apply wf_removed|by apply contents_removed|by apply resident_removed|done..|].
    simpl. lia.
  - exists c, w. split_and!; auto; [| |lia].
    + symmetry. apply drop_key_id. intros kv (x & _ & Hx)%list_elem_of_omap <-.
      rewrite (wf_indexed c Hwf x kv Hx) in E. done.
    + symmetry. apply delete_id. unfold resident. by rewrite lookup_omap, E.
Qed.

(** ** Pruning *)

(** One visit of the pruning loop at a live cursor. *)
Definition visit (c : Cache) (e : ptr) (kv : entry) (now : Time) : Cache :=
  let c2 := set_cursor c (prev_of e (ll c)) in
  if expired kv now then removed c2 e kv else c2.

Lemma wf_step_cursor c e :
  wf c -> is_Some (elems c !! e) -> wf (set_cursor c (prev_of e (ll c))).
Proof.
  intros Hwf He%(wf_cells c Hwf). apply wf_set_cursor; [done|]. intros x Hx.
  eapply prev_of_elem in Hx as [? _]; eauto. apply (wf_nodup c Hwf).
Qed.

Lemma visit_ok c e kv now :
  wf c -> elems c !! e = Some kv ->
  wf (visit c e kv now) /\
  contents (visit c e kv now)
    = (if expired kv now then drop_key (e_key kv) (contents c) else contents c) /\
  resident (visit c e kv now) ⊆ resident c /\
  bytesTotal (visit c e kv now) = bytesTotal c /\ onEvicted (visit c e kv now) = onEvicted c /\
  byteNow (visit c e kv now) <= byteNow c /\
  expireCursor (visit c e kv now) = prev_of e (ll c) /\
  ll (visit c e kv now) = (if expired kv now then unlink e (ll c) else ll c).
Proof.
  intros Hwf Hkv. assert (e ∈ ll c) as He by (apply (wf_cells c Hwf); eauto).
  assert (wf (set_cursor c (prev_of e (ll c)))) as Hwf2 by (apply wf_step_cursor; eauto).
  unfold visit. destruct (expired kv now); [|by split_and!].
  pose proof (wf_entry_range c Hwf e kv Hkv).
  split_and!; try done.
  - by apply wf_removed.
  - by apply (contents_removed _ Hwf2).
  - rewrite (resident_removed _ Hwf2) by done. apply delete_subseteq.
  - simpl. lia.
  - simpl. case_bool_decide as E; [|done]. exfalso.
    eapply prev_of_elem in E as [_ E]; eauto. apply (wf_nodup c Hwf).
Qed.

Lemma pruneLoop_visit n c w now deadline clock checked removed e kv :
  wf c -> Before (clock (Z.to_nat checked)) deadline = true ->
  (expireCursor c = Some e \/ expireCursor c = None /\ last (ll c) = Some e) ->
  elems c !! e = Some kv ->
  exists w', pruneLoop (S n) c w now deadline clock checked removed =
    pruneLoop n (visit c e kv now) w' now deadline clock (checked + 1)
      (if expired kv now then removed + 1 else removed).
Proof.
  intros Hwf Ht Hcur Hkv. simpl. rewrite Ht. simpl.
  set (c1 := match expireCursor c with None => set_cursor c (last (ll c)) | Some _ => c end).
  assert (expireCursor c1 = Some e /\ set_cursor c1 (prev_of e (ll c1)) = set_cursor c (prev_of e (ll c))
          /\ elems c1 = elems c) as (-> & -> & ->).
  { unfold c1. destruct Hcur as [Hc|[Hc H2]]; rewrite Hc; [by rewrite Hc|]. simpl. by rewrite H2. }
  simpl. rewrite Hkv. simpl. unfold visit.
  destruct (expired kv now); [|by exists w].
  rewrite (RemoveElement_eq (set_cursor c (prev_of e (ll c))) (wf_step_cursor c e Hwf ltac:(eauto)) e kv w Hkv).
  simpl. eauto.
Qed.

(** Pruning removes expired entries only and keeps the order of the rest. *)
Definition pruned (now : Time) (c c' : Cache) : Prop :=
  wf c' /\ contents c' `sublist_of` contents c /\
  (forall kv, kv ∈ contents c -> kv ∈ contents c' \/ expired kv now = true) /\
  resident c' ⊆ resident c /\ bytesTotal c' = bytesTotal c /\ onEvicted c' = onEvicted c /\
  byteNow c' <= byteNow c /\ elems c' ⊆ elems c.

Lemma pruned_refl now c : wf c -> pruned now c c.
Proof. intros. unfold pruned. split_and!; auto; lia. Qed.

Lemma pruned_trans now c1 c2 c3 : pruned now c1 c2 -> pruned now c2 c3 -> pruned now c1 c3.
Proof.
  intros (_ & S1 & E1 & R1 & B1 & O1 & N1 & M1) (W2 & S2 & E2 & R2 & B2 & O2 & N2 & M2).
  split_and!; [done|by etrans|naive_solver|by etrans|congruence|congruence|lia|by etrans].
Qed.

Lemma visit_pruned c e kv now :
  wf c -> elems c !! e = Some kv -> pruned now c (visit c e kv now).
Proof.
  intros Hwf Hkv. destruct (visit_ok c e kv now Hwf Hkv) as (Hw & HC & HR & HB & HO & HN & _).
  split_and!; auto; [| |unfold visit; case_match; [apply delete_subseteq|done]];
    rewrite HC; clear HC HR HN Hw; case_match; auto.
  - apply sublist_filter.
  - intros kv' Hin. destruct (decide (e_key kv' = e_key kv)) as [Ek|Ek].
    + right. assert (kv' = kv) as ->; [|done].
      apply list_elem_of_omap in Hin as (x & _ & Hx).
      assert (x = e) as -> by (eapply wf_key_inj; eauto). congruence.
    + left. by apply elem_of_drop_key.
Qed.

Lemma length_contents c : wf c -> length (contents c) = length (ll c).
Proof.
  intros Hwf. unfold contents.
  assert (forall l, (forall x, x ∈ l -> x ∈ ll c) ->
    length (omap (fun e => elems c !! e) l) = length l) as H; [|by apply H].
  induction l as [|x l IH]; intros Hl; [done|]. simpl.
  destruct (wf_lookup c Hwf x) as [kv ->]; [apply Hl; set_solver|]. simpl. f_equal.
  apply IH. set_solver.
Qed.

Lemma length_drop_key c e kv :
  wf c -> elems c !! e = Some kv ->
  length (contents c) = S (length (drop_key (e_key kv) (contents c))).
Proof.
  intros Hwf H. destruct (wf_split c Hwf e kv H) as (A & B & _ & _ & _ & -> & ->).
  rewrite !length_app. simpl. lia.
Qed.

(** The cursor of a nonempty cache, after the wrap-around test, is live. *)
Lemma cursor_live c :
  wf c -> ll c <> [] ->
  exists e kv, elems c !! e = Some kv /\
    (expireCursor c = Some e \/ expireCursor c = None /\ last (ll c) = Some e).
Proof.
  intros Hwf Hne. destruct (expireCursor c) as [e|] eqn:E.
  - destruct (wf_lookup c Hwf e) as [kv ?]; [by apply (wf_cursor c Hwf)|]. exists e, kv. auto.
  - destruct (last (ll c)) as [e|] eqn:El; [|by apply last_None in El].
    destruct (wf_lookup c Hwf e) as [kv ?]; [by apply last_Some_elem_of|]. exists e, kv. auto.
Qed.

Lemma pruneLoop_ok n c w now deadline clock checked removed :
  wf c -> exists c' w' ch rm,
    pruneLoop n c w now deadline clock checked removed = Some (c', w', ch, rm) /\
    pruned now c c' /\ checked <= ch <= checked + Z.of_nat n /\
    0 <= rm - removed <= ch - checked /\
    Z.of_nat (length (contents c)) - Z.of_nat (length (contents c')) = rm - removed.
Proof.
  revert c w checked removed. induction n as [|n IH]; intros c w checked removed Hwf.
  { exists c, w, checked, removed. split; [done|]. split; [by apply pruned_refl|]. lia. }
  destruct (Before (clock (Z.to_nat checked)) deadline) eqn:Ht.
  2:{ exists c, w, checked, removed. simpl. rewrite Ht. split; [done|].
      split; [by apply pruned_refl|]. lia. }
  destruct (decide (ll c = [])) as [Hnil|Hne].
  - simpl. rewrite Ht. simpl.
    assert (expireCursor c = None) as Hc.
    { destruct (expireCursor c) eqn:E; [|done]. apply (wf_cursor c Hwf) in E.
      rewrite Hnil in E. by apply elem_of_nil in E. }
    rewrite Hc, Hnil. simpl. exists (set_cursor c None), w, checked, removed.
    split; [done|]. split; [|unfold contents; simpl; rewrite Hnil; simpl; lia].
    assert (pruned now c c) as (? & ? & ? & ? & ? & ? & ? & ?) by by apply pruned_refl.
    split_and!; auto. by apply wf_set_cursor.
  - destruct (cursor_live c Hwf Hne) as (e & kv & Hkv & Hcur).
    destruct (pruneLoop_visit n c w now deadline clock checked removed e kv Hwf Ht Hcur Hkv) as [w1 ->].
    pose proof (visit_pruned c e kv now Hwf Hkv) as Hv.
    destruct (IH (visit c e kv now) w1 (checked + 1) (if expired kv now then removed + 1 else removed))
      as (c' & w' & ch & rm & -> & Hp & Hch & Hrm & Hlen); [apply Hv|].
    eexists _, _, _, _. split; [done|]. split; [by eapply pruned_trans|].
    destruct (visit_ok c e kv now Hwf Hkv) as (_ & HC & _). rewrite HC in Hlen.
    pose proof (length_drop_key c e kv Hwf Hkv). destruct (expired kv now); lia.
Qed.

Lemma PruneExpired_pruned c now limit budget start clock w :
  wf c -> exists c' w' ch rm,
    PruneExpired c now limit budget start clock w = Some (c', w', ch, rm) /\ pruned now c c' /\
    0 <= rm <= ch /\ ch <= Z.max 0 limit /\ ch <= CacheLen c /\ CacheLen c' = CacheLen c - rm.
Proof.
  intros Hwf. unfold PruneExpired, CacheLen. destruct ((limit <=? 0) || (budget <=? 0)) eqn:E.
  { exists c, w, 0, 0. split; [done|]. split; [by apply pruned_refl|lia]. }
  reflect_bool.
  destruct (pruneLoop_ok (Z.to_nat (Z.min limit (Z.of_nat (length (ll c))))) c w now
    (start + budget) clock 0 0 Hwf) as (c' & w' & ch & rm & -> & Hp & Hch & Hrm & Hlen).
  exists c', w', ch, rm. pose proof Hp as (Hw & _). rewrite !length_contents in Hlen by done.
  split; [done|]. split; [done|lia].
Qed.

(** A run of visits from the end of [Q] back to its start. *)
Lemma sweep Q P R c w now deadline clock checked removed m :
  wf c -> ll c = P ++ Q ++ R ->
  (expireCursor c = last (P ++ Q) \/ expireCursor c = None /\ R = []) ->
  (forall i, Before (clock i) deadline = true) ->
  exists c' w' rm R',
    pruneLoop (length Q + m) c w now deadline clock checked removed =
      pruneLoop m c' w' now deadline clock (checked + Z.of_nat (length Q)) rm /\
    pruned now c c' /\ ll c' = P ++ R' ++ R /\
    (forall e, e ∈ R' -> e ∈ Q /\ exists kv, elems c !! e = Some kv /\ expired kv now = false) /\
    (expireCursor c = last (P ++ Q) \/ Q <> [] -> expireCursor c' = last P).
Proof.
  revert R c w checked removed. induction Q as [|e Q IH] using rev_ind;
    intros R c w checked removed Hwf HL Hcur Ht.
  { exists c, w, removed, []. simpl. rewrite Z.add_0_r.
    rewrite app_nil_r in *. split_and!; auto using pruned_refl; [set_solver|naive_solver]. }
  pose proof (wf_nodup c Hwf) as Hnd. rewrite HL in Hnd.
  assert (e ∉ P ++ Q /\ (e ∉ R)) as [HePQ HeR].
  { rewrite !NoDup_app, NoDup_cons in Hnd. set_solver. }
  assert (ll c = (P ++ Q) ++ e :: R) as HL' by (rewrite HL; by rewrite <- !app_assoc).
  destruct (wf_lookup c Hwf e) as [kv Hkv]; [rewrite HL'; set_solver|].
  assert (length (Q ++ [e]) = S (length Q)) as -> by (rewrite length_app; simpl; lia).
  change (S (length Q) + m)%nat with (S (length Q + m)).
  destruct (pruneLoop_visit (length Q + m) c w now deadline clock checked removed e kv Hwf)
    as [w1 E]; [done| |done|].
  { destruct Hcur as [Hc|[Hc ->]].
    - left. rewrite Hc, app_assoc. apply last_snoc.
    - right. split; [done|]. rewrite HL', last_app_cons. done. }
  rewrite E. clear E.
  destruct (visit_ok c e kv now Hwf Hkv) as (Hwv & _ & _ & _ & _ & _ & Hcv & Hlv).
  rewrite HL' in Hcv, Hlv. rewrite prev_of_app in Hcv by done.
  assert (ll (visit c e kv now) = P ++ Q ++ (if expired kv now then R else e :: R)) as Hlv'.
  { rewrite Hlv. case_match; [|by rewrite <- app_assoc].
    rewrite unlink_middle by done. by rewrite <- app_assoc. }
  destruct (IH (if expired kv now then R else e :: R) (visit c e kv now) w1 (checked + 1)
    (if expired kv now then removed + 1 else removed)) as (c' & w' & rm & R' & E & Hp & HL2 & HR' & Hc2); auto.
  rewrite E. exists c', w', rm, (if expired kv now then R' else R' ++ [e]).
  split; [f_equal; lia|]. split; [by eapply pruned_trans, Hp; apply visit_pruned|].
  split; [rewrite HL2; case_match; [done|]; by rewrite <- app_assoc|]. split.
  - assert (forall e', e' ∈ R' -> e' ∈ Q /\ exists kv', elems c !! e' = Some kv' /\ expired kv' now = false) as HQ.
    { intros e' [Hin (kv' & Hkv' & Hx)]%HR'. split; [done|]. exists kv'. split; [|done].
      eapply lookup_weaken; [exact Hkv'|]. by apply visit_pruned. }
    assert (forall e', e' ∈ R' -> e' ∈ Q ++ [e] /\ exists kv', elems c !! e' = Some kv' /\ expired kv' now = false)
      as HQ2 by (intros e' [? ?]%HQ; split; [by apply elem_of_app; left|done]).
    intros e' He'. destruct (expired kv now) eqn:Hx; [by apply HQ2|].
    apply elem_of_app in He' as [He'|He'%list_elem_of_singleton]; [by apply HQ2|subst].
    split; [by apply elem_of_app; right; constructor|eauto].
  - intros _. apply Hc2. by left.
Qed.

Lemma wf_cursor_split c :
  wf c -> exists A B, ll c = A ++ B /\ expireCursor c = last A.
Proof.
  intros Hwf. destruct (expireCursor c) as [e|] eqn:E.
  - apply (wf_cursor c Hwf), list_elem_of_split in E as (A & B & HL).
    exists (A ++ [e]), B. rewrite last_snoc, <- app_assoc. done.
  - by exists [], (ll c).
Qed.

(** With entries and time enough one call visits the whole list, wherever the
    cursor was left. *)
Lemma PruneExpired_sweeps c now limit budget start clock w :
  wf c -> CacheLen c <= limit -> 0 < budget ->
  (forall i, Before (clock i) (start + budget) = true) ->
  exists c' w' rm,
    PruneExpired c now limit budget start clock w = Some (c', w', CacheLen c, rm) /\
    pruned now c c' /\ (forall kv, kv ∈ contents c' -> expired kv now = false).
Proof.
  unfold CacheLen. intros Hwf Hlim Hbud Ht. unfold PruneExpired.
  destruct (wf_cursor_split c Hwf) as (A & B & HL & Hcur).
  destruct (limit <=? 0) eqn:El; simpl.
  { reflect_bool. assert (ll c = []) as Hnil by (destruct (ll c); simpl in *; [done|lia]).
    exists c, w, 0. rewrite Hnil. split; [done|]. split; [by apply pruned_refl|].
    unfold contents. rewrite Hnil. set_solver. }
  rewrite (proj2 (Z.leb_gt budget 0)) by lia. rewrite Z.min_r, Nat2Z.id by lia.
  rewrite HL, length_app.
  destruct (sweep A [] B c w now (start + budget) clock 0 0 (length B)) as
    (c1 & w1 & rm1 & A' & -> & Hp1 & HL1 & HA' & Hc1); auto.
  destruct (sweep B A' [] c1 w1 now (start + budget) clock (0 + Z.of_nat (length A)) rm1 0)
    as (c2 & w2 & rm2 & B' & E & Hp2 & HL2 & HB' & _); auto.
  { apply Hp1. } { simpl in HL1. by rewrite app_nil_r. }
  rewrite Nat.add_0_r in E. rewrite E. simpl. exists c2, w2, rm2.
  split; [rewrite Nat2Z.inj_add, Z.add_0_l; done|]. split; [by eapply pruned_trans|].
  intros kv (e & He & Hkv)%list_elem_of_omap. rewrite HL2, app_nil_r in He.
  assert (elems c2 ⊆ elems c1 /\ elems c1 ⊆ elems c) as [M2 M1] by (split; [apply Hp2|apply Hp1]).
  assert (exists kv', elems c !! e = Some kv' /\ expired kv' now = false) as (kv' & H1 & H2).
  { apply elem_of_app in He as [He|He]; [naive_solver|].
    destruct (HB' e He) as [_ (kv' & H1 & H2)]. exists kv'. eauto using lookup_weaken. }
  assert (elems c !! e = Some kv) by eauto using lookup_weaken. congruence.
Qed.

(** ** The properties of the LRU *)

(** C11: [AddUntil] refines its abstract specification on every well-formed
    cache: it returns, keeps the invariant, leaves exactly the entries of
    [add_spec] in that recency order, meets the byte capacity, and calls
    [onEvicted] once per evicted entry, oldest first. *)
Theorem AddUntil_refines c key value expireAt w :
  wf c -> 0 <= bytesTotal c -> byteNow c + slen key + Len value < two63 ->
  exists c' evicted,
    AddUntil c key value expireAt w = Some (c', notify_all c (rev evicted) w) /\ wf c' /\
    contents c' = add_spec (bytesTotal c) (mkEntry key value expireAt) (contents c) /\
    contents c' ++ evicted = mkEntry key value expireAt :: drop_key key (contents c) /\
    (bytesTotal c <> 0 -> byteNow c' <= bytesTotal c).
Proof.
  intros Hwf Hcap Hfit. destruct (AddUntil_ok c key value expireAt w Hwf Hcap Hfit)
    as (c' & rest & H1 & H2 & H3 & H4 & H5 & _). exists c', rest. auto.
Qed.

(** [Get] refines its abstract specification: an absent key changes
    nothing, an expired entry is dropped and missed, a live entry is returned
    and becomes the most recent. *)
Theorem Get_refines c key now w :
  wf c -> exists c' w' r,
    Get c key now w = Some (c', w', r) /\ wf c' /\ (contents c', r) = get_spec now key (contents c).
Proof.
  intros Hwf. destruct (Get_ok c key now w Hwf) as (c' & w' & H1 & H2 & H3 & _).
  eexists c', w', _. split; [exact H1|]. split; [done|]. rewrite H3.
  by destruct (get_spec now key (contents c)).
Qed.

(** One [PruneExpired] call returns with at most [limit] entries checked
    and no more removed than checked; it removes expired entries only, keeps
    the recency order of the others, and reports the number removed. *)
Theorem PruneExpired_bounded c now limit budget start clock w :
  wf c -> exists c' w' checked removed,
    PruneExpired c now limit budget start clock w = Some (c', w', checked, removed) /\ wf c' /\
    0 <= removed <= checked /\ checked <= Z.max 0 limit /\ checked <= CacheLen c /\
    contents c' `sublist_of` contents c /\
    (forall kv, kv ∈ contents c -> kv ∈ contents c' \/ expired kv now = true) /\
    CacheLen c' = CacheLen c - removed.
Proof.
  intros Hwf. destruct (PruneExpired_pruned c now limit budget start clock w Hwf)
    as (c' & w' & ch & rm & H & (Hw & Hs & Hx & _) & Hcount).
  exists c', w', ch, rm. split; [done|]. split; [done|]. split_and!; auto; lia.
Qed.

(** A [PruneExpired] call whose entry bound covers the cache and whose
    time budget is not exhausted visits every entry once from wherever the
    persistent cursor stood, so no expired entry survives it. *)
Theorem PruneExpired_complete c now limit budget start clock w :
  wf c -> CacheLen c <= limit -> 0 < budget ->
  (forall i, Before (clock i) (start + budget) = true) ->
  exists c' w' removed,
    PruneExpired c now limit budget start clock w = Some (c', w', CacheLen c, removed) /\
    wf c' /\ (forall kv, kv ∈ contents c' -> expired kv now = false) /\
    (forall kv, kv ∈ contents c -> expired kv now = false -> kv ∈ contents c').
Proof.
  intros Hwf Hl Hb Ht. destruct (PruneExpired_sweeps c now limit budget start clock w Hwf Hl Hb Ht)
    as (c' & w' & rm & H1 & (Hw & _ & Hx & _) & H3).
  exists c', w', rm. split_and!; auto. intros kv Hin Hf. destruct (Hx kv Hin); [done|congruence].
Qed.

End LRU.

(** ** Witnesses *)

#[local] Instance bytes_value : Value bytes := {| Len := blen; Len_nonneg := blen_nonneg |}.

(** Three entries, the oldest expired at time 5, the cursor on the middle. *)
Definition sample : Cache (V := bytes) (W := Z) :=
  mkCache 100 12 [2%nat; 1%nat; 0%nat]
    (list_to_map [(0%nat, mkEntry "aa" [Byte.x00; Byte.x01] 5);
                  (1%nat, mkEntry "bb" [Byte.x02; Byte.x03] 50);
                  (2%nat, mkEntry "cc" [Byte.x04; Byte.x05] 0)])
    (list_to_map [("aa", 0%nat); ("bb", 1%nat); ("cc", 2%nat)])
    (Some (fun _ _ n => u64 (n + 1))) (Some 1%nat) 3%nat.

Lemma sample_wf : wf sample.
Proof. apply wfb_sound. vm_compute. reflexivity. Qed.

Lemma AddUntil_refines_witness :
  exists c' evicted,
    AddUntil sample "dd" [Byte.x06] 70 7 = Some (c', notify_all sample (rev evicted) 7) /\ wf c' /\
    contents c' = add_spec 100 (mkEntry "dd" [Byte.x06] 70) (contents sample) /\
    contents c' ++ evicted = mkEntry "dd" [Byte.x06] 70 :: drop_key "dd" (contents sample) /\
    (100 <> 0 -> byteNow c' <= 100).
Proof. apply (AddUntil_refines sample "dd" [Byte.x06] 70 7 sample_wf); vm_compute; congruence. Defined.

Lemma Get_refines_witness :
  exists c' w' r, Get sample "bb" 10 0 = Some (c', w', r) /\ wf c' /\
    (contents c', r) = get_spec 10 "bb" (contents sample).
Proof. exact (Get_refines sample "bb" 10 0 sample_wf). Defined.

Lemma PruneExpired_bounded_witness :
  exists c' w' checked removed,
    PruneExpired sample 10 2 5 0 (fun _ => 1) 0 = Some (c', w', checked, removed) /\ wf c' /\
    0 <= removed <= checked /\ checked <= Z.max 0 2 /\ checked <= CacheLen sample /\
    contents c' `sublist_of` contents sample /\
    (forall kv, kv ∈ contents sample -> kv ∈ contents c' \/ expired kv 10 = true) /\
    CacheLen c' = CacheLen sample - removed.
Proof. exact (PruneExpired_bounded sample 10 2 5 0 (fun _ => 1) 0 sample_wf). Defined.

Lemma PruneExpired_complete_witness :
  exists c' w' removed,
    PruneExpired sample 10 3 5 0 (fun _ => 1) 0 = Some (c', w', CacheLen sample, removed) /\
    wf c' /\ (forall kv, kv ∈ contents c' -> expired kv 10 = false) /\
    (forall kv, kv ∈ contents sample -> expired kv 10 = false -> kv ∈ contents c').
Proof.
  apply (PruneExpired_complete sample 10 3 5 0 (fun _ => 1) 0 sample_wf);
    [vm_compute; congruence|lia|reflexivity].
Defined.

(** What the calls of the witnesses compute. *)
Example sample_get : option_map (fun '(c, _, r) => (ll c, r)) (Get sample "bb" 10 0)
  = Some ([1; 2; 0]%nat, Some [Byte.x02; Byte.x03]).
Proof. vm_compute. reflexivity. Qed.

Example sample_prune :
  option_map (fun '(c, n, ch, rm) => (ll c, n, ch, rm)) (PruneExpired sample 10 3 5 0 (fun _ => 1) 0)
  = Some ([2; 1]%nat, 1, 3, 1).
Proof. vm_compute. reflexivity. Qed.

End LRU.
