(* ===== verification/CacheStore.v ===== *)
(** * The synchronized byte-limited cache ([internal/cache/cache.go])

    [cache] wraps the LRU with a mutex and a lazily created LRU of bounded
    size. Each method runs under the mutex from its first statement to its
    last, so a method is one atomic function here; [TryLock] failing is an
    argument of [cleanExpired]. [t1], [t2], ... are the readings of successive
    [time.Now()] calls of one method. *)
From S2P Require Import Prelude GoStrings Errors LRU.

Record ByteView := mkView {
  b : bytes;
  expiresAt : Time;
  version : Z;
}.

Definition Version (bv : ByteView) : Z := version bv.
Definition RemainingTTL (bv : ByteView) (now : Time) : Duration :=
  if IsZero (expiresAt bv) then 0 else Z.max 0 (expiresAt bv - now).
Definition ViewLen (bv : ByteView) : Z := blen (b bv).
Definition cloneBytes (input : bytes) : bytes := input.
Definition ByteSlice (bv : ByteView) : bytes := cloneBytes (b bv).
Definition ViewString (bv : ByteView) : string := String.string_of_list_byte (b bv).

(** [WriteTo]: [Write] is the writer, returning what it wrote and its error. *)
Definition WriteTo (bv : ByteView) (Write : bytes -> Z * option error) : Z * option error :=
  let '(n, err) := Write (b bv) in
  (n, match err with None => if n <? blen (b bv) then Some ErrShortWrite else None | e => e end).

#[export] Instance ByteView_Value : Value ByteView :=
  {| Len := ViewLen; Len_nonneg := fun bv => blen_nonneg (b bv) |}.

(** The [lru.Value] the group stores, and the state its callback updates:
    the eviction counter. *)
Abbreviation lruCache := (LRU.Cache (V := ByteView) (W := Z)).

Record cache := mkCacheArea {
  lru : option lruCache;
  cacheBytes : Z;
  evictions : Z;
}.

Definition count_eviction (_ : string) (_ : ByteView) (n : Z) : Z := u64 (n + 1).

Definition remove (c : cache) (key : string) : option cache :=
  match lru c with
  | None => Some c
  | Some l => '(l', n) ← LRU.Remove l key (evictions c); Some (mkCacheArea (Some l') (cacheBytes c) n)
  end.

Definition set_expiresAt (v : ByteView) (t : Time) : ByteView := mkView (b v) t (version v).

Definition add (c : cache) (key : string) (value : ByteView) (ttl : Duration) (t1 t2 : Time)
    : option (cache * ByteView) :=
  if cacheBytes c <? i64 (slen key + ViewLen value) then
    c' ← remove c key; Some (c', set_expiresAt value 0)
  else
    let deadline := t1 + ttl in
    let deadline := if negb (IsZero (expiresAt value)) && Before (expiresAt value) deadline
                    then expiresAt value else deadline in
    if negb (After deadline t2) then c' ← remove c key; Some (c', value)
    else
      let value := set_expiresAt value deadline in
      let l := match lru c with
               | Some l => l
               | None => LRU.New (cacheBytes c) (Some count_eviction)
               end in
      '(l', n) ← LRU.AddUntil l key value deadline (evictions c);
      Some (mkCacheArea (Some l') (cacheBytes c) n, value).

Record Stats := mkStats {
  VersionRecords : Z;
  VersionCapacity : Z;
  VersionEvictions : Z;
  StatBytes : Z;
  Capacity : Z;
  Entries : Z;
  Removals : Z;
}.

Definition stats (c : cache) : Stats :=
  match lru c with
  | Some l => mkStats 0 0 0 (LRU.Bytes l) (cacheBytes c) (LRU.CacheLen l) (evictions c)
  | None => mkStats 0 0 0 0 (cacheBytes c) 0 (evictions c)
  end.

Definition get (c : cache) (key : string) (now : Time) : option (cache * option ByteView) :=
  match lru c with
  | None => Some (c, None)
  | Some l =>
      '(l', n, r) ← LRU.Get l key now (evictions c);
      Some (mkCacheArea (Some l') (cacheBytes c) n, r)
  end.

Definition cache_version (c : cache) (key : string) (now : Time) : option (cache * Z) :=
  match lru c with
  | None => Some (c, 0)
  | Some l =>
      '(l', n, r) ← LRU.Peek l key now (evictions c);
      Some (mkCacheArea (Some l') (cacheBytes c) n,
            match r with Some v => Version v | None => 0 end)
  end.

Definition cleanupBudget : Duration := 2 * Millisecond.

(** [locked]: the mutex is held by another goroutine. *)
Definition cleanExpired (c : cache) (limit : Z) (locked : bool) (now start : Time)
    (clock : nat -> Time) : option (cache * Z * Z * bool) :=
  if locked then Some (c, 0, 0, true)
  else match lru c with
  | None => Some (c, 0, 0, false)
  | Some l =>
      '(l', n, checked, removed) ← LRU.PruneExpired l now limit cleanupBudget start clock (evictions c);
      Some (mkCacheArea (Some l') (cacheBytes c) n, checked, removed, false)
  end.

(** ** Interface

    What the group relies on: a store of views by key whose operations return,
    only ever lose entries, and add nothing but the view they were given. *)
Class Store (C : Type) := {
  st_inv : C -> Prop;
  st_resident : C -> gmap string ByteView;
  st_get : C -> string -> Time -> option (C * option ByteView);
  st_add : C -> string -> ByteView -> Duration -> Time -> Time -> option (C * ByteView);
  st_remove : C -> string -> option C;
  st_version : C -> string -> Time -> option (C * Z);
  st_clean : C -> Z -> bool -> Time -> Time -> (nat -> Time) -> option (C * Z * Z * bool);
  st_stats : C -> Stats;
}.

Class StoreLaws (C : Type) `{Store C} := {
  st_get_ok : forall c key now, st_inv c ->
    exists c' r, st_get c key now = Some (c', r) /\ st_inv c' /\
      st_resident c' ⊆ st_resident c /\ r = st_resident c' !! key;
  st_version_ok : forall c key now, st_inv c ->
    exists c', st_version c key now
        = Some (c', match st_resident c' !! key with Some v => version v | None => 0 end) /\
      st_inv c' /\ st_resident c' ⊆ st_resident c;
  st_remove_ok : forall c key, st_inv c ->
    exists c', st_remove c key = Some c' /\ st_inv c' /\
      st_resident c' = delete key (st_resident c);
  st_add_ok : forall c key v ttl t1 t2, st_inv c -> slen key + ViewLen v < two63 ->
    exists c' v', st_add c key v ttl t1 t2 = Some (c', v') /\ st_inv c' /\
      st_resident c' ⊆ <[key := v']> (st_resident c) /\
      b v' = b v /\ version v' = version v;
  st_clean_ok : forall c limit locked now start clock, st_inv c ->
    exists c' ch rm busy, st_clean c limit locked now start clock = Some (c', ch, rm, busy) /\
      st_inv c' /\ st_resident c' ⊆ st_resident c /\ 0 <= rm <= ch /\ ch <= Z.max 0 limit /\
      (forall k v, st_resident c !! k = Some v ->
         st_resident c' !! k = Some v \/ expiresAt v <> 0 /\ expiresAt v <= now);
}.

(** ** Invariant of [cache] *)
Definition view_ok (kv : LRU.entry (V := ByteView)) : Prop :=
  LRU.e_expireAt kv = expiresAt (LRU.e_value kv).

Definition lru_ok (cap : Z) (l : lruCache) : Prop :=
  LRU.wf l /\ LRU.bytesTotal l = cap /\ LRU.byteNow l <= cap /\
  LRU.onEvicted l = Some count_eviction /\ Forall view_ok (LRU.contents l).

Definition cwf (c : cache) : Prop :=
  0 < cacheBytes c < 2 ^ 62 /\
  match lru c with Some l => lru_ok (cacheBytes c) l | None => True end.

Definition resident (c : cache) : gmap string ByteView :=
  match lru c with Some l => LRU.resident l | None => ∅ end.

#[export] Instance cache_Store : Store cache := {|
  st_inv := cwf; st_resident := resident; st_get := get; st_add := add;
  st_remove := remove; st_version := cache_version; st_clean := cleanExpired; st_stats := stats;
|}.

(** ** Lemmas *)

Lemma Forall_sublist {A} (P : A -> Prop) (l1 l2 : list A) :
  l1 `sublist_of` l2 -> Forall P l2 -> Forall P l1.
Proof. intros Hs. induction Hs; inversion 1; subst; auto. Qed.

Lemma lru_ok_New cap : 0 < cap < 2 ^ 62 -> lru_ok cap (LRU.New cap (Some count_eviction)).
Proof.
  intros H. split_and!; simpl; auto using LRU.wf_New; lia.
Qed.

Lemma lru_ok_sub cap l l' :
  lru_ok cap l -> LRU.wf l' -> LRU.contents l' `sublist_of` LRU.contents l ->
  LRU.bytesTotal l' = LRU.bytesTotal l -> LRU.onEvicted l' = LRU.onEvicted l ->
  LRU.byteNow l' <= LRU.byteNow l -> lru_ok cap l'.
Proof.
  intros (Hw & Ht & Hb & Ho & Hf) Hw' Hs Ht' Ho' Hb'.
  split_and!; auto; [congruence|lia|congruence|by eapply Forall_sublist].
Qed.

Lemma drop_key_sublist k (l : list (LRU.entry (V := ByteView))) : LRU.drop_key k l `sublist_of` l.
Proof. apply sublist_filter. Qed.

Lemma remove_ok c key :
  cwf c -> exists c', remove c key = Some c' /\ cwf c' /\ resident c' = delete key (resident c) /\
    cacheBytes c' = cacheBytes c.
Proof.
  intros [Hcap Hl]. unfold remove, resident. destruct (lru c) as [l|] eqn:E.
  - destruct (LRU.Remove_ok l key (evictions c) (proj1 Hl)) as
      (l' & n & -> & Hw & HC & HR & HT & HO & HB).
    eexists. split; [done|]. split_and!; auto. split; [done|]. simpl.
    eapply lru_ok_sub; eauto. rewrite HC. apply drop_key_sublist.
  - exists c. rewrite E. split_and!; [done|split; [done|by rewrite E]|by rewrite delete_empty|done].
Qed.

Lemma get_ok c key now :
  cwf c -> exists c' r, get c key now = Some (c', r) /\ cwf c' /\
    resident c' ⊆ resident c /\ r = resident c' !! key.
Proof.
  intros [Hcap Hl]. unfold get, resident. destruct (lru c) as [l|] eqn:E.
  2:{ exists c, None. rewrite E. split_and!; auto. split; [done|by rewrite E]. }
  destruct Hl as (Hw & HT0 & HB0 & HO0 & HF).
  destruct (LRU.Get_ok l key now (evictions c) Hw) as (l' & n & -> & Hw' & HC & HR & HT & HO & HB).
  eexists _, _. split; [done|]. simpl.
  assert (LRU.contents l' = fst (LRU.get_spec now key (LRU.contents l))) as HC' by done.
  split_and!; auto.
  - split; [done|]. split_and!; auto; simpl; [congruence|lia|congruence|].
    rewrite HC'. unfold LRU.get_spec. destruct (LRU.find_key key (LRU.contents l)) as [kv|] eqn:Ef; [|done].
    assert (Forall view_ok (LRU.drop_key key (LRU.contents l)))
      by (eapply Forall_sublist; [apply drop_key_sublist|done]).
    case_match; simpl; [done|]. constructor; [|done].
    apply head_Some_elem_of, list_elem_of_filter in Ef as [_ Ef]. by eapply Forall_forall in HF.
  - rewrite (LRU.resident_find l' key Hw'), HC'. unfold LRU.get_spec.
    destruct (LRU.find_key key (LRU.contents l)) as [kv|] eqn:Ef; simpl; [|by rewrite Ef].
    assert (LRU.find_key key (LRU.drop_key key (LRU.contents l)) = None) as Hnone.
    { unfold LRU.find_key. rewrite filter_all_false; [done|]. intros x [_ Hx]%LRU.elem_of_drop_key; done. }
    case_match; simpl; [by rewrite Hnone|].
    apply head_Some_elem_of, list_elem_of_filter in Ef as [<- _].
    unfold LRU.find_key. by rewrite filter_cons_True.
Qed.

Lemma version_ok c key now :
  cwf c -> exists c', cache_version c key now
      = Some (c', match resident c' !! key with Some v => version v | None => 0 end) /\
    cwf c' /\ resident c' ⊆ resident c.
Proof.
  intros [Hcap Hl]. unfold cache_version, resident. destruct (lru c) as [l|] eqn:E.
  2:{ exists c. rewrite E. split_and!; auto. split; [done|by rewrite E]. }
  destruct (LRU.Peek_ok l key now (evictions c) (proj1 Hl)) as
    (l' & n & -> & Hw' & HC & HR & HT & HO & HB & Hv).
  exists (mkCacheArea (Some l') (cacheBytes c) n). simpl. rewrite Hv.
  split; [done|]. split; [|done]. split; [done|].
  eapply lru_ok_sub; eauto. destruct HC as [[-> _]|(kv & _ & _ & -> & _)]; [done|apply drop_key_sublist].
Qed.

(** An entry of the list is the resident view of its key, and conversely. *)
Lemma resident_contents (l : lruCache) k v :
  LRU.wf l -> LRU.resident l !! k = Some v <->
  exists kv, kv ∈ LRU.contents l /\ LRU.e_key kv = k /\ LRU.e_value kv = v.
Proof.
  intros Hw. rewrite LRU.resident_find by done. split.
  - intros (kv & Hv & E)%fmap_Some. unfold LRU.find_key in Hv.
    apply head_Some_elem_of, list_elem_of_filter in Hv as [Hk Hin]. eauto.
  - intros (kv & Hin & <- & <-). apply list_elem_of_omap in Hin as (e & _ & Hkv).
    rewrite LRU.find_key_contents, (LRU.wf_indexed l Hw e kv Hkv) by done. simpl. by rewrite Hkv.
Qed.

Lemma pruned_keeps (l l' : lruCache) now k v :
  LRU.wf l -> Forall view_ok (LRU.contents l) -> LRU.pruned now l l' -> LRU.resident l !! k = Some v ->
  LRU.resident l' !! k = Some v \/ expiresAt v <> 0 /\ expiresAt v <= now.
Proof.
  intros Hw HF (Hw' & _ & Hx & _) (kv & Hin & Hk & <-)%resident_contents; [|done].
  destruct (Hx kv Hin) as [Hin'|He].
  - left. apply resident_contents; eauto.
  - right. rewrite Forall_forall in HF. rewrite <- (HF kv Hin).
    unfold LRU.expired, IsZero, After in He. reflect_bool. lia.
Qed.

Lemma clean_ok c limit locked now start clock :
  cwf c -> exists c' ch rm busy, cleanExpired c limit locked now start clock = Some (c', ch, rm, busy) /\
    cwf c' /\ resident c' ⊆ resident c /\ 0 <= rm <= ch /\ ch <= Z.max 0 limit /\
    (forall k v, resident c !! k = Some v ->
       resident c' !! k = Some v \/ expiresAt v <> 0 /\ expiresAt v <= now).
Proof.
  intros [Hcap Hl]. unfold cleanExpired, resident. destruct locked.
  { exists c, 0, 0, true. split_and!; try lia; auto; by split. }
  destruct (lru c) as [l|] eqn:E.
  2:{ exists c, 0, 0, false. rewrite E. split_and!; try lia; auto. split; [done|by rewrite E]. }
  destruct (LRU.PruneExpired_pruned l now limit cleanupBudget start clock (evictions c) (proj1 Hl))
    as (l' & n & ch & rm & -> & Hp & Hrm & Hch & _).
  eexists _, _, _, _. simpl. split; [done|].
  assert (Forall view_ok (LRU.contents l)) by apply Hl.
  pose proof Hp as (Hw' & HS & _ & HR & HT & HO & HB & _).
  split_and!; try lia; auto; [split; [done|by eapply lru_ok_sub]|].
  intros k v. apply pruned_keeps; auto. apply Hl.
Qed.

Lemma lru_of_ok c : cwf c ->
  lru_ok (cacheBytes c) (match lru c with Some l => l | None => LRU.New (cacheBytes c) (Some count_eviction) end) /\
  LRU.resident (match lru c with Some l => l | None => LRU.New (cacheBytes c) (Some count_eviction) end)
    = resident c.
Proof.
  intros [Hcap Hl]. unfold resident. destruct (lru c); [done|]. split; [by apply lru_ok_New|].
  apply map_eq. intros k. unfold LRU.resident. simpl. by rewrite lookup_omap, !lookup_empty.
Qed.

(** The deadline a value gets when it is stored. *)
Definition deadline (value : ByteView) (ttl : Duration) (t1 : Time) : Time :=
  if negb (IsZero (expiresAt value)) && Before (expiresAt value) (t1 + ttl)
  then expiresAt value else t1 + ttl.

(** The storing branch of [add]: the view is the most recent entry. *)
Lemma add_stores c key v ttl t1 t2 :
  cwf c -> slen key + ViewLen v <= cacheBytes c -> t2 < deadline v ttl t1 ->
  exists l' n rest,
    add c key v ttl t1 t2
      = Some (mkCacheArea (Some l') (cacheBytes c) n, set_expiresAt v (deadline v ttl t1)) /\
    lru_ok (cacheBytes c) l' /\
    LRU.contents l' = LRU.mkEntry key (set_expiresAt v (deadline v ttl t1)) (deadline v ttl t1) :: rest /\
    LRU.resident l' ⊆ <[key := set_expiresAt v (deadline v ttl t1)]> (resident c).
Proof.
  intros Hc Hfit Hd. pose proof (lru_of_ok c Hc) as [(Hw & HT & HB & HO & HF) HR].
  pose proof Hc as [Hcap _].
  pose proof (slen_nonneg key). pose proof (blen_nonneg (b v)). unfold ViewLen in *.
  unfold add, ViewLen. rewrite i64_id by (unfold two63 in *; lia).
  rewrite (proj2 (Z.ltb_ge _ _)) by lia. fold (deadline v ttl t1).
  unfold After. rewrite (proj2 (Z.ltb_lt _ _)) by lia. simpl negb. cbv iota.
  set (l := match lru c with Some l => l | None => _ end) in *.
  set (v' := set_expiresAt v (deadline v ttl t1)) in *.
  destruct (LRU.AddUntil_ok l key v' (deadline v ttl t1) (evictions c) Hw) as
    (l' & rest & -> & Hw' & HC & HE & HB' & HR' & HT' & HO'); [lia| |].
  { simpl. unfold ViewLen. simpl. unfold two63. lia. }
  simpl. rewrite HT in HC, HB', HT'. rewrite HR in HR'.
  unfold LRU.add_spec in HC. rewrite (proj2 (Z.eqb_neq _ _)) in HC by lia. simpl in HC.
  assert (LRU.entry_bytes (LRU.mkEntry key v' (deadline v ttl t1)) <= cacheBytes c) as Hsz by done.
  rewrite (proj2 (Z.leb_le _ _)) in HC by done.
  eexists l', _, _. split; [done|]. split; [|split; [exact HC|done]].
  split_and!; [done|done|apply HB'; lia|congruence|].
  apply (Forall_sublist _ _ (LRU.mkEntry key v' (deadline v ttl t1) :: LRU.drop_key key (LRU.contents l))).
  - rewrite HE. by apply sublist_inserts_r.
  - constructor; [done|]. eapply Forall_sublist; [apply drop_key_sublist|done].
Qed.

Lemma add_drops c key v ttl t1 t2 :
  cwf c -> slen key + ViewLen v < two63 ->
  cacheBytes c < slen key + ViewLen v \/ deadline v ttl t1 <= t2 ->
  exists c' v', add c key v ttl t1 t2 = Some (c', v') /\ cwf c' /\
    resident c' = delete key (resident c) /\ b v' = b v /\ version v' = version v.
Proof.
  intros Hc Hlt Hcase. destruct (remove_ok c key Hc) as (c' & Hrm & Hc' & HR & HB).
  pose proof (slen_nonneg key). pose proof (blen_nonneg (b v)). unfold ViewLen in *.
  unfold add, ViewLen. rewrite i64_id by (unfold two63 in *; lia). rewrite Hrm. simpl.
  destruct (cacheBytes c <? slen key + blen (b v)) eqn:E; reflect_bool.
  { exists c', (set_expiresAt v 0). split_and!; auto. }
  fold (deadline v ttl t1). unfold After. rewrite (proj2 (Z.ltb_ge _ _)) by lia.
  exists c', v. split_and!; auto.
Qed.

Lemma add_ok c key v ttl t1 t2 :
  cwf c -> slen key + ViewLen v < two63 ->
  exists c' v', add c key v ttl t1 t2 = Some (c', v') /\ cwf c' /\
    resident c' ⊆ <[key := v']> (resident c) /\ b v' = b v /\ version v' = version v.
Proof.
  intros Hc Hlt.
  destruct (decide (slen key + ViewLen v <= cacheBytes c /\ t2 < deadline v ttl t1)) as [[H1 H2]|Hn].
  - destruct (add_stores c key v ttl t1 t2 Hc H1 H2) as (l' & n & rest & -> & Hl & _ & HR).
    eexists _, _. split; [done|]. split_and!; auto. split; [apply Hc|done].
  - destruct (add_drops c key v ttl t1 t2 Hc Hlt) as (c' & v' & -> & Hc' & HR & Hb & Hv); [lia|].
    exists c', v'. split_and!; auto. rewrite HR.
    apply insert_subseteq_r; [apply lookup_delete_eq|apply delete_subseteq].
Qed.

#[export] Instance cache_StoreLaws : StoreLaws cache.
Proof.
  split; simpl.
  - apply get_ok.
  - apply version_ok.
  - intros c key Hc. destruct (remove_ok c key Hc) as (c' & ? & ? & ? & _). eauto.
  - apply add_ok.
  - apply clean_ok.
Qed.

(** ** Runs of the area: any sequence of its methods *)
Inductive area_step : cache -> cache -> Prop :=
| step_add c key v ttl t1 t2 c' v' :
    slen key + ViewLen v < two63 -> add c key v ttl t1 t2 = Some (c', v') -> area_step c c'
| step_get c key now c' r : get c key now = Some (c', r) -> area_step c c'
| step_version c key now c' r : cache_version c key now = Some (c', r) -> area_step c c'
| step_remove c key c' : remove c key = Some c' -> area_step c c'
| step_clean c limit locked now start clock c' ch rm busy :
    cleanExpired c limit locked now start clock = Some (c', ch, rm, busy) -> area_step c c'.

(** A [cache] before its first insertion. *)
Definition fresh_area (capacity : Z) : cache := mkCacheArea None capacity 0.

Lemma remove_cap c key c' : remove c key = Some c' -> cacheBytes c' = cacheBytes c.
Proof.
  unfold remove. destruct (lru c); [|congruence].
  intros ([l' n] & _ & [= <-])%bind_Some. done.
Qed.

Lemma area_step_cap c c' : area_step c c' -> cacheBytes c' = cacheBytes c.
Proof.
  destruct 1 as [c key v ttl t1 t2 c' v' _ H|c key now c' r H|c key now c' r H|c key c' H
                |c limit locked now start clock c' ch rm busy H].
  - unfold add in H. case_match; [|case_match].
    1,2: apply bind_Some in H as (c1 & Hr & [= <- _]); by eapply remove_cap.
    apply bind_Some in H as ([l' n] & _ & [= <- _]). done.
  - unfold get in H. case_match; [|congruence].
    apply bind_Some in H as ([[l' n] r'] & _ & [= <- _]). done.
  - unfold cache_version in H. case_match; [|congruence].
    apply bind_Some in H as ([[l' n] r'] & _ & [= <- _]). done.
  - by eapply remove_cap.
  - unfold cleanExpired in H. case_match; [congruence|]. case_match; [|congruence].
    apply bind_Some in H as ([[[l' n] ch'] rm'] & _ & [= <- _]). done.
Qed.

Lemma area_step_cwf c c' : cwf c -> area_step c c' -> cwf c'.
Proof.
  intros Hc. destruct 1 as [c key v ttl t1 t2 c' v' Hlt H|c key now c' r H|c key now c' r H|c key c' H
                |c limit locked now start clock c' ch rm busy H].
  - destruct (add_ok c key v ttl t1 t2 Hc Hlt) as (? & ? & ? & ? & _). congruence.
  - destruct (get_ok c key now Hc) as (? & ? & ? & ? & _). congruence.
  - destruct (version_ok c key now Hc) as (? & ? & ? & _). congruence.
  - destruct (remove_ok c key Hc) as (? & ? & ? & _). congruence.
  - destruct (clean_ok c limit locked now start clock Hc) as (? & ? & ? & ? & ? & ? & _). congruence.
Qed.

Lemma fresh_cwf capacity : 0 < capacity < 2 ^ 62 -> cwf (fresh_area capacity).
Proof. by split. Qed.

(** Whatever methods run on a fresh area, the logical bytes it reports are
    the sum of its entries' key and value lengths and never exceed its
    capacity, and every entry is filed under the deadline its view carries. *)
Theorem area_capacity capacity c :
  0 < capacity < 2 ^ 62 -> rtc area_step (fresh_area capacity) c ->
  Capacity (stats c) = capacity /\ 0 <= StatBytes (stats c) <= capacity /\
  match lru c with
  | Some l => StatBytes (stats c) = Zsum LRU.entry_bytes (LRU.contents l) /\
              Entries (stats c) = Z.of_nat (length (LRU.contents l)) /\
              Forall view_ok (LRU.contents l)
  | None => StatBytes (stats c) = 0
  end.
Proof.
  intros Hcap Hrun.
  assert (cwf c /\ cacheBytes c = capacity) as [[_ Hl] Hb].
  { remember (fresh_area capacity) as c0 eqn:E0.
    assert (cwf c0 /\ cacheBytes c0 = capacity) as H0 by (subst; split; [by apply fresh_cwf|done]).
    clear E0. induction Hrun as [|c0 c1 c2 Hs _ IH]; [done|]. apply IH. destruct H0 as [H1 H2].
    split; [by eapply area_step_cwf|]. by rewrite (area_step_cap _ _ Hs). }
  unfold stats. destruct (lru c) as [l|]; simpl; [|split_and!; auto; lia].
  destruct Hl as (Hw & HT & HB & HO & HF). pose proof (LRU.wf_bytes_nonneg l Hw).
  unfold LRU.Bytes, LRU.CacheLen. rewrite <- (LRU.wf_bytes l Hw), (LRU.length_contents l Hw).
  split_and!; auto; lia.
Qed.

(** A value that fits and whose deadline is in the future is stored: [add]
    returns it with a deadline no later than its TTL and its own deadline, and
    until then [get] answers it with the same bytes and version. *)
Theorem add_then_get c key v ttl t1 t2 now :
  cwf c -> slen key + ViewLen v <= cacheBytes c -> t2 < deadline v ttl t1 ->
  exists c' v', add c key v ttl t1 t2 = Some (c', v') /\ cwf c' /\
    b v' = b v /\ version v' = version v /\ expiresAt v' <= t1 + ttl /\
    (expiresAt v <> 0 -> expiresAt v' <= expiresAt v) /\
    (now < expiresAt v' -> exists c'', get c' key now = Some (c'', Some v')).
Proof.
  intros Hc Hfit Hd. destruct (add_stores c key v ttl t1 t2 Hc Hfit Hd) as (l' & n & rest & -> & Hl & HC & _).
  eexists _, _. split; [done|]. split; [split; [apply Hc|done]|].
  split_and!; [done|done| | |].
  - simpl. unfold deadline, IsZero, Before in *. case_bool; reflect_bool; lia.
  - simpl. unfold deadline, IsZero, Before in *. intros Hne.
    destruct (expiresAt v =? 0) eqn:E; reflect_bool; [done|]. simpl. case_bool; reflect_bool; lia.
  - simpl. intros Hnow. unfold get. simpl.
    destruct (LRU.Get_ok l' key now n (proj1 Hl)) as (l2 & n2 & HG & _).
    rewrite HG. simpl. rewrite HC. unfold LRU.get_spec, LRU.find_key.
    rewrite filter_cons_True by done. simpl. unfold LRU.expired, IsZero, After. simpl.
    rewrite (proj2 (Z.ltb_lt now _)) by done. rewrite andb_false_r. simpl. eauto.
Qed.

(** ** Witnesses *)

Definition sample_area : cache :=
  match add (fresh_area 10) "abc" (mkView [Byte.x01] 0 7) 100 5 6 with
  | Some (c, _) => c | None => fresh_area 10 end.

Lemma sample_area_run : rtc area_step (fresh_area 10) sample_area.
Proof.
  unfold sample_area.
  destruct (add (fresh_area 10) "abc" (mkView [Byte.x01] 0 7) 100 5 6) as [[c v']|] eqn:E;
    [|apply rtc_refl].
  eapply rtc_once, step_add, E. reflexivity.
Qed.

Lemma area_capacity_witness :
  Capacity (stats sample_area) = 10 /\ 0 <= StatBytes (stats sample_area) <= 10 /\
  StatBytes (stats sample_area) = 4.
Proof.
  destruct (area_capacity 10 sample_area ltac:(lia) sample_area_run) as (H1 & H2 & _).
  split; [exact H1|]. split; [exact H2|]. vm_compute. reflexivity.
Defined.

Lemma add_then_get_witness :
  exists c' v', add (fresh_area 10) "abc" (mkView [Byte.x01] 0 7) 100 5 6 = Some (c', v') /\ cwf c' /\
    b v' = [Byte.x01] /\ version v' = 7 /\ expiresAt v' <= 5 + 100 /\
    (0 <> 0 -> expiresAt v' <= 0) /\
    (50 < expiresAt v' -> exists c'', get c' "abc" 50 = Some (c'', Some v')).
Proof.
  apply (add_then_get (fresh_area 10) "abc" (mkView [Byte.x01] 0 7) 100 5 6 50);
    [by apply fresh_cwf|vm_compute; congruence|vm_compute; reflexivity].
Defined.
