(* ===== verification/Bloom.v ===== *)
(** * The Bloom filter of known keys ([internal/cache/bloomfilter.go])

    Bit operations are on [uint64] words. An index out of range or the panic
    of the constructor is [None]. The two sizing expressions of
    [newBloomForKeys] are floating-point formulas; their integer values are
    the arguments [optimalBits] and [optimalHashes]. *)
From S2P Require Import Prelude GoStrings.

Record BloomFilter := mkBloom {
  bitset : list Z;
  size : Z;
  hashes : Z;
}.

Definition NewBloomFilter (size hashes : Z) : option BloomFilter :=
  if (size =? 0) || (hashes =? 0) then None
  else Some (mkBloom (replicate (Z.to_nat ((size - 1) / 64 + 1)) 0) size hashes).

(** FNV-1a and FNV-1 over 64 bits ([hash/fnv]). *)
Definition fnv_offset : Z := 14695981039346656037.
Definition fnv_prime : Z := 1099511628211.
Fixpoint fnv1a (hash : Z) (key : string) : Z :=
  match key with
  | EmptyString => hash
  | String c key' => fnv1a (u64 (Z.lxor hash (byteval c) * fnv_prime)) key'
  end.
Fixpoint fnv1 (hash : Z) (key : string) : Z :=
  match key with
  | EmptyString => hash
  | String c key' => fnv1 (Z.lxor (u64 (hash * fnv_prime)) (byteval c)) key'
  end.

Definition bloomHashes (key : string) : Z * Z :=
  (fnv1a fnv_offset key, Z.lor (fnv1 fnv_offset key) 1).

(** The bit position of probe [i]. *)
Definition probe (bf : BloomFilter) (h1 h2 : Z) (i : nat) : Z :=
  u64 (h1 + u64 (Z.of_nat i * h2)) mod size bf.

(** One iteration of [Add]: [bf.bitset[idx/64] |= 1 << (idx % 64)]. *)
Definition set_bit (ws : list Z) (idx : Z) : option (list Z) :=
  w ← ws !! Z.to_nat (idx / 64);
  Some (<[Z.to_nat (idx / 64) := Z.lor w (Z.shiftl 1 (idx mod 64))]> ws).

Fixpoint add_from (n : nat) (bf : BloomFilter) (h1 h2 : Z) (i : nat) (ws : list Z) : option (list Z) :=
  match n with
  | O => Some ws
  | S n' => ws' ← set_bit ws (probe bf h1 h2 i); add_from n' bf h1 h2 (S i) ws'
  end.

Definition Add (bf : BloomFilter) (key : string) : option BloomFilter :=
  let '(h1, h2) := bloomHashes key in
  ws ← add_from (Z.to_nat (hashes bf)) bf h1 h2 0 (bitset bf);
  Some (mkBloom ws (size bf) (hashes bf)).

Fixpoint contains_from (n : nat) (bf : BloomFilter) (h1 h2 : Z) (i : nat) : option bool :=
  match n with
  | O => Some true
  | S n' =>
      let idx := probe bf h1 h2 i in
      w ← bitset bf !! Z.to_nat (idx / 64);
      if Z.land w (Z.shiftl 1 (idx mod 64)) =? 0 then Some false
      else contains_from n' bf h1 h2 (S i)
  end.

Definition Contains (bf : BloomFilter) (key : string) : option bool :=
  let '(h1, h2) := bloomHashes key in
  contains_from (Z.to_nat (hashes bf)) bf h1 h2 0.

Fixpoint add_all (bf : BloomFilter) (keys : list string) : option BloomFilter :=
  match keys with
  | [] => Some bf
  | key :: keys' => bf' ← Add bf key; add_all bf' keys'
  end.

Definition newBloomForKeys (optimalBits : Z -> Z) (optimalHashes : Z -> Z -> Z)
    (keys : list string) : option BloomFilter :=
  let n := Z.of_nat (length keys) in
  let bits := if optimalBits n <? 64 then 64 else optimalBits n in
  let hashes := if 0 <? n then Z.max 1 (optimalHashes bits n) else 1 in
  bf ← NewBloomFilter bits hashes;
  add_all bf keys.

(** ** Invariant and the abstract reading: the set of bits that are on. *)
Definition bwf (bf : BloomFilter) : Prop :=
  0 < size bf /\ length (bitset bf) = Z.to_nat ((size bf - 1) / 64 + 1).

Definition bit_on (ws : list Z) (idx : Z) : Prop :=
  exists w, ws !! Z.to_nat (idx / 64) = Some w /\ Z.testbit w (idx mod 64) = true.

(** Every probe of the key is on. *)
Definition marked (bf : BloomFilter) (key : string) : Prop :=
  forall i, (i < Z.to_nat (hashes bf))%nat ->
    bit_on (bitset bf) (probe bf (bloomHashes key).1 (bloomHashes key).2 i).

(** ** Lemmas *)

Lemma probe_range bf h1 h2 i : 0 < size bf -> 0 <= probe bf h1 h2 i < size bf.
Proof. intros. apply Z.mod_pos_bound. done. Qed.

Lemma word_in_range bf (ws : list Z) idx :
  0 < size bf -> length ws = Z.to_nat ((size bf - 1) / 64 + 1) -> 0 <= idx < size bf ->
  exists w, ws !! Z.to_nat (idx / 64) = Some w.
Proof.
  intros Hs Hl Hi. apply lookup_lt_is_Some. rewrite Hl.
  pose proof (Z.div_pos idx 64). pose proof (Z.div_le_mono idx (size bf - 1) 64). lia.
Qed.

Lemma testbit_set w k : 0 <= k -> Z.testbit (Z.lor w (Z.shiftl 1 k)) k = true.
Proof. intros. rewrite Z.lor_spec, Z.shiftl_spec, Z.sub_diag by lia. apply orb_true_r. Qed.

Lemma land_bit_on w k : 0 <= k -> Z.testbit w k = true -> (Z.land w (Z.shiftl 1 k) =? 0) = false.
Proof.
  intros Hk Hb. apply Z.eqb_neq. intros E. apply (f_equal (fun z => Z.testbit z k)) in E.
  rewrite Z.land_spec, Z.shiftl_spec, Z.sub_diag, Hb, Z.bits_0 in E by lia. done.
Qed.

Lemma land_bit_off w k : 0 <= k -> (Z.land w (Z.shiftl 1 k) =? 0) = false -> Z.testbit w k = true.
Proof.
  intros Hk H%Z.eqb_neq. destruct (Z.testbit w k) eqn:E; [done|]. exfalso. apply H.
  apply Z.bits_inj. intros j. rewrite Z.land_spec, Z.bits_0.
  destruct (decide (0 <= j)); [|by rewrite (Z.testbit_neg_r w) by lia].
  rewrite Z.shiftl_spec by lia.
  destruct (decide (j = k)) as [->|Hne]; [by rewrite E|].
  change 1 with (2 ^ 0). rewrite Z.pow2_bits_false by lia. apply andb_false_r.
Qed.

Lemma set_bit_ok (ws : list Z) idx w :
  0 <= idx -> ws !! Z.to_nat (idx / 64) = Some w ->
  exists ws', set_bit ws idx = Some ws' /\ length ws' = length ws /\ bit_on ws' idx /\
    (forall j, bit_on ws j -> bit_on ws' j).
Proof.
  intros Hi Hw. unfold set_bit. rewrite Hw. simpl. eexists. split; [done|].
  pose proof (Z.mod_pos_bound idx 64). split; [apply length_insert|]. split.
  - eexists. split; [apply list_lookup_insert_eq; by eapply lookup_lt_Some|].
    apply testbit_set. lia.
  - intros j (wj & Hj & Hb). destruct (decide (Z.to_nat (idx / 64) = Z.to_nat (j / 64))) as [E|E].
    + exists (Z.lor w (Z.shiftl 1 (idx mod 64))). rewrite <- E in *. split.
      * apply list_lookup_insert_eq. by eapply lookup_lt_Some.
      * rewrite Z.lor_spec. replace w with wj by congruence. by rewrite Hb.
    + exists wj. by rewrite list_lookup_insert_ne.
Qed.

Lemma add_from_ok n bf h1 h2 i (ws : list Z) :
  0 < size bf -> length ws = Z.to_nat ((size bf - 1) / 64 + 1) ->
  exists ws', add_from n bf h1 h2 i ws = Some ws' /\ length ws' = length ws /\
    (forall j, bit_on ws j -> bit_on ws' j) /\
    (forall k, (i <= k < i + n)%nat -> bit_on ws' (probe bf h1 h2 k)).
Proof.
  revert i ws. induction n as [|n IH]; intros i ws Hs Hl; simpl.
  { exists ws. split_and!; auto. lia. }
  pose proof (probe_range bf h1 h2 i Hs) as Hr.
  destruct (word_in_range bf ws _ Hs Hl Hr) as [w Hw].
  destruct (set_bit_ok ws (probe bf h1 h2 i) w) as (ws1 & -> & Hl1 & Hon & Hmono); [lia|done|].
  simpl. destruct (IH (S i) ws1 Hs) as (ws2 & -> & Hl2 & Hmono2 & Hon2); [lia|].
  exists ws2. split_and!; [done|lia|auto|].
  intros k Hk. destruct (decide (k = i)) as [->|]; [auto|]. apply Hon2. lia.
Qed.

Lemma Add_ok bf key :
  bwf bf -> exists bf', Add bf key = Some bf' /\ bwf bf' /\ size bf' = size bf /\
    hashes bf' = hashes bf /\ marked bf' key /\ (forall k, marked bf k -> marked bf' k).
Proof.
  intros [Hs Hl]. unfold Add. destruct (bloomHashes key) as [h1 h2] eqn:Eh.
  destruct (add_from_ok (Z.to_nat (hashes bf)) bf h1 h2 0 (bitset bf) Hs Hl) as (ws & -> & Hl' & Hmono & Hon).
  simpl. eexists. split; [done|]. split; [split; [done|simpl; congruence]|]. split; [done|]. split; [done|]. split.
  - intros i Hi. rewrite Eh. simpl. apply Hon. simpl in Hi. lia.
  - intros k Hk i Hi. apply Hmono, Hk. done.
Qed.

Lemma contains_from_iff n bf h1 h2 i :
  bwf bf -> exists r, contains_from n bf h1 h2 i = Some r /\
    (r = true <-> forall k, (i <= k < i + n)%nat -> bit_on (bitset bf) (probe bf h1 h2 k)).
Proof.
  intros [Hs Hl]. revert i. induction n as [|n IH]; intros i; simpl.
  { exists true. split; [done|]. split; [lia|done]. }
  pose proof (probe_range bf h1 h2 i Hs) as Hr. pose proof (Z.mod_pos_bound (probe bf h1 h2 i) 64).
  destruct (word_in_range bf (bitset bf) _ Hs Hl Hr) as [w Hw]. rewrite Hw. simpl.
  destruct (Z.land w (Z.shiftl 1 (probe bf h1 h2 i mod 64)) =? 0) eqn:E.
  - exists false. split; [done|]. split; [done|]. intros Hall.
    destruct (Hall i) as (w' & Hw' & Hb); [lia|]. rewrite Hw in Hw'. simplify_eq.
    rewrite land_bit_on in E by (done || lia). done.
  - destruct (IH (S i)) as (r & -> & Hiff). exists r. split; [done|]. rewrite Hiff.
    apply land_bit_off in E; [|lia]. split; intros Hall k Hk.
    + destruct (decide (k = i)) as [->|]; [by exists w|]. apply Hall. lia.
    + apply Hall. lia.
Qed.

Lemma Contains_iff bf key :
  bwf bf -> exists r, Contains bf key = Some r /\ (r = true <-> marked bf key).
Proof.
  intros Hwf. unfold Contains, marked. destruct (bloomHashes key) as [h1 h2] eqn:Eh. simpl.
  destruct (contains_from_iff (Z.to_nat (hashes bf)) bf h1 h2 0 Hwf) as (r & -> & Hr).
  exists r. split; [done|]. rewrite Hr. split; intros H i Hi; apply H; lia.
Qed.

Lemma add_all_ok keys bf :
  bwf bf -> exists bf', add_all bf keys = Some bf' /\ bwf bf' /\
    (forall k, marked bf k -> marked bf' k) /\ (forall k, k ∈ keys -> marked bf' k).
Proof.
  revert bf. induction keys as [|key keys IH]; intros bf Hwf; simpl.
  { exists bf. split_and!; auto. by intros k ?%elem_of_nil. }
  destruct (Add_ok bf key Hwf) as (bf1 & -> & Hwf1 & _ & _ & Hk & Hm1). simpl.
  destruct (IH bf1 Hwf1) as (bf2 & -> & Hwf2 & Hm2 & Hall). exists bf2.
  split_and!; auto. intros k [->|Hin]%elem_of_cons; auto.
Qed.

Lemma NewBloomFilter_bwf sz hs : 0 < sz -> 0 < hs ->
  exists bf, NewBloomFilter sz hs = Some bf /\ bwf bf.
Proof.
  intros H1 H2. unfold NewBloomFilter. rewrite !(proj2 (Z.eqb_neq _ _)) by lia. simpl.
  eexists. split; [done|]. split; [done|]. apply length_replicate.
Qed.

Lemma newBloom_size_pos (optimalBits : Z -> Z) n : 0 < (if optimalBits n <? 64 then 64 else optimalBits n).
Proof. case_bool; reflect_bool; lia. Qed.

Lemma newBloom_hashes_pos (optimalHashes : Z -> Z -> Z) bits n :
  0 < (if 0 <? n then Z.max 1 (optimalHashes bits n) else 1).
Proof. case_bool; lia. Qed.

(** A filter built from keys reports every one of them. *)
Lemma newBloomForKeys_contains optimalBits optimalHashes keys :
  exists bf, newBloomForKeys optimalBits optimalHashes keys = Some bf /\ bwf bf /\
    forall key, key ∈ keys -> Contains bf key = Some true.
Proof.
  unfold newBloomForKeys.
  edestruct NewBloomFilter_bwf as (bf & -> & Hwf); [apply newBloom_size_pos|apply newBloom_hashes_pos|]. simpl.
  destruct (add_all_ok keys bf Hwf) as (bf' & -> & Hwf' & _ & Hall).
  exists bf'. split_and!; [done|done|]. intros key Hin%Hall. destruct (Contains_iff bf' key Hwf') as (r & E & Hr).
  rewrite E. f_equal. by apply Hr.
Qed.

(** Building the filter never panics and the filter has no false
    negative: every key it was built from is reported as possibly present,
    whatever the two sizing formulas return. *)
Theorem bloom_no_false_negative optimalBits optimalHashes keys :
  exists bf, newBloomForKeys optimalBits optimalHashes keys = Some bf /\
    (forall key, exists r, Contains bf key = Some r) /\
    forall key, key ∈ keys -> Contains bf key = Some true.
Proof.
  destruct (newBloomForKeys_contains optimalBits optimalHashes keys) as (bf & E & Hwf & Hall).
  exists bf. split; [done|]. split; [|done]. intros key. destruct (Contains_iff bf key Hwf) as (r & Er & _). eauto.
Qed.

(** The filter does reject: a small filter, a member and a non-member. *)
Example bloom_rejects :
  (bf ← newBloomForKeys (fun n => 10 * n) (fun _ _ => 7) ["Tom"; "Jack"; "Sam"];
   a ← Contains bf "Jack"; c ← Contains bf "Nobody"; Some (a, c)) = Some (true, false).
Proof. vm_compute. reflexivity. Qed.
