(* ===== verification/Admission.v ===== *)
(** * Bounded admission ([internal/cache/admission.go])

    A buffered channel of empty structs used as a counting semaphore is its
    occupancy and its capacity. [acquire] is not atomic: its three [select]
    statements and its deferred receive are separate steps, each of which is
    one function here, and [lim_step] interleaves any number of callers. *)
From S2P Require Import Prelude GoStrings Errors.

Record chan := mkChan { occupied : Z; buffer : Z }.

Definition make_chan (n : Z) : chan := mkChan 0 n.
(** [select { case c <- struct{}{}: ... default: ... }]: [None] is the default
    branch (an unbuffered channel has no receiver blocked on it here, so it
    never accepts). *)
Definition try_send (c : chan) : option chan :=
  if occupied c <? buffer c then Some (mkChan (occupied c + 1) (buffer c)) else None.
(** [<-c]: [None] blocks. *)
Definition recv (c : chan) : option chan :=
  if 0 <? occupied c then Some (mkChan (occupied c - 1) (buffer c)) else None.

Definition DefaultMissWaiters : Z := 128.
Definition DefaultSourcePending : Z := 128.

Record SourceLimiter := mkLimiter { slots : chan; waiting : chan }.

(** [None] is the panic. *)
Definition NewSourceLimiterWithQueue (limit maxPending : Z) : option SourceLimiter :=
  if (limit <=? 0) || (maxPending <? 0) then None
  else Some (mkLimiter (make_chan limit) (make_chan maxPending)).

Definition NewSourceLimiter (limit : Z) : option SourceLimiter :=
  NewSourceLimiterWithQueue limit DefaultSourcePending.

(** ** The steps of [acquire]

    Where a call stands: before its first select, before its second, blocked
    in its third, about to run the deferred receive, or returned. *)
Inductive acquiring :=
| Trying
| Queueing
| Blocked
| Leaving (err : option error)
| Returned (err : option error).

Definition acquire_try (l : SourceLimiter) (ctxErr : option error) : SourceLimiter * acquiring :=
  match ctxErr with
  | Some e => (l, Returned (Some e))
  | None => match try_send (slots l) with
            | Some s => (mkLimiter s (waiting l), Returned None)
            | None => (l, Queueing)
            end
  end.

Definition acquire_queue (l : SourceLimiter) : SourceLimiter * acquiring :=
  match try_send (waiting l) with
  | Some w => (mkLimiter (slots l) w, Blocked)
  | None => (l, Returned (Some ErrOverloaded))
  end.

(** [done]: [ctx.Done()] is ready and chosen, with its error; otherwise the
    send must be ready. [None]: neither case of the select is ready. *)
Definition acquire_wait (l : SourceLimiter) (done : option error) : option (SourceLimiter * acquiring) :=
  match done with
  | Some e => Some (l, Leaving (Some e))
  | None => s ← try_send (slots l); Some (mkLimiter s (waiting l), Leaving None)
  end.

Definition acquire_leave (l : SourceLimiter) (err : option error) : option (SourceLimiter * acquiring) :=
  w ← recv (waiting l); Some (mkLimiter (slots l) w, Returned err).

(** One step of a call: [ctxErr] is the state of its context. *)
Definition acquire_step (l : SourceLimiter) (pc : acquiring) (ctxErr : option error)
    : option (SourceLimiter * acquiring) :=
  match pc with
  | Trying => Some (acquire_try l ctxErr)
  | Queueing => Some (acquire_queue l)
  | Blocked => acquire_wait l ctxErr
  | Leaving err => acquire_leave l err
  | Returned _ => None
  end.

(** [None]: nothing to receive, the call blocks. *)
Definition release (l : SourceLimiter) : option SourceLimiter :=
  s ← recv (slots l); Some (mkLimiter s (waiting l)).

(** ** Callers sharing a limiter *)
Inductive worker :=
| Acquiring (pc : acquiring)
| Released.

Inductive lim_step : SourceLimiter * list worker -> SourceLimiter * list worker -> Prop :=
| lim_arrive l ws : lim_step (l, ws) (l, ws ++ [Acquiring Trying])
| lim_acquire l ws i pc ctxErr l' pc' :
    ws !! i = Some (Acquiring pc) -> acquire_step l pc ctxErr = Some (l', pc') ->
    lim_step (l, ws) (l', <[i := Acquiring pc']> ws)
| lim_release l ws i l' :
    ws !! i = Some (Acquiring (Returned None)) -> release l = Some l' ->
    lim_step (l, ws) (l', <[i := Released]> ws).

(** Workers between a successful [acquire] and their [release], and workers
    that occupy the queue. *)
Definition holds (w : worker) : Z :=
  match w with Acquiring (Leaving None) | Acquiring (Returned None) => 1 | _ => 0 end.
Definition queued (w : worker) : Z :=
  match w with Acquiring Blocked | Acquiring (Leaving _) => 1 | _ => 0 end.

Definition lim_inv (limit maxPending : Z) (s : SourceLimiter * list worker) : Prop :=
  buffer (slots s.1) = limit /\ buffer (waiting s.1) = maxPending /\
  occupied (slots s.1) = Zsum holds s.2 /\ occupied (waiting s.1) = Zsum queued s.2 /\
  occupied (slots s.1) <= limit /\ occupied (waiting s.1) <= maxPending.

Lemma holds_nonneg w : 0 <= holds w.
Proof. unfold holds. repeat case_match; lia. Qed.
Lemma queued_nonneg w : 0 <= queued w.
Proof. unfold queued. repeat case_match; lia. Qed.
#[local] Hint Resolve holds_nonneg queued_nonneg : simplecache.

Lemma recv_ok c x : 0 < occupied c -> recv c = Some x -> occupied x = occupied c - 1 /\ buffer x = buffer c.
Proof. unfold recv. case_bool; [|done]. by intros _ [= <-]. Qed.

Lemma try_send_ok c x :
  try_send c = Some x -> occupied c < buffer c /\ occupied x = occupied c + 1 /\ buffer x = buffer c.
Proof. unfold try_send. case_bool; [|done]. reflect_bool. by intros [= <-]. Qed.

(** A step of one call moves the occupancies with what that call holds. *)
Lemma acquire_step_counts l pc ctxErr l' pc' :
  acquire_step l pc ctxErr = Some (l', pc') ->
  buffer (slots l') = buffer (slots l) /\ buffer (waiting l') = buffer (waiting l) /\
  occupied (slots l') = occupied (slots l) - holds (Acquiring pc) + holds (Acquiring pc') /\
  occupied (waiting l') = occupied (waiting l) - queued (Acquiring pc) + queued (Acquiring pc') /\
  (occupied (slots l) <= buffer (slots l) -> occupied (slots l') <= buffer (slots l)) /\
  (occupied (waiting l) <= buffer (waiting l) -> occupied (waiting l') <= buffer (waiting l)).
Proof.
  unfold acquire_step, acquire_try, acquire_queue, acquire_wait, acquire_leave, recv, try_send.
  destruct pc as [| | |err|]; [destruct ctxErr| |destruct ctxErr|destruct err|];
    repeat case_bool; simpl; intros [= <- <-]; reflect_bool; simpl; split_and_lia.
Qed.

Lemma lim_step_inv limit maxPending s s' :
  lim_inv limit maxPending s -> lim_step s s' -> lim_inv limit maxPending s'.
Proof.
  intros (H1 & H2 & H3 & H4 & H5 & H6). destruct 1 as [l ws|l ws i pc ctxErr l' pc' Hi Hs|l ws i l' Hi Hr];
    unfold lim_inv in *; simpl in *.
  - rewrite !Zsum_app. simpl. split_and_lia.
  - apply acquire_step_counts in Hs as (B1 & B2 & C1 & C2 & L1 & L2).
    rewrite (Zsum_insert holds _ _ _ _ Hi), (Zsum_insert queued _ _ _ _ Hi). split_and_lia.
  - rewrite (Zsum_insert holds _ _ _ _ Hi), (Zsum_insert queued _ _ _ _ Hi).
    unfold release, recv in Hr. case_bool; [|done]. simplify_eq/=. split_and_lia.
Qed.

Lemma lim_reach_inv limit maxPending l s :
  NewSourceLimiterWithQueue limit maxPending = Some l -> rtc lim_step (l, []) s ->
  lim_inv limit maxPending s.
Proof.
  intros HN Hr. assert (lim_inv limit maxPending (l, [])) as H0.
  { unfold NewSourceLimiterWithQueue in HN. case_bool; [done|]. reflect_bool. simplify_eq.
    unfold lim_inv. simpl. split_and_lia. }
  revert H0. induction Hr as [|s0 s1 s2 Hs _ IH]; [done|]. intros H0. eauto using lim_step_inv.
Qed.

(** C38: however callers of one limiter interleave, arrive and give up, at most
    [limit] of them are between a successful [acquire] and its [release] and
    at most [maxPending] occupy the queue; a holder's [release] never blocks,
    the deferred receive never blocks, and once every call has returned and
    every holder has released, both channels are empty. *)
Theorem limiter_bounds limit maxPending l l' ws :
  NewSourceLimiterWithQueue limit maxPending = Some l -> rtc lim_step (l, []) (l', ws) ->
  0 <= Zsum holds ws <= limit /\ 0 <= Zsum queued ws <= maxPending /\
  (Acquiring (Returned None) ∈ ws -> exists l'', release l' = Some l'') /\
  (forall err, Acquiring (Leaving err) ∈ ws -> exists r, acquire_leave l' err = Some r) /\
  ((forall w, w ∈ ws -> w = Released \/ exists e, w = Acquiring (Returned (Some e))) ->
    occupied (slots l') = 0 /\ occupied (waiting l') = 0).
Proof.
  intros HN Hr. destruct (lim_reach_inv _ _ _ _ HN Hr) as (H1 & H2 & H3 & H4 & H5 & H6). simpl in *.
  pose proof (Zsum_nonneg holds ws holds_nonneg). pose proof (Zsum_nonneg queued ws queued_nonneg).
  split; [lia|]. split; [lia|]. split; [|split].
  - intros [i Hi]%list_elem_of_lookup_1.
    pose proof (Zsum_lookup_le holds ws i _ holds_nonneg Hi) as Hle. simpl in Hle.
    unfold release, recv. rewrite (proj2 (Z.ltb_lt _ _)) by lia. eauto.
  - intros err [i Hi]%list_elem_of_lookup_1.
    pose proof (Zsum_lookup_le queued ws i _ queued_nonneg Hi) as Hle. simpl in Hle.
    unfold acquire_leave, recv. rewrite (proj2 (Z.ltb_lt _ _)) by lia. eauto.
  - intros Hall. rewrite H3, H4.
    split; apply Zsum_zero; intros w Hw; destruct (Hall w Hw) as [->|[e ->]]; done.
Qed.

(** A call that is blocked in the queue is stuck only while every slot is
    taken and its context is live: as soon as one is released, or its context
    ends, it can take its next step, and then leaves the queue. *)
Theorem blocked_progress l ctxErr :
  acquire_step l Blocked ctxErr = None <->
  ctxErr = None /\ buffer (slots l) <= occupied (slots l).
Proof.
  unfold acquire_step, acquire_wait, try_send. destruct ctxErr; [naive_solver|].
  case_bool; reflect_bool; simpl.
  - split; [done|]. intros [_ ?]. lia.
  - done.
Qed.

Lemma limiter_bounds_witness :
  exists l l' ws, NewSourceLimiterWithQueue 1 1 = Some l /\ rtc lim_step (l, []) (l', ws) /\
    0 <= Zsum holds ws <= 1 /\ Zsum holds ws = 1.
Proof.
  eexists _, _, [Acquiring (Returned None)]. split; [reflexivity|].
  assert (rtc lim_step (mkLimiter (mkChan 0 1) (mkChan 0 1), [])
            (mkLimiter (mkChan 1 1) (mkChan 0 1), [Acquiring (Returned None)])) as Hr.
  { eapply rtc_l; [apply lim_arrive|]. apply rtc_once. simpl.
    by apply (lim_acquire _ [Acquiring Trying] 0 Trying None). }
  split; [exact Hr|]. split; [|reflexivity].
  apply (limiter_bounds 1 1 (mkLimiter (mkChan 0 1) (mkChan 0 1)) _ _ eq_refl Hr).
Defined.
