(* ===== verification/Group.v ===== *)
(** * Groups: options, epochs and version floors
      ([internal/cache/group.go], [internal/cache/versions.go])

    A group owns a store of views (any implementation of [Store]), the
    striped invalidation epochs and the bounded table of version floors. All
    operations here run under [epochMu] from their first access to shared
    state to their last, so each is one atomic function; [None] is a panic.
    The heap of floor records is explicit because the map and the list alias
    the same elements. *)
From S2P Require Import Prelude GoStrings Errors LRU CacheStore Bloom Admission.

(** ** Options *)
Inductive context := Background | Derived (id : nat).

Record Options := mkOptions {
  TTL : Duration;
  KnownKeys : option (list string);
  SourceTimeout : Duration;
  Limiter : option SourceLimiter;
  Lifecycle : option context;
  Observer : bool;                       (* an observer is installed *)
  EpochBuckets : Z;
  MaxMissWaiters : Z;
  CleanupInterval : Duration;
  CleanupBatch : Z;
}.

Definition defaultSourceTimeout : Duration := 800 * Millisecond.
Definition DefaultVersionRecords : Z := 1024.

(** [if x == 0 { x = d }] *)
Definition default_to (d x : Z) : Z := if x =? 0 then d else x.

Definition normalizeOptions (opts : Options) (capacity : Z) : option Options :=
  if (TTL opts <? 0) || (SourceTimeout opts <? 0) then None
  else
    limiter ← match Limiter opts with None => NewSourceLimiter 32 | l => l end;
    let buckets := default_to 256 (EpochBuckets opts) in
    if (buckets <? 1) || (256 <? buckets) || negb (Z.land buckets (buckets - 1) =? 0) then None
    else
      let waiters := default_to DefaultMissWaiters (MaxMissWaiters opts) in
      let interval := default_to Second (CleanupInterval opts) in
      let batch := default_to 128 (CleanupBatch opts) in
      if (waiters <? 1) || (interval <? 0) || (batch <? 1) then None
      else Some (mkOptions (default_to Minute (TTL opts)) (KnownKeys opts)
        (default_to defaultSourceTimeout (SourceTimeout opts)) (Some limiter)
        (Some (default Background (Lifecycle opts))) (Observer opts)
        buckets waiters interval batch).

(** ** State *)
Record readFence := mkFence { epoch : Z; minimum : Z }.

Definition withMinimum (f : readFence) (m : Z) : readFence :=
  mkFence (epoch f) (Z.max (minimum f) m).

Record versionRecord := mkRecord { r_key : string; r_version : Z }.

Record versionFloors := mkFloors {
  capacity : Z;
  entries : gmap string ptr;
  records : gmap ptr versionRecord;      (* the cells the list elements point to *)
  advanced : list ptr;                   (* front is most recently inserted/advanced *)
  f_evictions : Z;
  f_next : ptr;                          (* allocator of [PushFront] *)
}.

Definition newFloors (capacity : Z) : versionFloors := mkFloors capacity ∅ ∅ [] 0 0%nat.

(** Which reading interface the configured source has. *)
Inductive Getter := PlainGetter | VersionedGetter.

(** An observation: operation and result ([elapsed] is a measurement). *)
Definition event : Type := string * string.

Section Group.
Context {C : Type} `{!Store C}.

Record Group := mkGroup {
  name : string;
  getter : Getter;
  mainCache : C;
  bloom : option BloomFilter;
  floors : versionFloors;
  epochs : list Z;
  opts : Options;
  apiWaiters : chan;
}.

Definition set_mainCache (g : Group) (c : C) : Group :=
  mkGroup (name g) (getter g) c (bloom g) (floors g) (epochs g) (opts g) (apiWaiters g).
Definition set_floors (g : Group) (f : versionFloors) : Group :=
  mkGroup (name g) (getter g) (mainCache g) (bloom g) f (epochs g) (opts g) (apiWaiters g).
Definition set_epochs (g : Group) (es : list Z) : Group :=
  mkGroup (name g) (getter g) (mainCache g) (bloom g) (floors g) es (opts g) (apiWaiters g).
Definition set_apiWaiters (g : Group) (w : chan) : Group :=
  mkGroup (name g) (getter g) (mainCache g) (bloom g) (floors g) (epochs g) (opts g) w.
Definition set_limiter (g : Group) (l : SourceLimiter) : Group :=
  let o := opts g in
  mkGroup (name g) (getter g) (mainCache g) (bloom g) (floors g) (epochs g)
    (mkOptions (TTL o) (KnownKeys o) (SourceTimeout o) (Some l) (Lifecycle o) (Observer o)
       (EpochBuckets o) (MaxMissWaiters o) (CleanupInterval o) (CleanupBatch o)) (apiWaiters g).

(** [newCache capacity] is [cache{cacheBytes: capacity}]; the two formulas are
    those of [newBloomForKeys]. *)
Definition NewGroup (newCache : Z -> C) (optimalBits : Z -> Z) (optimalHashes : Z -> Z -> Z)
    (name : string) (cap : Z) (getter : option Getter) (opts : Options) : option Group :=
  get ← getter;
  if bool_decide (name = EmptyString) || (cap <=? 0) then None
  else
    opts ← normalizeOptions opts cap;
    bloom ← match KnownKeys opts with
            | Some keys => bf ← newBloomForKeys optimalBits optimalHashes keys; Some (Some bf)
            | None => Some None
            end;
    Some (mkGroup name get (newCache cap) bloom (newFloors DefaultVersionRecords)
            (replicate 256 0) opts (make_chan (MaxMissWaiters opts))).

Definition Name (g : Group) : string := name g.

Definition GroupStats (g : Group) : Stats :=
  let s := st_stats (mainCache g) in
  mkStats (Z.of_nat (base.size (entries (floors g)))) (capacity (floors g)) (f_evictions (floors g))
    (StatBytes s) (Capacity s) (Entries s) (Removals s).

Definition observe (g : Group) (operation result : string) : list event :=
  if Observer (opts g) then [(operation, result)] else [].

(** [AdmissionStats]: occupied API waiter slots and queued source reads. *)
Definition AdmissionStats (g : Group) : option (Z * Z) :=
  l ← Limiter (opts g); Some (occupied (apiWaiters g), occupied (waiting l)).

(** The source's admission method on the API waiter slots. *)
Definition admitSlot (g : Group) (kind : string) : Group * list event * bool :=
  match try_send (apiWaiters g) with
  | Some w => (set_apiWaiters g w, [], true)
  | None => (g, observe g "rejected" kind, false)
  end.

(** ** Epochs *)
Fixpoint epochHash (hash : Z) (key : string) : Z :=
  match key with
  | EmptyString => hash
  | String c key' => epochHash (u64 (Z.lxor hash (byteval c) * 1099511628211)) key'
  end.

Definition epochBucket (g : Group) (key : string) : Z :=
  Z.land (epochHash 14695981039346656037 key) (EpochBuckets (opts g) - 1).

(** [g.epochs[g.epochBucket(key)]] *)
Definition currentEpoch (g : Group) (key : string) : option Z :=
  epochs g !! Z.to_nat (epochBucket g key).

(** [g.epochs[g.epochBucket(key)]++] *)
Definition bumpEpoch (g : Group) (key : string) : option Group :=
  e ← currentEpoch g key;
  Some (set_epochs g (<[Z.to_nat (epochBucket g key) := u64 (e + 1)]> (epochs g))).

(** ** Version floors *)
Definition knownVersionLocked (g : Group) (key : string) (now : Time) : option (Group * Z) :=
  version ← match entries (floors g) !! key with
            | Some e => r ← records (floors g) !! e; Some (r_version r)
            | None => Some 0
            end;
  '(c, cached) ← st_version (mainCache g) key now;
  Some (set_mainCache g c, Z.max version cached).

Definition knownVersion := knownVersionLocked.

(** [f.advanced.MoveToFront(e)] after storing the advanced record. *)
Definition advance (f : versionFloors) (e : ptr) (r : versionRecord) : versionFloors :=
  mkFloors (capacity f) (entries f) (<[e := r]> (records f)) (e :: unlink e (advanced f))
    (f_evictions f) (f_next f).

(** Drops the oldest record and returns its key. *)
Definition retire (f : versionFloors) : option (versionFloors * string) :=
  old ← last (advanced f);
  r ← records f !! old;
  Some (mkFloors (capacity f) (delete (r_key r) (entries f)) (delete old (records f))
          (unlink old (advanced f)) (u64 (f_evictions f + 1)) (f_next f), r_key r).

Definition push (f : versionFloors) (key : string) (version : Z) : versionFloors :=
  mkFloors (capacity f) (<[key := f_next f]> (entries f))
    (<[f_next f := mkRecord key version]> (records f)) (f_next f :: advanced f)
    (f_evictions f) (S (f_next f)).

Definition rememberVersionLocked (g : Group) (key : string) (version : Z) : option Group :=
  if version <=? 0 then Some g
  else
    let f := floors g in
    match entries f !! key with
    | Some e =>
        r ← records f !! e;
        if r_version r <? version then Some (set_floors g (advance f e (mkRecord (r_key r) version)))
        else Some g
    | None =>
        g1 ← (if Z.of_nat (base.size (entries f)) =? capacity f then
                '(f1, forgotten) ← retire f;
                bumpEpoch (set_floors g f1) forgotten
              else Some g);
        Some (set_floors g1 (push (floors g1) key version))
    end.

(** [t1] and [t2] are the clock readings of the two [mainCache.version]. *)
Definition InvalidateVersion (g : Group) (key : string) (version : Z) (t1 t2 : Time)
    : option (Group * list event * option error) :=
  match ValidateKey key with
  | Some e => Some (g, [], Some e)
  | None =>
      if version <? 0 then Some (g, [], Some ErrInvalidVersion)
      else
        '(g1, known) ← knownVersionLocked g key t1;
        g2 ← rememberVersionLocked g1 key (Z.max known version);
        '(g3, result) ← (if (version =? 0) || (known <? version)
                         then g' ← bumpEpoch g2 key; Some (g', "applied")
                         else Some (g2, "ignored"));
        let minimum := Z.max known version in
        g5 ← (if version =? 0 then
                c ← st_remove (mainCache g3) key; Some (set_mainCache g3 c)
              else
                '(c, cached) ← st_version (mainCache g3) key t2;
                if cached <? minimum then
                  c' ← st_remove c key; Some (set_mainCache g3 c')
                else Some (set_mainCache g3 c));
        Some (g5, observe g5 "invalidate" "ok" ++
                  (if 0 <? version then observe g5 "version_event" result else []), None)
  end.

Definition Invalidate (g : Group) (key : string) (t1 t2 : Time)
    : option (Group * list event * option error) :=
  InvalidateVersion g key 0 t1 t2.

Definition readBarrier (g : Group) (key : string) (now : Time) : option (Group * readFence) :=
  e ← currentEpoch g key;
  '(g', known) ← knownVersionLocked g key now;
  Some (g', mkFence e known).

(** ** Invariants *)
Record fwf (f : versionFloors) : Prop := {
  fwf_capacity : 0 < capacity f;
  fwf_bound : Z.of_nat (base.size (entries f)) <= capacity f;
  fwf_nodup : NoDup (advanced f);
  fwf_listed : forall p, p ∈ advanced f <-> is_Some (records f !! p);
  fwf_index : forall k p, entries f !! k = Some p <-> exists v, records f !! p = Some (mkRecord k v);
  fwf_fresh : forall p, is_Some (records f !! p) -> (p < f_next f)%nat;
  fwf_positive : forall p r, records f !! p = Some r -> 0 < r_version r;
}.

Definition bloom_ok (bf : option BloomFilter) : Prop :=
  match bf with Some bf => bwf bf | None => True end.

Record gwf (g : Group) : Prop := {
  gwf_cache : st_inv (mainCache g);
  gwf_floors : fwf (floors g);
  gwf_epochs : length (epochs g) = 256%nat;
  gwf_buckets : 1 <= EpochBuckets (opts g) <= 256;
  gwf_bloom : bloom_ok (bloom g);
  gwf_limiter : is_Some (Limiter (opts g));
}.

(** What the table remembers of a key; 0 when it has no record. *)
Definition floor_in (f : versionFloors) (key : string) : Z :=
  match entries f !! key ≫= (records f !!.) with Some r => r_version r | None => 0 end.
Definition floor_of (g : Group) (key : string) : Z := floor_in (floors g) key.

(** The version of the resident view; 0 when there is none. *)
Definition cached_version (c : C) (key : string) : Z :=
  match st_resident c !! key with Some v => version v | None => 0 end.

(** The epoch of a key's stripe. *)
Definition epoch_of (g : Group) (key : string) : Z := default 0 (currentEpoch g key).

End Group.
Arguments Group C : clear implicits.

(** ** Lemmas on floors *)

Lemma floor_in_entry f key p v :
  entries f !! key = Some p -> records f !! p = Some (mkRecord key v) -> floor_in f key = v.
Proof. intros H1 H2. unfold floor_in. rewrite H1. simpl. by rewrite H2. Qed.

Lemma floor_in_none f key : entries f !! key = None -> floor_in f key = 0.
Proof. intros H. unfold floor_in. by rewrite H. Qed.

Lemma fwf_entry f key p : fwf f -> entries f !! key = Some p ->
  exists v, records f !! p = Some (mkRecord key v) /\ floor_in f key = v /\ 0 < v.
Proof.
  intros Hf He. destruct (proj1 (fwf_index _ Hf key p) He) as [v Hv].
  exists v. split; [done|]. split; [by eapply floor_in_entry|]. apply (fwf_positive _ Hf _ _ Hv).
Qed.

Lemma floor_in_nonneg f key : fwf f -> 0 <= floor_in f key.
Proof.
  intros Hf. destruct (entries f !! key) as [p|] eqn:He.
  - destruct (fwf_entry f key p Hf He) as (v & _ & -> & ?). lia.
  - by rewrite floor_in_none.
Qed.

Lemma fwf_new cap : 0 < cap -> fwf (newFloors cap).
Proof.
  intros H. split; simpl; auto.
  - rewrite map_size_empty. lia.
  - constructor.
  - intros p. rewrite lookup_empty. split; [set_solver|by intros []].
  - intros k p. rewrite !lookup_empty. split; [done|]. by intros [].
  - intros p. rewrite lookup_empty. by intros [].
  - intros p r. by rewrite lookup_empty.
Qed.

Lemma advance_ok f e key old v :
  fwf f -> entries f !! key = Some e -> records f !! e = Some (mkRecord key old) -> old < v ->
  fwf (advance f e (mkRecord key v)) /\
  forall k, floor_in (advance f e (mkRecord key v)) k = if decide (k = key) then v else floor_in f k.
Proof.
  intros Hf He Hr Hlt. pose proof Hf as [Hc Hb Hnd Hli Hix Hfr Hpos]. split.
  - split; simpl; auto.
    + constructor; [by rewrite elem_of_unlink; naive_solver|by apply NoDup_unlink].
    + intros p. rewrite elem_of_cons, elem_of_unlink, Hli.
      destruct (decide (p = e)) as [->|].
      * rewrite lookup_insert_eq. split; [by intros _; eexists|by left].
      * rewrite lookup_insert_ne by done. naive_solver.
    + intros k p. rewrite Hix. destruct (decide (p = e)) as [->|].
      * rewrite lookup_insert_eq, Hr. naive_solver.
      * by rewrite lookup_insert_ne.
    + intros p Hp. apply Hfr. destruct (decide (p = e)) as [->|]; [by eexists|].
      by rewrite lookup_insert_ne in Hp.
    + intros p r. destruct (decide (p = e)) as [->|].
      * rewrite lookup_insert_eq. intros [= <-]. simpl. specialize (Hpos _ _ Hr). simpl in Hpos. lia.
      * rewrite lookup_insert_ne by done. apply Hpos.
  - intros k. unfold floor_in. simpl. destruct (decide (k = key)) as [->|Hk].
    + rewrite He. simpl. by rewrite lookup_insert_eq.
    + destruct (entries f !! k) as [p|] eqn:Ek; [|done]. simpl.
      rewrite lookup_insert_ne; [done|]. intros ->.
      apply Hix in Ek as [v' Hv']. congruence.
Qed.

Lemma push_ok f key v :
  fwf f -> entries f !! key = None -> Z.of_nat (base.size (entries f)) < capacity f -> 0 < v ->
  fwf (push f key v) /\
  forall k, floor_in (push f key v) k = if decide (k = key) then v else floor_in f k.
Proof.
  intros Hf He Hlt Hv. pose proof Hf as [Hc Hb Hnd Hli Hix Hfr Hpos].
  assert (records f !! f_next f = None) as Hnew.
  { apply eq_None_not_Some. intros H%Hfr. lia. }
  split.
  - split; simpl; auto.
    + rewrite map_size_insert_None by done. lia.
    + constructor; [|done]. rewrite Hli, Hnew. by intros [].
    + intros p. rewrite elem_of_cons, Hli. destruct (decide (p = f_next f)) as [->|].
      * rewrite lookup_insert_eq. split; [by eexists|by left].
      * rewrite lookup_insert_ne by done. naive_solver.
    + intros k p. destruct (decide (p = f_next f)) as [->|Hp].
      * rewrite lookup_insert_eq. split.
        -- destruct (decide (k = key)) as [->|]; [eauto|].
           rewrite lookup_insert_ne by done. intros [v' Hv']%Hix. congruence.
        -- intros [v' [= <- <-]]. apply lookup_insert_eq.
      * rewrite (lookup_insert_ne (records f)) by done. rewrite <- Hix.
        destruct (decide (k = key)) as [->|]; [|by rewrite lookup_insert_ne].
        rewrite lookup_insert_eq, He. split; congruence.
    + intros p. destruct (decide (p = f_next f)) as [->|]; [lia|].
      rewrite lookup_insert_ne by done. intros H%Hfr. lia.
    + intros p r. destruct (decide (p = f_next f)) as [->|].
      * rewrite lookup_insert_eq. by intros [= <-].
      * rewrite lookup_insert_ne by done. apply Hpos.
  - intros k. unfold floor_in. simpl. destruct (decide (k = key)) as [->|Hk].
    + rewrite lookup_insert_eq. simpl. by rewrite lookup_insert_eq.
    + rewrite lookup_insert_ne by done. destruct (entries f !! k) as [p|] eqn:Ek; [|done]. simpl.
      rewrite lookup_insert_ne; [done|]. intros <-. apply Hix in Ek as [v' Hv']. congruence.
Qed.

Lemma retire_ok f :
  fwf f -> Z.of_nat (base.size (entries f)) = capacity f ->
  exists f1 old, retire f = Some (f1, old) /\ fwf f1 /\ is_Some (entries f !! old) /\
    entries f1 = delete old (entries f) /\ capacity f1 = capacity f /\
    Z.of_nat (base.size (entries f1)) < capacity f /\
    forall k, floor_in f1 k = if decide (k = old) then 0 else floor_in f k.
Proof.
  intros Hf Hfull. pose proof Hf as [Hc Hb Hnd Hli Hix Hfr Hpos].
  assert (exists p, last (advanced f) = Some p) as [p Hp].
  { destruct (advanced f) as [|x l] eqn:E.
    - exfalso. destruct (decide (entries f = ∅)) as [E0|E0].
      + rewrite E0, map_size_empty in Hfull. lia.
      + apply map_choose in E0 as (k & q & Hk). apply Hix in Hk as [v Hv].
        assert (q ∈ ([] : list ptr)) by (apply Hli; eauto). set_solver.
    - destruct (last (x :: l)) eqn:E1; [eauto|by apply last_None in E1]. }
  pose proof (last_Some_elem_of _ _ Hp) as Hin. apply Hli in Hin as [[old v] Hr].
  assert (entries f !! old = Some p) as He by (apply Hix; eauto).
  unfold retire. rewrite Hp. simpl. rewrite Hr. simpl. eexists _, old. split; [done|].
  assert (forall k q, q <> p -> entries f !! k = Some q -> k <> old) as Hne by congruence.
  split; [|split; [eauto|split; [done|split; [done|split]]]].
  - split; simpl; auto.
    + pose proof (map_size_delete_Some old (entries f) ltac:(eauto)). lia.
    + by apply NoDup_unlink.
    + intros q. rewrite elem_of_unlink, Hli. destruct (decide (q = p)) as [->|].
      * rewrite lookup_delete_eq. naive_solver.
      * rewrite lookup_delete_ne by done. naive_solver.
    + intros k q. destruct (decide (q = p)) as [->|Hq].
      * rewrite (lookup_delete_eq (records f)). destruct (decide (k = old)) as [->|].
        -- rewrite lookup_delete_eq. naive_solver.
        -- rewrite (lookup_delete_ne (entries f)) by done. split; [|naive_solver]. intros [v' Hv']%Hix. congruence.
      * rewrite (lookup_delete_ne (records f)) by done. rewrite <- Hix. destruct (decide (k = old)) as [->|].
        -- rewrite lookup_delete_eq. split; [done|]. congruence.
        -- by rewrite lookup_delete_ne.
    + intros q Hq. apply Hfr. destruct (decide (q = p)) as [->|]; [eauto|].
      by rewrite lookup_delete_ne in Hq.
    + intros q r [_ H]%lookup_delete_Some. by apply (Hpos q).
  - pose proof (map_size_delete_Some old (entries f) ltac:(eauto)) as Hsz. simpl. lia.
  - intros k. unfold floor_in. simpl. destruct (decide (k = old)) as [->|Hk].
    + by rewrite lookup_delete_eq.
    + rewrite lookup_delete_ne by done. destruct (entries f !! k) as [q|] eqn:Ek; [|done]. simpl.
      rewrite lookup_delete_ne; [done|]. intros <-. apply Hix in Ek as [v' Hv']. congruence.
Qed.

(** ** Lemmas on groups *)

Lemma epochHash_fnv1a h key : epochHash h key = fnv1a h key.
Proof. revert h. induction key as [|c key IH]; intros h; simpl; [done|]. by rewrite IH. Qed.

Lemma fnv1a_nonneg h key : 0 <= h -> 0 <= fnv1a h key.
Proof.
  revert h. induction key as [|c key IH]; intros h Hh; simpl; [done|].
  apply IH. apply u64_range.
Qed.

Section GroupLemmas.
Context {C : Type} `{!Store C, !StoreLaws C}.
Implicit Types g : Group C.

Lemma bucket_range g key : 1 <= EpochBuckets (opts g) <= 256 -> 0 <= epochBucket g key < 256.
Proof.
  intros Hb. unfold epochBucket. rewrite epochHash_fnv1a.
  pose proof (fnv1a_nonneg 14695981039346656037 key ltac:(lia)) as Hh.
  set (h := fnv1a _ _) in *. set (m := EpochBuckets (opts g) - 1).
  assert (0 <= m <= 255) by lia.
  assert (0 <= Z.land h m) by (apply Z.land_nonneg; lia). split; [done|].
  pose proof (Z.log2_land h m ltac:(lia) ltac:(lia)) as Hl.
  pose proof (Z.log2_le_mono m 255 ltac:(lia)) as Hm. change (Z.log2 255) with 7 in Hm.
  destruct (decide (Z.land h m = 0)) as [E|E]; [lia|].
  pose proof (Z.log2_spec (Z.land h m) ltac:(lia)) as [_ Hs].
  pose proof (Z.pow_le_mono_r 2 (Z.succ (Z.log2 (Z.land h m))) 8 ltac:(lia) ltac:(lia)). lia.
Qed.

Lemma currentEpoch_some g key : gwf g -> currentEpoch g key = Some (epoch_of g key).
Proof.
  intros Hg. unfold epoch_of, currentEpoch.
  destruct (lookup_lt_is_Some_2 (epochs g) (Z.to_nat (epochBucket g key))) as [e He].
  - rewrite (gwf_epochs g Hg). pose proof (bucket_range g key (gwf_buckets g Hg)). lia.
  - by rewrite He.
Qed.

(** The fields no cache operation changes. *)
Definition same_shell g g' : Prop :=
  name g' = name g /\ getter g' = getter g /\ bloom g' = bloom g /\ opts g' = opts g /\
  apiWaiters g' = apiWaiters g.

#[global] Instance same_shell_trans : Transitive same_shell.
Proof. unfold same_shell. intros g1 g2 g3. intuition congruence. Qed.

(** Between two states of a group a stripe either keeps its epoch, and then no
    floor of its keys has gone down, or its epoch has advanced, by at most [n]. *)
Definition fenced (n : Z) g g' : Prop :=
  forall k, (epoch_of g' k = epoch_of g k /\ floor_of g k <= floor_of g' k) \/
    exists d, 1 <= d <= n /\ epoch_of g' k = u64 (epoch_of g k + d).

Lemma fenced_refl n g g' : floors g' = floors g -> epochs g' = epochs g -> opts g' = opts g -> fenced n g g'.
Proof.
  intros Hf He Ho k. left. unfold epoch_of, currentEpoch, epochBucket, floor_of. rewrite Hf, He, Ho.
  split; [done|lia].
Qed.

Lemma u64_add a d e : u64 (u64 (a + d) + e) = u64 (a + (d + e)).
Proof. unfold u64. rewrite Zplus_mod_idemp_l. f_equal. lia. Qed.

Lemma fenced_trans n m g1 g2 g3 : 0 <= n -> 0 <= m -> fenced n g1 g2 -> fenced m g2 g3 -> fenced (n + m) g1 g3.
Proof.
  intros Hn Hm H12 H23 k.
  destruct (H12 k) as [[E1 F1]|(d & Hd & E1)], (H23 k) as [[E2 F2]|(e & He & E2)].
  - left. split; [congruence|lia].
  - right. exists e. rewrite E2, E1. split; [lia|done].
  - right. exists d. rewrite E2, E1. split; [lia|done].
  - right. exists (d + e). rewrite E2, E1, u64_add. split; [lia|done].
Qed.

Lemma gwf_mainCache g c : gwf g -> st_inv c -> gwf (set_mainCache g c).
Proof. by intros [] ?; split. Qed.

Lemma knownVersionLocked_ok g key now :
  gwf g -> exists c, knownVersionLocked g key now
      = Some (set_mainCache g c, Z.max (floor_of g key) (cached_version c key)) /\
    st_inv c /\ st_resident c ⊆ st_resident (mainCache g).
Proof.
  intros Hg. unfold knownVersionLocked.
  assert (match entries (floors g) !! key with
          | Some e => r ← records (floors g) !! e; Some (r_version r)
          | None => Some 0 end = Some (floor_of g key)) as ->.
  { unfold floor_of. destruct (entries (floors g) !! key) as [p|] eqn:He.
    - destruct (fwf_entry _ _ _ (gwf_floors g Hg) He) as (v & Hv & -> & _). by rewrite Hv.
    - by rewrite floor_in_none. }
  simpl. destruct (st_version_ok (mainCache g) key now (gwf_cache g Hg)) as (c & -> & Hc & Hs).
  simpl. exists c. by split_and!.
Qed.

Lemma bumpEpoch_ok g key :
  gwf g -> exists g', bumpEpoch g key = Some g' /\ gwf g' /\ same_shell g g' /\
    mainCache g' = mainCache g /\ floors g' = floors g /\
    epoch_of g' key = u64 (epoch_of g key + 1) /\
    (forall k, epoch_of g' k = epoch_of g k \/ epoch_of g' k = u64 (epoch_of g k + 1)).
Proof.
  intros Hg. unfold bumpEpoch. rewrite currentEpoch_some by done. simpl. eexists. split; [done|].
  pose proof (currentEpoch_some g key Hg) as He. unfold currentEpoch in He.
  assert (forall k, epoch_of (set_epochs g (<[Z.to_nat (epochBucket g key):=u64 (epoch_of g key + 1)]> (epochs g))) k
    = if decide (Z.to_nat (epochBucket g k) = Z.to_nat (epochBucket g key)) then u64 (epoch_of g key + 1) else epoch_of g k) as Hk.
  { intros k. set (es := <[_ := _]> (epochs g)).
    change (epoch_of (set_epochs g es) k) with (default 0 (es !! Z.to_nat (epochBucket g k))).
    subst es. case_decide as E.
    - rewrite E, list_lookup_insert_eq; [done|]. by eapply lookup_lt_Some.
    - by rewrite list_lookup_insert_ne. }
  split; [|split; [done|split; [done|split; [done|split]]]].
  - destruct Hg. split; auto. simpl. by rewrite length_insert.
  - rewrite Hk. by rewrite decide_True.
  - intros k. rewrite Hk. case_decide as E; [|by left]. right. f_equal. f_equal.
    unfold epoch_of, currentEpoch. by rewrite E.
Qed.

Lemma bumpEpoch_fenced g g' key : gwf g -> bumpEpoch g key = Some g' -> fenced 1 g g'.
Proof.
  intros Hg Hb k. destruct (bumpEpoch_ok g key Hg) as (g1 & E & _ & _ & _ & HF & _ & Hk).
  assert (g1 = g') as -> by congruence.
  destruct (Hk k) as [->| ->]; [left; split; [done|]; unfold floor_of; rewrite HF; lia|].
  right. exists 1. split; [lia|done].
Qed.

(** Replacing the floors by ones that are nowhere lower. *)
Lemma floors_fenced g f n : (forall k, floor_of g k <= floor_in f k) -> fenced n g (set_floors g f).
Proof. intros H k. left. split; [done|]. apply H. Qed.

Lemma gwf_set_floors g f : gwf g -> fwf f -> gwf (set_floors g f).
Proof. by intros [] ?; split. Qed.

Lemma remember_push g key v :
  gwf g -> entries (floors g) !! key = None -> Z.of_nat (base.size (entries (floors g))) < capacity (floors g) ->
  0 < v ->
  gwf (set_floors g (push (floors g) key v)) /\ floor_of (set_floors g (push (floors g) key v)) key = v /\
  fenced 0 g (set_floors g (push (floors g) key v)) /\
  (forall k, k <> key -> floor_of (set_floors g (push (floors g) key v)) k = floor_of g k).
Proof.
  intros Hg He Hlt Hv. destruct (push_ok _ key v (gwf_floors g Hg) He Hlt Hv) as [Hf Hk].
  split; [by apply gwf_set_floors|]. unfold floor_of at 1. simpl. rewrite Hk, decide_True by done.
  split; [done|]. split; [|intros k Hne; unfold floor_of; simpl; by rewrite Hk, decide_False]. apply floors_fenced. intros k. rewrite Hk. case_decide as E; [|unfold floor_of; lia].
  subst k. unfold floor_of. rewrite floor_in_none by done. lia.
Qed.

Lemma remember_retire g :
  gwf g -> Z.of_nat (base.size (entries (floors g))) = capacity (floors g) ->
  exists f1 old g1, retire (floors g) = Some (f1, old) /\ bumpEpoch (set_floors g f1) old = Some g1 /\
    gwf g1 /\ same_shell g g1 /\ mainCache g1 = mainCache g /\ fenced 1 g g1 /\
    entries (floors g1) = delete old (entries (floors g)) /\
    Z.of_nat (base.size (entries (floors g1))) < capacity (floors g1) /\
    (forall k, floor_of g1 k <= floor_of g k).
Proof.
  intros Hg Hfull.
  destruct (retire_ok _ (gwf_floors g Hg) Hfull) as (f1 & old & HR & Hf1 & _ & HE & HC & HS & Hk).
  pose proof (gwf_set_floors g f1 Hg Hf1) as Hg1.
  destruct (bumpEpoch_ok (set_floors g f1) old Hg1) as (g1 & HB & Hw & Hsh & HM & HF & Ho & Hall).
  exists f1, old, g1. split_and!; [done|done|done|done|done| |by rewrite HF|by rewrite HF; simpl; rewrite HC|].
  2: { intros k. unfold floor_of. rewrite HF. simpl. rewrite Hk.
       pose proof (floor_in_nonneg _ k (gwf_floors g Hg)). case_decide; lia. }
  intros k. destruct (Hall k) as [E|E].
  - destruct (decide (k = old)) as [->|Hne].
    + right. exists 1. split; [lia|done].
    + left. split; [done|]. unfold floor_of. rewrite HF. simpl. rewrite Hk, decide_False by done. lia.
  - right. exists 1. split; [lia|done].
Qed.

(** [rememberVersionLocked] raises the key's floor to the version; a floor goes
    down only together with its stripe's epoch going up. *)
Lemma remember_ok g key v :
  gwf g -> 0 <= v ->
  exists g', rememberVersionLocked g key v = Some g' /\ gwf g' /\ same_shell g g' /\
    mainCache g' = mainCache g /\ floor_of g' key = Z.max (floor_of g key) v /\ fenced 1 g g' /\
    (forall k, k <> key -> floor_of g' k <= floor_of g k).
Proof.
  intros Hg Hv. unfold rememberVersionLocked.
  pose proof (floor_in_nonneg _ key (gwf_floors g Hg)) as Hpos. fold (floor_of g key) in Hpos.
  destruct (v <=? 0) eqn:E0; reflect_bool.
  { exists g. split_and!; [done|done|done|done|lia|by apply fenced_refl|done]. }
  destruct (entries (floors g) !! key) as [p|] eqn:He.
  - destruct (fwf_entry _ _ _ (gwf_floors g Hg) He) as (old & Hr & HF & Hold). rewrite Hr. simpl.
    fold (floor_of g key) in HF.
    destruct (old <? v) eqn:E1; reflect_bool.
    + destruct (advance_ok _ p key old v (gwf_floors g Hg) He Hr E1) as [Hf Hk].
      eexists. split; [done|]. split; [by apply gwf_set_floors|]. split; [done|]. split; [done|].
      unfold floor_of at 1. simpl. rewrite Hk, decide_True by done. split; [lia|].
      split; [|intros k Hne; unfold floor_of; simpl; rewrite Hk, decide_False by done; lia].
      apply floors_fenced. intros k. rewrite Hk. case_decide; [subst; lia|unfold floor_of; lia].
    + exists g. split_and!; [done|done|done|done|lia|by apply fenced_refl|done].
  - assert (floor_of g key = 0) as HF by by apply floor_in_none. rewrite HF.
    destruct (Z.of_nat (base.size (entries (floors g))) =? capacity (floors g)) eqn:E1; reflect_bool.
    + destruct (remember_retire g Hg E1) as (f1 & old & g1 & -> & HB & Hw & Hsh & HM & Hfe & HE & HS & HD).
      simpl. rewrite HB. simpl. eexists. split; [done|].
      destruct (remember_push g1 key v Hw) as (Hw2 & Hk2 & Hf2 & Ho2); [|done|lia|].
      { rewrite HE. by apply lookup_delete_None; right. }
      split_and!; [done|by etransitivity|done|rewrite Hk2; lia| |].
      * by apply (fenced_trans 1 0 _ g1).
      * intros k Hne. by rewrite Ho2.
    + simpl. eexists. split; [done|].
      pose proof (fwf_bound _ (gwf_floors g Hg)).
      destruct (remember_push g key v Hg He) as (Hw2 & Hk2 & Hf2 & Ho2); [lia..|].
      split_and!; [done|done|done|rewrite Hk2; lia| |].
      * apply (fenced_trans 1 0 _ g); [lia..|by apply fenced_refl|done].
      * intros k Hne. rewrite Ho2 by done. lia.
Qed.

(** The second half of [InvalidateVersion]: evict what is older than [m]. *)
Lemma evict_older_ok g key v m t2 :
  gwf g -> 0 <= v <= m ->
  exists g', (if v =? 0 then c ← st_remove (mainCache g) key; Some (set_mainCache g c)
              else '(c, cached) ← st_version (mainCache g) key t2;
                if cached <? m then c' ← st_remove c key; Some (set_mainCache g c')
                else Some (set_mainCache g c)) = Some g' /\
    gwf g' /\ (exists c, g' = set_mainCache g c) /\
    st_resident (mainCache g') ⊆ st_resident (mainCache g) /\
    (forall view, st_resident (mainCache g') !! key = Some view -> 0 < v /\ m <= version view).
Proof.
  intros Hg Hm. destruct (v =? 0) eqn:E0; reflect_bool.
  - destruct (st_remove_ok (mainCache g) key (gwf_cache g Hg)) as (c & -> & Hc & HR). simpl.
    eexists. split; [done|]. split; [by apply gwf_mainCache|]. split; [by eexists|].
    simpl. rewrite HR. split; [apply delete_subseteq|]. intros view. by rewrite lookup_delete_eq.
  - destruct (st_version_ok (mainCache g) key t2 (gwf_cache g Hg)) as (c & -> & Hc & HS). simpl.
    destruct (match st_resident c !! key with Some v0 => version v0 | None => 0 end <? m) eqn:E1; reflect_bool.
    + destruct (st_remove_ok c key Hc) as (c' & -> & Hc' & HR). simpl.
      eexists. split; [done|]. split; [by apply gwf_mainCache|]. split; [by eexists|].
      simpl. rewrite HR. split.
      * etransitivity; [apply delete_subseteq|done].
      * intros view. by rewrite lookup_delete_eq.
    + eexists. split; [done|]. split; [by apply gwf_mainCache|]. split; [by eexists|].
      simpl. split; [done|]. intros view Hv. rewrite Hv in E1. lia.
Qed.

Lemma fenced_mainCache g c : fenced 0 g (set_mainCache g c).
Proof. by apply fenced_refl. Qed.

Lemma InvalidateVersion_ok g key v t1 t2 :
  gwf g -> ValidateKey key = None -> 0 <= v ->
  exists g' evs, InvalidateVersion g key v t1 t2 = Some (g', evs, None) /\
    gwf g' /\ same_shell g g' /\ fenced 2 g g' /\
    st_resident (mainCache g') ⊆ st_resident (mainCache g) /\
    Z.max (floor_of g key) v <= floor_of g' key /\
    (forall view, st_resident (mainCache g') !! key = Some view -> 0 < v /\ v <= version view) /\
    (forall known g1, knownVersionLocked g key t1 = Some (g1, known) -> v = 0 \/ known < v ->
       exists d, 1 <= d <= 2 /\ epoch_of g' key = u64 (epoch_of g key + d)) /\
    (forall k, k <> key -> floor_of g' k <= floor_of g k) /\
    (forall B, 0 <= B -> (forall view, st_resident (mainCache g) !! key = Some view -> version view <= B) ->
       floor_of g key <= B -> v <= B -> floor_of g' key <= B).
Proof.
  intros Hg Hk Hv. unfold InvalidateVersion. rewrite Hk, (proj2 (Z.ltb_ge _ _)) by lia.
  destruct (knownVersionLocked_ok g key t1 Hg) as (c1 & -> & Hc1 & HS1). simpl.
  set (known := Z.max (floor_of g key) (cached_version c1 key)).
  pose proof (gwf_mainCache g c1 Hg Hc1) as Hg1.
  pose proof (floor_in_nonneg _ key (gwf_floors g Hg)) as Hfl. fold (floor_of g key) in Hfl.
  destruct (remember_ok (set_mainCache g c1) key (Z.max known v) Hg1) as (g2 & -> & Hg2 & Hsh2 & HM2 & HF2 & Hfe2 & Ho2); [lia|].
  simpl in HM2. change (floor_of (set_mainCache g c1) key) with (floor_of g key) in HF2. simpl.
  assert (exists g3 res, (if (v =? 0) || (known <? v) then g' ← bumpEpoch g2 key; Some (g', "applied")
      else Some (g2, "ignored")) = Some (g3, res) /\ gwf g3 /\ same_shell g2 g3 /\ mainCache g3 = mainCache g2 /\
      floors g3 = floors g2 /\ fenced 1 g2 g3 /\
      (v = 0 \/ known < v -> epoch_of g3 key = u64 (epoch_of g2 key + 1))) as
    (g3 & res & -> & Hg3 & Hsh3 & HM3 & HF3 & Hfe3 & Hep).
  { destruct ((v =? 0) || (known <? v)) eqn:E.
    - destruct (bumpEpoch_ok g2 key Hg2) as (g3 & HB & Hg3 & Hsh & HM & HF & HE & _).
      pose proof (bumpEpoch_fenced g2 g3 key Hg2 HB) as Hfe.
      rewrite HB. simpl. eexists g3, _. split_and!; auto; apply Hsh.
    - reflect_bool. exists g2, "ignored". split_and!; auto; try done; [by apply fenced_refl|lia]. }
  simpl. destruct (evict_older_ok g3 key v (Z.max known v) t2 Hg3) as (g5 & -> & Hg5 & [c5 ->] & HS5 & Hres); [lia|].
  simpl. eexists _, _. split; [done|]. split; [done|].
  assert (fenced 2 g (set_mainCache g3 c5)) as Hfe.
  { apply (fenced_trans 2 0 _ g3); [lia..| |apply fenced_mainCache].
    apply (fenced_trans 1 1 _ g2); [lia..| |done]. exact Hfe2. }
  split; [by transitivity g2|]. split; [done|]. simpl in HS5.
  split_and!.
  - simpl. rewrite HM3, HM2 in HS5. by etransitivity.
  - unfold floor_of at 2. simpl. rewrite HF3. fold (floor_of g2 key). lia.
  - intros view Hview. apply Hres in Hview. lia.
  - intros known' g1 [= <- <-] Happ. fold known in Happ.
    change (epoch_of (set_mainCache g3 c5) key) with (epoch_of g3 key). rewrite Hep by done.
    destruct (Hfe2 key) as [[E _]|(d & Hd & E)];
      change (epoch_of (set_mainCache g c1) key) with (epoch_of g key) in E; rewrite E.
    + exists 1. split; [lia|done].
    + exists (d + 1). rewrite u64_add. split; [lia|done].
  - intros k Hne. unfold floor_of at 1. simpl. rewrite HF3. by apply Ho2.
  - intros B HB Hview HfB HvB. unfold floor_of at 1. simpl. rewrite HF3. fold (floor_of g2 key).
    rewrite HF2. assert (cached_version c1 key <= B); [|lia].
    unfold cached_version. destruct (st_resident c1 !! key) as [view|] eqn:E; [|done].
    apply Hview. by eapply lookup_weaken.
Qed.

Lemma readBarrier_ok g key now :
  gwf g -> exists c, readBarrier g key now
      = Some (set_mainCache g c,
              mkFence (epoch_of g key) (Z.max (floor_of g key) (cached_version c key))) /\
    st_inv c /\ st_resident c ⊆ st_resident (mainCache g).
Proof.
  intros Hg. unfold readBarrier. rewrite currentEpoch_some by done. simpl.
  destruct (knownVersionLocked_ok g key now Hg) as (c & -> & Hc & HS). simpl. eauto.
Qed.

Lemma NewGroup_fields newCache obits ohashes nm cap get o g :
  NewGroup newCache obits ohashes nm cap get o = Some g -> name g = nm /\ mainCache g = newCache cap.
Proof.
  unfold NewGroup. intros (get' & _ & H)%bind_Some. case_match; [done|].
  apply bind_Some in H as (o' & _ & (bf & _ & [= <-])%bind_Some). done.
Qed.

(** The filter of a new group: present exactly when there are known keys, and
    it passes each of them. *)
Lemma NewGroup_bloom newCache obits ohashes nm cap get o g :
  NewGroup newCache obits ohashes nm cap get o = Some g ->
  match KnownKeys o with
  | None => bloom g = None
  | Some keys => exists bf, bloom g = Some bf /\ forall key, key ∈ keys -> Contains bf key = Some true
  end.
Proof.
  unfold NewGroup. intros (get' & _ & H)%bind_Some. case_match; [done|].
  apply bind_Some in H as (o' & Ho & (bf & Hbf & [= <-])%bind_Some).
  assert (KnownKeys o' = KnownKeys o) as Hk.
  { unfold normalizeOptions in Ho. case_bool; [done|]. apply bind_Some in Ho as (l & Hl & Ho).
    case_bool; [done|]. case_bool; [done|]. by simplify_eq/=. }
  rewrite Hk in Hbf. simpl. destruct (KnownKeys o) as [keys|]; [|by injection Hbf as <-].
  apply bind_Some in Hbf as (bf' & Hbf & [= <-]).
  destruct (newBloomForKeys_contains obits ohashes keys) as (b & E & _ & Hall). rewrite E in Hbf. injection Hbf as <-. by exists b.
Qed.

Lemma NewGroup_gwf newCache obits ohashes nm cap get o g :
  st_inv (newCache cap) -> st_resident (newCache cap) = ∅ ->
  NewGroup newCache obits ohashes nm cap get o = Some g ->
  gwf g /\ st_resident (mainCache g) = ∅ /\ (forall k, floor_of g k = 0 /\ epoch_of g k = 0) /\
  get = Some (getter g).
Proof.
  intros Hi Hr H. unfold NewGroup in H. destruct get as [get|]; [|done]. simpl in H.
  case_bool; [done|]. apply orb_false_iff in Heqb as [_ Hcap]. reflect_bool.
  apply bind_Some in H as (o' & Ho & H). apply bind_Some in H as (bf & Hbf & [= <-]).
  assert (1 <= EpochBuckets o' <= 256 /\ is_Some (Limiter o')) as [HB HL].
  { unfold normalizeOptions in Ho. case_bool; [done|]. apply bind_Some in Ho as (l & Hl & Ho).
    case_bool; [done|]. case_bool; [done|]. simplify_eq/=. reflect_bool. split; [lia|eauto]. }
  assert (bloom_ok bf) as HBl.
  { destruct (KnownKeys o') as [keys|]; [|by simplify_eq].
    apply bind_Some in Hbf as (bf' & Hbf & [= <-]).
    unfold newBloomForKeys in Hbf. apply bind_Some in Hbf as (b0 & H0 & Hadd).
    edestruct NewBloomFilter_bwf as (b1 & H1 & Hw); [apply (newBloom_size_pos obits)|apply (newBloom_hashes_pos ohashes)|].
    rewrite H1 in H0. simplify_eq. destruct (add_all_ok keys b0 Hw) as (b2 & H2 & Hw2 & _).
    simpl. congruence. }
  split; [|split; [done|split; [|done]]].
  - split; simpl; auto. by apply fwf_new.
  - intros k. split; [by apply floor_in_none, lookup_empty|].
    unfold epoch_of, currentEpoch. set (i := Z.to_nat _).
    change (default 0 ((replicate 256 0 : list Z) !! i) = 0).
    destruct ((replicate 256 0 : list Z) !! i) as [e|] eqn:E; [|done].
    apply lookup_replicate in E as [-> _]. done.
Qed.

(** C18: [InvalidateVersion] always returns. A rejected key or a negative
    version changes nothing. Otherwise the key's floor is at least the version
    and never lower than before, no view of the key older than the version is
    left resident (none at all for a forced invalidation, version 0), nothing
    becomes resident, the epoch of the key's stripe advances when the version
    is new or forced, and any floor that went down did so together with an
    advance of its stripe's epoch. *)
Theorem InvalidateVersion_contract g key v t1 t2 :
  gwf g ->
  (ValidateKey key <> None -> InvalidateVersion g key v t1 t2 = Some (g, [], Some ErrInvalidKey)) /\
  (ValidateKey key = None -> v < 0 ->
     InvalidateVersion g key v t1 t2 = Some (g, [], Some ErrInvalidVersion)) /\
  (ValidateKey key = None -> 0 <= v ->
     exists g' evs, InvalidateVersion g key v t1 t2 = Some (g', evs, None) /\ gwf g' /\
       Z.max (floor_of g key) v <= floor_of g' key /\
       st_resident (mainCache g') ⊆ st_resident (mainCache g) /\
       (forall view, st_resident (mainCache g') !! key = Some view -> 0 < v <= version view) /\
       (forall known g1, knownVersionLocked g key t1 = Some (g1, known) -> v = 0 \/ known < v ->
          exists d, 1 <= d <= 2 /\ epoch_of g' key = u64 (epoch_of g key + d)) /\
       fenced 2 g g').
Proof.
  intros Hg. split; [|split].
  - intros Hk. unfold InvalidateVersion. unfold ValidateKey in *. by case_bool.
  - intros Hk Hv. unfold InvalidateVersion. by rewrite Hk, (proj2 (Z.ltb_lt _ _)).
  - intros Hk Hv. destruct (InvalidateVersion_ok g key v t1 t2 Hg Hk Hv)
      as (g' & evs & H1 & H2 & _ & H4 & H5 & H6 & H7 & H8 & _).
    exists g', evs. by split_and!.
Qed.

End GroupLemmas.

(** ** Accepted configurations *)

Lemma power_of_two_test b :
  1 <= b <= 256 -> Z.land b (b - 1) = 0 <-> exists n, 0 <= n <= 8 /\ b = 2 ^ n.
Proof.
  intros Hb.
  assert (forallb (fun b => Bool.eqb (Z.land b (b - 1) =? 0)
            (existsb (fun n => b =? 2 ^ n) (seqZ 0 9))) (seqZ 1 256) = true) as Hall by (vm_compute; reflexivity).
  rewrite forallb_forall in Hall. specialize (Hall b). rewrite <- list_elem_of_In, elem_of_seqZ in Hall.
  specialize (Hall ltac:(lia)). apply eqb_prop in Hall.
  rewrite <- Z.eqb_eq, Hall, existsb_exists. setoid_rewrite <- list_elem_of_In.
  setoid_rewrite elem_of_seqZ. setoid_rewrite Z.eqb_eq.
  split; intros (n & H1 & H2); exists n; split; auto; lia.
Qed.

Lemma default_to_pos d x : 0 < d -> 1 <= default_to d x <-> 0 <= x.
Proof. intros Hd. unfold default_to. case_bool; reflect_bool; lia. Qed.

Lemma default_to_nonneg d x : 0 < d -> 0 <= default_to d x <-> 0 <= x.
Proof. intros Hd. unfold default_to. case_bool; reflect_bool; lia. Qed.

Lemma normalizeOptions_accepts o cap :
  is_Some (normalizeOptions o cap) <->
  0 <= TTL o /\ 0 <= SourceTimeout o /\
  (EpochBuckets o = 0 \/ exists n, 0 <= n <= 8 /\ EpochBuckets o = 2 ^ n) /\
  0 <= MaxMissWaiters o /\ 0 <= CleanupInterval o /\ 0 <= CleanupBatch o.
Proof.
  unfold normalizeOptions.
  rewrite <- (default_to_pos DefaultMissWaiters (MaxMissWaiters o)) by done.
  rewrite <- (default_to_nonneg Second (CleanupInterval o)) by done.
  rewrite <- (default_to_pos 128 (CleanupBatch o)) by done.
  assert (EpochBuckets o = 0 \/ (exists n, 0 <= n <= 8 /\ EpochBuckets o = 2 ^ n) <->
     1 <= default_to 256 (EpochBuckets o) <= 256 /\
     Z.land (default_to 256 (EpochBuckets o)) (default_to 256 (EpochBuckets o) - 1) = 0) as Hb.
  { unfold default_to. destruct (EpochBuckets o =? 0) eqn:E; reflect_bool.
    - split; [intros _; split; [lia|done]|by left].
    - split.
      + intros [?|(n & Hn & ->)]; [done|].
        assert (1 <= 2 ^ n <= 256).
        { pose proof (Z.pow_le_mono_r 2 n 8 ltac:(lia) ltac:(lia)).
          pose proof (Z.pow_pos_nonneg 2 n ltac:(lia) ltac:(lia)). lia. }
        split; [done|]. apply power_of_two_test; eauto.
      + intros [Hr Hl]. right. by apply power_of_two_test. }
  rewrite Hb. clear Hb. set (bk := default_to 256 (EpochBuckets o)).
  assert (exists l, match Limiter o with Some l => Some l | None => NewSourceLimiter 32 end = Some l) as [l ->]
    by (destruct (Limiter o); eauto).
  simpl. destruct ((TTL o <? 0) || (SourceTimeout o <? 0)) eqn:E1.
  { split; [by intros []|]. apply orb_true_iff in E1. intros (? & ? & _). destruct E1; reflect_bool; lia. }
  destruct ((bk <? 1) || (256 <? bk) || negb (Z.land bk (bk - 1) =? 0)) eqn:E2.
  { split; [by intros []|]. intros (_ & _ & [? ?] & _). apply orb_true_iff in E2 as [E2|E2].
    - apply orb_true_iff in E2. destruct E2; reflect_bool; lia.
    - reflect_bool. done. }
  reflect_bool. case_bool.
  - split; [by intros []|]. intros (_ & _ & _ & ? & ? & ?). apply orb_true_iff in Heqb as [Heqb|Heqb]; [apply orb_true_iff in Heqb as [|]|]; reflect_bool; lia.
  - reflect_bool. split; [intros _; split_and!; auto; lia|eauto].
Qed.

(** [NewGroup] panics exactly on an empty name, a missing source, a
    non-positive capacity, a negative duration or count, or an epoch stripe
    count that is not a power of two up to 256 (zero selecting the default);
    otherwise it returns a group. *)
Theorem NewGroup_accepts (newCache : Z -> cache) obits ohashes nm cap get o :
  is_Some (NewGroup newCache obits ohashes nm cap get o) <->
  nm <> EmptyString /\ is_Some get /\ 0 < cap /\ 0 <= TTL o /\ 0 <= SourceTimeout o /\
  (EpochBuckets o = 0 \/ exists n, 0 <= n <= 8 /\ EpochBuckets o = 2 ^ n) /\
  0 <= MaxMissWaiters o /\ 0 <= CleanupInterval o /\ 0 <= CleanupBatch o.
Proof.
  rewrite <- (normalizeOptions_accepts o cap). unfold NewGroup. destruct get as [get|]; simpl.
  2: { split; [by intros []|]. intros (_ & [] & _). done. }
  destruct (bool_decide (nm = EmptyString) || (cap <=? 0)) eqn:E.
  { split; [by intros []|]. intros (Hn & _ & Hc & _). apply orb_true_iff in E as [E|E]; reflect_bool; [done|lia]. }
  reflect_bool. destruct (normalizeOptions o cap) as [o'|]; simpl.
  2: { split; [by intros []|]. by intros (_ & _ & _ & []). }
  split; [intros _; split_and!; eauto|]. intros _. destruct (KnownKeys o') as [keys|]; simpl; [|eauto].
  unfold newBloomForKeys.
  edestruct NewBloomFilter_bwf as (b1 & -> & Hw); [apply (newBloom_size_pos obits)|apply (newBloom_hashes_pos ohashes)|].
  simpl. destruct (add_all_ok keys b1 Hw) as (b2 & -> & _). simpl. eauto.
Qed.

(** ** A concrete group *)
Definition default_options : Options := mkOptions 0 None 0 None None true 0 0 0 0.
Definition sample_group : Group cache :=
  mkGroup "products" VersionedGetter (fresh_area 1000) None (newFloors DefaultVersionRecords)
    (replicate 256 0)
    (mkOptions Minute None defaultSourceTimeout (Some (mkLimiter (make_chan 32) (make_chan 128)))
       (Some Background) true 256 128 Second 128) (make_chan 128).

Example sample_group_new :
  NewGroup fresh_area (fun n => n) (fun _ _ => 1) "products" 1000 (Some VersionedGetter) default_options
  = Some sample_group.
Proof. reflexivity. Qed.

Lemma sample_group_gwf : gwf sample_group.
Proof.
  apply (NewGroup_gwf fresh_area (fun n => n) (fun _ _ => 1) "products" 1000 (Some VersionedGetter) default_options).
  - by apply fresh_cwf.
  - done.
  - reflexivity.
Qed.

Lemma InvalidateVersion_contract_witness :
  exists g' evs, InvalidateVersion sample_group "k" 7 1 2 = Some (g', evs, None) /\ gwf g' /\
    Z.max (floor_of sample_group "k") 7 <= floor_of g' "k".
Proof.
  destruct (InvalidateVersion_contract sample_group "k" 7 1 2 sample_group_gwf) as (_ & _ & H).
  destruct (H eq_refl ltac:(lia)) as (g' & evs & H1 & H2 & H3 & _). by exists g', evs.
Defined.
