(* ===== verification/Maintenance.v ===== *)
(** * Background expiration of a group
      ([Group.CleanExpired] and [Group.RunMaintenance] of [internal/cache/cache.go])

    The maintenance goroutine is driven by what its [select] receives: a
    cancelled context or a tick of the ticker. A run is a function of the list
    of those wake-ups; what the mutex attempt and the clocks answer during one
    cleaning round is part of the tick. [None] is a panic. *)
From S2P Require Import Prelude GoStrings Errors LRU CacheStore Bloom Admission Group.

(** What one round of [cleanExpired] meets: whether the area's mutex is taken,
    and the clock readings. *)
Record cleanEnv := mkCleanEnv {
  ce_locked : bool;
  ce_now : Time;
  ce_start : Time;
  ce_clock : nat -> Time;
}.

(** A call of [cleanupObserver.Cleanup] (the elapsed time is a measurement). *)
Record cleanup := mkCleanup { cl_checked : Z; cl_removed : Z; cl_busy : bool }.

(** What the loop's [select] receives: [ctx.Done()], or a tick after which
    [ctx.Err()] is read. *)
Inductive wake := Cancelled | Tick (ctxErr : option error) (e : cleanEnv).

Section Maintenance.
Context {C : Type} `{!Store C, !StoreLaws C}.

(** [cleanupObs]: the installed observer also implements [cleanupObserver].
    The group has one area, its main cache. *)
Definition CleanExpired (g : Group C) (cleanupObs : bool) (e : cleanEnv) : option (Group C * list cleanup) :=
  '(c, checked, removed, busy) ← st_clean (mainCache g) (CleanupBatch (opts g)) (ce_locked e)
                                   (ce_now e) (ce_start e) (ce_clock e);
  Some (set_mainCache g c, if cleanupObs then [mkCleanup checked removed busy] else []).

(** The loop over the wake-ups; the flag tells whether it has returned. *)
Fixpoint maintenanceLoop (g : Group C) (cleanupObs : bool) (ws : list wake) : option (Group C * list cleanup * bool) :=
  match ws with
  | [] => Some (g, [], false)
  | Cancelled :: _ => Some (g, [], true)
  | Tick (Some _) _ :: _ => Some (g, [], true)
  | Tick None e :: ws' =>
      '(g1, obs1) ← CleanExpired g cleanupObs e;
      '(g2, obs2, returned) ← maintenanceLoop g1 cleanupObs ws';
      Some (g2, obs1 ++ obs2, returned)
  end.

(** [held]: another goroutine holds [maintenanceMu]. The mutex is released
    exactly when the call has returned. *)
Definition RunMaintenance (g : Group C) (cleanupObs held : bool) (ws : list wake)
    : option (Group C * list cleanup * bool) :=
  if held then Some (g, [], true) else maintenanceLoop g cleanupObs ws.

(** A wake-up that ends the loop. *)
Definition stops (w : wake) : bool :=
  match w with Cancelled => true | Tick (Some _) _ => true | Tick None _ => false end.

(** The latest time any round of the run compared deadlines with. *)
Definition rounds_before (T : Time) (ws : list wake) : Prop :=
  forall err e, Tick err e ∈ ws -> ce_now e <= T.

Definition cleanup_ok (batch : Z) (o : cleanup) : Prop :=
  0 <= cl_removed o <= cl_checked o /\ cl_checked o <= batch.

(** What a cleaned group keeps: everything but expired views. *)
Definition cleaned (T : Time) (g g' : Group C) : Prop :=
  gwf g' /\ g' = set_mainCache g (mainCache g') /\
  st_resident (mainCache g') ⊆ st_resident (mainCache g) /\
  forall k v, st_resident (mainCache g) !! k = Some v ->
    st_resident (mainCache g') !! k = Some v \/ expiresAt v <> 0 /\ expiresAt v <= T.

Lemma cleaned_refl T g : gwf g -> cleaned T g g.
Proof. intros Hg. split_and!; auto. by destruct g. Qed.

Lemma cleaned_trans T g1 g2 g3 : cleaned T g1 g2 -> cleaned T g2 g3 -> cleaned T g1 g3.
Proof.
  intros (_ & E1 & R1 & K1) (W2 & E2 & R2 & K2).
  split_and!; [done| |by etrans|].
  - rewrite E2, E1 at 1. by destruct g1.
  - intros k v Hv. destruct (K1 k v Hv) as [Hv'|]; [|by right]. by apply K2.
Qed.

Lemma CleanExpired_ok T g obs e :
  gwf g -> 0 <= CleanupBatch (opts g) -> ce_now e <= T ->
  exists g' os, CleanExpired g obs e = Some (g', os) /\ cleaned T g g' /\
    Forall (cleanup_ok (CleanupBatch (opts g))) os.
Proof.
  intros Hg Hb HT. unfold CleanExpired.
  destruct (st_clean_ok (mainCache g) (CleanupBatch (opts g)) (ce_locked e) (ce_now e) (ce_start e) (ce_clock e)
    (gwf_cache g Hg)) as (c & ch & rm & busy & -> & Hc & HR & Hrm & Hch & Hx). simpl.
  eexists _, _. split; [done|]. split.
  - split_and!; [by apply gwf_mainCache|done|done|].
    intros k v Hv. destruct (Hx k v Hv); [by left|right; simpl; lia].
  - destruct obs; repeat constructor; simpl; lia.
Qed.

Lemma maintenanceLoop_ok T g obs ws :
  gwf g -> 0 <= CleanupBatch (opts g) -> rounds_before T ws ->
  exists g' os, maintenanceLoop g obs ws = Some (g', os, existsb stops ws) /\ cleaned T g g' /\
    Forall (cleanup_ok (CleanupBatch (opts g))) os.
Proof.
  revert g. induction ws as [|w ws IH]; intros g Hg Hb HT.
  { exists g, []. split; [done|]. split; [by apply cleaned_refl|done]. }
  destruct w as [|[err|] e]; simpl.
  1,2: exists g, []; split; [done|]; split; [by apply cleaned_refl|done].
  destruct (CleanExpired_ok T g obs e Hg Hb) as (g1 & os1 & -> & H1 & F1).
  { apply (HT None e). by left. }
  pose proof H1 as (Hg1 & E1 & _).
  assert (opts g1 = opts g) as Ho by (rewrite E1; done).
  destruct (IH g1) as (g2 & os2 & Hrun & H2 & F2); [done|by rewrite Ho|intros err e' He; apply (HT err); by right|].
  simpl. rewrite Hrun. simpl. eexists _, _. split; [done|].
  split; [by eapply cleaned_trans|]. apply Forall_app. by rewrite <- Ho at 2.
Qed.

(** Background expiration never panics and touches nothing but expired
    entries: whatever wakes it up and whatever the clocks and the mutex answer,
    the group keeps its options, epochs, floors and admission state, every view
    whose deadline lies after the last round is still resident, each round
    examines at most [CleanupBatch] entries; the call returns exactly when
    another goroutine already runs maintenance (then it does nothing) or once
    its context is cancelled. *)
Theorem RunMaintenance_contract T (g : Group C) obs held ws :
  gwf g -> 0 <= CleanupBatch (opts g) -> rounds_before T ws ->
  exists g' os, RunMaintenance g obs held ws = Some (g', os, held || existsb stops ws) /\
    cleaned T g g' /\ Forall (cleanup_ok (CleanupBatch (opts g))) os /\ (held = true -> g' = g).
Proof.
  intros Hg Hb HT. unfold RunMaintenance. destruct held; simpl.
  - exists g, []. split; [done|]. split; [by apply cleaned_refl|]. by split.
  - destruct (maintenanceLoop_ok T g obs ws Hg Hb HT) as (g' & os & -> & H1 & H2).
    exists g', os. by split_and!.
Qed.

End Maintenance.

(** ** A run: the view of "a" expires at 5 and is removed by the round at 10 *)
Definition stocked_area : cache :=
  match add (fresh_area 1000) "a" (mkView [] 0 1) 5 0 1 with
  | Some (c, _) => c
  | None => fresh_area 1000
  end.

Definition stocked_group : Group cache := set_mainCache sample_group stocked_area.

Lemma stocked_group_gwf : gwf stocked_group.
Proof.
  apply gwf_mainCache; [apply sample_group_gwf|]. unfold stocked_area.
  destruct (add_ok (fresh_area 1000) "a" (mkView [] 0 1) 5 0 1) as (c & v & -> & Hc & _).
  - by apply fresh_cwf.
  - done.
  - done.
Qed.

Definition sample_wakes : list wake :=
  [Tick None (mkCleanEnv true 8 8 (fun _ => 8)); Tick None (mkCleanEnv false 10 10 (fun _ => 10)); Cancelled].

Example sample_maintenance :
  match RunMaintenance stocked_group true false sample_wakes with
  | Some (g, os, returned) => (map cl_removed os, map cl_busy os, returned, Entries (GroupStats g))
  | None => ([], [], false, 0)
  end = ([0; 1], [true; false], true, 0).
Proof. vm_compute. reflexivity. Qed.

Lemma RunMaintenance_contract_witness :
  exists g' os, RunMaintenance stocked_group true false sample_wakes = Some (g', os, true) /\
    cleaned 10 stocked_group g' /\ Forall (cleanup_ok 128) os.
Proof.
  destruct (RunMaintenance_contract 10 stocked_group true false sample_wakes) as (g' & os & H1 & H2 & H3 & _).
  - apply stocked_group_gwf.
  - done.
  - intros err e He. unfold sample_wakes in He. rewrite !elem_of_cons in He.
    destruct He as [He|[He|[He|He]]]; simplify_eq; simpl; try lia. by apply elem_of_nil in He.
  - by exists g', os.
Defined.
