(* ===== verification/Read.v ===== *)
(** * The read path ([internal/cache/load.go], [internal/cache/read.go])

    A call of [Get] and the flight it starts run concurrently with other
    calls, with invalidations and with maintenance, and share the group. A
    program is therefore a [prog]: a sequence of atomic actions on the group
    (each the body of one critical section, or one channel operation), source
    reads, and the two interactions with [singleflight]. Between two of them
    any other thread may run. *)
From S2P Require Import Prelude GoStrings Errors LRU CacheStore Bloom Admission Group.

Definition zeroView : ByteView := mkView [] 0 0.

(** [flightKey]: the name two callers must share to share a flight. *)
Definition flightKey (fence : readFence) (key : string) : string :=
  FormatUint (epoch fence) +:+ ":" +:+ FormatInt (minimum fence) +:+ ":" +:+ key.

Record sourceResult := mkResult { value : ByteView; res_minimum : Z }.

(** What the source answers: value, version, error. A plain [Getter] has no
    version and its second component is ignored. *)
Definition SourceReply : Type := bytes * Z * option error.
(** What a flight and a call of [Get] return. *)
Definition Reply : Type := ByteView * option error.

(** ** Programs *)
Section Prog.
Context {C : Type} `{!Store C}.

(** What the surroundings show an action: clock readings and the state of the
    context it consults. *)
Record env := mkEnv { now : nat -> Time; ctxErr : option error }.

Inductive outcome (B : Type) :=
| Next (g : Group C) (evs : list event) (b : B)
| Block
| Panic.
Arguments Next {B}.
Arguments Block {B}.
Arguments Panic {B}.

Inductive prog (A : Type) :=
| Ret (a : A)
| Act (f : env -> Group C -> outcome (prog A))
| Source (key : string) (k : SourceReply -> prog A)
| DoChan (fence : readFence) (key : string) (k : nat -> prog A)
| Await (ch : nat) (k : error + Reply -> prog A).
Arguments Ret {A}.
Arguments Act {A}.
Arguments Source {A}.
Arguments DoChan {A}.
Arguments Await {A}.

Fixpoint bind {A B} (m : prog A) (h : A -> prog B) : prog B :=
  match m with
  | Ret a => h a
  | Act f => Act (fun e g => match f e g with
                             | Next g' evs p => Next g' evs (bind p h)
                             | Block => Block
                             | Panic => Panic
                             end)
  | Source key k => Source key (fun r => bind (k r) h)
  | DoChan fence key k => DoChan fence key (fun ch => bind (k ch) h)
  | Await ch k => Await ch (fun r => bind (k r) h)
  end.

#[global] Instance prog_bind : MBind prog := fun A B h m => bind m h.

(** ** Atomic actions *)

(** [ctx.Err()] *)
Definition ctx_Err : prog (option error) := Act (fun e g => Next g [] (Ret (ctxErr e))).

Definition observing (operation result : string) : prog unit :=
  Act (fun _ g => Next g (observe g operation result) (Ret tt)).

(** [g.opts.Observer.Inflight(delta)] *)
Definition inflight (delta : string) : prog unit := observing "inflight" delta.

Definition get_getter : prog Getter := Act (fun _ g => Next g [] (Ret (getter g))).

(** [g.mainCache.get(key)] *)
Definition cacheGet (key : string) : prog (option ByteView) :=
  Act (fun e g => match st_get (mainCache g) key (now e 0) with
                  | Some (c, r) => Next (set_mainCache g c) [] (Ret r)
                  | None => Panic
                  end).

(** [g.bloom != nil && !g.bloom.Contains(key)] *)
Definition bloomRejects (key : string) : prog bool :=
  Act (fun _ g => match bloom g with
                  | None => Next g [] (Ret false)
                  | Some bf => match Contains bf key with
                               | Some r => Next g [] (Ret (negb r))
                               | None => Panic
                               end
                  end).

Definition barrier (key : string) : prog readFence :=
  Act (fun e g => match readBarrier g key (now e 0) with
                  | Some (g', f) => Next g' [] (Ret f)
                  | None => Panic
                  end).

Definition admitting (kind : string) : prog bool :=
  Act (fun _ g => let '(g', evs, ok) := admitSlot g kind in Next g' evs (Ret ok)).

(** [<-g.apiWaiters] *)
Definition leaveWaiters : prog unit :=
  Act (fun _ g => match recv (apiWaiters g) with
                  | Some w => Next (set_apiWaiters g w) [] (Ret tt)
                  | None => Block
                  end).

(** One step of [g.opts.Limiter.acquire(work)]. *)
Definition acquireStep (pc : acquiring) : prog acquiring :=
  Act (fun e g => match Limiter (opts g) with
                  | None => Panic
                  | Some l => match acquire_step l pc (ctxErr e) with
                              | Some (l', pc') => Next (set_limiter g l') [] (Ret pc')
                              | None => Block
                              end
                  end).

(** The longest path is [Trying], [Queueing], [Blocked], [Leaving]. *)
Fixpoint acquireFrom (fuel : nat) (pc : acquiring) : prog (option error) :=
  match pc with
  | Returned err => Ret err
  | _ => match fuel with
         | O => Act (fun _ _ => Panic)
         | S fuel' => pc' ← acquireStep pc; acquireFrom fuel' pc'
         end
  end.

Definition acquire : prog (option error) := acquireFrom 4 Trying.

Definition releaseSlot : prog unit :=
  Act (fun _ g => match Limiter (opts g) with
                  | None => Panic
                  | Some l => match release l with
                              | Some l' => Next (set_limiter g l') [] (Ret tt)
                              | None => Block
                              end
                  end).

(** The critical section of [loadSource]: compare with the floor and the epoch
    and insert, in one hold of [epochMu]. Returns the view, the minimum, and
    whether the version was stale and the insertion valid. *)
Definition publish (key : string) (fence : readFence) (view : ByteView)
    : prog (ByteView * Z * bool * bool) :=
  Act (fun e g =>
    match knownVersionLocked g key (now e 0) with
    | None => Panic
    | Some (g1, known) =>
        let minimum := Z.max (minimum fence) known in
        let stale := version view <? minimum in
        match currentEpoch g1 key with
        | None => Panic
        | Some current =>
            let valid := (epoch fence =? current) && negb stale in
            if valid then
              match st_add (mainCache g1) key view (TTL (opts g1)) (now e 1) (now e 2) with
              | None => Panic
              | Some (c, view') => Next (set_mainCache g1 c) [] (Ret (view', minimum, stale, valid))
              end
            else Next g1 [] (Ret (view, minimum, stale, valid))
        end
    end).

(** ** [loadSource] *)

(** Reading the source: [source.GetVersioned] or [g.getter.Get], then the
    checks on what it returned. *)
Definition readSource (key : string) : prog (bytes * Z * option error) :=
  get ← get_getter;
  Source key (fun reply =>
    let '(value, v, err) := reply in
    let '(version, err) :=
      match get with
      | VersionedGetter =>
          (v, match err with
              | None => if v <=? 0 then Some (NewError "invalid source version") else None
              | e => e
              end)
      | PlainGetter => (0, err)
      end in
    err ← match err return prog _ with None => ctx_Err | e => Ret e end;
    let err := match err with
               | None => if MaxValueBytes <? blen value then Some ErrValueTooLarge else None
               | e => e
               end in
    observing "source" (Result err);;
    Ret (value, version, err)).

(** Everything after the slot was acquired, before the deferred calls. *)
Definition loadHeld (key : string) (fence : readFence) : prog (sourceResult * option error) :=
  let failed (e : error) := (mkResult zeroView (minimum fence), Some e) in
  '(value, version, err) ← readSource key;
  match err with
  | Some e => Ret (failed e)
  | None =>
      err ← ctx_Err;
      match err with
      | Some e => Ret (failed e)
      | None =>
          '(view, minimum, stale, valid) ← publish key fence (mkView (cloneBytes value) 0 version);
          if (stale : bool) then
            observing "version_rejected" "source";;
            observing "discard_source" "source_version";;
            Ret (mkResult zeroView minimum, Some ErrStaleVersion)
          else
            (if negb valid then observing "discard_source" "epoch_changed" else Ret tt);;
            Ret (mkResult view minimum, None)
      end
  end.

Definition loadSource (key : string) (fence : readFence) : prog (sourceResult * option error) :=
  let failed (e : error) := (mkResult zeroView (minimum fence), Some e) in
  err ← acquire;
  (if IsErr err ErrOverloaded then observing "rejected" "source_queue" else Ret tt);;
  observing "slot" (match err with
                    | None => "acquired"
                    | Some e => if Is e Canceled then "canceled"
                                else if Is e ErrOverloaded then "overloaded" else "timeout"
                    end);;
  match err with
  | Some e => Ret (failed e)
  | None =>
      err ← ctx_Err;
      r ← match err return prog _ with
           | Some e => Ret (failed e)
           | None => inflight "1";; r ← loadHeld key fence; inflight "-1";; Ret r
           end;
      releaseSlot;; Ret r
  end.

(** ** [Get] *)
Definition lookup (key : string) : prog (ByteView * bool * option error) :=
  err ← ctx_Err;
  match err with
  | Some e => Ret (zeroView, false, Some e)
  | None =>
      match ValidateKey key with
      | Some e => Ret (zeroView, false, Some e)
      | None =>
          r ← cacheGet key;
          match r with
          | Some v => Ret (v, true, None)
          | None =>
              rejected ← bloomRejects key;
              if (rejected : bool) then
                observing "bloom" "rejected";;
                Ret (zeroView, false, Some (notFoundKey key))
              else Ret (zeroView, false, None)
          end
      end
  end.

Definition lookupAtLeast (key : string) (minimum : Z) : prog (ByteView * bool * option error) :=
  '(value, hit, err) ← lookup key;
  if hit && (Version value <? minimum) then Ret (zeroView, false, None)
  else Ret (value, hit, err).

Definition nonnil (err : option error) : bool := match err with Some _ => true | None => false end.

(** The retry loop of the flight, for at most [fuel] rounds. The loop of the
    code has no bound of its own: it returns at [attempt = 1]. *)
Fixpoint attempts (fuel : nat) (attempt : Z) (key : string) (retryFence : readFence) : prog Reply :=
  match fuel with
  | O => Act (fun _ _ => Panic)
  | S fuel' =>
      '(loaded, err) ← loadSource key retryFence;
      let retryFence := withMinimum retryFence (res_minimum loaded) in
      if negb (IsErr err ErrStaleVersion) || (attempt =? 1) then Ret (value loaded, err)
      else
        workErr ← ctx_Err;
        if nonnil workErr then Ret (value loaded, err)
        else
          observing "source_retry" "stale_version";;
          fresh ← barrier key;
          let retryFence := withMinimum fresh (minimum retryFence) in
          '(v, hit, err) ← lookupAtLeast key (minimum retryFence);
          if hit || nonnil err then Ret (v, err)
          else attempts fuel' (attempt + 1) key retryFence
  end.

(** More rounds than the loop takes, so that its end is its own. *)
Definition attemptFuel : nat := 4.

(** The function a call of [Get] hands to [singleflight]. *)
Definition flight (fence : readFence) (key : string) : prog Reply :=
  '(v, hit, err) ← lookupAtLeast key (minimum fence);
  if hit || nonnil err then Ret (v, err)
  else attempts attemptFuel 0 key fence.

Definition await (ch : nat) : prog Reply :=
  Await ch (fun r =>
    match r with
    | inl e => Ret (zeroView, Some e)
    | inr (v, rErr) =>
        err ← ctx_Err;
        match err with
        | Some e => Ret (zeroView, Some e)
        | None => match rErr with Some e => Ret (zeroView, Some e) | None => Ret (v, None) end
        end
    end).

Definition Get (key : string) : prog Reply :=
  '(v, hit, err) ← lookup key;
  observing "lookup_api" (if (hit : bool) then "hit" else "miss");;
  if hit || nonnil err then Ret (v, err)
  else
    ok ← admitting "api_waiter";
    if negb ok then Ret (zeroView, Some ErrOverloaded)
    else
      fence ← barrier key;
      r ← DoChan fence key await;
      leaveWaiters;; Ret r.

End Prog.
Arguments outcome C B : clear implicits.
Arguments Next {C B}.
Arguments Block {C B}.
Arguments Panic {C B}.
Arguments prog C A : clear implicits.
Arguments Ret {C A}.
Arguments Act {C A}.
Arguments Source {C A}.
Arguments DoChan {C A}.
Arguments Await {C A}.

(** ** Flight names *)

Lemma app_String_assoc a b c : (a +:+ b) +:+ c = a +:+ (b +:+ c).
Proof. induction a as [|x a IH]; [done|]. change (String x ((a +:+ b) +:+ c) = String x (a +:+ (b +:+ c))). by rewrite IH. Qed.

Lemma FormatUint_no_colon n : contains_byte ":" (FormatUint n) = false.
Proof. by eapply contains_byte_false; [apply FormatUint_digits|]. Qed.

Lemma FormatInt_no_colon n : contains_byte ":" (FormatInt n) = false.
Proof.
  unfold FormatInt. case_bool; [|apply FormatUint_no_colon]. simpl.
  apply FormatUint_no_colon.
Qed.

(** A fence holds a [uint64] and an [int64]. *)
Definition fence_ok (f : readFence) : Prop :=
  0 <= epoch f < two64 /\ - two63 <= minimum f < two63.

Lemma flightKey_cut fence key :
  cut ":" (flightKey fence key) = Some (FormatUint (epoch fence), FormatInt (minimum fence) +:+ ":" +:+ key).
Proof. apply (cut_app ":"), FormatUint_no_colon. Qed.

Lemma flightKey_eq f1 k1 f2 k2 :
  fence_ok f1 -> fence_ok f2 -> flightKey f1 k1 = flightKey f2 k2 -> f1 = f2 /\ k1 = k2.
Proof.
  intros [He1 Hm1] [He2 Hm2] E. apply (f_equal (cut ":")) in E. rewrite !flightKey_cut in E.
  injection E as Ee Er. apply (f_equal (cut ":")) in Er.
  rewrite !(cut_app ":" (FormatInt _) _ (FormatInt_no_colon _) : cut ":" (FormatInt _ +:+ ":" +:+ _) = _) in Er.
  injection Er as Em Ek. apply FormatUint_inj in Ee; [|done..]. apply FormatInt_inj in Em; [|done..].
  split; [|done]. destruct f1, f2. simpl in *. congruence.
Qed.

(** Two callers get the same flight name exactly when they agree on the
    epoch, on the minimum version and on the key, so no caller shares a flight
    that was started behind another fence or for another key, whatever bytes
    (colons and digits included) the keys contain. *)
Theorem flightKey_injective f1 k1 f2 k2 :
  fence_ok f1 -> fence_ok f2 ->
  flightKey f1 k1 = flightKey f2 k2 <-> (f1 = f2 /\ k1 = k2).
Proof. intros H1 H2. split; [by apply flightKey_eq|]. by intros [-> ->]. Qed.

Lemma flightKey_injective_witness :
  flightKey (mkFence 1 2) "3:k" = flightKey (mkFence 1 23) "k" <-> (mkFence 1 2 = mkFence 1 23 /\ "3:k" = "k").
Proof. apply (flightKey_injective (mkFence 1 2) "3:k" (mkFence 1 23) "k"); vm_compute; split_and!; congruence. Defined.
