(* ===== verification/Consistency.v ===== *)
(** * Concurrent reads, invalidations and commits

    The machine below interleaves the programs of [Read] over one group: any
    number of callers of [Get], the flights they start or join, invalidations,
    cache maintenance, and commits of the source. Ghost state records, per
    key, the version the source has committed and the highest version whose
    invalidation the group has acknowledged. A rely-guarantee predicate [wp]
    carries the invariant through every interleaving; the theorems at the end
    say that an acknowledged version is never un-read: no older view of the
    key is resident, and no later [Get] returns one. *)
From S2P Require Import Prelude GoStrings Errors LRU CacheStore Bloom Admission Group Read.

(** What is recorded of a started flight; [fi_ack] is the acknowledged version
    of its key when it started. *)
Record flightInfo := mkFlight { fi_fence : readFence; fi_key : string; fi_ack : Z }.

(** What a source may answer for a key at a version. The machine runs over any
    such relation; a source that never rewrites a version makes it a function. *)
Class Genuine := genuine : string -> Z -> bytes -> Prop.

Section Machine.
Context {C : Type} `{!Store C, !StoreLaws C} {answers : Genuine}.

Record world := mkWorld {
  grp : Group C;
  committed : string -> Z;
  acked : string -> Z;
  invalidations : Z;
  started : list flightInfo;
}.

Definition set_grp (w : world) (g : Group C) : world :=
  mkWorld g (committed w) (acked w) (invalidations w) (started w).

Definition upd (f : string -> Z) (k : string) (v : Z) : string -> Z :=
  fun k' => if decide (k' = k) then v else f k'.

(** A versioned source answers from one snapshot: the version that comes with
    a value is the committed one at that moment, and the value is one it has
    under that version. *)
Definition reply_ok (w : world) (key : string) (r : SourceReply) : Prop :=
  r.2 = None -> r.1.2 = committed w key /\ genuine key r.1.2 r.1.1.

(** A view the source has or had: its version is committed, and its bytes are
    what the source answers at that version. *)
Definition dated (w : world) (key : string) (view : ByteView) : Prop :=
  version view <= committed w key /\ genuine key (version view) (b view).

Inductive thread_step : world -> prog C Reply -> world -> prog C Reply -> Prop :=
| ts_act w f e g evs p : f e (grp w) = Next g evs p -> thread_step w (Act f) (set_grp w g) p
| ts_source w key k r : reply_ok w key r -> thread_step w (Source key k) w (k r).

(** A caller: the key it asked for, the version acknowledged when it started,
    and what is left of its program. *)
Record caller := mkCaller { c_key : string; c_ack : Z; c_prog : prog C Reply }.

Record config := mkConfig {
  wld : world;
  flights : list (prog C Reply);
  callers : list caller;
}.

(** [singleflight] is only asked for what it documents: a caller's channel
    yields the result of an execution of the function handed in under the same
    name, by this caller or by another one. *)
Inductive step : config -> config -> Prop :=
| step_get w fs cs key :
    step (mkConfig w fs cs) (mkConfig w fs (cs ++ [mkCaller key (acked w key) (Get key)]))
| step_flight w fs cs i p w' p' :
    fs !! i = Some p -> thread_step w p w' p' ->
    step (mkConfig w fs cs) (mkConfig w' (<[i := p']> fs) cs)
| step_caller w fs cs i key a p w' p' :
    cs !! i = Some (mkCaller key a p) -> thread_step w p w' p' ->
    step (mkConfig w fs cs) (mkConfig w' fs (<[i := mkCaller key a p']> cs))
| step_start w fs cs i key a fence fkey k :
    cs !! i = Some (mkCaller key a (DoChan fence fkey k)) ->
    step (mkConfig w fs cs)
      (mkConfig (mkWorld (grp w) (committed w) (acked w) (invalidations w)
                   (started w ++ [mkFlight fence fkey (acked w fkey)]))
         (fs ++ [flight fence fkey]) (<[i := mkCaller key a (k (length fs))]> cs))
| step_join w fs cs i key a fence fkey k ch fi :
    cs !! i = Some (mkCaller key a (DoChan fence fkey k)) ->
    started w !! ch = Some fi -> flightKey (fi_fence fi) (fi_key fi) = flightKey fence fkey ->
    step (mkConfig w fs cs) (mkConfig w fs (<[i := mkCaller key a (k ch)]> cs))
| step_result w fs cs i key a ch k r :
    cs !! i = Some (mkCaller key a (Await ch k)) -> fs !! ch = Some (Ret r) ->
    step (mkConfig w fs cs) (mkConfig w fs (<[i := mkCaller key a (k (inr r))]> cs))
| step_give_up w fs cs i key a ch k e :
    cs !! i = Some (mkCaller key a (Await ch k)) ->
    step (mkConfig w fs cs) (mkConfig w fs (<[i := mkCaller key a (k (inl e))]> cs))
| step_invalidate w fs cs key v t1 t2 g evs err :
    InvalidateVersion (grp w) key v t1 t2 = Some (g, evs, err) ->
    v <= committed w key ->
    2 * (invalidations w + 1) < two64 ->
    step (mkConfig w fs cs)
      (mkConfig (mkWorld g (committed w)
                   (match err with None => upd (acked w) key (Z.max (acked w key) v) | _ => acked w end)
                   (invalidations w + 1) (started w)) fs cs)
| step_commit w fs cs key v :
    committed w key < v < two63 ->
    step (mkConfig w fs cs)
      (mkConfig (mkWorld (grp w) (upd (committed w) key v) (acked w) (invalidations w) (started w)) fs cs)
| step_clean w fs cs limit locked t1 t2 clock c ch rm busy :
    st_clean (mainCache (grp w)) limit locked t1 t2 clock = Some (c, ch, rm, busy) ->
    step (mkConfig w fs cs) (mkConfig (set_grp w (set_mainCache (grp w) c)) fs cs).

(** A group nobody has used, over a source with committed versions. *)
Definition initial (g : Group C) (c0 : string -> Z) : config :=
  mkConfig (mkWorld g c0 (fun _ => 0) 0 []) [] [].

(** ** Invariant, rely and weakest precondition *)
Record inv (w : world) : Prop := {
  inv_gwf : gwf (grp w);
  inv_getter : getter (grp w) = VersionedGetter;
  inv_resident : forall k view, st_resident (mainCache (grp w)) !! k = Some view ->
    acked w k <= version view /\ dated w k view;
  inv_acked : forall k, 0 <= acked w k <= committed w k;
  inv_committed : forall k, committed w k < two63;
  inv_floor : forall k, floor_of (grp w) k <= committed w k;
  inv_count : 0 <= invalidations w /\ 2 * invalidations w < two64;
  inv_epoch : forall k, 0 <= epoch_of (grp w) k <= 2 * invalidations w;
  inv_started : forall fi, fi ∈ started w ->
    fence_ok (fi_fence fi) /\ epoch (fi_fence fi) <= epoch_of (grp w) (fi_key fi) /\
    (epoch (fi_fence fi) = epoch_of (grp w) (fi_key fi) ->
       acked w (fi_key fi) <= Z.max (fi_ack fi) (floor_of (grp w) (fi_key fi)));
}.

(** What every thread may count on between two of its actions. *)
Record rely (w w' : world) : Prop := {
  rely_inv : inv w';
  rely_acked : forall k, acked w k <= acked w' k;
  rely_committed : forall k, committed w k <= committed w' k;
  rely_epoch : forall k, epoch_of (grp w) k <= epoch_of (grp w') k;
  rely_floor : forall k, epoch_of (grp w') k = epoch_of (grp w) k ->
    floor_of (grp w) k <= floor_of (grp w') k /\
    acked w' k <= Z.max (acked w k) (floor_of (grp w') k);
  rely_started : exists new, started w' = started w ++ new /\
    forall fi, fi ∈ new -> acked w (fi_key fi) <= fi_ack fi;
}.

(** A fence a flight may be started with. *)
Definition start_ok (w : world) (fence : readFence) (key : string) : Prop :=
  ValidateKey key = None /\ fence_ok fence /\ epoch fence <= epoch_of (grp w) key.

(** What a flight promises those who share it. *)
Definition flight_post (w : world) (fi : flightInfo) (r : Reply) : Prop :=
  r.2 = None -> Z.max (minimum (fi_fence fi)) (fi_ack fi) <= version r.1 /\ dated w (fi_key fi) r.1.

Fixpoint wp {A} (p : prog C A) (Q : A -> world -> Prop) (w : world) : Prop :=
  match p with
  | Ret a => forall w', rely w w' -> Q a w'
  | Act f => forall w' e, rely w w' ->
      match f e (grp w') with
      | Next g _ p' => rely w' (set_grp w' g) /\ wp p' Q (set_grp w' g)
      | Block => True
      | Panic => False
      end
  | Source key k => forall w' r, rely w w' -> reply_ok w' key r -> wp (k r) Q w'
  | DoChan fence key k => forall w', rely w w' ->
      start_ok w' fence key /\
      (forall w'' ch fi, rely w' w'' -> started w'' !! ch = Some fi ->
         flightKey (fi_fence fi) (fi_key fi) = flightKey fence key -> wp (k ch) Q w'')
  | Await ch k => forall w', rely w w' ->
      (forall e, wp (k (inl e)) Q w') /\
      (forall r fi, started w' !! ch = Some fi -> flight_post w' fi r -> wp (k (inr r)) Q w')
  end.

(** ** The logic *)

Lemma rely_refl w : inv w -> rely w w.
Proof.
  intros Hw. split; auto; try lia. exists []. rewrite app_nil_r. split; [done|]. set_solver.
Qed.

Lemma rely_trans w1 w2 w3 : rely w1 w2 -> rely w2 w3 -> rely w1 w3.
Proof.
  intros [I2 A2 C2 E2 F2 (n2 & S2 & N2)] [I3 A3 C3 E3 F3 (n3 & S3 & N3)]. split; auto.
  - intros k. specialize (A2 k). specialize (A3 k). lia.
  - intros k. specialize (C2 k). specialize (C3 k). lia.
  - intros k. specialize (E2 k). specialize (E3 k). lia.
  - intros k HE. specialize (E2 k). specialize (E3 k).
    destruct (F2 k ltac:(lia)). destruct (F3 k ltac:(lia)). lia.
  - exists (n2 ++ n3). split; [by rewrite S3, S2, (assoc app)|].
    intros fi [Hf|Hf]%elem_of_app; [by apply N2|].
    specialize (N3 fi Hf). specialize (A2 (fi_key fi)). lia.
Qed.

Lemma dated_stable w w' key view : rely w w' -> dated w key view -> dated w' key view.
Proof. intros HR [Hv Hg]. pose proof (rely_committed _ _ HR key). split; [lia|done]. Qed.

(** A change of the group that keeps its floors and epochs and makes nothing
    too old resident. *)
Lemma rely_grp w g :
  inv w -> gwf g -> getter g = getter (grp w) -> floors g = floors (grp w) ->
  epochs g = epochs (grp w) -> EpochBuckets (opts g) = EpochBuckets (opts (grp w)) ->
  (forall k view, st_resident (mainCache g) !! k = Some view -> acked w k <= version view /\ dated w k view) ->
  rely w (set_grp w g).
Proof.
  intros Hw Hg Hget Hfl Hep Hb Hres.
  assert (forall k, floor_of g k = floor_of (grp w) k) as HF by (intros k; unfold floor_of; by rewrite Hfl).
  assert (forall k, epoch_of g k = epoch_of (grp w) k) as HE
    by (intros k; unfold epoch_of, currentEpoch, epochBucket; by rewrite Hep, Hb).
  destruct Hw. split; simpl; try done.
  - split; simpl; auto; [congruence|..].
    + intros k. by rewrite HF.
    + intros k. by rewrite HE.
    + intros fi Hfi. rewrite HE, HF. auto.
  - intros k. rewrite HE. lia.
  - intros k _. rewrite HF. lia.
  - exists []. rewrite app_nil_r. split; [done|]. set_solver.
Qed.

(** A smaller cache in the same group. *)
Lemma rely_shrink w c :
  inv w -> st_inv c -> st_resident c ⊆ st_resident (mainCache (grp w)) ->
  rely w (set_grp w (set_mainCache (grp w) c)).
Proof.
  intros Hw Hc HS. apply rely_grp; auto; [by apply gwf_mainCache, Hc; apply Hw|].
  simpl. intros k view Hv. apply (inv_resident w Hw). by eapply lookup_weaken.
Qed.

Lemma gwf_set_limiter (g : Group C) l : gwf g -> gwf (set_limiter g l).
Proof. intros []. split; simpl; eauto. Qed.

Lemma rely_limiter w l : inv w -> rely w (set_grp w (set_limiter (grp w) l)).
Proof. intros Hw. apply rely_grp; auto; [apply gwf_set_limiter, Hw|]. apply (inv_resident w Hw). Qed.

Lemma rely_waiters w ch : inv w -> rely w (set_grp w (set_apiWaiters (grp w) ch)).
Proof.
  intros Hw. apply rely_grp; auto; [|apply (inv_resident w Hw)].
  destruct (inv_gwf w Hw). by split.
Qed.

Lemma rely_same w : inv w -> rely w (set_grp w (grp w)).
Proof. intros Hw. apply rely_grp; auto; apply Hw. Qed.

Lemma wp_stable {A} (p : prog C A) Q w w' : wp p Q w -> rely w w' -> wp p Q w'.
Proof.
  destruct p; simpl; intros H HR; intros; try (apply H; eauto using rely_trans); eauto using rely_trans.
Qed.

Lemma wp_mono {A} (p : prog C A) (Q Q' : A -> world -> Prop) w :
  (forall a w', rely w w' -> Q a w' -> Q' a w') -> wp p Q w -> wp p Q' w.
Proof.
  revert w. revert p. fix IH 1. intros p w HQ. destruct p as [a|f|key k|fence key k|ch k]; simpl.
  - eauto.
  - intros H w' e HR. specialize (H w' e HR). destruct (f e (grp w')) as [g evs p'| |]; auto.
    destruct H as [HR2 Hp]. split; [done|]. apply IH; [|done].
    intros a w2 HR3. apply HQ. eauto using rely_trans.
  - intros H w' r HR Hr. apply IH; [|by apply H]. intros a w2 HR3. apply HQ. eauto using rely_trans.
  - intros H w' HR. destruct (H w' HR) as [Hs Hk]. split; [done|]. intros w2 c fi HR2 Hc Hn.
    apply IH; [|by eapply Hk]. intros a w3 HR3. apply HQ. eauto using rely_trans.
  - intros H w' HR. destruct (H w' HR) as [He Hk]. split.
    + intros e. apply IH; [|done]. intros a w2 HR3. apply HQ. eauto using rely_trans.
    + intros r fi Hc Hp. apply IH; [|by eapply Hk]. intros a w2 HR3. apply HQ. eauto using rely_trans.
Qed.

Lemma wp_bind {A B} (m : prog C A) (h : A -> prog C B) Q w :
  inv w -> wp m (fun a w' => wp (h a) Q w') w -> wp (m ≫= h) Q w.
Proof.
  revert m w. fix IH 1. intros m w Hw. destruct m as [a|f|key k|fence key k|ch k]; simpl.
  - intros H. apply H. by apply rely_refl.
  - intros H w' e HR. specialize (H w' e HR). destruct (f e (grp w')) as [g evs p'| |]; auto.
    destruct H as [HR2 Hp]. split; [done|]. apply IH; [apply HR2|done].
  - intros H w' r HR Hr. apply IH; [apply HR|by apply H].
  - intros H w' HR. destruct (H w' HR) as [Hs Hk]. split; [done|]. intros w2 c fi HR2 Hc Hn.
    apply IH; [apply HR2|by eapply Hk].
  - intros H w' HR. destruct (H w' HR) as [He Hk]. split.
    + intros e. apply IH; [apply HR|done].
    + intros r fi Hc Hp. apply IH; [apply HR|by eapply Hk].
Qed.

(** The form the programs are proved with: run [m], whose results satisfy [P]
    in every later world, then the rest. *)
Lemma wp_seq {A B} (m : prog C A) (h : A -> prog C B) (P : A -> world -> Prop) Q w :
  inv w -> wp m P w ->
  (forall a w', rely w w' -> inv w' -> P a w' -> wp (h a) Q w') -> wp (m ≫= h) Q w.
Proof.
  intros Hw Hm Hh. apply wp_bind; [done|]. eapply wp_mono; [|done].
  intros a w' HR HP. apply Hh; auto. apply HR.
Qed.

Lemma wp_ret {A} (a : A) (Q : A -> world -> Prop) w :
  (forall w', rely w w' -> Q a w') -> wp (Ret a) Q w.
Proof. done. Qed.

(** ** Specifications of the atomic actions *)
Notation True2 := (fun _ _ => True).

Lemma wp_ctx_Err w : wp ctx_Err True2 w.
Proof. intros w' e HR. simpl. split; [apply rely_same, HR|done]. Qed.

Lemma wp_observing op res w : wp (observing op res) True2 w.
Proof. intros w' e HR. simpl. split; [apply rely_same, HR|done]. Qed.

Lemma wp_get_getter w : wp get_getter (fun k _ => k = VersionedGetter) w.
Proof.
  intros w' e HR. simpl. split; [apply rely_same, HR|]. intros _ _. apply (inv_getter w'), HR.
Qed.

Lemma wp_bloomRejects key w : wp (bloomRejects key) True2 w.
Proof.
  intros w' e HR. simpl. pose proof (gwf_bloom _ (inv_gwf w' (rely_inv _ _ HR))) as Hb.
  pose proof (rely_same w' (rely_inv _ _ HR)).
  destruct (bloom (grp w')) as [bf|]; [|by split].
  destruct (Contains_iff bf key Hb) as (r & -> & _). by split.
Qed.

Lemma wp_admitting kind w : wp (admitting kind) True2 w.
Proof.
  intros w' e HR. simpl. unfold admitSlot. pose proof (rely_inv _ _ HR).
  destruct (try_send _); (split; [|done]); [by apply rely_waiters|by apply rely_same].
Qed.

Lemma wp_leaveWaiters w : wp leaveWaiters True2 w.
Proof.
  intros w' e HR. simpl. pose proof (rely_inv _ _ HR). destruct (recv _); [|done].
  split; [by apply rely_waiters|done].
Qed.

Lemma wp_acquireStep pc w :
  wp (acquireStep pc) (fun pc' _ => exists l l' e, acquire_step l pc e = Some (l', pc')) w.
Proof.
  intros w' e HR. simpl. pose proof (rely_inv _ _ HR) as Hw.
  destruct (gwf_limiter _ (inv_gwf w' Hw)) as [l ->].
  destruct (acquire_step l pc (ctxErr e)) as [[l' pc']|] eqn:E; [|done].
  split; [by apply rely_limiter|]. intros _ _. eauto.
Qed.

Lemma wp_releaseSlot w : wp releaseSlot True2 w.
Proof.
  intros w' e HR. simpl. pose proof (rely_inv _ _ HR) as Hw.
  destruct (gwf_limiter _ (inv_gwf w' Hw)) as [l ->]. destruct (release l); [|done].
  split; [by apply rely_limiter|done].
Qed.

(** How many steps a call of [acquire] has left at most. *)
Definition acquire_rank (pc : acquiring) : nat :=
  match pc with Trying => 4 | Queueing => 3 | Blocked => 2 | Leaving _ => 1 | Returned _ => 0 end.

Lemma acquire_step_rank l pc e l' pc' :
  acquire_step l pc e = Some (l', pc') -> (acquire_rank pc' < acquire_rank pc)%nat.
Proof.
  unfold acquire_step, acquire_try, acquire_queue, acquire_wait, acquire_leave, try_send, recv.
  destruct pc; repeat case_match; intros; simplify_eq/=; lia.
Qed.

Lemma wp_acquireFrom fuel pc w : inv w -> (acquire_rank pc <= fuel)%nat -> wp (acquireFrom fuel pc) True2 w.
Proof.
  revert pc w. induction fuel as [|fuel IH]; intros pc w Hw Hr.
  - destruct pc; simpl in Hr; try lia. by intros w' _.
  - assert (forall pc, (acquire_rank pc <= S fuel)%nat -> wp (acquireStep pc ≫= acquireFrom fuel) True2 w) as Hgo.
    { intros pc0 H0. eapply wp_seq; [done|apply wp_acquireStep|].
      intros pc' w' HR Hw' (l & l' & e & Hs%acquire_step_rank). apply IH; [done|lia]. }
    destruct pc; try (by apply Hgo). by intros w' _.
Qed.

Lemma wp_acquire w : inv w -> wp acquire True2 w.
Proof. intros Hw. by apply wp_acquireFrom. Qed.

(** ** Specifications of the shared-state actions *)

Lemma wp_cacheGet key a w :
  a <= acked w key ->
  wp (cacheGet key) (fun r w' => forall view, r = Some view -> a <= version view /\ dated w' key view) w.
Proof.
  intros Ha w' e HR. simpl. pose proof (rely_inv _ _ HR) as Hw.
  destruct (st_get_ok (mainCache (grp w')) key (now e 0) (gwf_cache _ (inv_gwf w' Hw)))
    as (c & r & -> & Hc & HS & ->).
  split; [by apply rely_shrink|]. intros w2 HR2 view Hv.
  pose proof (rely_acked _ _ HR key).
  destruct (inv_resident w' Hw key view ltac:(by eapply lookup_weaken)) as [Hle Hd]. split; [lia|].
  by apply (dated_stable (set_grp w' (set_mainCache (grp w') c))).
Qed.

(** A version read from the cache lies between the floors and the source. *)
Lemma cached_range w c key :
  inv w -> st_resident c ⊆ st_resident (mainCache (grp w)) -> 0 <= cached_version c key <= committed w key.
Proof.
  intros Hw HS. pose proof (inv_acked w Hw key). unfold cached_version.
  destruct (st_resident c !! key) as [view|] eqn:E; [|lia].
  pose proof (inv_resident w Hw key view ltac:(by eapply lookup_weaken)) as [Hle [Hd _]]. lia.
Qed.

Lemma floor_range w key : inv w -> 0 <= floor_of (grp w) key <= committed w key.
Proof.
  intros Hw. split; [apply floor_in_nonneg, gwf_floors, Hw|by apply inv_floor].
Qed.

Lemma epoch_range w key : inv w -> 0 <= epoch_of (grp w) key < two64.
Proof. intros Hw. pose proof (inv_epoch w Hw key). pose proof (inv_count w Hw). lia. Qed.

(** What the fence of a caller says about the flights it may share. *)
Definition covers (w : world) (a : Z) (key : string) (fence : readFence) : Prop :=
  forall fi, fi ∈ started w -> fi_key fi = key -> fi_fence fi = fence ->
    a <= Z.max (minimum fence) (fi_ack fi).

Lemma covers_stable w w' a key fence :
  a <= acked w key -> covers w a key fence -> rely w w' -> covers w' a key fence.
Proof.
  intros Ha HC HR fi Hfi Hk Hf. destruct (rely_started _ _ HR) as (new & E & Hnew).
  rewrite E in Hfi. apply elem_of_app in Hfi as [Hfi|Hfi]; [by apply HC|].
  specialize (Hnew fi Hfi). subst. lia.
Qed.

Lemma wp_barrier key a w :
  a <= acked w key ->
  wp (barrier key) (fun fence w' => fence_ok fence /\ epoch fence <= epoch_of (grp w') key /\
                                     covers w' a key fence) w.
Proof.
  intros Ha w' e HR. simpl. pose proof (rely_inv _ _ HR) as Hw.
  destruct (readBarrier_ok (grp w') key (now e 0) (inv_gwf w' Hw)) as (c & -> & Hc & HS).
  pose proof (rely_shrink w' c Hw Hc HS) as HR1. split; [done|]. intros w2 HR2.
  pose proof (cached_range w' c key Hw HS). pose proof (floor_range w' key Hw).
  pose proof (inv_committed w' Hw key). pose proof (epoch_range w' key Hw).
  assert (rely w' w2) as HR3 by eauto using rely_trans.
  split_and!; [split; simpl; lia|apply (rely_epoch _ _ HR3)|].
  apply (covers_stable w'); [pose proof (rely_acked _ _ HR key); lia| |done].
  intros fi Hfi <- Hfe. destruct (inv_started w' Hw fi Hfi) as (_ & _ & Hack).
  rewrite Hfe in Hack. specialize (Hack eq_refl). simpl.
  pose proof (rely_acked _ _ HR (fi_key fi)). lia.
Qed.

(** A version loaded behind a fence: while the epoch is unchanged, whatever has
    been acknowledged since is in the floor. *)
Definition loaded_ok (w : world) (fence : readFence) (key : string) (v : Z) : Prop :=
  epoch fence <= epoch_of (grp w) key /\ v <= committed w key /\
  (epoch fence = epoch_of (grp w) key -> acked w key <= Z.max v (floor_of (grp w) key)).

Lemma loaded_ok_stable w w' fence key v : loaded_ok w fence key v -> rely w w' -> loaded_ok w' fence key v.
Proof.
  intros (HE & HV & HA) HR. pose proof (rely_epoch _ _ HR key). pose proof (rely_committed _ _ HR key).
  split; [lia|]. split; [lia|]. intros E.
  destruct (rely_floor _ _ HR key ltac:(lia)). specialize (HA ltac:(lia)). lia.
Qed.

Lemma publish_rely w c1 c key view' :
  inv w -> st_inv c -> st_resident c1 ⊆ st_resident (mainCache (grp w)) ->
  st_resident c ⊆ <[key := view']> (st_resident c1) ->
  acked w key <= version view' -> dated w key view' ->
  rely w (set_grp w (set_mainCache (set_mainCache (grp w) c1) c)).
Proof.
  intros Hw Hc HS1 HS Hv Hd. apply rely_grp; auto.
  - pose proof (inv_gwf w Hw) as []. by split.
  - simpl. intros k vw Hk. eapply lookup_weaken in Hk; [|exact HS].
    apply lookup_insert_Some in Hk as [[<- <-]|[_ Hk]]; [by split|].
    apply (inv_resident w Hw). by eapply lookup_weaken.
Qed.

Lemma wp_publish key fence view w :
  ValidateKey key = None -> blen (b view) <= MaxValueBytes -> loaded_ok w fence key (version view) ->
  genuine key (version view) (b view) ->
  wp (publish key fence view)
    (fun r _ => let '(view', m, stale, _) := r in
       minimum fence <= m /\ (stale = false -> m <= version view' /\ version view' = version view /\ b view' = b view)) w.
Proof.
  intros Hk Hb HL Hgen w' e HR. simpl. pose proof (rely_inv _ _ HR) as Hw.
  destruct (loaded_ok_stable _ _ _ _ _ HL HR) as (HE & HV & HA).
  destruct (knownVersionLocked_ok (grp w') key (now e 0) (inv_gwf w' Hw)) as (c1 & -> & Hc1 & HS1).
  pose proof (gwf_mainCache _ c1 (inv_gwf w' Hw) Hc1) as Hg1.
  rewrite (currentEpoch_some _ key Hg1).
  change (epoch_of (set_mainCache (grp w') c1) key) with (epoch_of (grp w') key).
  set (m := Z.max (minimum fence) _).
  destruct (version view <? m) eqn:Est.
  { rewrite andb_false_r. split; [by apply rely_shrink|]. intros _ _. split; [lia|done]. }
  apply Z.ltb_ge in Est. rewrite andb_true_r.
  destruct (epoch fence =? epoch_of (grp w') key) eqn:Eep.
  2: { split; [by apply rely_shrink|]. intros _ _. split; [lia|done]. }
  apply Z.eqb_eq in Eep. specialize (HA Eep).
  cbn [mainCache opts set_mainCache].
  destruct (st_add_ok c1 key view (TTL (opts (grp w'))) (now e 1) (now e 2) Hc1)
    as (c & view' & -> & Hc & HS & Hbv & Hvv).
  { apply ValidateKey_ok in Hk as [Hlen _]. unfold ViewLen, MaxValueBytes, two63 in *. lia. }
  split; [apply (publish_rely w' c1 c key view'); auto; [rewrite Hvv; unfold m in *; lia|by unfold dated; rewrite Hvv, Hbv; split; [lia|]]|].
  intros _ _. split; [lia|]. intros _. rewrite Hvv. split; [lia|done].
Qed.

(** ** Specifications of the programs *)

(** What a caller holding fence [fence] and acknowledged version [a] knows. *)
Definition fenced_at (w : world) (fence : readFence) (key : string) (a : Z) : Prop :=
  epoch fence <= epoch_of (grp w) key /\ a <= acked w key.

Lemma fenced_at_stable w w' fence key a : fenced_at w fence key a -> rely w w' -> fenced_at w' fence key a.
Proof.
  intros [H1 H2] HR. pose proof (rely_epoch _ _ HR key). pose proof (rely_acked _ _ HR key).
  split; lia.
Qed.

Lemma wp_readSource key fence a w :
  inv w -> fenced_at w fence key a ->
  wp (readSource key) (fun r w' => let '(value, v, err) := r in
    err = None -> a <= v /\ blen value <= MaxValueBytes /\ loaded_ok w' fence key v /\ genuine key v value) w.
Proof.
  intros Hw HF. eapply wp_seq; [done|apply wp_get_getter|]. intros get w1 HR1 Hw1 ->.
  intros w2 [[value v] err] HR2 Hr. unfold reply_ok in Hr. simpl in Hr.
  pose proof (rely_inv _ _ HR2) as Hw2.
  destruct (fenced_at_stable _ _ _ _ _ HF (rely_trans _ _ _ HR1 HR2)) as [HE Ha].
  set (err1 := match err with None => if v <=? 0 then _ else _ | e => e end).
  eapply (wp_seq _ _ (fun err2 w' => rely w2 w' /\ (err2 = None -> err1 = None))); [done| |].
  { destruct err1; [by intros w' HR|].
    eapply wp_mono; [|apply wp_ctx_Err]. intros; split; [done|done]. }
  intros err2 w3 HR3 Hw3 [_ He].
  eapply wp_seq; [done|apply wp_observing|]. intros _ w4 HR4 Hw4 _ w5 HR5 Hnil.
  destruct err2; [done|]. specialize (He eq_refl). subst err1.
  destruct err; [done|]. destruct (Hr eq_refl) as [Hv Hgen].
  destruct (MaxValueBytes <? blen value) eqn:Eb; [done|]. reflect_bool.
  pose proof (inv_acked w2 Hw2 key). split; [lia|]. split; [lia|]. split; [|done].
  apply (loaded_ok_stable w2); [|eauto using rely_trans]. split; [done|]. split; [lia|]. lia.
Qed.

(** What a load promises. *)
Definition loaded_post (key : string) (fence : readFence) (a : Z) (r : sourceResult * option error) (w : world) : Prop :=
  minimum fence <= res_minimum r.1 /\
  (r.2 = None -> Z.max (minimum fence) a <= version (value r.1) /\ dated w key (value r.1)).

Lemma loaded_post_stable key fence a r w w' : rely w w' -> loaded_post key fence a r w -> loaded_post key fence a r w'.
Proof. intros HR [Hm Hv]. split; [done|]. intros Hn. destruct (Hv Hn). split; [done|]. by eapply dated_stable. Qed.

Lemma wp_loadHeld key fence a w :
  inv w -> ValidateKey key = None -> fenced_at w fence key a ->
  wp (loadHeld key fence) (loaded_post key fence a) w.
Proof.
  intros Hw Hk HF. eapply wp_seq; [done|by apply (wp_readSource key fence a)|].
  intros [[value v] [e|]] w1 HR1 Hw1 Hread; [by intros w' _; split; simpl|].
  destruct (Hread eq_refl) as (Ha & Hb & HL & Hgen).
  eapply (wp_seq _ _ (fun _ w' => loaded_ok w' fence key v)); [done| |].
  { eapply wp_mono; [|apply wp_ctx_Err]. intros _ w' HR _. by eapply loaded_ok_stable. }
  intros [e|] w2 HR2 Hw2 HL2; [by intros w' _; split; simpl|].
  eapply wp_seq; [done|by apply wp_publish|].
  intros [[[view m] stale] valid] w3 HR3 Hw3 [Hm Hfresh].
  destruct stale.
  - eapply wp_seq; [done|apply wp_observing|]. intros _ w4 HR4 Hw4 _.
    eapply wp_seq; [done|apply wp_observing|]. intros _ w5 HR5 Hw5 _. by intros w' _; split; simpl.
  - destruct (Hfresh eq_refl) as (Hmv & Hvv & Hbv). simpl in Hvv, Hbv.
    eapply (wp_seq _ _ True2); [done| |].
    { destruct valid; [by intros w' _|apply wp_observing]. }
    intros _ w4 HR4 Hw4 _ w' HR5. split; simpl; [done|]. intros _. split; [lia|].
    eapply (dated_stable w2); [by eauto using rely_trans|]. split; [rewrite Hvv; apply HL2|by rewrite Hvv, Hbv].
Qed.

Lemma wp_loadSource key fence a w :
  inv w -> ValidateKey key = None -> fenced_at w fence key a ->
  wp (loadSource key fence) (loaded_post key fence a) w.
Proof.
  intros Hw Hk HF. eapply wp_seq; [done|by apply wp_acquire|]. intros err w1 HR1 Hw1 _.
  eapply (wp_seq _ _ True2); [done| |].
  { destruct (IsErr err ErrOverloaded); [apply wp_observing|by intros w' _]. }
  intros _ w2 HR2 Hw2 _. eapply wp_seq; [done|apply wp_observing|]. intros _ w3 HR3 Hw3 _.
  destruct err as [e|]; [by intros w' _; split; simpl|].
  eapply wp_seq; [done|apply wp_ctx_Err|]. intros err w4 HR4 Hw4 _.
  assert (fenced_at w4 fence key a) as HF4 by (eapply fenced_at_stable; eauto using rely_trans).
  eapply (wp_seq _ _ (loaded_post key fence a)); [done| |].
  { destruct err as [e|]; [by intros w' _; split; simpl|].
    eapply wp_seq; [done|apply wp_observing|]. intros _ w5 HR5 Hw5 _.
    eapply wp_seq; [done|apply (wp_loadHeld key fence a); eauto using fenced_at_stable|].
    intros r w6 HR6 Hw6 Hr. eapply wp_seq; [done|apply wp_observing|]. intros _ w7 HR7 Hw7 _.
    intros w' HR8. eapply loaded_post_stable; [|done]. by eauto using rely_trans. }
  intros r w5 HR5 Hw5 Hr. eapply wp_seq; [done|apply wp_releaseSlot|]. intros _ w6 HR6 Hw6 _.
  intros w' HR7. eapply loaded_post_stable; [|done]. by eauto using rely_trans.
Qed.

Lemma wp_lookup key a w :
  inv w -> a <= acked w key ->
  wp (lookup key) (fun r w' => let '(v, hit, err) := r in
    (hit = true -> (a <= version v /\ dated w' key v) /\ err = None) /\
    (hit = false -> err = None -> ValidateKey key = None)) w.
Proof.
  intros Hw Ha. eapply wp_seq; [done|apply wp_ctx_Err|]. intros err w1 HR1 Hw1 _.
  destruct err as [e|]; [by intros w' _|].
  destruct (ValidateKey key) as [e|] eqn:Hk; [by intros w' _|].
  eapply wp_seq; [done|apply (wp_cacheGet key a)|].
  { pose proof (rely_acked _ _ HR1 key). lia. }
  intros [v|] w2 HR2 Hw2 Hv.
  { intros w' HR3. split; [|done]. intros _. destruct (Hv v eq_refl). split; [|done]. split; [done|]. by eapply dated_stable. }
  eapply wp_seq; [done|apply wp_bloomRejects|]. intros rej w3 HR3 Hw3 _.
  destruct rej; [|by intros w' _].
  eapply wp_seq; [done|apply wp_observing|]. intros _ w4 HR4 Hw4 _. by intros w' _.
Qed.

Lemma wp_lookupAtLeast key m a w :
  inv w -> a <= acked w key ->
  wp (lookupAtLeast key m) (fun r w' => let '(v, hit, err) := r in
    (hit = true -> (Z.max m a <= version v /\ dated w' key v) /\ err = None)) w.
Proof.
  intros Hw Ha. eapply wp_seq; [done|by apply (wp_lookup key a)|].
  intros [[v hit] err] w1 HR1 Hw1 [Hv _]. unfold Version.
  destruct hit; simpl; [|by intros w' _]. destruct (Hv eq_refl) as [[Hav Hd] ->].
  destruct (version v <? m) eqn:E; reflect_bool; intros w' HR2; [done|]. intros _. split; [|done].
  split; [lia|]. by eapply dated_stable.
Qed.

(** What a read of at least version [m] promises. *)
Definition read_post (key : string) (m : Z) (r : Reply) (w : world) : Prop :=
  r.2 = None -> m <= version r.1 /\ dated w key r.1.

Lemma read_post_stable key m r w w' : rely w w' -> read_post key m r w -> read_post key m r w'.
Proof. intros HR Hr Hn. destruct (Hr Hn). split; [done|]. by eapply dated_stable. Qed.

Lemma wp_attempts fuel attempt key fence m a w :
  inv w -> ValidateKey key = None -> fenced_at w fence key a -> m <= minimum fence ->
  0 <= attempt <= 1 -> (2 <= Z.to_nat attempt + fuel)%nat ->
  wp (attempts fuel attempt key fence) (read_post key (Z.max m a)) w.
Proof.
  revert attempt fence w. induction fuel as [|fuel IH]; intros attempt fence w Hw Hk HF Hm Hatt Hfuel; [lia|].
  cbn [attempts]. eapply wp_seq; [done|by apply (wp_loadSource key fence a)|].
  intros [loaded err] w1 HR1 Hw1 [Hmin Hver]. simpl in Hmin, Hver.
  destruct (negb (IsErr err ErrStaleVersion) || (attempt =? 1)) eqn:Eret.
  { intros w' HR2 Hn. destruct (Hver Hn). simpl. split; [lia|]. by eapply dated_stable. }
  assert (err <> None) as Herr by (intros ->; done).
  reflect_bool. eapply wp_seq; [done|apply wp_ctx_Err|]. intros werr w2 HR2 Hw2 _.
  destruct (nonnil werr); [by intros w' _|].
  eapply wp_seq; [done|apply wp_observing|]. intros _ w3 HR3 Hw3 _.
  assert (rely w w3) as HR by eauto using rely_trans.
  destruct (fenced_at_stable _ _ _ _ _ HF HR) as [_ Ha3].
  eapply wp_seq; [done|by apply (wp_barrier key a)|]. intros fresh w4 HR4 Hw4 (_ & He & _).
  set (f2 := withMinimum fresh _). assert (m <= minimum f2) by (simpl; lia).
  assert (a <= acked w4 key) by (pose proof (rely_acked _ _ HR4 key); lia).
  eapply wp_seq; [done|by apply (wp_lookupAtLeast key (minimum f2) a)|].
  intros [[v hit] err2] w5 HR5 Hw5 Hhit.
  destruct (hit || nonnil err2) eqn:Eh.
  - intros w' HR6 Hn. simpl in *. subst err2. rewrite orb_false_r in Eh. destruct (Hhit Eh) as [[? ?] _].
    split; [lia|]. by eapply dated_stable.
  - apply IH; auto; [|lia|lia]. eapply fenced_at_stable; [|exact HR5]. split; [simpl; lia|done].
Qed.

Lemma wp_flight fence key a w :
  inv w -> ValidateKey key = None -> fenced_at w fence key a ->
  wp (flight fence key) (read_post key (Z.max (minimum fence) a)) w.
Proof.
  intros Hw Hk HF. eapply wp_seq; [done|apply (wp_lookupAtLeast key (minimum fence) a); [done|apply HF]|].
  intros [[v hit] err] w1 HR1 Hw1 Hhit. destruct (hit || nonnil err) eqn:Eh.
  - intros w' HR2 Hn. simpl in *. subst err. rewrite orb_false_r in Eh. destruct (Hhit Eh) as [[? ?] _].
    split; [done|]. by eapply dated_stable.
  - assert (2 <= attemptFuel)%nat by (unfold attemptFuel; lia).
    apply wp_attempts; auto; [by eapply fenced_at_stable|lia..].
Qed.

Lemma wp_Get key w :
  inv w -> wp (Get key) (read_post key (acked w key)) w.
Proof.
  intros Hw. set (a := acked w key). eapply wp_seq; [done|by apply (wp_lookup key a)|].
  intros [[v hit] err] w1 HR1 Hw1 [Hhit Hmiss].
  eapply wp_seq; [done|apply wp_observing|]. intros _ w2 HR2 Hw2 _.
  destruct (hit || nonnil err) eqn:Eh.
  { intros w' HR3 Hn. simpl in *. subst err. rewrite orb_false_r in Eh. destruct (Hhit Eh) as [[? ?] _].
    split; [done|]. eapply dated_stable; [|done]; by eauto using rely_trans. }
  apply orb_false_iff in Eh as [-> Eerr]. destruct err; [done|].
  specialize (Hmiss eq_refl eq_refl).
  eapply wp_seq; [done|apply wp_admitting|]. intros ok w3 HR3 Hw3 _.
  destruct ok; [|by intros w' _]. simpl negb. cbv iota.
  assert (rely w w3) as HRw3 by eauto using rely_trans.
  eapply wp_seq; [done|apply (wp_barrier key a); apply (rely_acked _ _ HRw3)|].
  intros fence w4 HR4 Hw4 (Hfo & Hfe & Hcov).
  eapply (wp_seq _ _ (read_post key a)); [done| |].
  2: { intros r w5 HR5 Hw5 Hr. eapply wp_seq; [done|apply wp_leaveWaiters|].
       intros _ w6 HR6 Hw6 _. intros w' HR7. eapply read_post_stable; [|done]. by eauto using rely_trans. }
  intros w5 HR5. split.
  { split; [done|]. split; [done|]. pose proof (rely_epoch _ _ HR5 key). lia. }
  intros w6 ch fi HR6 Hch Hname w7 HR7. split; [by intros e w' _|].
  intros r fi' Hch' Hpost.
  destruct (rely_started _ _ HR7) as (new & Est & _).
  assert (fi' = fi) as -> by (rewrite Est in Hch'; rewrite (lookup_app_l_Some _ _ _ _ Hch) in Hch'; congruence).
  assert (fi ∈ started w6) as Hin by (by eapply list_elem_of_lookup_2).
  destruct (inv_started w6 (rely_inv _ _ HR6) fi Hin) as (Hfo' & _ & _).
  destruct (flightKey_eq _ _ _ _ Hfo' Hfo Hname) as [Ef Ek].
  assert (rely w w4) as HRw4 by eauto using rely_trans.
  assert (rely w4 w6) as HR46 by eauto using rely_trans.
  pose proof (covers_stable w4 w6 a key fence (rely_acked _ _ HRw4 key) Hcov HR46 fi Hin Ek Ef) as Hle.
  destruct r as [rv rErr]. pose proof (rely_inv _ _ HR7) as Hw7.
  eapply wp_seq; [done|apply wp_ctx_Err|]. intros err w8 HR8 Hw8 _.
  destruct err; [by intros w' _|]. destruct rErr; [by intros w' _|].
  intros w' HR9 _. simpl. destruct (Hpost eq_refl) as [Hle2 Hd]. rewrite Ef in Hle2. rewrite Ek in Hd. simpl in Hle2, Hd.
  split; [lia|]. eapply dated_stable; [|done]; by eauto using rely_trans.
Qed.

(** ** Every step keeps the invariant *)

Lemma thread_step_ok p Q w w' p' :
  inv w -> wp p Q w -> thread_step w p w' p' -> rely w w' /\ wp p' Q w'.
Proof.
  intros Hw Hp Hs. destruct Hs as [w f e g evs p E|w key k r Hr]; simpl in Hp.
  - specialize (Hp w e (rely_refl w Hw)). by rewrite E in Hp.
  - split; [by apply rely_refl|]. apply Hp; [by apply rely_refl|done].
Qed.

Lemma epoch_advance w g' k :
  inv w -> 2 * (invalidations w + 1) < two64 -> fenced 2 (grp w) g' ->
  (epoch_of g' k = epoch_of (grp w) k /\ floor_of (grp w) k <= floor_of g' k) \/
  epoch_of (grp w) k < epoch_of g' k <= 2 * (invalidations w + 1).
Proof.
  intros Hw Hn Hf. pose proof (inv_epoch w Hw k). destruct (Hf k) as [?|(d & Hd & E)]; [by left|].
  right. rewrite E, u64_id; lia.
Qed.

Lemma invalidate_rely w key v t1 t2 g evs err :
  inv w -> InvalidateVersion (grp w) key v t1 t2 = Some (g, evs, err) ->
  v <= committed w key -> 2 * (invalidations w + 1) < two64 ->
  rely w (mkWorld g (committed w)
            (match err with None => upd (acked w) key (Z.max (acked w key) v) | _ => acked w end)
            (invalidations w + 1) (started w)).
Proof.
  intros Hw HI Hv Hn.
  assert (exists ak, (match err with None => upd (acked w) key (Z.max (acked w key) v) | _ => acked w end) = ak /\
    gwf g /\ getter g = getter (grp w) /\ fenced 2 (grp w) g /\
    st_resident (mainCache g) ⊆ st_resident (mainCache (grp w)) /\
    (forall k, acked w k <= ak k <= committed w k /\ ak k <= Z.max (acked w k) (floor_of g k)) /\
    (forall k view, st_resident (mainCache g) !! k = Some view -> ak k <= version view) /\
    (forall k, floor_of g k <= committed w k)) as (ak & -> & Hg & Hget & Hf & HS & Hak & Hres & Hfl).
  { destruct (ValidateKey key) as [e|] eqn:Hk; [|destruct (decide (v < 0)) as [Hneg|Hpos]].
    1,2: unfold InvalidateVersion in HI; rewrite Hk in HI;
      try (rewrite (proj2 (Z.ltb_lt _ _)) in HI by done); simplify_eq;
      exists (acked w); split; [done|]; split; [apply Hw|]; split; [done|];
      split; [by apply fenced_refl|]; split; [done|]; split; [|split; [|apply Hw]].
    - intros k. pose proof (inv_acked w Hw k). lia.
    - intros k view H. apply (inv_resident w Hw k view H).
    - intros k. pose proof (inv_acked w Hw k). lia.
    - intros k view H. apply (inv_resident w Hw k view H).
    - destruct (InvalidateVersion_ok (grp w) key v t1 t2 (inv_gwf w Hw) Hk ltac:(lia))
        as (g' & evs' & E & Hg & Hsh & Hf & HS & HF & Hres & _ & Hother & Hbound).
      rewrite E in HI. simplify_eq. eexists. split; [done|]. split; [done|]. split; [apply Hsh|].
      split; [done|]. split; [done|]. pose proof (inv_acked w Hw) as Hacked.
      split; [|split]; unfold upd; intros k; [| |].
      + specialize (Hacked k). case_decide; subst; lia.
      + intros view Hview. pose proof (inv_resident w Hw k view ltac:(by eapply lookup_weaken)).
        case_decide; subst; [|lia]. destruct (Hres view Hview). lia.
      + pose proof (floor_range w k Hw). destruct (decide (k = key)) as [->|Hne].
        * apply Hbound; [lia| |lia|done]. intros view Hview. apply (inv_resident w Hw _ _ Hview).
        * specialize (Hother k Hne). lia. }
  pose proof (fun k => epoch_advance w g k Hw Hn Hf) as Hadv.
  split; simpl.
  - split; simpl; auto.
    + rewrite Hget. apply Hw.
    + intros k view Hview. split; [by apply Hres|].
      apply (inv_resident w Hw k view). by eapply lookup_weaken.
    + intros k. destruct (Hak k) as [? _]. pose proof (inv_acked w Hw k). lia.
    + apply Hw.
    + pose proof (inv_count w Hw). lia.
    + intros k. pose proof (inv_epoch w Hw k). destruct (Hadv k) as [[-> _]|?]; lia.
    + intros fi Hfi. destruct (inv_started w Hw fi Hfi) as (Hfo & Hle & Hack).
      split; [done|]. destruct (Hadv (fi_key fi)) as [[-> ?]|?]; [|split; lia].
      split; [done|]. intros E. specialize (Hack E). destruct (Hak (fi_key fi)) as [_ ?]. lia.
  - intros k. apply Hak.
  - done.
  - intros k. destruct (Hadv k) as [[-> _]|?]; lia.
  - intros k E. destruct (Hadv k) as [[_ ?]|?]; [|lia]. destruct (Hak k) as [_ ?]. by split.
  - exists []. rewrite app_nil_r. split; [done|]. set_solver.
Qed.

Lemma commits_rely w f :
  inv w -> (forall k, committed w k <= f k < two63) ->
  rely w (mkWorld (grp w) f (acked w) (invalidations w) (started w)).
Proof.
  intros Hw Hup. split; simpl; try done.
  - destruct Hw. split; simpl; auto.
    + intros k view H. specialize (Hup k). destruct (inv_resident0 k view H) as [? [? ?]]. split; [done|]. split; simpl; [lia|done].
    + intros k. specialize (Hup k). specialize (inv_acked0 k). lia.
    + intros k. apply Hup.
    + intros k. specialize (Hup k). specialize (inv_floor0 k). lia.
  - intros k. apply Hup.
  - intros k _. lia.
  - exists []. rewrite app_nil_r. split; [done|]. set_solver.
Qed.

Lemma commit_rely w key v :
  inv w -> committed w key < v < two63 ->
  rely w (mkWorld (grp w) (upd (committed w) key v) (acked w) (invalidations w) (started w)).
Proof.
  intros Hw Hv. apply commits_rely; [done|]. intros k. unfold upd.
  pose proof (inv_committed w Hw k). case_decide; subst; lia.
Qed.

Lemma start_rely w fence key :
  inv w -> start_ok w fence key ->
  rely w (mkWorld (grp w) (committed w) (acked w) (invalidations w)
            (started w ++ [mkFlight fence key (acked w key)])).
Proof.
  intros Hw (_ & Hfo & He). split; simpl; try done.
  - destruct Hw. split; simpl; auto. intros fi [Hfi| ->%list_elem_of_singleton]%elem_of_app; [auto|].
    simpl. split; [done|]. split; [done|]. lia.
  - intros k _. lia.
  - eexists. split; [done|]. by intros fi ->%list_elem_of_singleton.
Qed.

Definition flights_ok (w : world) (fs : list (prog C Reply)) : Prop :=
  length fs = length (started w) /\
  forall i p fi, fs !! i = Some p -> started w !! i = Some fi -> wp p (fun r w' => flight_post w' fi r) w.

Definition callers_ok (w : world) (cs : list caller) : Prop :=
  forall i c, cs !! i = Some c -> wp (c_prog c) (read_post (c_key c) (c_ack c)) w.

Definition cinv (s : config) : Prop :=
  inv (wld s) /\ flights_ok (wld s) (flights s) /\ callers_ok (wld s) (callers s).

Lemma flights_ok_stable w w' fs :
  flights_ok w fs -> rely w w' -> started w' = started w -> flights_ok w' fs.
Proof.
  intros [HL HF] HR HS. split; [by rewrite HS|]. intros i p fi Hp Hfi. rewrite HS in Hfi.
  eapply wp_stable; [|exact HR]. eauto.
Qed.

Lemma callers_ok_stable w w' cs : callers_ok w cs -> rely w w' -> callers_ok w' cs.
Proof. intros HC HR i c Hc. eapply wp_stable; [|exact HR]. eauto. Qed.

Lemma callers_ok_insert w cs i key a p p' :
  callers_ok w cs -> cs !! i = Some (mkCaller key a p) ->
  wp p' (read_post key a) w -> callers_ok w (<[i := mkCaller key a p']> cs).
Proof.
  intros HC Hi Hp j c [(<- & <- & _)|[_ Hj]]%list_lookup_insert_Some; [done|by eapply HC].
Qed.

Lemma thread_step_started w p w' p' : thread_step w p w' p' -> started w' = started w.
Proof. by destruct 1. Qed.

Lemma step_cinv s s' : cinv s -> step s s' -> cinv s'.
Proof.
  intros (Hw & HF & HC) Hs.
  destruct Hs as [w fs cs key|w fs cs i p w' p' Hi Ht|w fs cs i key a p w' p' Hi Ht
    |w fs cs i key a fence fkey k Hi|w fs cs i key a fence fkey k ch fi Hi Hch Hn
    |w fs cs i key a ch k r Hi Hr|w fs cs i key a ch k e Hi
    |w fs cs key v t1 t2 g evs err HI Hv Hn|w fs cs key v Hv|w fs cs limit locked t1 t2 clock c ch rm busy Hcl];
    unfold cinv in *; simpl in *.
  - split; [done|]. split; [done|]. intros i c [Hc|[_ Hc]]%lookup_app_Some; [by eapply HC|].
    apply list_lookup_singleton_Some in Hc as [_ <-]. by apply wp_Get.
  - destruct (lookup_lt_is_Some_2 (started w) i) as [fi Hfi].
    { destruct HF as [<- _]. by eapply lookup_lt_Some. }
    destruct (thread_step_ok p _ w w' p' Hw (proj2 HF i p fi Hi Hfi) Ht) as [HR Hp].
    split; [apply HR|]. split; [|by eapply callers_ok_stable].
    pose proof (thread_step_started _ _ _ _ Ht) as HS.
    pose proof (flights_ok_stable w w' fs HF HR HS) as [HL HF2].
    split; [by rewrite length_insert|]. intros j q fj [(<- & <- & _)|[_ Hj]]%list_lookup_insert_Some Hfj.
    + rewrite HS in Hfj. by simplify_eq.
    + by eapply HF2.
  - destruct (thread_step_ok p _ w w' p' Hw (HC i _ Hi) Ht) as [HR Hp].
    pose proof (thread_step_started _ _ _ _ Ht) as HS.
    split; [apply HR|]. split; [by eapply flights_ok_stable|].
    eapply callers_ok_insert; eauto using callers_ok_stable.
  - pose proof (HC i _ Hi w (rely_refl w Hw)) as [Hst Hk]. pose proof (start_rely w fence fkey Hw Hst) as HR.
    split; [apply HR|]. split.
    + destruct HF as [HL HF]. split; [simpl; by rewrite !length_app, HL|]. simpl.
      intros j p fj [Hp|[Hlen Hp]]%lookup_app_Some Hfj.
      * assert (j < length (started w))%nat by (rewrite <- HL; by eapply lookup_lt_Some).
        rewrite lookup_app_l in Hfj by done. eapply wp_stable; [|exact HR]. eauto.
      * apply list_lookup_singleton_Some in Hp as [Hj <-].
        assert (j = length (started w)) as -> by lia.
        rewrite list_lookup_middle in Hfj by done. injection Hfj as <-.
        eapply wp_stable; [|exact HR]. apply wp_flight; auto; [apply Hst|].
        split; [apply Hst|simpl; lia].
    + eapply callers_ok_insert; [by eapply callers_ok_stable|done|].
      eapply Hk; [exact HR|simpl; destruct HF as [-> _]; by apply list_lookup_middle|done].
  - pose proof (HC i _ Hi w (rely_refl w Hw)) as [_ Hk].
    split; [done|]. split; [done|]. eapply callers_ok_insert; [done|done|].
    eapply Hk; [by apply rely_refl|done|done].
  - pose proof (HC i _ Hi w (rely_refl w Hw)) as [_ Hk].
    destruct (lookup_lt_is_Some_2 (started w) ch) as [fi Hfi].
    { destruct HF as [<- _]. by eapply lookup_lt_Some. }
    pose proof (proj2 HF ch _ fi Hr Hfi w (rely_refl w Hw)) as Hpost. simpl in Hpost.
    split; [done|]. split; [done|]. eapply callers_ok_insert; [done|done|]. by eapply Hk.
  - pose proof (HC i _ Hi w (rely_refl w Hw)) as [He _].
    split; [done|]. split; [done|]. eapply callers_ok_insert; [done|done|]. apply He.
  - pose proof (invalidate_rely w key v t1 t2 g evs err Hw HI Hv Hn) as HR.
    split; [apply HR|]. split; [by eapply flights_ok_stable|by eapply callers_ok_stable].
  - pose proof (commit_rely w key v Hw Hv) as HR.
    split; [apply HR|]. split; [by eapply flights_ok_stable|by eapply callers_ok_stable].
  - destruct (st_clean_ok (mainCache (grp w)) limit locked t1 t2 clock (gwf_cache _ (inv_gwf w Hw)))
      as (c' & ? & ? & ? & E & Hc & HS & _). rewrite E in Hcl. simplify_eq.
    pose proof (rely_shrink w _ Hw Hc HS) as HR.
    split; [apply HR|]. split; [by eapply flights_ok_stable|by eapply callers_ok_stable].
Qed.

(** ** Runs *)

Lemma steps_cinv s s' : cinv s -> rtc step s s' -> cinv s'.
Proof. intros H Hr. induction Hr; eauto using step_cinv. Qed.

Lemma fresh_cinv g c0 a0 :
  gwf g -> getter g = VersionedGetter -> st_resident (mainCache g) = ∅ ->
  (forall k, floor_of g k = 0 /\ epoch_of g k = 0) -> (forall k, 0 <= a0 k <= c0 k /\ c0 k < two63) ->
  cinv (mkConfig (mkWorld g c0 a0 0 []) [] []).
Proof.
  intros Hg Hget Hres Hfe Hc. split; [|split]; simpl.
  - split; simpl; auto.
    + intros k view. by rewrite Hres, lookup_empty.
    + intros k. specialize (Hc k). lia.
    + intros k. apply Hc.
    + intros k. destruct (Hfe k) as [-> _]. specialize (Hc k). lia.
    + unfold two64. lia.
    + intros k. destruct (Hfe k) as [_ ->]. lia.
    + intros fi. set_solver.
  - split; [done|]. intros i p fi. by rewrite lookup_nil.
  - intros i c. simpl. by rewrite lookup_nil.
Qed.

Lemma initial_cinv g c0 :
  gwf g -> getter g = VersionedGetter -> st_resident (mainCache g) = ∅ ->
  (forall k, floor_of g k = 0 /\ epoch_of g k = 0) -> (forall k, 0 <= c0 k < two63) ->
  cinv (initial g c0).
Proof. intros Hg Hget Hres Hfe Hc. apply fresh_cinv; auto. intros k. specialize (Hc k). lia. Qed.

Lemma step_acked s s' k : cinv s -> step s s' -> acked (wld s) k <= acked (wld s') k.
Proof.
  intros (Hw & HF & HC) Hs. destruct Hs; simpl in *; try lia.
  1,2: match goal with H : thread_step _ _ _ _ |- _ => destruct H; simpl; lia end.
  destruct err; simpl; [lia|]. unfold upd. case_decide; subst; lia.
Qed.

Lemma steps_acked s s' k : cinv s -> rtc step s s' -> acked (wld s) k <= acked (wld s') k.
Proof.
  intros Hc Hr. induction Hr as [|s1 s2 s3 Hs Hr IH]; [lia|].
  pose proof (step_acked _ _ k Hc Hs). specialize (IH (step_cinv _ _ Hc Hs)). lia.
Qed.

(** A caller keeps its place, its key and what was acknowledged at its start. *)
Lemma steps_caller s s' i c :
  rtc step s s' -> callers s !! i = Some c ->
  exists c', callers s' !! i = Some c' /\ c_ack c' = c_ack c /\ c_key c' = c_key c.
Proof.
  intros Hr. revert c. induction Hr as [|s1 s2 s3 Hs Hr IH]; intros c Hc; [eauto|].
  assert (exists c', callers s2 !! i = Some c' /\ c_ack c' = c_ack c /\ c_key c' = c_key c) as (c2 & H2 & E2 & K2).
  { destruct Hs; simpl in *; eauto.
    1: { exists c. split; [by apply lookup_app_l_Some|done]. }
    all: match goal with H : _ !! ?j = Some (mkCaller _ _ _) |- _ => destruct (decide (i = j)) as [->|Hne] end;
      [rewrite list_lookup_insert_eq by (by eapply lookup_lt_Some); simplify_eq; eauto
      |rewrite list_lookup_insert_ne by done; eauto]. }
  destruct (IH c2 H2) as (c3 & H3 & E3 & K3). exists c3. split; [done|]. split; congruence.
Qed.

(** The configuration after an acknowledged invalidation. *)
Definition invalidated (s : config) (g : Group C) (key : string) (v : Z) : config :=
  mkConfig (mkWorld g (committed (wld s)) (upd (acked (wld s)) key (Z.max (acked (wld s) key) v))
              (invalidations (wld s) + 1) (started (wld s))) (flights s) (callers s).

Lemma invalidated_step s g evs key v t1 t2 :
  InvalidateVersion (grp (wld s)) key v t1 t2 = Some (g, evs, None) ->
  v <= committed (wld s) key -> 2 * (invalidations (wld s) + 1) < two64 ->
  step s (invalidated s g key v).
Proof. destruct s as [w fs cs]. simpl. intros H1 H2 H3. by eapply (step_invalidate w fs cs key v t1 t2 g evs None). Qed.

Lemma invalidated_acked s g key v s' :
  cinv (invalidated s g key v) -> rtc step (invalidated s g key v) s' -> v <= acked (wld s') key.
Proof.
  intros Hc Hr. pose proof (steps_acked _ _ key Hc Hr) as H. simpl in H. unfold upd in H.
  rewrite decide_True in H by done. lia.
Qed.

(** A group that [NewGroup] returns with a versioned source, over a source
    whose versions are [int64]. *)
Definition launched (g : Group C) (c0 : string -> Z) : Prop :=
  gwf g /\ getter g = VersionedGetter /\ st_resident (mainCache g) = ∅ /\
  (forall k, floor_of g k = 0 /\ epoch_of g k = 0) /\ (forall k, 0 <= c0 k < two63).

Lemma launched_cinv g c0 s : launched g c0 -> rtc step (initial g c0) s -> cinv s.
Proof. intros (? & ? & ? & ? & ?) Hr. eapply steps_cinv; [|done]. by apply initial_cinv. Qed.

(** C7: once [InvalidateVersion(key, v)] has been acknowledged, in no later
    state of any interleaving of readers, flights (those already loading when
    it ran included), further invalidations, floor retirements, expirations
    and commits does the cache hold a view of the key older than [v]. *)
Theorem invalidated_never_resident g c0 s key v t1 t2 g' evs s' view :
  launched g c0 -> rtc step (initial g c0) s ->
  InvalidateVersion (grp (wld s)) key v t1 t2 = Some (g', evs, None) ->
  v <= committed (wld s) key -> 2 * (invalidations (wld s) + 1) < two64 ->
  rtc step (invalidated s g' key v) s' ->
  st_resident (mainCache (grp (wld s'))) !! key = Some view -> v <= version view.
Proof.
  intros HL Hr HI Hv Hn Hr' Hview. pose proof (launched_cinv g c0 s HL Hr) as Hc.
  pose proof (step_cinv _ _ Hc (invalidated_step s g' evs key v t1 t2 HI Hv Hn)) as Hc1.
  pose proof (invalidated_acked s g' key v s' Hc1 Hr'). pose proof (steps_cinv _ _ Hc1 Hr') as (Hw & _).
  pose proof (inv_resident _ Hw key view Hview). lia.
Qed.

(** C6: a [Get] of the key that starts after [InvalidateVersion(key, v)] was
    acknowledged never returns a value older than [v], even when it joins a
    flight another caller started, when the flight retries, and when the
    version's floor has been retired in between. *)
Theorem invalidated_never_returned g c0 s key v t1 t2 g' evs s1 w fs cs s2 c view :
  launched g c0 -> rtc step (initial g c0) s ->
  InvalidateVersion (grp (wld s)) key v t1 t2 = Some (g', evs, None) ->
  v <= committed (wld s) key -> 2 * (invalidations (wld s) + 1) < two64 ->
  rtc step (invalidated s g' key v) s1 -> s1 = mkConfig w fs cs ->
  rtc step (mkConfig w fs (cs ++ [mkCaller key (acked w key) (Get key)])) s2 ->
  callers s2 !! length cs = Some c -> c_prog c = Ret (view, None) -> v <= version view.
Proof.
  intros HL Hr HI Hv Hn Hr1 -> Hr2 Hi Hret. pose proof (launched_cinv g c0 s HL Hr) as Hc.
  pose proof (step_cinv _ _ Hc (invalidated_step s g' evs key v t1 t2 HI Hv Hn)) as Hc1.
  pose proof (invalidated_acked s g' key v _ Hc1 Hr1) as Hack. simpl in Hack.
  pose proof (steps_cinv _ _ Hc1 Hr1) as Hc2.
  pose proof (step_cinv _ _ Hc2 (step_get w fs cs key)) as Hc3.
  pose proof (steps_cinv _ _ Hc3 Hr2) as (Hw & _ & HC).
  destruct (steps_caller _ _ (length cs) _ Hr2 (list_lookup_middle cs [] _ _ eq_refl)) as (c' & Hc' & Ea & _).
  rewrite Hi in Hc'. simplify_eq. simpl in Ea.
  pose proof (HC _ _ Hi) as Hwp. rewrite Hret in Hwp. destruct (Hwp _ (rely_refl _ Hw) eq_refl) as [Hle _].
  simpl in Hle. lia.
Qed.

(** C5: what the cache serves is what the source holds: in every reachable
    state a successful [Get] has returned bytes the source answers for that key
    at the version of the view, a version the source has committed by now and
    not older than what had been acknowledged when the call started; and the
    same is true of every view that is resident. No interleaving mixes the
    values of two keys or of two versions, and none invents a value. *)
Theorem reads_return_source_values g c0 s :
  launched g c0 -> rtc step (initial g c0) s ->
  (forall i c view, callers s !! i = Some c -> c_prog c = Ret (view, None) ->
     c_ack c <= version view <= committed (wld s) (c_key c) /\ genuine (c_key c) (version view) (b view)) /\
  (forall key view, st_resident (mainCache (grp (wld s))) !! key = Some view ->
     acked (wld s) key <= version view <= committed (wld s) key /\ genuine key (version view) (b view)).
Proof.
  intros HL Hr. destruct (launched_cinv g c0 s HL Hr) as (Hw & _ & HC). split.
  - intros i c view Hi Hret. pose proof (HC _ _ Hi) as Hwp. rewrite Hret in Hwp.
    destruct (Hwp _ (rely_refl _ Hw) eq_refl) as [? [? ?]]. done.
  - intros key view Hview. destruct (inv_resident _ Hw _ _ Hview) as [? [? ?]]. done.
Qed.


End Machine.

(** ** Executing schedules

    A schedule names the step taken each time; [exec] runs it, and every run
    it produces is one of the machine. *)
Section Exec.
Context {C : Type} `{!Store C, !StoreLaws C} {answers : Genuine} {decides : forall k v b, Decision (genuine k v b)}.

Inductive choice :=
| ChGet (key : string)
| ChFlight (i : nat) (e : env) (r : SourceReply)
| ChCaller (i : nat) (e : env) (r : SourceReply)
| ChStart (i : nat)
| ChResult (i : nat)
| ChCommit (key : string) (v : Z).

Definition exec_thread (w : world (C := C)) (p : prog C Reply) (e : env) (r : SourceReply)
    : option (world * prog C Reply) :=
  match p with
  | Act f => match f e (grp w) with Next g _ p' => Some (set_grp w g, p') | _ => None end
  | Source key k =>
      match r.2 with
      | None => if (r.1.2 =? committed w key) && bool_decide (genuine key r.1.2 r.1.1) then Some (w, k r) else None
      | Some _ => Some (w, k r)
      end
  | _ => None
  end.

Definition exec1 (s : config (C := C)) (ch : choice) : option config :=
  let '(mkConfig w fs cs) := s in
  match ch with
  | ChGet key => Some (mkConfig w fs (cs ++ [mkCaller key (acked w key) (Get key)]))
  | ChFlight i e r =>
      p ← fs !! i; '(w', p') ← exec_thread w p e r; Some (mkConfig w' (<[i := p']> fs) cs)
  | ChCaller i e r =>
      c ← cs !! i;
      '(w', p') ← exec_thread w (c_prog c) e r;
      Some (mkConfig w' fs (<[i := mkCaller (c_key c) (c_ack c) p']> cs))
  | ChStart i =>
      c ← cs !! i;
      match c_prog c with
      | DoChan fence fkey k =>
          Some (mkConfig (mkWorld (grp w) (committed w) (acked w) (invalidations w)
                            (started w ++ [mkFlight fence fkey (acked w fkey)]))
                  (fs ++ [flight fence fkey]) (<[i := mkCaller (c_key c) (c_ack c) (k (length fs))]> cs))
      | _ => None
      end
  | ChResult i =>
      c ← cs !! i;
      match c_prog c with
      | Await n k =>
          p ← fs !! n;
          match p with
          | Ret r => Some (mkConfig w fs (<[i := mkCaller (c_key c) (c_ack c) (k (inr r))]> cs))
          | _ => None
          end
      | _ => None
      end
  | ChCommit key v =>
      if (committed w key <? v) && (v <? two63)
      then Some (mkConfig (mkWorld (grp w) (upd (committed w) key v) (acked w) (invalidations w) (started w)) fs cs)
      else None
  end.

Fixpoint exec (s : config (C := C)) (chs : list choice) : option config :=
  match chs with
  | [] => Some s
  | ch :: chs' => s' ← exec1 s ch; exec s' chs'
  end.

Lemma exec_thread_step w p e r w' p' : exec_thread w p e r = Some (w', p') -> thread_step w p w' p'.
Proof.
  destruct p as [a|f|key k|fence key k|ch k]; simpl; try done.
  - destruct (f e (grp w)) as [g evs p| |] eqn:E; [|done..]. intros [= <- <-]. by eapply ts_act.
  - destruct r as [[v n] [er|]]; simpl.
    + intros [= <- <-]. apply ts_source. discriminate.
    + case_bool; [|done]. apply andb_true_iff in Heqb as [Hv Hg]. apply bool_decide_eq_true in Hg. reflect_bool.
      intros [= <- <-]. apply ts_source. by intros _.
Qed.

Lemma exec1_step s ch s' : exec1 s ch = Some s' -> step s s'.
Proof.
  destruct s as [w fs cs]. destruct ch as [key|i e r|i e r|i|i|key v]; simpl; intros H.
  - simplify_eq. apply step_get.
  - apply bind_Some in H as (p & Hp & H). apply bind_Some in H as ([w' p'] & Ht & [= <-]).
    eapply step_flight; [done|]. by eapply exec_thread_step.
  - apply bind_Some in H as ([key a p] & Hp & H). apply bind_Some in H as ([w' p'] & Ht & [= <-]).
    eapply step_caller; [done|]. by eapply exec_thread_step.
  - apply bind_Some in H as ([key a p] & Hp & H). simpl in H. destruct p; try done.
    simplify_eq. by apply step_start.
  - apply bind_Some in H as ([key a p] & Hp & H). simpl in H. destruct p; try done.
    apply bind_Some in H as (q & Hq & H). destruct q; try done. simplify_eq. by eapply step_result.
  - case_bool; [|done]. reflect_bool. simplify_eq. by apply step_commit.
Qed.

Lemma exec_steps s chs s' : exec s chs = Some s' -> rtc step s s'.
Proof.
  revert s. induction chs as [|ch chs IH]; intros s; simpl; [intros [= ->]; apply rtc_refl|].
  intros (s1 & H1 & H2)%bind_Some. eapply rtc_l; [by eapply exec1_step|]. by apply IH.
Qed.
End Exec.

(** ** Witnesses: a commit, its invalidation, and a reader after it *)
Local Instance sample_answers : Genuine := fun _ _ value => value = [Byte.x61].
Local Instance byte_decides : EqDecision Byte.byte := Byte.byte_eq_dec.
Local Instance sample_decides k v b : Decision (genuine k v b).
Proof. unfold genuine, sample_answers. apply _. Defined.

Definition sample_start : config := initial sample_group (fun _ => 0).

Lemma sample_launched : launched sample_group (fun _ => 0).
Proof.
  pose proof (NewGroup_gwf fresh_area (fun n => n) (fun _ _ => 1) "products" 1000 (Some VersionedGetter)
    default_options sample_group) as H.
  destruct H as (H1 & H2 & H3 & H4); [by apply fresh_cwf|done|reflexivity|].
  split_and!; auto. intros _. unfold two63. lia.
Qed.

Definition calm : env := mkEnv (fun _ => 100) None.
Definition answer : SourceReply := ([Byte.x61], 7, None).

(** Version 7 of "k" is committed. *)
Definition sample_committed : config :=
  mkConfig (mkWorld sample_group (upd (fun _ => 0) "k" 7) (fun _ => 0) 0 []) [] [].

Lemma sample_commit_run : rtc step sample_start sample_committed.
Proof. apply (exec_steps _ [ChCommit "k" 7]). reflexivity. Qed.

Definition after_invalidate : option (Group cache) :=
  match InvalidateVersion sample_group "k" 7 1 2 with Some (g, _, None) => Some g | _ => None end.

Definition reader_schedule : list choice :=
  replicate 6 (ChCaller 0 calm answer) ++ [ChStart 0] ++
  replicate 15 (ChFlight 0 calm answer) ++ [ChResult 0] ++ replicate 2 (ChCaller 0 calm answer).

Definition reader_config (g : Group cache) : config :=
  let s := invalidated sample_committed g "k" 7 in
  mkConfig (wld s) (flights s) (callers s ++ [mkCaller "k" (acked (wld s) "k") (Get "k")]).

(** The version and success of the first caller, once it has returned. *)
Definition first_result (s : option (config (C := cache))) : option (Z * bool) :=
  s ← s; c ← callers s !! 0%nat;
  match c_prog c with Ret (v, err) => Some (version v, nonnil err) | _ => None end.

(** The reader misses, starts a flight, loads version 7, publishes it and
    returns it. *)
Example reader_result :
  (g ← after_invalidate; first_result (exec (reader_config g) reader_schedule)) = Some (7, false).
Proof. vm_compute. reflexivity. Qed.

Lemma after_invalidate_some g evs :
  InvalidateVersion sample_group "k" 7 1 2 = Some (g, evs, None) ->
  first_result (exec (reader_config g) reader_schedule) = Some (7, false).
Proof.
  intros E. pose proof reader_result as H. unfold after_invalidate in H. rewrite E in H. exact H.
Qed.

Lemma first_result_some s r : first_result s = Some (r, false) ->
  exists s' c view, s = Some s' /\ callers s' !! 0%nat = Some c /\ c_prog c = Ret (view, None) /\ version view = r.
Proof.
  unfold first_result. intros (s' & -> & H)%bind_Some. apply bind_Some in H as (c & Hc & H).
  destruct (c_prog c) as [[view [e|]]| | | |] eqn:Ep; simplify_eq/=. by exists s', c, view.
Qed.

Lemma invalidated_never_returned_witness :
  exists g evs s2 c view, InvalidateVersion sample_group "k" 7 1 2 = Some (g, evs, None) /\
    rtc step (reader_config g) s2 /\ callers s2 !! 0%nat = Some c /\ c_prog c = Ret (view, None) /\
    7 <= version view.
Proof.
  destruct (InvalidateVersion_ok sample_group "k" 7 1 2 sample_group_gwf eq_refl ltac:(lia))
    as (g & evs & E & _).
  destruct (first_result_some _ _ (after_invalidate_some g evs E)) as (s2 & c & view & Ex & Hc & Hp & _).
  pose proof (exec_steps _ _ _ Ex) as Hr. exists g, evs, s2, c, view.
  split; [exact E|]. split; [exact Hr|]. split; [exact Hc|]. split; [exact Hp|].
  apply (invalidated_never_returned sample_group (fun _ => 0) sample_committed "k" 7 1 2 g evs
    (invalidated sample_committed g "k" 7) (wld (invalidated sample_committed g "k" 7)) [] [] s2 c view
    sample_launched sample_commit_run E).
  - vm_compute. congruence.
  - vm_compute. reflexivity.
  - apply rtc_refl.
  - reflexivity.
  - exact Hr.
  - exact Hc.
  - exact Hp.
Defined.

Lemma reads_return_source_values_witness :
  exists s c view, exec sample_start (ChCommit "k" 7 :: ChGet "k" :: reader_schedule) = Some s /\
    callers s !! 0%nat = Some c /\ c_prog c = Ret (view, None) /\ version view <= 7 /\ b view = [Byte.x61].
Proof.
  assert (first_result (exec sample_start (ChCommit "k" 7 :: ChGet "k" :: reader_schedule)) = Some (7, false)) as Hf
    by (vm_compute; reflexivity).
  destruct (first_result_some _ _ Hf) as (s & c & view & Ex & Hc & Hp & Hv). exists s, c, view.
  split; [exact Ex|]. split; [exact Hc|]. split; [exact Hp|]. split; [rewrite Hv; discriminate|].
  destruct (reads_return_source_values sample_group (fun _ => 0) s sample_launched (exec_steps _ _ _ Ex)) as [H _].
  destruct (H 0%nat c view Hc Hp) as [_ Hg]. exact Hg.
Defined.

Definition resident_version (s : option (config (C := cache))) : option Z :=
  s ← s; v ← resident (mainCache (grp (wld s))) !! "k"; Some (version v).

Example reader_resident :
  (g ← after_invalidate; resident_version (exec (reader_config g) reader_schedule)) = Some 7.
Proof. vm_compute. reflexivity. Qed.

Lemma reader_run g : rtc step (invalidated sample_committed g "k" 7) (reader_config g).
Proof. apply rtc_once. apply (step_get (wld (invalidated sample_committed g "k" 7)) [] [] "k"). Qed.

Lemma invalidated_never_resident_witness :
  exists g evs s2 view, InvalidateVersion sample_group "k" 7 1 2 = Some (g, evs, None) /\
    rtc step (invalidated sample_committed g "k" 7) s2 /\
    st_resident (mainCache (grp (wld s2))) !! "k" = Some view /\ 7 <= version view.
Proof.
  destruct (InvalidateVersion_ok sample_group "k" 7 1 2 sample_group_gwf eq_refl ltac:(lia))
    as (g & evs & E & _).
  pose proof reader_resident as H. unfold after_invalidate in H. rewrite E in H.
  apply bind_Some in H as (g2 & Eg & H). injection Eg as <-.
  apply bind_Some in H as (s2 & Ex & H). apply bind_Some in H as (view & Hview & _).
  assert (rtc step (invalidated sample_committed g "k" 7) s2) as Hr.
  { etransitivity; [apply reader_run|by eapply exec_steps]. }
  exists g, evs, s2, view. split; [exact E|]. split; [exact Hr|]. split; [exact Hview|].
  apply (invalidated_never_resident sample_group (fun _ => 0) sample_committed "k" 7 1 2 g evs s2 view
    sample_launched sample_commit_run E); [vm_compute; congruence|vm_compute; reflexivity|exact Hr|exact Hview].
Defined.

