(* ===== verification/FlightReads.v ===== *)
(** * How often a flight reads the source

    A path through a program of [Read]: the surroundings show every action any
    state of the group, any clock and any context, and answer every source read
    and every channel. The retry loop is given any number of rounds; that it
    ends after the second attempt, and that the second attempt is only made
    when the first one was stale, are facts about its own conditions. *)
From S2P Require Import Prelude GoStrings Errors LRU CacheStore Bloom Admission Group Read.

Section Paths.
Context {C : Type} `{!Store C}.

(** ** Paths *)

(** What happens on a path: an action sees a state, or the source answers. *)
Inductive passed := Acted (e : env) (g : Group C) | Answered (reply : SourceReply).

(** A context ends as cancelled or past its deadline, with nothing that wraps
    [ErrStaleVersion]. *)
Definition ends_plainly (e : env) : Prop := IsErr (ctxErr e) ErrStaleVersion = false.

Inductive path {A} : prog C A -> list passed -> prog C A -> Prop :=
| path_here p : path p [] p
| path_act f e g g' evs p tr q :
    ends_plainly e -> f e g = Next g' evs p -> path p tr q -> path (Act f) (Acted e g :: tr) q
| path_source key k r tr q : path (k r) tr q -> path (Source key k) (Answered r :: tr) q
| path_chan fence key k ch tr q : path (k ch) tr q -> path (DoChan fence key k) tr q
| path_await ch k r tr q : path (k r) tr q -> path (Await ch k) tr q.

Definition answers (tr : list passed) : list SourceReply :=
  omap (fun x => match x with Answered r => Some r | Acted _ _ => None end) tr.

Lemma answers_app t1 t2 : answers (t1 ++ t2) = answers t1 ++ answers t2.
Proof. apply omap_app. Qed.

(** A path through a sequence ends in its first part, or passes through it. *)
Lemma path_bind {A B} (m : prog C A) (h : A -> prog C B) tr q :
  path (m ≫= h) tr q ->
  (exists m', path m tr m' /\ q = m' ≫= h) \/
  (exists a t1 t2, tr = t1 ++ t2 /\ path m t1 (Ret a) /\ path (h a) t2 q).
Proof.
  remember (m ≫= h) as p eqn:Ep. intros H. revert m Ep.
  induction H as [p|f e g g' evs p tr q Hc Hf Hp IH|key k r tr q Hp IH|fence key k ch tr q Hp IH|ch k r tr q Hp IH]; intros m Ep.
  - left. exists m. split; [constructor|done].
  - destruct m as [a|f'|key k|fence key k|ch k]; simplify_eq/=.
    { right. exists a, [], (Acted e g :: tr). split_and!; [done|constructor|]. rewrite <- Ep. eauto using path_act, path_source, path_chan, path_await. }
    destruct (f' e g) as [g1 evs1 p1| |] eqn:E; simplify_eq.
    destruct (IH p1 eq_refl) as [(m' & H1 & ->)|(a & t1 & t2 & -> & H1 & H2)].
    + left. exists m'. split; [eauto using path_act, path_source, path_chan, path_await|done].
    + right. exists a, (Acted e g :: t1), t2. split_and!; [done|eauto using path_act, path_source, path_chan, path_await|done].
  - destruct m as [a|f'|key' k'|fence key' k'|ch k']; simplify_eq/=.
    { right. exists a, [], (Answered r :: tr). split_and!; [done|constructor|]. rewrite <- Ep. by constructor. }
    destruct (IH (k' r) eq_refl) as [(m' & H1 & ->)|(a & t1 & t2 & -> & H1 & H2)].
    + left. exists m'. split; [by constructor|done].
    + right. exists a, (Answered r :: t1), t2. split_and!; [done|by constructor|done].
  - destruct m as [a|f'|key' k'|fence' key' k'|ch' k']; simplify_eq/=.
    { right. exists a, [], tr. split_and!; [done|constructor|]. rewrite <- Ep. eauto using path_act, path_source, path_chan, path_await. }
    destruct (IH (k' ch) eq_refl) as [(m' & H1 & ->)|(a & t1 & t2 & -> & H1 & H2)].
    + left. exists m'. split; [eauto using path_act, path_source, path_chan, path_await|done].
    + right. exists a, t1, t2. split_and!; [done|eauto using path_act, path_source, path_chan, path_await|done].
  - destruct m as [a|f'|key' k'|fence' key' k'|ch' k']; simplify_eq/=.
    { right. exists a, [], tr. split_and!; [done|constructor|]. rewrite <- Ep. eauto using path_act, path_source, path_chan, path_await. }
    destruct (IH (k' r) eq_refl) as [(m' & H1 & ->)|(a & t1 & t2 & -> & H1 & H2)].
    + left. exists m'. split; [eauto using path_act, path_source, path_chan, path_await|done].
    + right. exists a, t1, t2. split_and!; [done|eauto using path_act, path_source, path_chan, path_await|done].
Qed.

Lemma path_ret {A} (a : A) tr q : path (Ret a) tr q -> tr = [] /\ q = Ret a.
Proof. by inversion 1. Qed.

(** A sequence that has returned has returned from both parts. *)
Lemma path_bind_ret {A B} (m : prog C A) (h : A -> prog C B) tr b :
  path (m ≫= h) tr (Ret b) -> exists a t1 t2, tr = t1 ++ t2 /\ path m t1 (Ret a) /\ path (h a) t2 (Ret b).
Proof.
  intros [(m' & H1 & E)|H]%path_bind; [|done]. destruct m' as [a|f|key k|fence key k|ch k]; try done.
  exists a, tr, []. rewrite app_nil_r. split_and!; [done|done|]. simpl in E. rewrite E. constructor.
Qed.

(** One action that always goes on with a value. *)
Lemma path_act_ret {A} (f : env -> Group C -> outcome C (prog C A)) tr b :
  path (Act f) tr (Ret b) ->
  exists e g g' evs p t, tr = Acted e g :: t /\ ends_plainly e /\ f e g = Next g' evs p /\ path p t (Ret b).
Proof. inversion 1; subst. by repeat eexists. Qed.

(** ** The number of reads *)
Fixpoint reads_le {A} (n : nat) (p : prog C A) : Prop :=
  match p with
  | Ret _ => True
  | Act f => forall e g, match f e g with Next _ _ p' => reads_le n p' | _ => True end
  | Source _ k => match n with O => False | S n' => forall r, reads_le n' (k r) end
  | DoChan _ _ k => forall ch, reads_le n (k ch)
  | Await _ k => forall r, reads_le n (k r)
  end.

Lemma reads_le_mono {A} (p : prog C A) n m : (n <= m)%nat -> reads_le n p -> reads_le m p.
Proof.
  revert p n m. fix IH 1. intros p n m Hnm. destruct p as [a|f|key k|fence key k|ch k]; simpl.
  - done.
  - intros H e g. specialize (H e g). destruct (f e g); auto. by eapply IH.
  - destruct n as [|n]; [done|]. destruct m as [|m]; [lia|]. intros H r. eapply IH; [|apply H]. lia.
  - intros H c. by eapply IH.
  - intros H r. by eapply IH.
Qed.

Lemma reads_le_bind {A B} (m : prog C A) (h : A -> prog C B) n k :
  reads_le n m -> (forall a, reads_le k (h a)) -> reads_le (n + k) (m ≫= h).
Proof.
  revert m n. fix IH 1. intros m n Hm Hh. destruct m as [a|f|key c|fence key c|ch c]; simpl in *.
  - eapply reads_le_mono; [|apply Hh]. lia.
  - intros e g. specialize (Hm e g). destruct (f e g); auto. by apply IH.
  - destruct n as [|n]; [done|]. simpl. intros r. by apply IH.
  - intros ch. by apply IH.
  - intros r. by apply IH.
Qed.

Lemma reads_le_bind0 {A B} (m : prog C A) (h : A -> prog C B) k :
  reads_le 0 m -> (forall a, reads_le k (h a)) -> reads_le k (m ≫= h).
Proof. apply (reads_le_bind m h 0 k). Qed.

(** What a program may read bounds what is answered on its paths. *)
Lemma path_answers {A} (p : prog C A) tr q n :
  path p tr q -> reads_le n p -> (length (answers tr) <= n)%nat /\ reads_le (n - length (answers tr)) q.
Proof.
  intros H. revert n. induction H as [p|f e g g' evs p tr q Hc Hf _ IH|key k r tr q _ IH|fence key k ch tr q _ IH|ch k r tr q _ IH];
    intros n Hn; simpl in *.
  - split; [lia|]. by rewrite Nat.sub_0_r.
  - specialize (Hn e g). rewrite Hf in Hn. by apply IH.
  - destruct n as [|n]; [done|]. destruct (IH n (Hn r)). split; [lia|]. done.
  - by apply IH.
  - by apply IH.
Qed.
Lemma path_silent {A} (p : prog C A) tr q : path p tr q -> reads_le 0 p -> answers tr = [].
Proof. intros H H0. destruct (path_answers _ _ _ _ H H0) as [HL _]. apply nil_length_inv. lia. Qed.

(** Programs without source reads: one action, or a sequence of them. *)
Ltac no_reads :=
  repeat (try done; simplify_eq; first
    [ apply reads_le_bind0; [|intros]
    | progress intros
    | progress simpl
    | case_match ]); try done.

Lemma reads_acquireFrom fuel pc : reads_le 0 (acquireFrom fuel pc).
Proof.
  revert pc. induction fuel as [|fuel IH]; intros pc; [by destruct pc|].
  destruct pc; try done; (apply reads_le_bind0; [no_reads|intros; apply IH]).
Qed.

Lemma reads_lookup key : reads_le 0 (lookup key).
Proof. unfold lookup. no_reads. Qed.

Lemma reads_lookupAtLeast key m : reads_le 0 (lookupAtLeast key m).
Proof. apply reads_le_bind0; [apply reads_lookup|]. intros [[v hit] err]. no_reads. Qed.

Lemma reads_readSource key : reads_le 1 (readSource key).
Proof.
  apply reads_le_bind0; [no_reads|]. intros get [[value v] err]. cbn [reads_le].
  destruct (match get with VersionedGetter => _ | PlainGetter => _ end) as [ver err1].
  apply reads_le_bind0; [destruct err1; no_reads|intros]. no_reads.
Qed.

Lemma reads_loadHeld key fence : reads_le 1 (loadHeld key fence).
Proof. apply (reads_le_bind _ _ 1 0); [apply reads_readSource|]. intros [[value ver] [e|]]; [done|]. no_reads. Qed.

Lemma reads_loadSource key fence : reads_le 1 (loadSource key fence).
Proof.
  apply (reads_le_bind0 acquire); [apply reads_acquireFrom|]. intros err.
  apply reads_le_bind0; [case_bool; no_reads|intros _].
  apply reads_le_bind0; [no_reads|intros _]. destruct err; [done|].
  apply reads_le_bind0; [no_reads|intros err].
  apply (reads_le_bind _ _ 1 0); [|no_reads]. destruct err; [done|].
  apply reads_le_bind0; [no_reads|intros _]. apply (reads_le_bind _ _ 1 0); [apply reads_loadHeld|no_reads].
Qed.

(** The loop reads at most once more in its last round, whatever its fuel. *)
Lemma reads_attempts fuel attempt key fence :
  0 <= attempt <= 1 -> reads_le (Z.to_nat (2 - attempt)) (attempts fuel attempt key fence).
Proof.
  revert attempt fence. induction fuel as [|fuel IH]; intros attempt fence Ha; [done|]. cbn [attempts].
  replace (Z.to_nat (2 - attempt)) with (1 + Z.to_nat (1 - attempt))%nat by lia.
  apply reads_le_bind; [apply reads_loadSource|]. intros [loaded err].
  destruct (negb (IsErr err ErrStaleVersion) || (attempt =? 1)) eqn:E; [done|].
  apply orb_false_iff in E as [_ E]. reflect_bool.
  apply reads_le_bind0; [no_reads|]. intros werr. destruct (nonnil werr); [done|].
  apply reads_le_bind0; [no_reads|intros _]. apply reads_le_bind0; [no_reads|]. intros fresh.
  apply reads_le_bind0; [apply reads_lookupAtLeast|]. intros [[v hit] err2]. destruct (hit || nonnil err2); [done|].
  replace (1 - attempt) with (2 - (attempt + 1)) by lia. apply IH. lia.
Qed.

(** ** What makes an attempt stale *)

(** The version the read of the source counts with. *)
Definition answeredVersion (kind : Getter) (r : SourceReply) : Z :=
  match kind with VersionedGetter => r.1.2 | PlainGetter => 0 end.

(** The source said itself that its value is stale, or it answered without an
    error and under a version below [least] or below the floor that the group
    showed afterwards. *)
Definition stale_answer (key : string) (least : Z) (before : list passed) (r : SourceReply) (after : list passed) : Prop :=
  IsErr r.2 ErrStaleVersion = true \/
  r.2 = None /\ exists e0 g0 e g g' known,
    Acted e0 g0 ∈ before /\ Acted e g ∈ after /\ knownVersionLocked g key (now e 0) = Some (g', known) /\
    answeredVersion (getter g0) r < Z.max least known.

(** A path on which the source gave such an answer. *)
Definition stale_path (key : string) (least : Z) (tr : list passed) : Prop :=
  exists t1 r t2, tr = t1 ++ Answered r :: t2 /\ stale_answer key least t1 r t2.

Lemma stale_answer_grows key least t0 t1 r t2 t3 :
  stale_answer key least t1 r t2 -> stale_answer key least (t0 ++ t1) r (t2 ++ t3).
Proof.
  intros [?|(Hn & e0 & g0 & e & g & g' & known & H0 & H & Hk & Hlt)]; [by left|right]. split; [done|].
  exists e0, g0, e, g, g', known. rewrite !elem_of_app. auto.
Qed.
Lemma stale_path_before key least t0 tr : stale_path key least tr -> stale_path key least (t0 ++ tr).
Proof.
  intros (t1 & r & t2 & -> & H). exists (t0 ++ t1), r, (t2 ++ []). rewrite app_nil_r, <- app_assoc. split; [done|].
  rewrite <- (app_nil_r t2). by apply stale_answer_grows.
Qed.
Lemma stale_path_after key least t3 tr : stale_path key least tr -> stale_path key least (tr ++ t3).
Proof.
  intros (t1 & r & t2 & -> & H). exists ([] ++ t1), r, (t2 ++ t3). rewrite <- app_assoc. split; [done|].
  by apply stale_answer_grows.
Qed.

(** What an acquisition reports is the queue or the context, never staleness. *)
Definition pc_plain (pc : acquiring) : Prop :=
  match pc with Leaving err | Returned err => IsErr err ErrStaleVersion = false | _ => True end.

Lemma acquire_step_plain l pc done l' pc' :
  IsErr done ErrStaleVersion = false -> pc_plain pc -> acquire_step l pc done = Some (l', pc') -> pc_plain pc'.
Proof.
  intros Hd Hp. destruct pc as [| | |err|err]; simpl.
  - unfold acquire_try. destruct done; [by intros [= _ <-]|]. destruct (try_send _); by intros [= _ <-].
  - unfold acquire_queue. destruct (try_send _); by intros [= _ <-].
  - unfold acquire_wait. destruct done; [by intros [= _ <-]|]. destruct (try_send _); [|done]. by intros [= _ <-].
  - unfold acquire_leave. destruct (recv _); [|done]. by intros [= _ <-].
  - done.
Qed.

Lemma acquireFrom_plain fuel pc tr err :
  path (acquireFrom fuel pc) tr (Ret err) -> pc_plain pc -> IsErr err ErrStaleVersion = false.
Proof.
  revert pc tr. induction fuel as [|fuel IH]; intros pc tr Hp Hpc.
  { destruct pc; cbn [acquireFrom] in Hp; try (apply path_act_ret in Hp as (? & ? & ? & ? & ? & ? & _ & _ & ? & _); done).
    apply path_ret in Hp as [_ [= ->]]. done. }
  assert (forall pc0, pc_plain pc0 -> path (acquireStep pc0 ≫= acquireFrom fuel) tr (Ret err) -> IsErr err ErrStaleVersion = false) as Hstep.
  { intros pc0 Hpc0 H. apply path_bind_ret in H as (pc' & t1 & t2 & _ & H1 & H2). apply (IH pc' t2 H2).
    apply path_act_ret in H1 as (e & g & g' & evs & p & t & _ & He & Hf & Hp1).
    destruct (Limiter (opts g)); [|done]. destruct (acquire_step _ _ _) as [[l' pc1]|] eqn:E; [|done]. simplify_eq.
    apply path_ret in Hp1 as [_ [= ->]]. by eapply acquire_step_plain. }
  destruct pc; cbn [acquireFrom] in Hp; try (by apply (Hstep _ Hpc Hp)). by apply path_ret in Hp as [_ [= ->]].
Qed.

Lemma path_ctx_Err tr err : path ctx_Err tr (Ret err) -> IsErr err ErrStaleVersion = false.
Proof. intros (e & g & g' & evs & p & t & _ & He & [= <- <- <-] & Hp)%path_act_ret. by apply path_ret in Hp as [_ [= ->]]. Qed.

(** A read of the source: one answer; its error, if it is staleness, is the
    source's own. *)
Lemma readSource_path key tr value version err :
  path (readSource key) tr (Ret (value, version, err)) ->
  exists t1 r t2 e0 g0, tr = t1 ++ Answered r :: t2 /\ Acted e0 g0 ∈ t1 /\ version = answeredVersion (getter g0) r /\
    (err = None -> r.2 = None) /\ (IsErr err ErrStaleVersion = true -> IsErr r.2 ErrStaleVersion = true).
Proof.
  intros H. apply path_bind_ret in H as (kind & t1 & t2 & -> & H1 & H2).
  apply path_act_ret in H1 as (e0 & g0 & g' & evs & p & t & -> & _ & [= <- <- <-] & Hk). apply path_ret in Hk as [-> [= ->]].
  inversion H2 as [| |? ? r tr2 ? H3| |]; subst. clear H2. destruct r as [[value0 v0] err0].
  exists [Acted e0 g0], (value0, v0, err0), tr2, e0, g0. split; [done|]. split; [by left|].
  assert (exists err1, (match getter g0 with
      | VersionedGetter => (v0, match err0 with None => if v0 <=? 0 then Some (NewError "invalid source version") else None | e => e end)
      | PlainGetter => (0, err0) end) = (answeredVersion (getter g0) (value0, v0, err0), err1) /\
      (err1 = None -> err0 = None) /\ (IsErr err1 ErrStaleVersion = true -> IsErr err0 ErrStaleVersion = true)) as (err1 & E & Hn & Hs).
  { destruct (getter g0); eexists; (split; [reflexivity|]); [done|]. destruct err0; [done|]. by case_bool. }
  rewrite E in H3. apply path_bind_ret in H3 as (err2 & t3 & t4 & -> & H3 & H4).
  assert ((err2 = None -> err1 = None) /\ (IsErr err2 ErrStaleVersion = true -> IsErr err1 ErrStaleVersion = true)) as [Hn2 Hs2].
  { destruct err1; [by apply path_ret in H3 as [_ [= ->]]|]. split; [done|]. intros Hs2. apply path_ctx_Err in H3. congruence. }
  apply path_act_ret in H4 as (e & g & g' & evs & p & t & -> & _ & [= <- <- <-] & H4). apply path_ret in H4 as [-> [= -> -> ->]].
  split; [done|]. split.
  - destruct err2; [done|]. auto.
  - destruct err2; [auto|]. by case_bool.
Qed.

(** What [publish] decides, against the state it sees. *)
Lemma publish_path key fence view tr view' m stale valid :
  path (publish key fence view) tr (Ret (view', m, stale, valid)) ->
  exists e g g' known, Acted e g ∈ tr /\ knownVersionLocked g key (now e 0) = Some (g', known) /\
    m = Z.max (minimum fence) known /\ stale = (version view <? m).
Proof.
  intros (e & g & g1 & evs & p & t & -> & _ & Hf & Hp)%path_act_ret.
  destruct (knownVersionLocked g key (now e 0)) as [[g2 known]|] eqn:Ek; [|done].
  exists e, g, g2, known. split; [by left|]. split; [done|].
  destruct (currentEpoch g2 key) as [current|]; [|done].
  cbv zeta in Hf. destruct (_ && _); [destruct (st_add _ _ _ _ _ _) as [[c v]|]; [|done]|]; simplify_eq;
    apply path_ret in Hp as [_ Hp]; by injection Hp as _ <- <- _.
Qed.

Lemma loadHeld_stale key fence tr loaded err :
  path (loadHeld key fence) tr (Ret (loaded, err)) -> IsErr err ErrStaleVersion = true ->
  stale_path key (minimum fence) tr.
Proof.
  intros H Hs. apply path_bind_ret in H as ([[value0 version0] err0] & t1 & t2 & -> & H1 & H2).
  apply readSource_path in H1 as (t3 & r & t4 & e0 & g0 & -> & He0 & -> & Hn & Hst).
  exists t3, r, (t4 ++ t2). rewrite <- app_assoc. split; [done|].
  destruct err0 as [e|]; [apply path_ret in H2 as [_ [= _ ->]]; left; by apply Hst|].
  apply path_bind_ret in H2 as (err1 & t5 & t6 & -> & H2 & H3). apply path_ctx_Err in H2.
  destruct err1 as [e|]; [apply path_ret in H3 as [_ [= _ ->]]; simpl in *; congruence|].
  apply path_bind_ret in H3 as ([[[view m] stale] valid] & t7 & t8 & -> & H3 & H4).
  apply publish_path in H3 as (e & g & g' & known & Hin & Hk & -> & ->). cbn [version] in H4.
  destruct (_ <? _) eqn:E; reflect_bool.
  - right. split; [by apply Hn|]. exists e0, g0, e, g, g', known. rewrite !elem_of_app. auto 10.
  - apply path_bind_ret in H4 as (? & t9 & t10 & -> & _ & H4). apply path_ret in H4 as [_ [= _ ->]]. done.
Qed.

Lemma loadSource_stale key fence tr loaded err :
  path (loadSource key fence) tr (Ret (loaded, err)) -> IsErr err ErrStaleVersion = true ->
  stale_path key (minimum fence) tr.
Proof.
  intros H Hs. apply path_bind_ret in H as (err0 & t1 & t2 & -> & H1 & H2).
  apply acquireFrom_plain in H1; [|done].
  apply path_bind_ret in H2 as (u & t3 & t4 & -> & _ & H2). apply path_bind_ret in H2 as (u' & t5 & t6 & -> & _ & H2).
  destruct err0 as [e|]; [apply path_ret in H2 as [_ [= _ ->]]; simpl in *; congruence|].
  apply path_bind_ret in H2 as (err1 & t7 & t8 & -> & H2 & H3). apply path_ctx_Err in H2.
  apply path_bind_ret in H3 as (res & t9 & t10 & -> & H3 & H4).
  apply path_bind_ret in H4 as (u2 & t11 & t12 & -> & _ & H4). apply path_ret in H4 as [_ [= <-]].
  destruct err1 as [e|]; [apply path_ret in H3 as [_ [= _ ->]]; simpl in *; congruence|].
  apply path_bind_ret in H3 as (u3 & t13 & t14 & -> & _ & H3). apply path_bind_ret in H3 as (res & t15 & t16 & -> & H3 & H5).
  apply path_bind_ret in H5 as (u4 & t17 & t18 & -> & _ & H5). apply path_ret in H5 as [_ [= <-]].
  pose proof (loadHeld_stale _ _ _ _ _ H3 Hs) as Hst. do 4 apply stale_path_before.
  by apply stale_path_after, stale_path_before, stale_path_after.
Qed.

Lemma answers_first tr r l : answers tr = r :: l -> exists u v, tr = u ++ Answered r :: v.
Proof.
  induction tr as [|[e g|r0] tr IH]; simpl; [done| |].
  - intros H. destruct (IH H) as (u & v & ->). by exists (Acted e g :: u), v.
  - intros [= -> _]. by exists [], tr.
Qed.

(** A second answer in the loop comes after a stale one. *)
Lemma attempts_second fuel key fence tr r1 r2 q :
  path (attempts fuel 0 key fence) tr q -> answers tr = [r1; r2] ->
  exists t1 t2 t3, tr = t1 ++ Answered r1 :: t2 ++ Answered r2 :: t3 /\ stale_answer key (minimum fence) t1 r1 t2.
Proof.
  destruct fuel as [|fuel]; [intros H; inversion H; subst; [done|]; simplify_eq|]. cbn [attempts]. intros H Ha.
  assert (forall m t, path (loadSource key fence) t m -> (length (answers t) <= 1)%nat) as Hone
    by (intros m t Hp; by apply (path_answers _ _ _ 1 Hp (reads_loadSource key fence))).
  apply path_bind in H as [(m & Hp & _)|([loaded err] & tl & tr2 & -> & Hp & H)].
  { apply Hone in Hp. rewrite Ha in Hp. simpl in Hp. lia. }
  pose proof (Hone _ _ Hp) as HL. rewrite answers_app in Ha.
  destruct (IsErr err ErrStaleVersion) eqn:Es; cbn [negb orb] in H.
  - apply loadSource_stale in Hp as (t1 & r & t2 & -> & Hst); [|done].
    rewrite !answers_app, !length_app in HL. rewrite !answers_app in Ha. simpl in HL, Ha.
    assert (answers t1 = []) as E1 by (apply nil_length_inv; lia). assert (answers t2 = []) as E2 by (apply nil_length_inv; lia).
    rewrite E1, E2 in Ha. simpl in Ha. injection Ha as -> Ha. apply answers_first in Ha as (u & v & ->).
    exists t1, (t2 ++ u), v. split; [by rewrite <- !app_assoc|]. by apply (stale_answer_grows key _ [] t1).
  - apply path_ret in H as [-> _]. rewrite app_nil_r in Ha. rewrite Ha in HL. simpl in HL. lia.
Qed.

(** C40: a flight reads the source at most twice, whatever it meets on its way -
    any states of the group, any clocks and contexts, any answers - and however
    many rounds its retry loop is allowed to take: the bound is the loop's own.
    It reads a second time only after a stale answer: the first one carried no
    error and a version below the floor the flight started from or below the
    floor the group showed between the two reads (or the source itself called
    it stale). A caller of [Get] never reads the source outside a flight. *)
Theorem flight_reads_bounded fence key :
  (forall rounds tr q, path (attempts rounds 0 key fence) tr q -> (length (answers tr) <= 2)%nat) /\
  (forall tr q, path (flight fence key) tr q ->
     (length (answers tr) <= 2)%nat /\
     forall r1 r2, answers tr = [r1; r2] ->
       exists t1 t2 t3, tr = t1 ++ Answered r1 :: t2 ++ Answered r2 :: t3 /\ stale_answer key (minimum fence) t1 r1 t2) /\
  (forall tr q, path (Get key) tr q -> answers tr = []).
Proof.
  assert (forall rounds, reads_le 2 (attempts rounds 0 key fence)) as Hatt by (intros rounds; by apply (reads_attempts rounds 0)).
  split; [|split].
  - intros rounds tr q Hp. by apply (path_answers _ _ _ 2 Hp).
  - intros tr q H. split.
    + apply (path_answers _ _ _ 2 H). apply reads_le_bind0; [apply reads_lookupAtLeast|]. intros [[v hit] err]. by case_bool.
    + intros r1 r2 Ha. apply path_bind in H as [(m & Hp & _)|([[v hit] err] & tl & tr2 & -> & Hp & H)];
        apply path_silent in Hp; try apply reads_lookupAtLeast; [congruence|]. rewrite answers_app, Hp in Ha.
      destruct (hit || nonnil err); [apply path_ret in H as [-> _]; done|].
      destruct (attempts_second _ _ _ _ _ _ _ H Ha) as (t1 & t2 & t3 & -> & Hst). exists (tl ++ t1), t2, t3.
      split; [by rewrite <- app_assoc|]. rewrite <- (app_nil_r t2). by apply stale_answer_grows.
  - intros tr q H. apply (path_silent _ _ _ H). apply reads_le_bind0; [apply reads_lookup|]. intros [[v hit] err]. no_reads.
Qed.
End Paths.

(** ** A flight that reads twice *)
Section Follow.
Context {C : Type} `{!Store C}.

(** The path of a program that runs alone under one clock and context. *)
Fixpoint follow {A} (fuel : nat) (p : prog C A) (e : env) (g : Group C) (rs : list SourceReply)
    : list (passed (C := C)) * prog C A :=
  match fuel with
  | O => ([], p)
  | S n =>
      match p with
      | Act f => match f e g with
                 | Next g' _ p' => let x := follow n p' e g' rs in (Acted e g :: x.1, x.2)
                 | _ => ([], p)
                 end
      | Source _ k => match rs with r :: rs' => let x := follow n (k r) e g rs' in (Answered r :: x.1, x.2) | [] => ([], p) end
      | _ => ([], p)
      end
  end.

Lemma follow_path {A} fuel (p : prog C A) e g rs :
  ends_plainly e -> path p (follow fuel p e g rs).1 (follow fuel p e g rs).2.
Proof.
  intros He. revert p g rs. induction fuel as [|fuel IH]; intros p g rs; [constructor|]. cbn [follow].
  destruct p as [a|f|key k|fence key k|ch k]; try constructor.
  - destruct (f e g) as [g' evs p'| |] eqn:E; try constructor. cbn [fst snd]. by eapply path_act.
  - destruct rs as [|r rs]; constructor. apply IH.
Qed.
Lemma followed {A} fuel (p : prog C A) e g rs tr q :
  ends_plainly e -> follow fuel p e g rs = (tr, q) -> path p tr q.
Proof. intros He E. pose proof (follow_path fuel p e g rs He) as H. by rewrite E in H. Qed.
End Follow.

Definition quiet : env := mkEnv (fun _ => 100) None.
Definition old_reply : SourceReply := ([Byte.x61], 3, None).
Definition new_reply : SourceReply := ([Byte.x62], 7, None).

(** The floor of "k" is 7; the source answers with version 3 first. *)
Definition twice (g : Group cache) := follow 60 (flight (mkFence 0 0) "k") quiet g [old_reply; new_reply].
(** The answers met, and the version returned. *)
Definition outline (x : list (passed (C := cache)) * prog cache Reply) : list SourceReply * option Z :=
  (answers x.1, match x.2 with Ret (v, None) => Some (version v) | _ => None end).
Lemma outline_answers x l v : Some (outline x) = Some (l, v) -> answers x.1 = l.
Proof. by intros [= ? _]. Qed.

Example twice_reads :
  match InvalidateVersion sample_group "k" 7 1 2 with Some (g, _, None) => Some (outline (twice g)) | _ => None end =
  Some ([old_reply; new_reply], Some 7).
Proof. vm_compute. reflexivity. Qed.

Lemma flight_reads_bounded_witness :
  exists tr q, path (flight (mkFence 0 0) "k") tr q /\ answers tr = [old_reply; new_reply] /\
    exists t1 t2 t3, tr = t1 ++ Answered old_reply :: t2 ++ Answered new_reply :: t3 /\ stale_answer "k" 0 t1 old_reply t2.
Proof.
  destruct (InvalidateVersion_ok sample_group "k" 7 1 2 sample_group_gwf eq_refl ltac:(lia)) as (g & evs & E & _).
  pose proof twice_reads as H. rewrite E in H. apply outline_answers in H.
  assert (path (flight (mkFence 0 0) "k") (twice g).1 (twice g).2) as Hp by (apply follow_path; reflexivity).
  exists (twice g).1, (twice g).2. split; [exact Hp|]. split; [exact H|].
  destruct (flight_reads_bounded (mkFence 0 0) "k") as (_ & H2 & _).
  destruct (H2 (twice g).1 (twice g).2 Hp) as [_ H3]. apply H3. exact H.
Defined.
