(* ===== verification/Directory.v ===== *)
(** * The member directory ([internal/cluster/directory.go])

    The directory holds one immutable snapshot, replaced atomically. [Update]
    runs under [updateMu] and stores its result in one step, so it is a
    function of the directory; the shared HTTP client carries no state the
    directory's behaviour depends on and is left out of [Client]. *)
From S2P Require Import Prelude GoStrings Errors.

Record Member := mkMember { ID : string; Address : string }.

#[export] Instance Member_eq_dec : EqDecision Member.
Proof. solve_decision. Defined.

Record Client := mkClient { address : string; c_timeout : Duration; c_token : string }.
Record snapshot := mkSnapshot { clients : gmap string Client; members : list Member }.
Record Directory := mkDirectory {
  selfID : string;
  timeout : Duration;
  token : string;
  state : option snapshot;
}.

Definition validAddress (address : string) : bool :=
  if contains_byte "/" address || contains_byte "?" address || contains_byte "#" address then false
  else match SplitHostPort address with
       | None => false
       | Some (host, port) =>
           match ParseInt port with
           | None => false
           | Some number => negb (bool_decide (host = "")) && (0 <? number) && (number <=? 65535)
           end
       end.

Fixpoint sameMembers_go (a b : list Member) : bool :=
  match a, b with
  | x :: a', y :: b' => if decide (x = y) then sameMembers_go a' b' else false
  | _, _ => true
  end.
Definition sameMembers (a b : list Member) : bool :=
  if (length a =? length b)%nat then sameMembers_go a b else false.

(** The order [Update] sorts by: ID, then address. *)
Definition member_le (a b : Member) : Prop :=
  if decide (ID a = ID b) then String.le (Address a) (Address b) else String.le (ID a) (ID b).
#[export] Instance member_le_dec : RelDecision member_le.
Proof. intros a b. unfold member_le. case_decide; apply _. Defined.

(** [sort.Slice] by that order. Equal members are indistinguishable, so every
    correct sort gives this list. *)
Definition sorted_members (ms : list Member) : list Member := merge_sort member_le ms.

(** The loop over the sorted members; [acc] is [normalized]. *)
Fixpoint normalize (ms : list Member) (acc : list Member) : list Member + Member :=
  match ms with
  | [] => inl acc
  | m :: ms' =>
      if bool_decide (ID m = "") || negb (validAddress (Address m)) then inr m
      else match last acc with
           | Some prev => if decide (ID prev = ID m) then normalize ms' acc else normalize ms' (acc ++ [m])
           | None => normalize ms' (acc ++ [m])
           end
  end.

Definition client_of (d : Directory) (m : Member) : Client := mkClient (Address m) (timeout d) (token d).

Definition build_clients (d : Directory) (ms : list Member) : gmap string Client :=
  foldl (fun c m => <[ID m := client_of d m]> c) ∅ ms.

Definition set_state (d : Directory) (s : snapshot) : Directory :=
  mkDirectory (selfID d) (timeout d) (token d) (Some s).

(** The message quotes the member; only its kind matters here. *)
Definition Update (d : Directory) (input : list Member) : Directory * option error :=
  match normalize (sorted_members input) [] with
  | inr m => (d, Some (NewError ("invalid member " +:+ ID m +:+ ": " +:+ Address m)))
  | inl normalized =>
      if match state d with Some previous => sameMembers (members previous) normalized | None => false end
      then (d, None)
      else (set_state d (mkSnapshot (build_clients d normalized) normalized), None)
  end.

(** [None] is the panic. *)
Definition NewDirectory (selfID : string) (timeout : Duration) (token : string) : option Directory :=
  if bool_decide (selfID = "") || (timeout <=? 0) then None
  else Some (Update (mkDirectory selfID timeout token None) []).1.

(** [None] dereferences a nil snapshot. *)
Definition Members (d : Directory) : option (list Member) := s ← state d; Some (members s).

(** ** Specification *)
Definition valid_member (m : Member) : bool := negb (bool_decide (ID m = "")) && validAddress (Address m).

Definition id_lt (a b : Member) : Prop := String.le (ID a) (ID b) /\ ID a <> ID b.

(** The directory's contract on its members: IDs strictly increase, all are
    valid, and the client of an ID is the one of its member. *)
Definition dir_ok (d : Directory) : Prop :=
  forall s, state d = Some s ->
    StronglySorted id_lt (members s) /\
    (forall m, m ∈ members s -> valid_member m = true /\ clients s !! ID m = Some (client_of d m)) /\
    (forall id c, clients s !! id = Some c -> exists m, m ∈ members s /\ ID m = id).

(** [m] is listed for its ID: the first by address among the input's. *)
Definition chosen (input : list Member) (m : Member) : Prop :=
  m ∈ input /\ forall m', m' ∈ input -> ID m' = ID m -> String.le (Address m) (Address m').

#[export] Instance member_le_total : Total member_le.
Proof.
  intros a b. unfold member_le. repeat case_decide; try congruence; apply (total String.le).
Qed.

#[export] Instance member_le_antisymm : AntiSymm (=) member_le.
Proof.
  intros [i1 a1] [i2 a2]. unfold member_le. simpl. repeat case_decide; try congruence; intros Ha Hb.
  - subst. f_equal. by apply (anti_symm String.le).
  - exfalso. match goal with Hne : _ <> _ |- _ => apply Hne end. by apply (anti_symm String.le).
Qed.

#[export] Instance member_le_trans : Transitive member_le.
Proof.
  intros [i1 a1] [i2 a2] [i3 a3]. unfold member_le. simpl.
  repeat case_decide; try congruence; intros Ha Hb; subst; auto; try (by etransitivity).
  exfalso. match goal with Hne : _ <> _ |- _ => apply Hne end. by apply (anti_symm String.le).
Qed.

Lemma sameMembers_go_eq a b : length a = length b -> sameMembers_go a b = true -> a = b.
Proof.
  revert b. induction a as [|x a IH]; intros [|y b]; simpl; try done.
  intros [= HL]. case_decide; [|done]. intros Hgo. f_equal; auto.
Qed.

Lemma sameMembers_eq a b : sameMembers a b = true -> a = b.
Proof.
  unfold sameMembers. destruct (length a =? length b)%nat eqn:E; [|done].
  apply Nat.eqb_eq in E. by apply sameMembers_go_eq.
Qed.

(** The sorted list is the same for every order of the input. *)
Lemma sorted_members_perm ms ms' : ms ≡ₚ ms' -> sorted_members ms = sorted_members ms'.
Proof.
  intros H. apply (Sorted_unique member_le); try apply (Sorted_merge_sort member_le).
  unfold sorted_members. by rewrite !(merge_sort_Permutation member_le).
Qed.

Lemma elem_of_sorted m ms : m ∈ sorted_members ms <-> m ∈ ms.
Proof. unfold sorted_members. by rewrite (merge_sort_Permutation member_le). Qed.

Lemma member_le_id a b : member_le a b -> String.le (ID a) (ID b).
Proof. unfold member_le. case_decide as E; [|done]. by rewrite E. Qed.

Lemma id_lt_neq l a b : StronglySorted id_lt l -> a ∈ l -> b ∈ l -> ID a = ID b -> a = b.
Proof.
  intros Hs. induction Hs as [|x l Hs IH Hx]; [set_solver|]. rewrite Forall_forall in Hx.
  rewrite !elem_of_cons. intros [->|Ha] [->|Hb] E; auto.
  - destruct (Hx b Hb) as [_ Hn]. done.
  - destruct (Hx a Ha) as [_ Hn]. congruence.
Qed.

Lemma StronglySorted_snoc {A} (R : A -> A -> Prop) l x :
  StronglySorted R l -> (forall y, y ∈ l -> R y x) -> StronglySorted R (l ++ [x]).
Proof.
  intros Hs. induction Hs as [|y l Hs IH Hy]; intros Hx; simpl; [repeat constructor|].
  constructor; [apply IH; set_solver|]. apply Forall_app. split; [done|].
  constructor; [apply Hx; set_solver|constructor].
Qed.

Lemma invalid_member m : bool_decide (ID m = "") || negb (validAddress (Address m)) = negb (valid_member m).
Proof. unfold valid_member. by rewrite negb_andb, negb_involutive. Qed.

(** What the loop computes from a sorted suffix [ms] and what it collected. *)
Definition norm_post (ms acc : list Member) (res : list Member + Member) : Prop :=
  match res with
  | inl r =>
      (forall m, m ∈ ms -> valid_member m = true) /\ StronglySorted id_lt r /\
      (forall x, x ∈ acc -> x ∈ r) /\ (forall x, x ∈ r -> x ∈ acc \/ x ∈ ms) /\
      (forall m, m ∈ ms -> exists x, x ∈ r /\ ID x = ID m /\ String.le (Address x) (Address m))
  | inr m => m ∈ ms /\ valid_member m = false
  end.

Lemma normalize_ok ms acc :
  StronglySorted member_le ms -> StronglySorted id_lt acc ->
  (forall x m, x ∈ acc -> m ∈ ms -> member_le x m) ->
  norm_post ms acc (normalize ms acc).
Proof.
  unfold norm_post. revert acc. induction ms as [|m ms IH]; intros acc Hms Hacc Hle; simpl.
  { split_and!; [set_solver|done|done|by left|set_solver]. }
  rewrite invalid_member. destruct (valid_member m) eqn:Hv; simpl; [|split; [set_solver|done]].
  inversion Hms as [|m0 ms0 Hms' Hm]; subst. rewrite Forall_forall in Hm.
  (* the element is skipped: the accumulator already has its ID *)
  assert (forall prev, prev ∈ acc -> ID prev = ID m ->
    norm_post (m :: ms) acc (normalize ms acc)) as Hskip.
  { unfold norm_post. intros prev Hp Ep. specialize (IH acc Hms' Hacc ltac:(set_solver)).
    destruct (normalize ms acc) as [r|x]; [|set_solver].
    destruct IH as (H1 & H2 & H3 & H4 & H5). split_and!; auto.
    - intros x [->|Hx]%elem_of_cons; auto.
    - set_solver.
    - intros x [->|Hx]%elem_of_cons; [|auto]. exists prev. split; [auto|]. split; [done|].
      pose proof (Hle prev m Hp ltac:(set_solver)) as Hpm. unfold member_le in Hpm. by case_decide. }
  (* the element is appended: it comes after everything collected *)
  assert ((forall x, x ∈ acc -> ID x <> ID m) ->
    norm_post (m :: ms) acc (normalize ms (acc ++ [m]))) as Hadd.
  { unfold norm_post. intros Hne. specialize (IH (acc ++ [m]) Hms').
    destruct (normalize ms (acc ++ [m])) as [r|x]; [|destruct IH; [|set_solver..]].
    2: { apply StronglySorted_snoc; [done|]. intros y Hy. split; [|auto]. apply member_le_id. set_solver. }
    destruct IH as (H1 & H2 & H3 & H4 & H5).
    - apply StronglySorted_snoc; [done|]. intros y Hy. split; [|auto]. apply member_le_id. set_solver.
    - set_solver.
    - split_and!; auto; [set_solver..|].
      intros x [->|Hx]%elem_of_cons; [|auto]. exists m. split; [set_solver|]. split; [done|]. reflexivity. }
  destruct (last acc) as [prev|] eqn:El.
  - case_decide as Ed; [by eapply Hskip; [eapply last_Some_elem_of|]|].
    apply Hadd. intros x Hx Exm. apply Ed.
    apply last_Some in El as [l ->]. apply elem_of_app in Hx as [Hx| ->%list_elem_of_singleton]; [|done].
    assert (id_lt x prev) as [Hxp Hnp].
    { clear -Hacc Hx. induction l as [|y l IH]; [set_solver|]. inversion Hacc as [|? ? Hs Hf]; subst.
      rewrite Forall_forall in Hf. apply elem_of_cons in Hx as [->|Hx]; [apply Hf; set_solver|auto]. }
    apply (anti_symm String.le).
    + apply member_le_id. set_solver.
    + by rewrite <- Exm.
  - apply last_None in El as ->. apply Hadd. set_solver.
Qed.

Lemma build_clients_lookup d ms id :
  build_clients d ms !! id = client_of d <$> last (filter (fun m => ID m = id) ms).
Proof.
  unfold build_clients. induction ms as [|m ms IH] using rev_ind; [done|].
  rewrite foldl_app, list.filter_app. simpl. destruct (decide (ID m = id)) as [<-|Hne].
  - rewrite lookup_insert_eq, list.filter_cons_True, filter_nil by done. by rewrite last_snoc.
  - rewrite lookup_insert_ne, list.filter_cons_False, filter_nil by done. by rewrite app_nil_r.
Qed.

Lemma build_clients_member d ms m :
  StronglySorted id_lt ms -> m ∈ ms -> build_clients d ms !! ID m = Some (client_of d m).
Proof.
  intros Hs Hm. rewrite build_clients_lookup. destruct (last (filter _ ms)) as [m'|] eqn:E.
  - apply last_Some_elem_of, list_elem_of_filter in E as [E Hm']. simpl.
    by rewrite (id_lt_neq ms m' m).
  - apply last_None in E. assert (m ∈ filter (fun x => ID x = ID m) ms) by by apply list_elem_of_filter.
    rewrite E in *. set_solver.
Qed.

Lemma build_clients_inv d ms id c :
  build_clients d ms !! id = Some c -> exists m, m ∈ ms /\ ID m = id.
Proof.
  rewrite build_clients_lookup. destruct (last (filter _ ms)) as [m'|] eqn:E; [|done].
  apply last_Some_elem_of, list_elem_of_filter in E as [E Hm']. eauto.
Qed.

Lemma Update_ok d input :
  dir_ok d ->
  dir_ok (Update d input).1 /\
  ((Update d input).2 = None <-> forall m, m ∈ input -> valid_member m = true) /\
  ((Update d input).2 <> None -> (Update d input).1 = d) /\
  ((Update d input).2 = None -> exists s, state (Update d input).1 = Some s /\
     forall m, m ∈ members s <-> chosen input m).
Proof.
  intros Hd. unfold Update.
  pose proof (normalize_ok (sorted_members input) []) as HN.
  specialize (HN (StronglySorted_merge_sort member_le input) ltac:(constructor) ltac:(set_solver)).
  unfold norm_post in HN. destruct (normalize (sorted_members input) []) as [r|m].
  2: { destruct HN as [Hm Hv]. rewrite elem_of_sorted in Hm. simpl. split; [done|].
       split; [|by split]. split; [done|]. intros H. by rewrite (H m Hm) in Hv. }
  destruct HN as (H1 & H2 & _ & H4 & H5).
  assert (forall m, m ∈ r -> m ∈ input) as Hin.
  { intros m Hm. destruct (H4 m Hm) as [?|Hs]; [set_solver|by rewrite elem_of_sorted in Hs]. }
  assert (forall m, m ∈ input -> valid_member m = true) as Hval
    by (intros m Hm; apply H1; by apply elem_of_sorted).
  assert (forall m, m ∈ r <-> chosen input m) as Hch.
  { intros m. split.
    - intros Hm. split; [auto|]. intros m' Hm' E.
      destruct (H5 m' (proj2 (elem_of_sorted m' input) Hm')) as (x & Hx & Ex & Hle). by rewrite (id_lt_neq r m x) by congruence.
    - intros [Hm Hmin]. destruct (H5 m (proj2 (elem_of_sorted m input) Hm)) as (x & Hx & Ex & Hle).
      pose proof (Hmin x (Hin x Hx) Ex). destruct m, x. simpl in *. subst.
      assert (Address0 = Address1) as -> by by apply (anti_symm String.le). done. }
  case_bool; simpl; (split; [|split; [done|split; [done|intros _]]]).
  - done.
  - destruct (state d) as [prev|]; [|done]. apply sameMembers_eq in Heqb. subst r. eauto.
  - intros s [= <-]. simpl. split; [done|]. split; [|intros id c; apply build_clients_inv].
    intros m Hm. split; [auto|]. exact (build_clients_member d r m H2 Hm).
  - eauto.
Qed.

(** [Update] rejects an input exactly when it has a member without an ID or
    with a malformed address, and then keeps the snapshot it had. Otherwise the
    directory lists, for every ID of the input, its member with the least
    address, in strictly increasing ID order, each with the client that dials
    that address, and nothing else; these properties are an invariant. *)
Theorem Update_contract d input :
  dir_ok d ->
  dir_ok (Update d input).1 /\
  ((Update d input).2 = None <-> forall m, m ∈ input -> valid_member m = true) /\
  ((Update d input).2 <> None -> (Update d input).1 = d) /\
  ((Update d input).2 = None -> exists s, state (Update d input).1 = Some s /\
     forall m, m ∈ members s <-> chosen input m).
Proof. apply Update_ok. Qed.

(** The outcome of [Update] does not depend on the order in which discovery
    lists the members. *)
Theorem Update_order_independent d input input' :
  input ≡ₚ input' -> Update d input = Update d input'.
Proof. intros H. unfold Update. by rewrite (sorted_members_perm input input' H). Qed.

(** A new directory exists exactly for a named node with a positive
    timeout, satisfies the contract, and lists nobody. *)
Theorem NewDirectory_empty id t tok :
  (is_Some (NewDirectory id t tok) <-> id <> "" /\ 0 < t) /\
  forall d, NewDirectory id t tok = Some d ->
    dir_ok d /\ Members d = Some [] /\ selfID d = id /\ timeout d = t /\ token d = tok.
Proof.
  unfold NewDirectory. destruct (bool_decide (id = "") || (t <=? 0)) eqn:E.
  - split; [|done]. split; [by intros []|]. intros [H1 H2].
    apply orb_true_iff in E as [E|E]; reflect_bool; [done|lia].
  - reflect_bool. split; [split; [intros _; split; [done|lia]|eauto]|].
    intros d [= <-]. split; [|done]. intros s [= <-]. simpl. split; [constructor|]. set_solver.
Qed.

Definition sample_directory : Directory := mkDirectory "a" 1000 "t" None.
Definition sample_input : list Member :=
  [mkMember "b" "10.0.0.2:80"; mkMember "a" "10.0.0.9:80"; mkMember "b" "10.0.0.1:80"].

Example sample_update :
  Members (Update sample_directory sample_input).1 = Some [mkMember "a" "10.0.0.9:80"; mkMember "b" "10.0.0.1:80"].
Proof. vm_compute. reflexivity. Qed.

Lemma Update_contract_witness :
  dir_ok sample_directory /\ dir_ok (Update sample_directory sample_input).1.
Proof.
  assert (dir_ok sample_directory) as H by done. split; [exact H|].
  apply (Update_contract sample_directory sample_input H).
Defined.

Lemma Update_order_independent_witness :
  Update sample_directory [mkMember "b" "h:1"; mkMember "a" "h:2"]
  = Update sample_directory [mkMember "a" "h:2"; mkMember "b" "h:1"].
Proof. apply (Update_order_independent sample_directory). constructor. Defined.
