(* ===== verification/Discovery.v ===== *)
(** * Discovery of the other members ([internal/discovery/endpoints.go])

    The informer is a library. What is used of it: its store holds the current
    objects, and after every change of the store an event handler runs, which
    is here [signal]. The watcher's goroutine is a step relation over its
    program points, so store changes, handler calls and rebuilds interleave
    freely. The fields of the Kubernetes objects are those the code reads. *)
From S2P Require Import Prelude GoStrings NetAddr Errors Directory.

Record EndpointPort := mkPort {
  p_Name : option string;
  p_Port : option Z;                     (* int32 *)
  p_Protocol : option string;
}.
Record ObjectReference := mkRef { ref_Kind : string; ref_Name : string; ref_Namespace : string }.
Record Endpoint := mkEndpoint {
  e_Addresses : list string;
  e_Ready : option bool;
  e_Terminating : option bool;
  e_TargetRef : option ObjectReference;
}.
Record EndpointSlice := mkSlice {
  s_Namespace : string;
  s_AddressType : string;
  s_Ports : list EndpointPort;
  s_Endpoints : list Endpoint;
}.

(** ** [Members] *)

(** The loop over the ports; zero when none matches. *)
Fixpoint clusterPort (ports : list EndpointPort) : Z :=
  match ports with
  | [] => 0
  | p :: ports' =>
      match p_Port p with
      | Some number =>
          if bool_decide (p_Name p = Some "cluster") &&
             match p_Protocol p with None => true | Some proto => String.eqb proto "TCP" end
          then number else clusterPort ports'
      | None => clusterPort ports'
      end
  end.

(** The Pod an endpoint stands for, unless the endpoint is skipped. *)
Definition endpointPod (s : EndpointSlice) (e : Endpoint) : option (string * string) :=
  if match e_Ready e with Some false => true | _ => false end then None
  else if match e_Terminating e with Some true => true | _ => false end then None
  else
    ref ← e_TargetRef e;
    if negb (String.eqb (ref_Kind ref) "Pod") || String.eqb (ref_Name ref) "" then None
    else
      let ns := if String.eqb (ref_Namespace ref) "" then s_Namespace s else ref_Namespace ref in
      if String.eqb ns "" || negb (String.eqb ns (s_Namespace s)) then None
      else Some (ns, ref_Name ref).

Definition addressMember (ns pod : string) (port : Z) (address : string) : option Member :=
  v4 ← ParseIP address ≫= To4;
  Some (mkMember (ns +:+ "/" +:+ pod) (JoinHostPort (IPv4String v4) (FormatInt port))).

Definition endpointMembers (s : EndpointSlice) (port : Z) (e : Endpoint) : list Member :=
  match endpointPod s e with
  | None => []
  | Some (ns, pod) => omap (addressMember ns pod port) (e_Addresses e)
  end.

Definition sliceMembers (s : EndpointSlice) : list Member :=
  if negb (String.eqb (s_AddressType s) "IPv4") then []
  else
    let port := clusterPort (s_Ports s) in
    if (port <? 1) || (65535 <? port) then []
    else mjoin (endpointMembers s port <$> s_Endpoints s).

Definition SliceMembers (slices : list EndpointSlice) : list Member := mjoin (sliceMembers <$> slices).

(** ** The watcher *)

(** An object of the informer's store. *)
Inductive object := SliceObject (s : EndpointSlice) | OtherObject.

Definition slices_of (store : list object) : list EndpointSlice :=
  omap (fun o => match o with SliceObject s => Some s | OtherObject => None end) store.

(** Where the goroutine of [Run] is: waiting for the first sync, at the
    [select], before and after listing the store in [rebuild], or gone. *)
Inductive phase := Syncing | Selecting | Listing | Listed (slices : list EndpointSlice) | Returned.

Record Watcher := mkWatcher {
  w_store : list object;
  w_unhandled : nat;                     (* store changes whose handler has not run yet *)
  w_changes : bool;                      (* the one-place channel is full *)
  w_phase : phase;
  w_ready : bool;
  w_router : Directory;
  w_reports : list (Z * bool);           (* calls of Report: count, changed *)
}.

(** The event handler: a non-blocking send on the channel. *)
Definition signal (w : Watcher) : Watcher :=
  mkWatcher (w_store w) (pred (w_unhandled w)) true (w_phase w) (w_ready w) (w_router w) (w_reports w).

Definition Ready (w : Watcher) : bool := w_ready w.

(** [rebuild] after the store has been listed; [None] is a nil snapshot. *)
Definition rebuild (w : Watcher) (slices : list EndpointSlice) : option (Watcher * bool) :=
  before ← Members (w_router w);
  match Update (w_router w) (SliceMembers slices) with
  | (router, Some _) =>
      Some (mkWatcher (w_store w) (w_unhandled w) (w_changes w) (w_phase w) (w_ready w) router (w_reports w), false)
  | (router, None) =>
      after ← Members router;
      Some (mkWatcher (w_store w) (w_unhandled w) (w_changes w) (w_phase w) (w_ready w) router
              (w_reports w ++ [(Z.of_nat (length after), negb (bool_decide (before = after)))]), true)
  end.

Definition set_phase (w : Watcher) (p : phase) : Watcher :=
  mkWatcher (w_store w) (w_unhandled w) (w_changes w) p (w_ready w) (w_router w) (w_reports w).
Definition set_ready (w : Watcher) (b : bool) : Watcher :=
  mkWatcher (w_store w) (w_unhandled w) (w_changes w) (w_phase w) b (w_router w) (w_reports w).

Inductive watch_step : Watcher -> Watcher -> Prop :=
| ws_change w store' :                   (* the informer changes its store *)
    watch_step w (mkWatcher store' (S (w_unhandled w)) (w_changes w) (w_phase w) (w_ready w) (w_router w) (w_reports w))
| ws_handle w : (0 < w_unhandled w)%nat -> watch_step w (signal w)
| ws_synced w : w_phase w = Syncing -> watch_step w (set_phase w Listing)
| ws_unsynced w : w_phase w = Syncing -> watch_step w (set_phase w Returned)
| ws_list w : w_phase w = Listing -> watch_step w (set_phase w (Listed (slices_of (w_store w))))
| ws_publish w slices w' ok :
    w_phase w = Listed slices -> rebuild w slices = Some (w', ok) ->
    watch_step w (set_phase (if ok then set_ready w' true else w') Selecting)
| ws_receive w :
    w_phase w = Selecting -> w_changes w = true ->
    watch_step w (mkWatcher (w_store w) (w_unhandled w) false Listing (w_ready w) (w_router w) (w_reports w))
| ws_done w : w_phase w = Selecting -> watch_step w (set_ready (set_phase w Returned) false).

(** [New] over a directory, before the informer has delivered anything. *)
Definition newWatcher (router : Directory) : Watcher := mkWatcher [] 0 false Syncing false router [].

(** ** Lemmas *)
Lemma addressMember_valid ns pod port address m :
  1 <= port <= 65535 -> addressMember ns pod port address = Some m -> valid_member m = true.
Proof.
  intros Hp. unfold addressMember. intros (v4 & (ip & Hip & H4)%bind_Some & [= <-])%bind_Some.
  apply ParseIP_length in Hip. pose proof (To4_length ip v4 Hip H4) as Hl.
  pose proof (numeric_IPv4String v4) as Hn. pose proof (numeric_FormatInt port) as Hq.
  assert (forall c, numeric c = false ->
    contains_byte c (IPv4String v4) = false /\ contains_byte c (FormatInt port) = false) as Hc
    by (intros c ?; split; by apply (contains_byte_false numeric)).
  unfold valid_member, validAddress. simpl Address. simpl ID.
  rewrite bool_decide_eq_false_2 by (destruct ns; done). cbn [negb andb].
  unfold JoinHostPort. rewrite (proj1 (Hc ":"%char eq_refl)).
  change (":" +:+ FormatInt port) with (String ":" (FormatInt port)).
  rewrite !contains_byte_app, !contains_byte_cons_ne by done.
  rewrite (proj1 (Hc "/"%char eq_refl)), (proj2 (Hc "/"%char eq_refl)), (proj1 (Hc "?"%char eq_refl)),
    (proj2 (Hc "?"%char eq_refl)), (proj1 (Hc "#"%char eq_refl)), (proj2 (Hc "#"%char eq_refl)). cbn [orb].
  rewrite SplitHostPort_plain.
  - rewrite ParseInt_FormatInt by (unfold two63; lia).
    rewrite bool_decide_eq_false_2 by by apply IPv4String_nonempty.
    rewrite (proj2 (Z.ltb_lt 0 port)), (proj2 (Z.leb_le port 65535)) by lia. done.
  - unfold plain_host. by rewrite (proj1 (Hc ":"%char eq_refl)), (proj1 (Hc "["%char eq_refl)), (proj1 (Hc "]"%char eq_refl)).
  - unfold plain_host. by rewrite (proj2 (Hc ":"%char eq_refl)), (proj2 (Hc "["%char eq_refl)), (proj2 (Hc "]"%char eq_refl)).
Qed.

(** An address of an endpoint of a slice from which a member is made. *)
Definition offers (slices : list EndpointSlice) (m : Member) : Prop :=
  exists s e ns pod address v4,
    s ∈ slices /\ s_AddressType s = "IPv4" /\ 1 <= clusterPort (s_Ports s) <= 65535 /\
    e ∈ s_Endpoints s /\ endpointPod s e = Some (ns, pod) /\ address ∈ e_Addresses e /\
    ParseIP address ≫= To4 = Some v4 /\
    m = mkMember (ns +:+ "/" +:+ pod) (JoinHostPort (IPv4String v4) (FormatInt (clusterPort (s_Ports s)))).

Lemma SliceMembers_offers slices m : m ∈ SliceMembers slices <-> offers slices m.
Proof.
  unfold SliceMembers, offers. rewrite list_elem_of_join. split.
  - intros (l & Hm & (s & -> & Hs)%list_elem_of_fmap). unfold sliceMembers in Hm.
    destruct (String.eqb_spec (s_AddressType s) "IPv4") as [Et|]; [|by apply elem_of_nil in Hm]. cbn [negb] in Hm.
    destruct ((_ <? 1) || _) eqn:E; [by apply elem_of_nil in Hm|]. reflect_bool.
    apply list_elem_of_join in Hm as (l & Hm & (e & -> & He)%list_elem_of_fmap). unfold endpointMembers in Hm.
    destruct (endpointPod s e) as [[ns pod]|] eqn:Ep; [|by apply elem_of_nil in Hm].
    apply list_elem_of_omap in Hm as (a & Ha & Hm). unfold addressMember in Hm.
    apply bind_Some in Hm as (v4 & Hv & [= <-]). exists s, e, ns, pod, a, v4. split_and!; auto; lia.
  - intros (s & e & ns & pod & a & v4 & Hs & Et & Hp & He & Ep & Ha & Hv & ->).
    exists (sliceMembers s). split; [|by apply list_elem_of_fmap_2]. unfold sliceMembers. rewrite Et.
    cbn [String.eqb negb]. change (String.eqb "IPv4" "IPv4") with true. cbn [negb].
    rewrite (proj2 (Z.ltb_ge _ 1)), (proj2 (Z.ltb_ge 65535 _)) by lia. cbn [orb].
    apply list_elem_of_join. exists (endpointMembers s (clusterPort (s_Ports s)) e).
    split; [|by apply list_elem_of_fmap_2]. unfold endpointMembers. rewrite Ep.
    apply list_elem_of_omap. exists a. split; [done|]. unfold addressMember. by rewrite Hv.
Qed.

Lemma SliceMembers_valid slices m : m ∈ SliceMembers slices -> valid_member m = true.
Proof.
  intros (s & e & ns & pod & a & v4 & _ & _ & Hp & _ & _ & _ & Hv & ->)%SliceMembers_offers.
  apply (addressMember_valid ns pod (clusterPort (s_Ports s)) a); [done|]. unfold addressMember. by rewrite Hv.
Qed.

(** The directory lists exactly what the slices offer. *)
Definition publishes (d : Directory) (slices : list EndpointSlice) : Prop :=
  exists s, state d = Some s /\ forall m, m ∈ members s <-> chosen (SliceMembers slices) m.

(** Nothing the informer knows is missing from the directory, unless the news
    is still on its way: an unhandled change, a full channel, or a rebuild that
    has yet to list the store. *)
Definition up_to_date (w : Watcher) : Prop :=
  (0 < w_unhandled w)%nat \/ w_changes w = true \/
  match w_phase w with
  | Syncing | Listing | Returned => True
  | Listed slices => slices = slices_of (w_store w)
  | Selecting => publishes (w_router w) (slices_of (w_store w))
  end.

Record watch_inv (w : Watcher) : Prop := {
  wi_dir : dir_ok (w_router w);
  wi_state : is_Some (state (w_router w));
  wi_fresh : up_to_date w;
  wi_ready : w_phase w = Selecting -> w_ready w = true;
  wi_stopped : w_phase w = Returned \/ w_phase w = Syncing -> w_ready w = false;
}.

Lemma Update_snapshot d input : is_Some (state d) -> is_Some (state (Update d input).1).
Proof. unfold Update. intros H. by repeat case_match. Qed.

(** Publishing always succeeds: every member made from slices is valid. *)
Lemma rebuild_ok w slices :
  dir_ok (w_router w) -> is_Some (state (w_router w)) -> exists w',
    rebuild w slices = Some (w', true) /\ dir_ok (w_router w') /\ is_Some (state (w_router w')) /\
    publishes (w_router w') slices /\ w_store w' = w_store w /\ w_unhandled w' = w_unhandled w /\
    w_changes w' = w_changes w.
Proof.
  intros Hd [s Hs]. unfold rebuild, Members. rewrite Hs. cbn [mbind option_bind].
  destruct (Update_ok (w_router w) (SliceMembers slices) Hd) as (H1 & H2 & _ & H4).
  pose proof (proj2 H2 (SliceMembers_valid slices)) as Hnone.
  destruct (Update (w_router w) (SliceMembers slices)) as [d' e]. simpl in *. subst e.
  destruct (H4 eq_refl) as (s' & Hs' & Hm). rewrite Hs'. cbn [mbind option_bind].
  eexists. split; [done|]. simpl. split_and!; eauto. by exists s'.
Qed.

Lemma watch_step_inv w w' : watch_inv w -> watch_step w w' -> watch_inv w'.
Proof.
  intros [Hd Hst Hf Hr Hs]. unfold up_to_date in Hf.
  destruct 1 as [w store'|w Hu|w Hp|w Hp|w Hp|w slices w' ok Hp Hb|w Hp Hc|w Hp].
  - split; simpl; auto. left. simpl. lia.
  - split; simpl; auto. right. by left.
  - split; simpl; try done; [by right; right|]. by intros [?|?].
  - split; simpl; try done; [by right; right|]. intros _. apply Hs. by right.
  - split; simpl; try done; [right; right; by simpl|]. by intros [?|?].
  - destruct (rebuild_ok w slices Hd Hst) as (w1 & Hb1 & H1 & H2 & H3 & E1 & E2 & E3).
    rewrite Hb1 in Hb. simplify_eq. split; simpl; auto; [|by intros [?|?]].
    unfold up_to_date. simpl. rewrite E1, E2, E3. rewrite Hp in Hf.
    destruct Hf as [?|[?| ->]]; auto.
  - split; simpl; try done; [right; right; by simpl|]. by intros [?|?].
  - split; simpl; try done. by right; right.
Qed.

(** C15: discovery converges and never rejects a snapshot: however store
    changes, event handlers and rebuilds interleave, whenever no change is
    waiting to be handled, the channel is empty and the watcher is back at its
    [select], the watcher is ready and the directory lists exactly the usable
    endpoints of the informer's current store (one member per Pod, by least
    address). A watcher that has not synced or has returned is not ready. *)
Theorem watcher_converges d w :
  dir_ok d -> is_Some (state d) -> rtc watch_step (newWatcher d) w ->
  (w_phase w = Selecting -> w_unhandled w = 0%nat -> w_changes w = false ->
     Ready w = true /\ exists s, state (w_router w) = Some s /\
       forall m, m ∈ members s <-> chosen (SliceMembers (slices_of (w_store w))) m) /\
  (w_phase w = Returned \/ w_phase w = Syncing -> Ready w = false).
Proof.
  intros Hd Hs Hrun.
  assert (watch_inv w) as Hw.
  { assert (watch_inv (newWatcher d)) as H0 by (split; simpl; auto; [by right; right|done]).
    clear Hd Hs. remember (newWatcher d) as w0 eqn:E0. clear E0.
    induction Hrun; [done|]. eauto using watch_step_inv. }
  split; [|by apply Hw]. intros Hp Hu Hc. split; [by apply Hw|].
  destruct (wi_fresh w Hw) as [?|[?|H]]; [lia|congruence|]. by rewrite Hp in H.
Qed.

(** [Members] yields exactly the IPv4 addresses of ready, non-terminating
    Pod endpoints of the slice's own namespace on the slice's TCP port named
    "cluster", each under the identity namespace/pod; and every member it
    yields is one the directory accepts. *)
Theorem Members_usable slices m :
  (m ∈ SliceMembers slices <-> offers slices m) /\ (m ∈ SliceMembers slices -> valid_member m = true).
Proof. split; [apply SliceMembers_offers|apply SliceMembers_valid]. Qed.

(** ** A run: one ready Pod appears before the first sync *)
Definition sample_slice : EndpointSlice :=
  mkSlice "shop" "IPv4" [mkPort (Some "api") (Some 9999) None; mkPort (Some "cluster") (Some 8001) (Some "TCP")]
    [mkEndpoint ["10.0.0.7"; "fe80::1"] (Some true) None (Some (mkRef "Pod" "cache-1" ""));
     mkEndpoint ["10.0.0.8"] (Some false) None (Some (mkRef "Pod" "cache-2" ""))].

Definition empty_directory : Directory := default (mkDirectory "" 0 "" None) (NewDirectory "shop/cache-0" Second "secret").

Definition published (w : Watcher) (slices : list EndpointSlice) : Watcher :=
  match rebuild w slices with Some (w', true) => set_phase (set_ready w' true) Selecting | _ => w end.

Definition sample_signalled : Watcher :=
  signal (mkWatcher [SliceObject sample_slice; OtherObject] 1 false Syncing false empty_directory []).
Definition sample_published : Watcher :=
  published (set_phase (set_phase sample_signalled Listing) (Listed [sample_slice])) [sample_slice].
Definition sample_received : Watcher :=
  mkWatcher (w_store sample_published) 0 false Listing (w_ready sample_published) (w_router sample_published) (w_reports sample_published).
Definition sample_quiet : Watcher := published (set_phase sample_received (Listed [sample_slice])) [sample_slice].

Lemma sample_watch_run : rtc watch_step (newWatcher empty_directory) sample_quiet.
Proof.
  eapply rtc_l; [apply (ws_change _ [SliceObject sample_slice; OtherObject])|].
  eapply rtc_l; [apply ws_handle; simpl; lia|].
  eapply rtc_l; [by apply ws_synced|]. eapply rtc_l; [by apply ws_list|].
  eapply rtc_l; [eapply (ws_publish _ [sample_slice]); [reflexivity|vm_compute; reflexivity]|].
  eapply rtc_l; [by apply ws_receive|]. eapply rtc_l; [by apply ws_list|].
  eapply rtc_l; [eapply (ws_publish _ [sample_slice]); [reflexivity|vm_compute; reflexivity]|].
  assert (forall w w' : Watcher, w = w' -> rtc watch_step w w') as Heq by (by intros w ? <-).
  apply Heq. vm_compute. reflexivity.
Qed.

Lemma empty_directory_ok : dir_ok empty_directory /\ is_Some (state empty_directory).
Proof.
  split; [|eauto]. intros s [= <-]. simpl. split; [constructor|]. set_solver.
Qed.

Lemma watcher_converges_witness :
  Ready sample_quiet = true /\ Members (w_router sample_quiet) = Some [mkMember "shop/cache-1" "10.0.0.7:8001"] /\
  w_reports sample_quiet = [(1, true); (1, false)].
Proof.
  destruct empty_directory_ok as [H1 H2].
  destruct (watcher_converges empty_directory sample_quiet H1 H2 sample_watch_run) as [H _].
  destruct (H eq_refl eq_refl eq_refl) as [Hr _]. split; [exact Hr|]. vm_compute. split; reflexivity.
Defined.
