(* ===== verification/Protocol.v ===== *)
(** * The invalidation protocol between members
      ([internal/cluster/protocol.go], [server.go], [invalidation.go])

    A request and a response are the parts of them the code reads and writes;
    headers map canonical names to their values, and the path is the escaped
    path of the request line. The network is a parameter: what a member
    answers to a request, or the error of the transport. *)
From S2P Require Import Prelude GoStrings Errors LRU CacheStore Bloom Admission Group Directory.

(** ** HTTP values *)
Abbreviation Header := (gmap string (list string)).
Definition Values (h : Header) (name : string) : list string := default [] (h !! name).
Definition HeaderGet (h : Header) (name : string) : string := default "" (head (Values h name)).
Definition HeaderSet (h : Header) (name v : string) : Header := <[name := [v]]> h.

Record Request := mkRequest {
  Method : string;
  EscapedPath : string;
  RawQuery : string;
  ReqHeader : Header;
  Body : bytes;
}.
Record Response := mkResponse { StatusCode : Z; RespHeader : Header; RespBody : string }.

(** [http.Error] on a response whose headers so far are [h]. *)
Definition newline : string := String (byte_of 10) "".
Definition http_Error (h : Header) (message : string) (code : Z) : Response :=
  mkResponse code
    (HeaderSet (HeaderSet (delete "Content-Length" h) "Content-Type" "text/plain; charset=utf-8")
       "X-Content-Type-Options" "nosniff") (message +:+ newline).

Definition StatusOK : Z := 200.
Definition StatusAccepted : Z := 202.
Definition StatusNoContent : Z := 204.
Definition StatusBadRequest : Z := 400.
Definition StatusUnauthorized : Z := 401.
Definition StatusNotFound : Z := 404.
Definition StatusMethodNotAllowed : Z := 405.
Definition StatusPreconditionFailed : Z := 412.
Definition StatusRequestEntityTooLarge : Z := 413.
Definition StatusPreconditionRequired : Z := 428.
Definition StatusServiceUnavailable : Z := 503.
Definition StatusGatewayTimeout : Z := 504.

(** ** [protocol.go] *)
Definition BasePath : string := "/_simplecache/invalidate/".
Definition InvalidationVersionHeader : string := "X-SimpleCache-Invalidation-Version".

Definition ParseInvalidationVersion (header : Header) : Z * option error :=
  match Values header InvalidationVersionHeader with
  | [] => (0, None)
  | [v] =>
      match ParseInt v with
      | Some version =>
          if (version <=? 0) || negb (String.eqb (FormatInt version) v) then (0, Some ErrInvalidVersion)
          else (version, None)
      | None => (0, Some ErrInvalidVersion)
      end
  | _ => (0, Some ErrInvalidVersion)
  end.

Definition Authorized (r : Request) (token : string) : bool :=
  negb (String.eqb token "") && String.eqb (HeaderGet (ReqHeader r) "Authorization") ("Bearer " +:+ token).

Definition Status (err : error) : Z :=
  if Is err ErrNotFound then StatusNotFound
  else if Is err ErrInvalidKey || Is err ErrInvalidVersion then StatusBadRequest
  else if Is err DeadlineExceeded || Is err Canceled then StatusGatewayTimeout
  else StatusServiceUnavailable.

(** ** [server.go] *)
Section Server.
Context {C : Type} `{!Store C}.

Record Handler := mkHandler { groups : gmap string (Group C); h_token : string }.

(** [None] is the panic on a duplicate group. *)
Fixpoint addGroups (m : gmap string (Group C)) (gs : list (Group C)) : option (gmap string (Group C)) :=
  match gs with
  | [] => Some m
  | g :: gs' => match m !! Name g with
                | Some _ => None
                | None => addGroups (<[Name g := g]> m) gs'
                end
  end.
Definition NewHandlerWithToken (token : string) (gs : list (Group C)) : option Handler :=
  m ← addGroups ∅ gs; Some (mkHandler m token).
Definition NewHandler (gs : list (Group C)) : option Handler := NewHandlerWithToken "" gs.

(** [t1], [t2]: the clock readings of the invalidation. [None] is a panic. *)
Definition ServeHTTP (h : Handler) (r : Request) (t1 t2 : Time) : option (Handler * Response) :=
  let respond resp := Some (h, resp) in
  if negb (String.eqb (Method r) "DELETE") || String.eqb (h_token h) "" then
    respond (http_Error (HeaderSet ∅ "Allow" "DELETE") "method not allowed" 405)
  else if negb (Authorized r (h_token h)) then
    respond (http_Error ∅ "unauthorized" StatusUnauthorized)
  else
    let path := EscapedPath r in
    if negb (HasPrefix path BasePath) then respond (http_Error ∅ "404 page not found" 404)
    else
      match cut "/" (TrimPrefix path BasePath) with
      | None => respond (http_Error ∅ "bad member path" 400)
      | Some (part0, part1) =>
          match PathUnescape part0, PathUnescape part1 with
          | Some group, Some key =>
              match groups h !! group with
              | None => respond (http_Error ∅ "group not found" 404)
              | Some g =>
                  let '(version, err) := ParseInvalidationVersion (ReqHeader r) in
                  '(g', err) ← match err return option (Group C * option error) with
                               | None => '(g', _, err) ← InvalidateVersion g key version t1 t2; Some (g', err)
                               | Some e => Some (g, Some e)
                               end;
                  let h' := mkHandler (<[group := g']> (groups h)) (h_token h) in
                  match err with
                  | Some e => Some (h', http_Error ∅ (Error e) (Status e))
                  | None =>
                      let hdr : Header := if 0 <? version
                                 then HeaderSet ∅ InvalidationVersionHeader (FormatInt version) else ∅ in
                      Some (h', mkResponse StatusNoContent hdr "")
                  end
              end
          | _, _ => respond (http_Error ∅ "bad encoding" 400)
          end
      end.
End Server.
Arguments Handler C : clear implicits.

(** ** [invalidation.go]: the client *)
Definition InvalidationTimeout : Duration := Second.

Definition clientRequest (c : Client) (group key : string) (version : Z) : Request :=
  let hdr : Header := HeaderSet ∅ "Authorization" ("Bearer " +:+ c_token c) in
  mkRequest "DELETE" (BasePath +:+ PathEscape group +:+ "/" +:+ PathEscape key) ""
    (if 0 <? version then HeaderSet hdr InvalidationVersionHeader (FormatInt version) else hdr) [].

(** [badURL] is the error of [http.NewRequestWithContext], [Do] what the
    member at the client's address answers. *)
Definition ClientInvalidateVersion (badURL : option error) (Do : Request -> Response + error)
    (c : Client) (group key : string) (version : Z) : option error :=
  if version <? 0 then Some ErrInvalidVersion
  else match badURL with
  | Some e => Some e
  | None =>
      match Do (clientRequest c group key version) with
      | inr e => Some e
      | inl response =>
          if negb (StatusCode response =? StatusNoContent)
          then Some (NewError "member did not acknowledge invalidation")
          else if 0 <? version then
            let '(ack, err) := ParseInvalidationVersion (RespHeader response) in
            match err with
            | Some _ => Some ErrUnversionedInvalidation
            | None => if negb (ack =? version) then Some ErrUnversionedInvalidation else None
            end
          else None
      end
  end.

Definition ClientInvalidate badURL Do (c : Client) (group key : string) : option error :=
  ClientInvalidateVersion badURL Do c group key 0.

(** ** [invalidation.go]: the fan-out *)
Record InvalidationResult := mkInvResult { Node : string; ResStatus : string }.
Record InvalidationReport := mkReport {
  KnownMembers : Z;
  ReportVersion : Z;
  Scope : string;
  Complete : bool;
  Results : list InvalidationResult;
}.

Definition sendStatus (err : option error) : string :=
  match err with
  | None => "ok"
  | Some e =>
      if Is e DeadlineExceeded || Is e Canceled then "timeout"
      else if Is e ErrUnversionedInvalidation then "unversioned"
      else "failed"
  end.

Definition set_status (r : InvalidationResult) (s : string) : InvalidationResult := mkInvResult (Node r) s.

(** The members to notify and the clients to do it with. *)
Definition remotes (d : Directory) (s : snapshot) : list Member :=
  filter (fun m => ID m <> selfID d) (members s).

(** The workers take the indices of [clients] in some order; each writes its
    own slot of the results. [None]: a nil client or an index out of range. *)
Fixpoint fanOut (order : list nat) (cs : list (option Client)) (send : Client -> option error)
    (results : list InvalidationResult) : option (list InvalidationResult) :=
  match order with
  | [] => Some results
  | i :: order' =>
      c ← cs !! i; c ← c;
      r ← results !! S i;
      fanOut order' cs send (<[S i := set_status r (sendStatus (send c))]> results)
  end.

Section FanOut.
Context {C : Type} `{!Store C}.

(** [send] stands for [clients[i].InvalidateVersion(ctx, group.Name(), key,
    version)], [order] for the order in which the workers finish. *)
Definition DirInvalidateVersion (d : Directory) (g : Group C) (key : string) (version : Z)
    (t1 t2 : Time) (send : Client -> option error) (order : list nat)
    : option (Group C * InvalidationReport * option error) :=
  '(g', _, err) ← InvalidateVersion g key version t1 t2;
  match err with
  | Some e => Some (g', mkReport 0 0 "" false [], Some e)
  | None =>
      s ← state d;
      let ms := remotes d s in
      results ← fanOut order ((fun m => clients s !! ID m) <$> ms) send
                  (mkInvResult (selfID d) "ok" :: ((fun m => mkInvResult (ID m) "") <$> ms));
      Some (g', mkReport (Z.of_nat (length (members s))) version "known_members_snapshot"
                  (forallb (fun r => String.eqb (ResStatus r) "ok") results) results, None)
  end.

Definition DirInvalidate (d : Directory) (g : Group C) (key : string) (t1 t2 : Time)
    (send : Client -> option error) (order : list nat) :=
  DirInvalidateVersion d g key 0 t1 t2 send order.
End FanOut.

(** ** The version header *)

Lemma Values_HeaderSet n : Values (HeaderSet ∅ InvalidationVersionHeader (FormatInt n)) InvalidationVersionHeader = [FormatInt n].
Proof. unfold Values, HeaderSet. by rewrite lookup_insert_eq. Qed.

Lemma ParseInvalidationVersion_one h v :
  Values h InvalidationVersionHeader = [FormatInt v] -> 0 < v < two63 ->
  ParseInvalidationVersion h = (v, None).
Proof.
  intros Hv Hr. unfold ParseInvalidationVersion. rewrite Hv.
  rewrite ParseInt_FormatInt by lia. rewrite String.eqb_refl.
  rewrite (proj2 (Z.leb_gt v 0)) by lia. done.
Qed.

(** The version header is read back only in its canonical decimal form: an
    absent header is the forced invalidation 0, one value that is exactly the
    printed form of a positive [int64] is that version, and everything else
    (signs, leading zeros, spaces, several values) is an error. *)
Theorem ParseInvalidationVersion_canonical h v :
  ParseInvalidationVersion h = (v, None) <->
  (Values h InvalidationVersionHeader = [] /\ v = 0) \/
  (0 < v < two63 /\ Values h InvalidationVersionHeader = [FormatInt v]).
Proof.
  split.
  - unfold ParseInvalidationVersion. destruct (Values h InvalidationVersionHeader) as [|x [|y l]].
    + intros [= <-]. by left.
    + destruct (ParseInt x) as [n|] eqn:E; [|done]. case_bool; [done|]. intros [= <-].
      apply orb_false_iff in Heqb as [H1 H2]. reflect_bool. apply String.eqb_eq in H2.
      right. split; [pose proof (ParseInt_range _ _ E); lia|by rewrite H2].
    + done.
  - intros [[H ->]|[H1 H2]]; [unfold ParseInvalidationVersion; by rewrite H|].
    by apply ParseInvalidationVersion_one.
Qed.

(** ** Paths *)

Lemma upper_hex_not_slash z : 0 <= z < 16 -> upper_hex z <> "/"%char.
Proof.
  intros H. assert (z ∈ seqZ 0 16) as Hin by (apply elem_of_seqZ; lia). revert Hin. clear.
  assert (Forall (fun z => upper_hex z <> "/"%char) (seqZ 0 16)) as Hall by (vm_compute; repeat constructor; discriminate).
  rewrite Forall_forall in Hall. auto.
Qed.

Lemma PathEscape_no_slash s : contains_byte "/" (PathEscape s) = false.
Proof.
  induction s as [|c s IH]; [done|]. cbn [PathEscape]. destruct (escape_segment c) eqn:E.
  - unfold percent. cbn [contains_byte]. pose proof (byteval_range c).
    repeat destruct (ascii_dec _ _) as [Heq|]; try done; exfalso; revert Heq; apply not_eq_sym, upper_hex_not_slash.
    + pose proof (Z.div_lt_upper_bound (byteval c) 16 16). pose proof (Z.div_pos (byteval c) 16). lia.
    + apply Z.mod_pos_bound. lia.
  - cbn [contains_byte]. destruct (ascii_dec "/" c) as [<-|]; [done|]. done.
Qed.

Lemma clientPath_cut group key :
  HasPrefix (BasePath +:+ PathEscape group +:+ "/" +:+ PathEscape key) BasePath = true /\
  cut "/" (TrimPrefix (BasePath +:+ PathEscape group +:+ "/" +:+ PathEscape key) BasePath)
    = Some (PathEscape group, PathEscape key).
Proof.
  split; [apply prefix_app|]. rewrite TrimPrefix_app. apply (cut_app "/"), PathEscape_no_slash.
Qed.

(** ** Client and server *)
Section Agreement.
Context {C : Type} `{!Store C, !StoreLaws C}.

Lemma client_authorized c group key v :
  c_token c <> "" -> Authorized (clientRequest c group key v) (c_token c) = true.
Proof.
  intros H. unfold Authorized. rewrite (proj2 (String.eqb_neq _ _)) by done. simpl.
  unfold HeaderGet, Values. case_bool.
  - unfold HeaderSet. rewrite lookup_insert_ne by done. rewrite lookup_insert_eq. simpl. by rewrite String.eqb_refl.
  - unfold HeaderSet. rewrite lookup_insert_eq. simpl. by rewrite String.eqb_refl.
Qed.

Lemma client_version c group key v :
  0 <= v < two63 -> ParseInvalidationVersion (ReqHeader (clientRequest c group key v)) = (v, None).
Proof.
  intros Hv. simpl. destruct (0 <? v) eqn:E; reflect_bool.
  - apply ParseInvalidationVersion_one; [|lia]. unfold Values, HeaderSet. by rewrite lookup_insert_eq.
  - replace v with 0 by lia. done.
Qed.

(** An invalidation that is refused leaves the group as it was. *)
Lemma InvalidateVersion_refused (g g' : Group C) key v t1 t2 evs e :
  InvalidateVersion g key v t1 t2 = Some (g', evs, Some e) -> g' = g.
Proof.
  unfold InvalidateVersion. destruct (ValidateKey key); [congruence|]. case_bool; [congruence|].
  intros ([g1 known] & _ & H)%bind_Some. apply bind_Some in H as (g2 & _ & H).
  apply bind_Some in H as ([g3 res] & _ & H). apply bind_Some in H as (g5 & _ & H). congruence.
Qed.

(** What the handler makes of a client's request once it is authorised and its
    group is known. *)
Lemma ServeHTTP_client (h : Handler C) g c name key v t1 t2 :
  h_token h <> "" -> Authorized (clientRequest c name key v) (h_token h) = true ->
  groups h !! name = Some g -> 0 <= v < two63 ->
  ServeHTTP h (clientRequest c name key v) t1 t2 =
    '(g', _, err) ← InvalidateVersion g key v t1 t2;
    let h' := mkHandler (<[name := g']> (groups h)) (h_token h) in
    Some (h', match err with
              | Some e => http_Error ∅ (Error e) (Status e)
              | None => mkResponse StatusNoContent
                          (if 0 <? v then HeaderSet ∅ InvalidationVersionHeader (FormatInt v) else ∅) ""
              end).
Proof.
  intros Hne Ha Hgr Hv. unfold ServeHTTP. rewrite (proj2 (String.eqb_neq (h_token h) "")) by done.
  change (Method (clientRequest c name key v)) with "DELETE". rewrite String.eqb_refl, Ha. cbn [negb orb].
  cbv zeta. change (EscapedPath (clientRequest c name key v)) with (BasePath +:+ PathEscape name +:+ "/" +:+ PathEscape key).
  destruct (clientPath_cut name key) as [-> ->]. cbn [negb orb].
  rewrite !PathUnescape_PathEscape, Hgr, client_version by done.
  destruct (InvalidateVersion g key v t1 t2) as [[[g' evs] [e|]]|]; reflexivity.
Qed.

(** An answer the client accepts means that the invalidation was applied,
    whatever token and groups the member has. *)
Lemma acknowledged_applied (h h' : Handler C) c name key v t1 t2 resp :
  0 < v < two63 -> ServeHTTP h (clientRequest c name key v) t1 t2 = Some (h', resp) ->
  ClientInvalidateVersion None (fun _ => inl resp) c name key v = None ->
  exists g g' evs, groups h !! name = Some g /\ InvalidateVersion g key v t1 t2 = Some (g', evs, None) /\
    groups h' = <[name := g']> (groups h).
Proof.
  intros Hv HS HC.
  assert (StatusCode resp = StatusNoContent) as H204.
  { unfold ClientInvalidateVersion in HC. rewrite (proj2 (Z.ltb_ge v 0)) in HC by lia.
    destruct (StatusCode resp =? StatusNoContent) eqn:E; [by apply Z.eqb_eq|done]. }
  destruct (decide (h_token h = "")) as [Et|Et].
  { unfold ServeHTTP in HS. rewrite Et, String.eqb_refl, orb_true_r in HS. injection HS as _ <-. done. }
  destruct (Authorized (clientRequest c name key v) (h_token h)) eqn:Ea.
  2: { unfold ServeHTTP in HS. rewrite Ea, (proj2 (String.eqb_neq _ _) Et) in HS. injection HS as _ <-. done. }
  destruct (groups h !! name) as [g|] eqn:Eg.
  - rewrite (ServeHTTP_client h g) in HS by (auto with lia). apply bind_Some in HS as ([[g' evs] err] & HI & HS).
    destruct err as [e|]; injection HS as <- <-; [|by exists g, g', evs].
    exfalso. revert H204. unfold http_Error, Status. simpl. by repeat case_bool.
  - exfalso. unfold ServeHTTP in HS. rewrite (proj2 (String.eqb_neq _ _) Et) in HS.
    change (Method (clientRequest c name key v)) with "DELETE" in HS. rewrite String.eqb_refl, Ea in HS. cbn [negb orb] in HS.
    cbv zeta in HS. change (EscapedPath (clientRequest c name key v)) with (BasePath +:+ PathEscape name +:+ "/" +:+ PathEscape key) in HS.
    destruct (clientPath_cut name key) as [E1 E2]. rewrite E1, E2 in HS. cbn [negb orb] in HS.
    rewrite !PathUnescape_PathEscape, Eg in HS. injection HS as _ <-. done.
Qed.

(** C25: what a member's client sends, the other member's handler understands:
    for every group name and valid key, whatever bytes they contain, the
    handler applies exactly that invalidation to that group, answers 204 with
    the version echoed, and the client takes the answer for an acknowledgement. *)
Theorem member_agreement (h : Handler C) (g : Group C) c name key v t1 t2 :
  groups h !! name = Some g -> gwf g -> c_token c = h_token h -> h_token h <> "" ->
  ValidateKey key = None -> 0 <= v < two63 ->
  exists g' evs h' resp,
    InvalidateVersion g key v t1 t2 = Some (g', evs, None) /\
    ServeHTTP h (clientRequest c name key v) t1 t2 = Some (h', resp) /\
    groups h' = <[name := g']> (groups h) /\ StatusCode resp = StatusNoContent /\
    ClientInvalidateVersion None (fun _ => inl resp) c name key v = None.
Proof.
  intros Hgr Hg Htok Hne Hk Hv.
  destruct (InvalidateVersion_ok g key v t1 t2 Hg Hk ltac:(lia)) as (g' & evs & HI & _).
  rewrite (ServeHTTP_client h g), HI by (try rewrite <- Htok; try apply client_authorized; try rewrite Htok; auto). cbn [mbind option_bind].
  exists g', evs. eexists _, _. split; [done|]. split; [done|]. split; [done|]. split; [done|].
  unfold ClientInvalidateVersion. rewrite (proj2 (Z.ltb_ge v 0)) by lia. simpl.
  destruct (0 <? v) eqn:E; [|done]. reflect_bool.
  rewrite (ParseInvalidationVersion_one _ v) by (apply Values_HeaderSet || lia).
  by rewrite Z.eqb_refl.
Qed.

(** A group changes only through an authorised, well-formed request that is
    answered 204; every other answer of the handler leaves all groups as they
    were. *)
Theorem ServeHTTP_guarded (h h' : Handler C) r t1 t2 resp :
  ServeHTTP h r t1 t2 = Some (h', resp) ->
  h_token h' = h_token h /\
  (StatusCode resp <> StatusNoContent -> groups h' = groups h) /\
  (StatusCode resp = StatusNoContent ->
     Method r = "DELETE" /\ Authorized r (h_token h) = true /\
     exists name key g g' evs v, groups h !! name = Some g /\
       ParseInvalidationVersion (ReqHeader r) = (v, None) /\
       InvalidateVersion g key v t1 t2 = Some (g', evs, None) /\
       groups h' = <[name := g']> (groups h)).
Proof.
  unfold ServeHTTP.
  destruct (negb (String.eqb (Method r) "DELETE") || String.eqb (h_token h) "") eqn:EM; [by intros [= <- <-]|].
  destruct (Authorized r (h_token h)) eqn:EA; [|by intros [= <- <-]]. cbn [negb orb].
  destruct (HasPrefix (EscapedPath r) BasePath); [|by intros [= <- <-]]. cbn [negb orb].
  destruct (cut "/" _) as [[p0 p1]|]; [|by intros [= <- <-]].
  destruct (PathUnescape p0) as [name|]; [|by intros [= <- <-]].
  destruct (PathUnescape p1) as [key|]; [|by intros [= <- <-]].
  destruct (groups h !! name) as [g|] eqn:Hg; [|by intros [= <- <-]].
  destruct (ParseInvalidationVersion (ReqHeader r)) as [v [e|]] eqn:EP.
  - simpl. intros [= <- <-]. simpl. split; [done|]. split; [intros _; by apply insert_id|].
    unfold Status. by repeat case_bool.
  - intros ([g' err] & H & Hr)%bind_Some. apply bind_Some in H as ([[g1 evs] err1] & HI & [= <- <-]).
    destruct err1 as [e|]; injection Hr as <- <-; simpl.
    + apply InvalidateVersion_refused in HI as ->. split; [done|].
      split; [intros _; by apply insert_id|]. unfold Status. by repeat case_bool.
    + split; [done|]. split; [done|]. intros _. apply orb_false_iff in EM as [EM _].
      apply negb_false_iff, String.eqb_eq in EM. split; [done|]. split; [done|].
      by exists name, key, g, g1, evs, v.
Qed.

End Agreement.

(** ** The fan-out report *)

Lemma sendStatus_ok err : sendStatus err = "ok" <-> err = None.
Proof. destruct err as [e|]; simpl; [|done]. split; [|done]. repeat case_bool; done. Qed.

Lemma fanOut_ok order (cs : list (option Client)) send (results : list InvalidationResult) :
  NoDup order -> length results = S (length cs) ->
  (forall i, i ∈ order -> exists c, cs !! i = Some (Some c)) ->
  exists results', fanOut order cs send results = Some results' /\
    length results' = length results /\ results' !! 0%nat = results !! 0%nat /\
    forall i c r, cs !! i = Some (Some c) -> results !! S i = Some r ->
      results' !! S i = Some (if decide (i ∈ order) then set_status r (sendStatus (send c)) else r).
Proof.
  intros Hnd. revert results. induction Hnd as [|i order Hi Hnd IH]; intros results HL Hc; simpl.
  { exists results. split_and!; auto. }
  destruct (Hc i) as [c Hci]; [set_solver|]. rewrite Hci. simpl.
  destruct (lookup_lt_is_Some_2 results (S i)) as [r Hr].
  { rewrite HL. apply lookup_lt_Some in Hci. lia. }
  rewrite Hr. simpl.
  destruct (IH (<[S i := set_status r (sendStatus (send c))]> results)) as (res & -> & HL' & H0 & Hres).
  - by rewrite length_insert.
  - set_solver.
  - exists res. split; [done|]. rewrite length_insert in HL'. split; [done|].
    split; [by rewrite H0, list_lookup_insert_ne|].
    intros j cj rj Hcj Hrj. destruct (decide (j = i)) as [->|Hne].
    + simplify_eq. erewrite Hres; [|done|].
      * rewrite decide_False by done. by rewrite decide_True by set_solver.
      * apply list_lookup_insert_eq. by eapply lookup_lt_Some.
    + rewrite (Hres j cj rj); [|done|by rewrite list_lookup_insert_ne by lia].
      f_equal. destruct (decide (j ∈ order)); [by rewrite decide_True by set_solver|].
      rewrite decide_False; [done|]. set_solver.
Qed.

(** All indices, in any order: every slot holds its own client's status. *)
Lemma fanOut_all order (ms : list Member) (cs : list (option Client)) (cl : Member -> Client) send self :
  order ≡ₚ seq 0 (length ms) -> cs = (fun m => Some (cl m)) <$> ms ->
  fanOut order cs send (mkInvResult self "ok" :: ((fun m => mkInvResult (ID m) "") <$> ms))
  = Some (mkInvResult self "ok" :: ((fun m => mkInvResult (ID m) (sendStatus (send (cl m)))) <$> ms)).
Proof.
  intros Ho ->. set (res0 := mkInvResult self "ok" :: _).
  destruct (fanOut_ok order ((fun m => Some (cl m)) <$> ms) send res0) as (res & -> & HL & H0 & Hres).
  - rewrite Ho. apply NoDup_seq.
  - subst res0. simpl. by rewrite !length_fmap.
  - intros i Hi. rewrite Ho, elem_of_seq in Hi. destruct (lookup_lt_is_Some_2 ms i) as [m Hm]; [lia|].
    exists (cl m). by rewrite list_lookup_fmap, Hm.
  - f_equal. apply list_eq. intros [|i]; [by rewrite H0|].
    change ((mkInvResult self "ok" :: ((fun m => mkInvResult (ID m) (sendStatus (send (cl m)))) <$> ms)) !! S i)
      with (((fun m => mkInvResult (ID m) (sendStatus (send (cl m)))) <$> ms) !! i).
    rewrite list_lookup_fmap. destruct (ms !! i) as [m|] eqn:Hm; simpl.
    + erewrite Hres; [|by rewrite list_lookup_fmap, Hm|by subst res0; simpl; rewrite list_lookup_fmap, Hm].
      rewrite decide_True; [done|]. rewrite Ho, elem_of_seq. apply lookup_lt_Some in Hm. lia.
    + apply lookup_ge_None. rewrite HL. subst res0. simpl. rewrite length_fmap.
      apply lookup_ge_None in Hm. lia.
Qed.

(** C26: whatever the order in which the workers finish, the report of a
    broadcast lists this node as done and every other member of one membership
    snapshot, in ID order, with the status of its own call; it is complete
    exactly when every other member acknowledged. *)
Theorem broadcast_report {C : Type} `{!Store C, !StoreLaws C} (d : Directory) s (g : Group C) key v t1 t2 send order :
  dir_ok d -> state d = Some s -> gwf g -> ValidateKey key = None -> 0 <= v ->
  order ≡ₚ seq 0 (length (remotes d s)) ->
  exists g' evs report,
    InvalidateVersion g key v t1 t2 = Some (g', evs, None) /\
    DirInvalidateVersion d g key v t1 t2 send order = Some (g', report, None) /\
    Results report = mkInvResult (selfID d) "ok" ::
      ((fun m => mkInvResult (ID m) (sendStatus (send (client_of d m)))) <$> remotes d s) /\
    KnownMembers report = Z.of_nat (length (members s)) /\ ReportVersion report = v /\
    (Complete report = true <->
       forall m, m ∈ members s -> ID m <> selfID d -> send (client_of d m) = None).
Proof.
  intros Hd Hs Hg Hk Hv Ho.
  destruct (InvalidateVersion_ok g key v t1 t2 Hg Hk Hv) as (g' & evs & HI & _).
  destruct (Hd s Hs) as (Hsort & Hmem & _).
  assert ((fun m => clients s !! ID m) <$> remotes d s = (fun m => Some (client_of d m)) <$> remotes d s) as Hcs.
  { apply list_fmap_ext. intros i m Hi. apply Hmem.
    apply list_elem_of_lookup_2 in Hi. by apply list_elem_of_filter in Hi as [_ ?]. }
  unfold DirInvalidateVersion. rewrite HI. cbn [mbind option_bind]. rewrite Hs. cbn [mbind option_bind].
  rewrite (fanOut_all order (remotes d s) _ (client_of d)) by done. cbn [mbind option_bind].
  exists g', evs. eexists. split; [done|]. split; [done|]. split; [done|]. split; [done|]. split; [done|].
  cbn [Complete]. rewrite forallb_forall. split.
  - intros H m Hm Hne. apply sendStatus_ok. apply String.eqb_eq.
    apply (H (mkInvResult (ID m) (sendStatus (send (client_of d m))))). apply list_elem_of_In.
    apply elem_of_cons. right. apply list_elem_of_fmap. exists m. split; [done|].
    by apply list_elem_of_filter.
  - intros H r Hr%list_elem_of_In. apply elem_of_cons in Hr as [->|Hr]; [done|].
    apply list_elem_of_fmap in Hr as (m & -> & [Hne Hm]%list_elem_of_filter). apply String.eqb_eq.
    apply sendStatus_ok. auto.
Qed.

(** ** Witnesses *)
Definition sample_handler : Handler cache := mkHandler {["products" := sample_group]} "secret".
Definition sample_client : Client := mkClient "10.0.0.2:80" 1000 "secret".

Lemma member_agreement_witness :
  exists g' evs h' resp,
    InvalidateVersion sample_group "a/b?c" 7 1 2 = Some (g', evs, None) /\
    ServeHTTP sample_handler (clientRequest sample_client "products" "a/b?c" 7) 1 2 = Some (h', resp) /\
    groups h' = <["products" := g']> (groups sample_handler) /\ StatusCode resp = StatusNoContent /\
    ClientInvalidateVersion None (fun _ => inl resp) sample_client "products" "a/b?c" 7 = None.
Proof.
  apply (member_agreement sample_handler sample_group sample_client "products" "a/b?c" 7 1 2);
    [reflexivity|apply sample_group_gwf|reflexivity|discriminate|reflexivity|unfold two63; lia].
Defined.

Lemma ServeHTTP_guarded_witness :
  exists resp, ServeHTTP sample_handler (mkRequest "DELETE" "/x" "" ∅ []) 1 2 = Some (sample_handler, resp) /\
    StatusCode resp <> StatusNoContent /\ groups sample_handler = groups sample_handler.
Proof.
  destruct (ServeHTTP sample_handler (mkRequest "DELETE" "/x" "" ∅ []) 1 2) as [[h' resp]|] eqn:E; [|discriminate E].
  pose proof E as E0. injection E0 as Eh Er. subst h' resp.
  eexists. split; [reflexivity|]. split; [discriminate|].
  apply (ServeHTTP_guarded _ _ _ _ _ _ E). discriminate.
Defined.

Definition sample_ring : Directory :=
  (Update (mkDirectory "a" 1000 "secret" None) [mkMember "b" "10.0.0.2:80"; mkMember "a" "10.0.0.1:80"; mkMember "c" "10.0.0.3:80"]).1.

Lemma sample_ring_ok : dir_ok sample_ring.
Proof. apply (Update_ok (mkDirectory "a" 1000 "secret" None)). intros s. discriminate. Qed.

Lemma sample_ring_remotes s :
  state sample_ring = Some s ->
  remotes sample_ring s = [mkMember "b" "10.0.0.2:80"; mkMember "c" "10.0.0.3:80"].
Proof.
  intros Es. apply (f_equal (fmap (remotes sample_ring))) in Es. simpl in Es. injection Es as <-.
  vm_compute. reflexivity.
Qed.

(** "b" acknowledges and "c" does not answer: the report is partial. *)
Definition sample_send (c : Client) : option error :=
  if String.eqb (address c) "10.0.0.2:80" then None else Some DeadlineExceeded.

Lemma broadcast_report_witness :
  exists s g' evs report, state sample_ring = Some s /\
    InvalidateVersion sample_group "k" 7 1 2 = Some (g', evs, None) /\
    DirInvalidateVersion sample_ring sample_group "k" 7 1 2 sample_send [1; 0]%nat = Some (g', report, None) /\
    Results report = [mkInvResult "a" "ok"; mkInvResult "b" "ok"; mkInvResult "c" "timeout"].
Proof.
  destruct (state sample_ring) as [s|] eqn:Es; [|discriminate Es].
  pose proof (sample_ring_remotes s Es) as Hr.
  destruct (broadcast_report sample_ring s sample_group "k" 7 1 2 sample_send [1; 0]%nat
    sample_ring_ok Es sample_group_gwf eq_refl ltac:(lia)) as (g' & evs & report & H1 & H2 & H3 & _).
  - rewrite Hr. simpl. constructor.
  - exists s, g', evs, report. split; [reflexivity|]. split; [exact H1|]. split; [exact H2|].
    rewrite H3, Hr. vm_compute. reflexivity.
Defined.
