(* ===== verification/Postgres.v ===== *)
(** * The PostgreSQL source and its outbox
      ([internal/source/postgres/postgres.go], [outbox.go])

    Every operation is one SQL statement, which PostgreSQL runs as one atomic
    transaction: a function from the two tables to the tables after it and the
    rows it returns, or an error that changes nothing (a [bigint] out of
    range). What the client learns is a separate matter: a [fate] says whether
    the statement ran and was acknowledged, failed before it committed, or
    committed without the answer arriving. [clock_timestamp()] readings are
    arguments: [tw] in the statement's WHERE clause, [ts] in what it stores. *)
From S2P Require Import Prelude GoStrings Errors.

(** ** Tables *)
Record product := mkProduct { p_value : bytes; p_version : Z; p_deleted : bool }.

Record outboxRow := mkRow {
  o_id : Z;
  o_key : string;
  o_version : Z;
  o_created : Time;
  o_available : Time;
  o_leased : option Time;
  o_attempts : Z;
  o_delivered : option Time;
}.

Record DB := mkDB {
  products : gmap string product;
  outbox : list outboxRow;
  next_id : Z;                           (* the sequence of [bigserial] *)
}.

(** ** What a client sees of a statement

    A statement is answered, is not executed, or is committed without the
    client learning of it, all at the place of the call. A statement that
    commits only after its client has given up (the time limit of the write is
    over while the server still works on it) is, for the client, a [Refused]
    one; its commit is a write of its own later on ([cs_write] of [Cluster]
    allows one at any moment), with its own outbox event. *)
Inductive fate :=
| Answered
| Refused (e : error)                    (* not executed or rolled back *)
| Unheard (e : error).                   (* committed, the answer was lost *)

Definition bigint_out_of_range : error := NewError "bigint out of range".

Definition run {A} (f : fate) (stmt : DB -> option (DB * A)) (db : DB) : DB * (A + error) :=
  match f with
  | Answered => match stmt db with Some (db', a) => (db', inl a) | None => (db, inr bigint_out_of_range) end
  | Refused e => (db, inr e)
  | Unheard e => match stmt db with Some (db', _) => (db', inr e) | None => (db, inr e) end
  end.

(** [QueryRow(...).Scan(...)]: no row is [pgx.ErrNoRows]. *)
Definition scan {A} (r : option A + error) : A + error :=
  match r with
  | inl (Some a) => inl a
  | inl None => inr ErrNoRows
  | inr e => inr e
  end.

(** ** [Open]

    [parse] is [pgxpool.ParseConfig], [create] is [NewWithConfig] with the
    limit on connections, and the two checks are the start-up queries (the
    error of the query or of its rows). The result is the number of pools left
    open, and the store or an error; no text of the library's errors, which
    may hold credentials, is passed on. *)
Section Open.
Variables (parse : string -> option error) (create : string -> Z -> option error).
Variables (checkProducts checkOutbox : option error).
Definition Open (url : string) (maxConnections : Z) : nat * option error :=
  match parse url with
  | Some _ => (0%nat, Some (NewError "invalid DATABASE_URL"))
  | None =>
      if maxConnections <? 1 then (0%nat, Some (NewError "PostgreSQL connection limit must be positive"))
      else match create url maxConnections with
      | Some _ => (0%nat, Some (NewError "could not create PostgreSQL pool"))
      | None =>
          match checkProducts with
          | Some _ => (0%nat, Some (NewError "PostgreSQL startup check failed; check connectivity and apply schema.sql"))
          | None =>
              match checkOutbox with
              | Some _ => (0%nat, Some (NewError "PostgreSQL outbox startup check failed; apply schema.sql"))
              | None => (1%nat, None)
              end
          end
      end
  end.
End Open.

(** ** The statements on products *)

(** Arithmetic on [bigint] raises when it overflows. *)
Definition bigint_succ (n : Z) : option Z := if n <? maxInt64 then Some (n + 1) else None.

(** [INSERT INTO simplecache_outbox(key,version) SELECT key,version FROM changed] *)
Definition insert_event (db : DB) (key : string) (version : Z) (ts : Time) : option DB :=
  next ← bigint_succ (next_id db);
  Some (mkDB (products db)
          (outbox db ++ [mkRow (next_id db) key version ts ts None 0 None]) next).

Definition store_product (db : DB) (key : string) (p : product) (ts : Time) : option (DB * option Z) :=
  db' ← insert_event (mkDB (<[key := p]> (products db)) (outbox db) (next_id db)) key (p_version p) ts;
  Some (db', Some (p_version p)).

(** [INSERT ... ON CONFLICT (key) DO UPDATE ... [WHERE deleted]]; the version
    written, if a row was. *)
Definition sql_upsert (only_deleted : bool) (key : string) (value : bytes) (ts : Time) (db : DB)
    : option (DB * option Z) :=
  match products db !! key with
  | None => store_product db key (mkProduct value 1 false) ts
  | Some p =>
      if only_deleted && negb (p_deleted p) then Some (db, None)
      else v ← bigint_succ (p_version p); store_product db key (mkProduct value v false) ts
  end.

(** [UPDATE ... WHERE key = $1 [AND version = $3] AND NOT deleted] *)
Definition sql_update (expected : option Z) (deleted : bool) (key : string) (value : bytes) (ts : Time) (db : DB)
    : option (DB * option Z) :=
  match products db !! key with
  | None => Some (db, None)
  | Some p =>
      if p_deleted p || match expected with Some e => negb (p_version p =? e) | None => false end
      then Some (db, None)
      else v ← bigint_succ (p_version p); store_product db key (mkProduct value v deleted) ts
  end.

(** [SELECT value, version ... WHERE key = $1 AND NOT deleted] *)
Definition sql_select (key : string) (db : DB) : option (DB * option (bytes * Z)) :=
  Some (db, match products db !! key with
            | Some p => if p_deleted p then None else Some (p_value p, p_version p)
            | None => None
            end).

(** ** [postgres.go] *)
Definition databaseError (message : string) (cause : error) : error := Wrap message cause.

Definition writeError (ctxErr : option error) (err : option error) : option error :=
  match err with
  | None => None
  | Some e => match ctxErr with
              | Some c => Some c
              | None => Some (databaseError "PostgreSQL write failed" e)
              end
  end.

Definition mutationResult (ctxErr : option error) (r : Z + error) : Z * option error :=
  match r with
  | inr e => if Is e ErrNoRows then (0, Some ErrPreconditionFailed) else (0, writeError ctxErr (Some e))
  | inl version => (version, None)
  end.

Definition validateValue (key : string) (value : bytes) : option error :=
  match ValidateKey key with
  | Some e => Some e
  | None => if MaxValueBytes <? blen value then Some ErrValueTooLarge else None
  end.

(** [ctxErr] is [ctx.Err()] when the statement has returned. *)
Definition GetVersioned (db : DB) (f : fate) (ctxErr : option error) (key : string)
    : DB * ((bytes * Z) * option error) :=
  match ValidateKey key with
  | Some e => (db, (([], 0), Some e))
  | None =>
      let '(db', r) := run f (sql_select key) db in
      (db', match scan r with
            | inl v => (v, None)
            | inr e => if Is e ErrNoRows then (([], 0), Some ErrNotFound)
                       else match ctxErr with
                            | Some c => (([], 0), Some c)
                            | None => (([], 0), Some (databaseError "PostgreSQL read failed" e))
                            end
            end)
  end.

Definition SourceGet (db : DB) (f : fate) (ctxErr : option error) (key : string)
    : DB * (bytes * option error) :=
  let '(db', (v, err)) := GetVersioned db f ctxErr key in (db', (v.1, err)).

(** The error of [pool.Exec]. *)
Definition exec_error {A} (r : A + error) : option error :=
  match r with inl _ => None | inr e => Some e end.

Definition Put (db : DB) (f : fate) (ctxErr : option error) (ts : Time) (key : string) (value : bytes)
    : DB * option error :=
  match validateValue key value with
  | Some e => (db, Some e)
  | None => let '(db', r) := run f (sql_upsert false key value ts) db in
            (db', writeError ctxErr (exec_error r))
  end.

Definition PutIfVersion (db : DB) (f : fate) (ctxErr : option error) (ts : Time) (key : string)
    (value : bytes) (expected : Z) : DB * (Z * option error) :=
  match validateValue key value with
  | Some e => (db, (0, Some e))
  | None =>
      if expected <? 0 then (db, (0, Some (NewError "invalid expected version")))
      else
        let stmt := if expected =? 0 then sql_upsert true key value ts
                    else sql_update (Some expected) false key value ts in
        let '(db', r) := run f stmt db in (db', mutationResult ctxErr (scan r))
  end.

Definition Delete (db : DB) (f : fate) (ctxErr : option error) (ts : Time) (key : string)
    : DB * option error :=
  match ValidateKey key with
  | Some e => (db, Some e)
  | None => let '(db', r) := run f (sql_update None true key [] ts) db in
            (db', writeError ctxErr (exec_error r))
  end.

Definition DeleteIfVersion (db : DB) (f : fate) (ctxErr : option error) (ts : Time) (key : string)
    (expected : Z) : DB * (Z * option error) :=
  match ValidateKey key with
  | Some e => (db, (0, Some e))
  | None =>
      if expected <=? 0 then (db, (0, Some (NewError "invalid expected version")))
      else let '(db', r) := run f (sql_update (Some expected) true key [] ts) db in
           (db', mutationResult ctxErr (scan r))
  end.

(** ** [outbox.go] *)
Record Event := mkEvent { EventID : Z; Key : string; EventVersion : Z; Attempt : Z }.

Definition pending (r : outboxRow) : bool := match o_delivered r with None => true | Some _ => false end.

(** [delivered_at IS NULL AND available_at<=now AND (leased_until IS NULL OR leased_until<=now)] *)
Definition claimable (tw : Time) (r : outboxRow) : bool :=
  pending r && (o_available r <=? tw) &&
  match o_leased r with None => true | Some t => t <=? tw end.

(** [ORDER BY available_at,id ... LIMIT 1] *)
Definition row_leb (a b : outboxRow) : bool :=
  (o_available a <? o_available b) || ((o_available a =? o_available b) && (o_id a <=? o_id b)).
Fixpoint first_row (rows : list outboxRow) : option outboxRow :=
  match rows with
  | [] => None
  | r :: rows' => match first_row rows' with
                  | Some r' => Some (if row_leb r r' then r else r')
                  | None => Some r
                  end
  end.

Definition update_row (rows : list outboxRow) (id : Z) (f : outboxRow -> outboxRow) : list outboxRow :=
  (fun r => if o_id r =? id then f r else r) <$> rows.

Definition lease_row (attempts : Z) (until : Time) (r : outboxRow) : outboxRow :=
  mkRow (o_id r) (o_key r) (o_version r) (o_created r) (o_available r) (Some until) attempts (o_delivered r).

(** [FOR UPDATE SKIP LOCKED]: rows another transaction holds are passed over. *)
Definition sql_claim (locked : outboxRow -> bool) (lease : Duration) (tw ts : Time) (db : DB)
    : option (DB * option Event) :=
  match first_row (filter (fun r => claimable tw r && negb (locked r) = true) (outbox db)) with
  | None => Some (db, None)
  | Some r =>
      a ← bigint_succ (o_attempts r);
      Some (mkDB (products db) (update_row (outbox db) (o_id r) (lease_row a (ts + lease))) (next_id db),
            Some (mkEvent (o_id r) (o_key r) (o_version r) a))
  end.

Definition Claim (db : DB) (f : fate) (locked : outboxRow -> bool) (tw ts : Time) (lease : Duration)
    : DB * (Event * bool * option error) :=
  let none := mkEvent 0 "" 0 0 in
  if (lease <=? 0) || (Minute <? lease) then (db, (none, false, Some (NewError "invalid outbox lease")))
  else
    let '(db', r) := run f (sql_claim locked lease tw ts) db in
    (db', match scan r with
          | inl e => (e, true, None)
          | inr e => if Is e ErrNoRows then (none, false, None)
                     else (none, false, Some (databaseError "outbox claim failed" e))
          end).

(** The rows [Finish] updates. *)
Definition finishable (event : Event) (tw : Time) (r : outboxRow) : bool :=
  (o_id r =? EventID event) && (o_attempts r =? Attempt event) && pending r &&
  match o_leased r with Some t => tw <? t | None => false end.

Definition finish_row (delivered : bool) (retry : Duration) (ts : Time) (r : outboxRow) : outboxRow :=
  mkRow (o_id r) (o_key r) (o_version r) (o_created r)
    (if delivered then o_available r else ts + retry) None (o_attempts r)
    (if delivered then Some ts else None).

(** Returns [tag.RowsAffected()]. *)
Definition sql_finish (event : Event) (delivered : bool) (retry : Duration) (tw ts : Time) (db : DB)
    : option (DB * Z) :=
  Some (mkDB (products db)
          ((fun r => if finishable event tw r then finish_row delivered retry ts r else r) <$> outbox db)
          (next_id db),
        Z.of_nat (length (filter (fun r => finishable event tw r = true) (outbox db)))).

Definition Finish (db : DB) (f : fate) (tw ts : Time) (event : Event) (delivered : bool) (retry : Duration)
    : DB * (bool * option error) :=
  if (EventID event <=? 0) || (Attempt event <=? 0) || (retry <? 0) || (Minute <? retry)
  then (db, (false, Some (NewError "invalid outbox completion")))
  else
    let '(db', r) := run f (sql_finish event delivered retry tw ts) db in
    (db', match r with
          | inl n => (n =? 1, None)
          | inr e => (false, Some (databaseError "outbox completion failed" e))
          end).

Record OutboxStats := mkOutboxStats { PurgeEligible : Z; TableBytes : Z; Pending : Z; OldestAge : Duration }.

Definition Retention : Duration := 7 * 24 * Hour.

Definition purgeable (retention : Duration) (tw : Time) (r : outboxRow) : bool :=
  match o_delivered r with Some t => t <? tw - retention | None => false end.

(** The two queries of [Stats]; [tableBytes] is [pg_total_relation_size]. *)
Definition outboxStats (db : DB) (now : Time) (tableBytes : Z) : OutboxStats :=
  let rows := filter (fun r => pending r = true) (outbox db) in
  let age := match o_created <$> rows with
             | [] => 0
             | t :: ts => now - fold_right Z.min t ts
             end in
  mkOutboxStats (Z.of_nat (length (filter (fun r => purgeable Retention now r = true) (outbox db))))
    tableBytes (Z.of_nat (length rows)) (Z.max 0 age).

(** [Stats]: two statements with their own fates. *)
Definition StoreStats (db : DB) (f1 f2 : fate) (now : Time) (tableBytes : Z) : OutboxStats * option error :=
  let s := outboxStats db now tableBytes in
  match f1 with
  | Refused e | Unheard e => (mkOutboxStats 0 0 0 0, Some (databaseError "outbox stats failed" e))
  | Answered =>
      match f2 with
      | Refused e | Unheard e =>
          (mkOutboxStats 0 0 (Pending s) 0, Some (databaseError "outbox storage stats failed" e))
      | Answered => (s, None)
      end
  end.

(** [ORDER BY delivered_at,id] of delivered rows. *)
Definition delivered_le (a b : outboxRow) : Prop :=
  default 0 (o_delivered a) < default 0 (o_delivered b) \/
  (default 0 (o_delivered a) = default 0 (o_delivered b) /\ o_id a <= o_id b).
#[export] Instance delivered_le_dec : RelDecision delivered_le.
Proof. intros a b. unfold delivered_le. apply _. Defined.

Definition purge_ids (retention : Duration) (limit : Z) (locked : outboxRow -> bool) (tw : Time) (db : DB) : list Z :=
  o_id <$> take (Z.to_nat limit)
    (merge_sort delivered_le
       (filter (fun r => purgeable retention tw r && negb (locked r) = true) (outbox db))).

Definition sql_purge (retention : Duration) (limit : Z) (locked : outboxRow -> bool) (tw : Time) (db : DB)
    : option (DB * Z) :=
  let ids := purge_ids retention limit locked tw db in
  Some (mkDB (products db) (filter (fun r => o_id r ∉ ids) (outbox db)) (next_id db),
        Z.of_nat (length (filter (fun r => o_id r ∈ ids) (outbox db)))).

Definition PurgeDelivered (db : DB) (f : fate) (locked : outboxRow -> bool) (tw : Time)
    (retention : Duration) (limit : Z) : DB * (Z * option error) :=
  if (retention <? Hour) || (limit <? 1) || (1000 <? limit)
  then (db, (0, Some (NewError "invalid outbox retention")))
  else
    let '(db', r) := run f (sql_purge retention limit locked tw) db in
    (db', match r with
          | inl n => (n, None)
          | inr e => (0, Some (databaseError "outbox retention failed" e))
          end).

(** ** Statements and fates *)

(** The version the source has committed for a key; 0 before its first write. *)
Definition committed_version (db : DB) (key : string) : Z :=
  match products db !! key with Some p => p_version p | None => 0 end.

Lemma run_cases {A} f (stmt : DB -> option (DB * A)) db db' r :
  run f stmt db = (db', r) -> db' = db \/ exists a, stmt db = Some (db', a).
Proof.
  unfold run. destruct f; [| |]; [destruct (stmt db) as [[d a]|]| |destruct (stmt db) as [[d a]|]];
    intros [= <- <-]; eauto.
Qed.

Lemma run_answered {A} f (stmt : DB -> option (DB * A)) db db' a :
  run f stmt db = (db', inl a) -> stmt db = Some (db', a).
Proof. unfold run. destruct f; [destruct (stmt db) as [[d x]|]| |destruct (stmt db) as [[d x]|]]; congruence. Qed.

(** Writing version [p_version p] of a product together with its event. *)
Lemma store_product_ok db key p ts db' o :
  store_product db key p ts = Some (db', o) ->
  o = Some (p_version p) /\ products db' = <[key := p]> (products db) /\
  outbox db' = outbox db ++ [mkRow (next_id db) key (p_version p) ts ts None 0 None] /\
  next_id db' = next_id db + 1 /\ next_id db < maxInt64.
Proof.
  unfold store_product, insert_event, bigint_succ. simpl.
  destruct (next_id db <? maxInt64) eqn:E; [|done]. reflect_bool. simpl. by intros [= <- <-].
Qed.

(** A statement that writes products either changes nothing or appends one
    version, with its event, to one key. *)
Definition writes_next (db db' : DB) (key : string) (p : product) (ts : Time) : Prop :=
  p_version p = committed_version db key + 1 /\ p_version p <= maxInt64 /\
  products db' = <[key := p]> (products db) /\
  outbox db' = outbox db ++ [mkRow (next_id db) key (p_version p) ts ts None 0 None] /\
  next_id db' = next_id db + 1 /\ next_id db < maxInt64.

Lemma bigint_succ_ok n m : bigint_succ n = Some m -> m = n + 1 /\ n < maxInt64.
Proof. unfold bigint_succ. case_bool; [|done]. reflect_bool. by intros [= <-]. Qed.

Lemma sql_upsert_ok od key value ts db db' o :
  sql_upsert od key value ts db = Some (db', o) ->
  (o = None /\ db' = db /\ od = true /\ exists p, products db !! key = Some p /\ p_deleted p = false) \/
  (exists p, o = Some (p_version p) /\ writes_next db db' key p ts /\ p_value p = value /\ p_deleted p = false /\
     (od = true -> forall q, products db !! key = Some q -> p_deleted q = true)).
Proof.
  unfold sql_upsert, writes_next, committed_version. destruct (products db !! key) as [p|] eqn:E.
  - destruct (od && negb (p_deleted p)) eqn:Eb.
    + intros [= <- <-]. reflect_bool. left. by split_and!; [..|exists p].
    + intros (v & [-> Hv]%bigint_succ_ok & H)%bind_Some.
      apply store_product_ok in H as (-> & H2 & H3 & H4 & H5). right. eexists. split; [done|]. simpl in *.
      split; [split_and!; auto; lia|]. split; [done|]. split; [done|].
      intros -> q [= <-]. by destruct (p_deleted p).
  - intros H. apply store_product_ok in H as (-> & H2 & H3 & H4 & H5). right. eexists. split; [done|]. simpl in *.
    split; [split_and!; auto; unfold maxInt64; lia|]. done.
Qed.

Lemma sql_update_ok expd del key value ts db db' o :
  sql_update expd del key value ts db = Some (db', o) ->
  (o = None /\ db' = db /\
     forall p, products db !! key = Some p -> p_deleted p = false -> exists e, expd = Some e /\ e <> p_version p) \/
  (exists p q, o = Some (p_version p) /\ writes_next db db' key p ts /\ p_value p = value /\ p_deleted p = del /\
     products db !! key = Some q /\ p_deleted q = false /\ (forall e, expd = Some e -> e = p_version q)).
Proof.
  unfold sql_update, writes_next, committed_version. destruct (products db !! key) as [p|] eqn:E.
  - destruct (p_deleted p || _) eqn:Eb.
    + intros [= <- <-]. left. split; [done|]. split; [done|]. intros q [= <-] Hd. rewrite Hd in Eb. simpl in Eb.
      destruct expd as [e|]; [|done]. reflect_bool. exists e. split; [done|congruence].
    + intros (v & [-> Hv]%bigint_succ_ok & H)%bind_Some. apply orb_false_iff in Eb as [Hd He].
      apply store_product_ok in H as (-> & H2 & H3 & H4 & H5). right. eexists _, p. split; [done|]. simpl in *.
      split; [split_and!; auto; lia|]. split_and!; auto. intros e ->. by reflect_bool.
  - intros [= <- <-]. left. split_and!; auto. done.
Qed.

(** What a mutating call does to the tables, whatever the client is told. *)
Definition mutates (db db' : DB) (key : string) : Prop :=
  db' = db \/ exists p ts, ValidateKey key = None /\ blen (p_value p) <= MaxValueBytes /\ writes_next db db' key p ts.

Lemma validateValue_ok key value :
  validateValue key value = None -> ValidateKey key = None /\ blen value <= MaxValueBytes.
Proof. unfold validateValue. destruct (ValidateKey key); [done|]. case_bool; [done|]. reflect_bool. intros _. split; [done|lia]. Qed.

Lemma Put_mutates db f c ts key value : mutates db (Put db f c ts key value).1 key.
Proof.
  unfold Put. destruct (validateValue key value) eqn:Ev; [by left|]. apply validateValue_ok in Ev as [Hk Hb].
  destruct (run f _ db) as [db' r] eqn:E. apply run_cases in E as [->|[a E]]; [by left|].
  apply sql_upsert_ok in E as [(_ & -> & _)|(p & _ & Hw & <- & _)]; [by left|]. right. eauto.
Qed.

Lemma PutIfVersion_mutates db f c ts key value expd : mutates db (PutIfVersion db f c ts key value expd).1 key.
Proof.
  unfold PutIfVersion. destruct (validateValue key value) eqn:Ev; [by left|]. apply validateValue_ok in Ev as [Hk Hb].
  destruct (expd <? 0); [by left|]. destruct (run f _ db) as [db' r] eqn:E. simpl.
  apply run_cases in E as [->|[a E]]; [by left|]. destruct (expd =? 0).
  - apply sql_upsert_ok in E as [(_ & -> & _)|(p & _ & Hw & <- & _)]; [by left|]. right. eauto.
  - apply sql_update_ok in E as [(_ & -> & _)|(p & q & _ & Hw & <- & _)]; [by left|]. right. eauto.
Qed.

Lemma Delete_mutates db f c ts key : mutates db (Delete db f c ts key).1 key.
Proof.
  unfold Delete. destruct (ValidateKey key) eqn:Hk; [by left|].
  destruct (run f _ db) as [db' r] eqn:E. apply run_cases in E as [->|[a E]]; [by left|].
  apply sql_update_ok in E as [(_ & -> & _)|(p & q & _ & Hw & Hv & _)]; [by left|].
  right. exists p, ts. split; [done|]. rewrite Hv. split; [done|done].
Qed.

Lemma DeleteIfVersion_mutates db f c ts key expd : mutates db (DeleteIfVersion db f c ts key expd).1 key.
Proof.
  unfold DeleteIfVersion. destruct (ValidateKey key) eqn:Hk; [by left|]. destruct (expd <=? 0); [by left|].
  destruct (run f _ db) as [db' r] eqn:E. apply run_cases in E as [->|[a E]]; [by left|].
  apply sql_update_ok in E as [(_ & -> & _)|(p & q & _ & Hw & Hv & _)]; [by left|].
  right. exists p, ts. split; [done|]. rewrite Hv. split; [done|done].
Qed.

(** ** Runs of the source

    Any sequence of calls with any fates. The second component is ghost: the
    rows retention has removed. *)
#[export] Instance outboxRow_eq_dec : EqDecision outboxRow.
Proof. solve_decision. Defined.

Definition purged_rows (db db' : DB) : list outboxRow :=
  filter (fun r => r ∉ outbox db') (outbox db).

Inductive db_step : DB * list outboxRow -> DB * list outboxRow -> Prop :=
| db_put db gone f c ts key value : db_step (db, gone) ((Put db f c ts key value).1, gone)
| db_putif db gone f c ts key value expd : db_step (db, gone) ((PutIfVersion db f c ts key value expd).1, gone)
| db_delete db gone f c ts key : db_step (db, gone) ((Delete db f c ts key).1, gone)
| db_deleteif db gone f c ts key expd : db_step (db, gone) ((DeleteIfVersion db f c ts key expd).1, gone)
| db_get db gone f c key : db_step (db, gone) ((GetVersioned db f c key).1, gone)
| db_claim db gone f locked tw ts lease : db_step (db, gone) ((Claim db f locked tw ts lease).1, gone)
| db_finish db gone f tw ts event delivered retry :
    db_step (db, gone) ((Finish db f tw ts event delivered retry).1, gone)
| db_purge db gone f locked tw retention limit :
    db_step (db, gone)
      ((PurgeDelivered db f locked tw retention limit).1,
       gone ++ purged_rows db (PurgeDelivered db f locked tw retention limit).1).

Definition empty_db : DB := mkDB ∅ [] 1.

(** What an event row says and never changes. *)
Definition row_event (r : outboxRow) : Z * (string * Z) := (o_id r, (o_key r, o_version r)).

(** The tables after a change of event rows that keeps what they say. *)
Definition rows_updated (db db' : DB) : Prop :=
  products db' = products db /\ next_id db' = next_id db /\
  row_event <$> outbox db' = row_event <$> outbox db /\
  forall r r', r ∈ outbox db -> r' ∈ outbox db' -> o_id r = o_id r' -> o_attempts r <= o_attempts r'.

Record dbwf (s : DB * list outboxRow) : Prop := {
  wf_ids : NoDup (o_id <$> outbox s.1 ++ s.2);
  wf_fresh : forall r, r ∈ outbox s.1 ++ s.2 -> 0 < o_id r < next_id s.1;
  wf_next : 0 < next_id s.1 <= maxInt64;
  wf_attempts : forall r, r ∈ outbox s.1 -> 0 <= o_attempts r;
  wf_event : forall r, r ∈ outbox s.1 ++ s.2 -> 1 <= o_version r <= committed_version s.1 (o_key r);
  wf_product : forall key p, products s.1 !! key = Some p ->
    ValidateKey key = None /\ blen (p_value p) <= MaxValueBytes /\ 1 <= p_version p <= maxInt64;
  wf_complete : forall key v, 1 <= v <= committed_version s.1 key ->
    exists r, r ∈ outbox s.1 ++ s.2 /\ o_key r = key /\ o_version r = v;
  wf_unique : NoDup ((fun r => (o_key r, o_version r)) <$> outbox s.1 ++ s.2);
  wf_gone : forall r, r ∈ s.2 -> pending r = false;
}.

Lemma dbwf_empty : dbwf (empty_db, []).
Proof.
  split; simpl; try (by constructor); try (by set_solver).
  intros key v. unfold committed_version. simpl. rewrite lookup_empty. lia.
Qed.

Lemma committed_insert db db' key p k :
  products db' = <[key := p]> (products db) ->
  committed_version db' k = if decide (k = key) then p_version p else committed_version db k.
Proof.
  intros E. unfold committed_version. rewrite E. case_decide as Ek.
  - subst. by rewrite lookup_insert_eq.
  - by rewrite lookup_insert_ne.
Qed.

Lemma dbwf_mutates db db' key gone : dbwf (db, gone) -> mutates db db' key -> dbwf (db', gone).
Proof.
  intros Hw [->|(p & ts & Hk & Hb & (Hv & Hmax & HP & HO & HN & Hlt))]; [done|].
  destruct Hw as [Hid Hfr Hnx Hat Hev Hpr Hco Hun Hgo]. simpl in *.
  set (row := mkRow (next_id db) key (p_version p) ts ts None 0 None) in *.
  assert (outbox db' ++ gone ≡ₚ row :: (outbox db ++ gone)) as HPerm by (rewrite HO; solve_Permutation).
  assert (forall r, r ∈ outbox db' ++ gone <-> r = row \/ r ∈ outbox db ++ gone) as Hin
    by (intros r; by rewrite HPerm, elem_of_cons).
  pose proof (committed_insert db db' key p) as HC. specialize (fun k => HC k HP) as HC'. clear HC.
  assert (0 <= committed_version db key) as Hc0.
  { unfold committed_version. destruct (products db !! key) eqn:E; [|done]. apply Hpr in E. lia. }
  split; simpl.
  - rewrite HPerm. simpl. constructor; [|done]. intros (r & E & Hr)%list_elem_of_fmap.
    specialize (Hfr r Hr). simpl in E. lia.
  - intros r [->|Hr]%Hin; simpl; [lia|]. specialize (Hfr r Hr). lia.
  - lia.
  - rewrite HO. intros r [Hr| ->%list_elem_of_singleton]%elem_of_app; [auto|done].
  - intros r [->|Hr]%Hin; rewrite HC'; simpl.
    + rewrite decide_True by done. lia.
    + specialize (Hev r Hr). case_decide as E; [rewrite E in Hev|]; lia.
  - intros k q. rewrite HP. intros [[<- <-]|[_ Hq]]%lookup_insert_Some; [|by apply Hpr].
    split_and!; [done|done|lia|done].
  - intros k v. rewrite HC'. intros Hkv. setoid_rewrite Hin. case_decide as E.
    + subst k. destruct (decide (v = p_version p)) as [->|Hne]; [exists row; by split_and!; [left|..]|].
      destruct (Hco key v) as (r & ? & ? & ?); [lia|]. exists r. by split_and!; [right|..].
    + destruct (Hco k v Hkv) as (r & ? & ? & ?). exists r. by split_and!; [right|..].
  - rewrite HPerm. simpl. constructor; [|done]. intros (r & [= Ek Ev] & Hr)%list_elem_of_fmap.
    specialize (Hev r Hr). rewrite <- Ek in Hev. lia.
  - done.
Qed.

Lemma fmap_row_event {A} (g : Z * (string * Z) -> A) (l l' : list outboxRow) :
  row_event <$> l' = row_event <$> l -> g ∘ row_event <$> l' = g ∘ row_event <$> l.
Proof. intros E. by rewrite !list_fmap_compose, E. Qed.

Lemma dbwf_updated db db' gone : dbwf (db, gone) -> rows_updated db db' ->
  (forall r', r' ∈ outbox db' -> 0 <= o_attempts r') -> dbwf (db', gone).
Proof.
  intros [Hid Hfr Hnx Hat Hev Hpr Hco Hun Hgo] (HP & HN & HE & _) Ha. simpl in *.
  assert (forall k, committed_version db' k = committed_version db k) as HC
    by (intros k; unfold committed_version; by rewrite HP).
  assert (forall r', r' ∈ outbox db' ++ gone -> exists r, r ∈ outbox db ++ gone /\ row_event r = row_event r') as Hback.
  { intros r' [Hr|Hr]%elem_of_app; [|exists r'; split; [apply elem_of_app; by right|done]].
    assert (row_event r' ∈ row_event <$> outbox db') as Hm by by apply list_elem_of_fmap_2.
    rewrite HE in Hm. apply list_elem_of_fmap in Hm as (r & E & Hr'). exists r. split; [apply elem_of_app; by left|done]. }
  assert (forall r, r ∈ outbox db ++ gone -> exists r', r' ∈ outbox db' ++ gone /\ row_event r' = row_event r) as Hfwd.
  { intros r [Hr|Hr]%elem_of_app; [|exists r; split; [apply elem_of_app; by right|done]].
    assert (row_event r ∈ row_event <$> outbox db) as Hm by by apply list_elem_of_fmap_2.
    rewrite <- HE in Hm. apply list_elem_of_fmap in Hm as (r' & E & Hr'). exists r'. split; [apply elem_of_app; by left|done]. }
  split; simpl; rewrite ?HN, ?HP; auto.
  - rewrite fmap_app in *. by rewrite (fmap_row_event fst _ _ HE : o_id <$> outbox db' = o_id <$> outbox db).
  - intros r' Hr'. destruct (Hback r' Hr') as (r & Hr & [= E1 _ _]). rewrite <- E1. auto.
  - intros r' Hr'. destruct (Hback r' Hr') as (r & Hr & [= _ E2 E3]). rewrite HC, <- E2, <- E3. auto.
  - intros key v. rewrite HC. intros Hv. destruct (Hco key v Hv) as (r & Hr & Ek & Ev).
    destruct (Hfwd r Hr) as (r' & Hr' & [= _ E2 E3]). exists r'. split_and!; [done|congruence|congruence].
  - rewrite fmap_app in *.
    by rewrite (fmap_row_event snd _ _ HE :
      (fun r => (o_key r, o_version r)) <$> outbox db' = (fun r => (o_key r, o_version r)) <$> outbox db).
Qed.

(** ** Event rows *)

Lemma row_by_id rows (r r' : outboxRow) :
  NoDup (o_id <$> rows) -> r ∈ rows -> r' ∈ rows -> o_id r = o_id r' -> r = r'.
Proof.
  intros Hnd [i Hi]%list_elem_of_lookup [j Hj]%list_elem_of_lookup E.
  assert (i = j) as ->; [|congruence].
  eapply NoDup_lookup; [done|rewrite list_lookup_fmap, Hi; done|rewrite list_lookup_fmap, Hj; simpl; congruence].
Qed.

Lemma row_leb_refl r : row_leb r r = true.
Proof. unfold row_leb. rewrite Z.eqb_refl, Z.leb_refl. apply orb_true_r. Qed.

Lemma row_leb_total a b : row_leb a b = false -> row_leb b a = true.
Proof.
  unfold row_leb. intros H. apply orb_false_iff in H as [H1 H2]. reflect_bool.
  apply andb_false_iff in H2. apply orb_true_iff. rewrite andb_true_iff.
  rewrite Z.ltb_lt, Z.eqb_eq, Z.leb_le. destruct H2; reflect_bool; lia.
Qed.

Lemma row_leb_trans a b c : row_leb a b = true -> row_leb b c = true -> row_leb a c = true.
Proof.
  unfold row_leb. rewrite !orb_true_iff, !andb_true_iff, !Z.ltb_lt, !Z.eqb_eq, !Z.leb_le. lia.
Qed.

Lemma first_row_some rows r :
  first_row rows = Some r -> r ∈ rows /\ forall x, x ∈ rows -> row_leb r x = true.
Proof.
  revert r. induction rows as [|y rows IH]; intros r; simpl; [done|].
  destruct (first_row rows) as [r'|] eqn:E.
  - destruct (IH r' eq_refl) as [Hin Hmin]. destruct (row_leb y r') eqn:El; intros [= <-].
    + split; [set_solver|]. intros x [->|Hx]%elem_of_cons; [apply row_leb_refl|].
      eapply row_leb_trans; [done|auto].
    + split; [set_solver|]. intros x [->|Hx]%elem_of_cons; [by apply row_leb_total|auto].
  - destruct rows as [|z rows]; [|simpl in E; by destruct (first_row rows)].
    intros [= <-]. split; [set_solver|]. intros x ->%list_elem_of_singleton. apply row_leb_refl.
Qed.

Lemma first_row_none rows : first_row rows = None -> rows = [].
Proof. destruct rows as [|r rows]; [done|]. simpl. by destruct (first_row rows). Qed.

Lemma sql_claim_ok locked lease tw ts db db' e :
  NoDup (o_id <$> outbox db) -> sql_claim locked lease tw ts db = Some (db', Some e) ->
  exists r, r ∈ outbox db /\ claimable tw r = true /\ locked r = false /\
    (forall x, x ∈ outbox db -> claimable tw x = true -> locked x = false -> row_leb r x = true) /\
    e = mkEvent (o_id r) (o_key r) (o_version r) (o_attempts r + 1) /\ o_attempts r < maxInt64 /\
    db' = mkDB (products db) (update_row (outbox db) (o_id r) (lease_row (o_attempts r + 1) (ts + lease))) (next_id db).
Proof.
  intros Hnd. unfold sql_claim. destruct (first_row _) as [r|] eqn:E; [|done].
  intros (a & [-> Ha]%bigint_succ_ok & [= <- <-])%bind_Some.
  apply first_row_some in E as [[Hc Hin]%list_elem_of_filter Hmin]. reflect_bool.
  exists r. split_and!; auto. intros x Hx Hxc Hxl. apply Hmin, list_elem_of_filter.
  by rewrite Hxc, Hxl.
Qed.

Lemma update_row_event rows id f :
  (forall r, row_event (f r) = row_event r) -> row_event <$> update_row rows id f = row_event <$> rows.
Proof.
  intros Hf. unfold update_row. rewrite <- list_fmap_compose. apply list_fmap_ext.
  intros i r _. simpl. case_bool; [apply Hf|done].
Qed.

Lemma Claim_updates db gone f locked tw ts lease :
  dbwf (db, gone) -> rows_updated db (Claim db f locked tw ts lease).1 /\
    forall r', r' ∈ outbox (Claim db f locked tw ts lease).1 -> 0 <= o_attempts r'.
Proof.
  intros Hw. pose proof (wf_attempts _ Hw) as Hat. simpl in Hat.
  assert (NoDup (o_id <$> outbox db)) as Hnd.
  { pose proof (wf_ids _ Hw) as H. simpl in H. rewrite fmap_app in H. by apply NoDup_app in H as [? _]. }
  assert (rows_updated db db /\ forall r', r' ∈ outbox db -> 0 <= o_attempts r') as Hsame.
  { split; [|done]. split_and!; auto. intros r r' Hr Hr' E. rewrite (row_by_id _ _ _ Hnd Hr Hr' E). lia. }
  unfold Claim. case_bool; [done|]. destruct (run f _ db) as [db' res] eqn:E. simpl.
  apply run_cases in E as [->|[[e|] E]]; [done| |].
  2: { unfold sql_claim in E. destruct (first_row _); [|by simplify_eq].
       by apply bind_Some in E as (a & _ & [= <-]). }
  apply sql_claim_ok in E as (r & Hr & _ & _ & _ & _ & _ & ->); [|done].
  assert (forall x', x' ∈ update_row (outbox db) (o_id r) (lease_row (o_attempts r + 1) (ts + lease)) ->
    exists x, x ∈ outbox db /\ o_id x = o_id x' /\ o_attempts x <= o_attempts x') as Hback.
  { intros x' (x & -> & Hx)%list_elem_of_fmap. exists x. split; [done|]. case_bool; [|split; [done|lia]].
    reflect_bool. rewrite (row_by_id _ x r Hnd Hx Hr) by done. simpl. split; [done|lia]. }
  split.
  - split; [done|]. split; [done|]. split; [by apply update_row_event|].
    intros x x' Hx Hx' Ex. destruct (Hback x' Hx') as (y & Hy & Ey & Hle).
    rewrite (row_by_id _ x y Hnd Hx Hy) by congruence. done.
  - intros x' Hx'. destruct (Hback x' Hx') as (y & Hy & _ & Hle). specialize (Hat y Hy). lia.
Qed.

Lemma Finish_updates db gone f tw ts event dlv retry :
  dbwf (db, gone) -> rows_updated db (Finish db f tw ts event dlv retry).1 /\
    forall r', r' ∈ outbox (Finish db f tw ts event dlv retry).1 -> 0 <= o_attempts r'.
Proof.
  intros Hw. pose proof (wf_attempts _ Hw) as Hat. simpl in Hat.
  assert (NoDup (o_id <$> outbox db)) as Hnd.
  { pose proof (wf_ids _ Hw) as H. simpl in H. rewrite fmap_app in H. by apply NoDup_app in H as [? _]. }
  assert (rows_updated db db /\ forall r', r' ∈ outbox db -> 0 <= o_attempts r') as Hsame.
  { split; [|done]. split_and!; auto. intros r r' Hr Hr' E. rewrite (row_by_id _ _ _ Hnd Hr Hr' E). lia. }
  unfold Finish. case_bool; [done|]. destruct (run f _ db) as [db' res] eqn:E. simpl.
  apply run_cases in E as [->|[n E]]; [done|]. injection E as <- <-.
  assert (forall x', x' ∈ (fun r => if finishable event tw r then finish_row dlv retry ts r else r) <$> outbox db ->
    exists x, x ∈ outbox db /\ o_id x = o_id x' /\ o_attempts x = o_attempts x') as Hback.
  { intros x' (x & -> & Hx)%list_elem_of_fmap. exists x. split; [done|]. by case_bool. }
  split.
  - split; [done|]. split; [done|]. split.
    + simpl. rewrite <- list_fmap_compose. apply list_fmap_ext. intros i r _. simpl. by case_bool.
    + simpl. intros x x' Hx Hx' Ex. destruct (Hback x' Hx') as (y & Hy & Ey & Hle).
      rewrite (row_by_id _ x y Hnd Hx Hy) by congruence. lia.
  - simpl. intros x' Hx'. destruct (Hback x' Hx') as (y & Hy & _ & <-). auto.
Qed.

(** Retention removes delivered rows, at most [limit] of them. *)
Lemma purge_ids_delivered retention limit locked tw db r :
  NoDup (o_id <$> outbox db) -> r ∈ outbox db -> o_id r ∈ purge_ids retention limit locked tw db ->
  purgeable retention tw r = true.
Proof.
  intros Hnd Hr (r' & E & Hr')%list_elem_of_fmap.
  apply elem_of_take in Hr' as (i & Hi & _). apply list_elem_of_lookup_2 in Hi.
  rewrite (merge_sort_Permutation delivered_le) in Hi. apply list_elem_of_filter in Hi as [Hp Hin].
  rewrite (row_by_id _ _ _ Hnd Hr Hin E). by reflect_bool.
Qed.

Lemma dbwf_purge db gone f locked tw retention limit :
  dbwf (db, gone) ->
  dbwf ((PurgeDelivered db f locked tw retention limit).1,
        gone ++ purged_rows db (PurgeDelivered db f locked tw retention limit).1).
Proof.
  intros Hw.
  assert (NoDup (o_id <$> outbox db)) as Hnd.
  { pose proof (wf_ids _ Hw) as H. simpl in H. rewrite fmap_app in H. by apply NoDup_app in H as [? _]. }
  assert (forall d, outbox d = outbox db -> gone ++ purged_rows db d = gone) as Hnone.
  { intros d E. unfold purged_rows. rewrite E, filter_all_false; [by rewrite app_nil_r|]. by intros x Hx Hn. }
  unfold PurgeDelivered. case_bool; [by rewrite Hnone|].
  destruct (run f _ db) as [db' res] eqn:E. simpl.
  apply run_cases in E as [->|[n E]]; [by rewrite Hnone|]. injection E as E _.
  set (ids := purge_ids retention limit locked tw db) in *.
  assert (purged_rows db db' = filter (fun r => ~ (o_id r ∉ ids)) (outbox db)) as HR.
  { unfold purged_rows. subst db'. simpl. apply filter_ext_elem. intros r Hr.
    rewrite list_elem_of_filter. naive_solver. }
  assert (outbox db' ++ (gone ++ purged_rows db db') ≡ₚ outbox db ++ gone) as HPerm.
  { rewrite HR. subst db'. simpl. pose proof (filter_partition (fun r => o_id r ∉ ids) (outbox db)) as HPP.
    set (A := filter (fun r => o_id r ∉ ids) (outbox db)) in *.
    set (B := filter (fun r => ~ (o_id r ∉ ids)) (outbox db)) in *. rewrite HPP. solve_Permutation. }
  assert (forall k, committed_version db' k = committed_version db k) as HC by (by subst db').
  assert (forall r, r ∈ outbox db' -> r ∈ outbox db) as Hsub.
  { subst db'. simpl. by intros r [_ ?]%list_elem_of_filter. }
  destruct Hw as [Hid Hfr Hnx Hat Hev Hpr Hco Hun Hgo]. simpl in *.
  split; simpl.
  - by rewrite HPerm.
  - intros r. rewrite HPerm. subst db'. apply Hfr.
  - by subst db'.
  - auto.
  - intros r. rewrite HPerm, HC. apply Hev.
  - by subst db'.
  - intros key v. rewrite HC. setoid_rewrite HPerm. apply Hco.
  - by rewrite HPerm.
  - intros r [Hr|Hr]%elem_of_app; [auto|]. rewrite HR in Hr. apply list_elem_of_filter in Hr as [Hr Hin].
    apply dec_stable in Hr. pose proof (purge_ids_delivered _ _ _ _ _ _ Hnd Hin Hr) as Hp.
    unfold purgeable in Hp. unfold pending. by destruct (o_delivered r).
Qed.

Lemma GetVersioned_db db f c key : (GetVersioned db f c key).1 = db.
Proof.
  unfold GetVersioned. destruct (ValidateKey key); [done|]. destruct (run f _ db) as [db' r] eqn:E. simpl.
  apply run_cases in E as [->|[a E]]; [done|]. by injection E as <- _.
Qed.

Lemma db_step_wf s s' : dbwf s -> db_step s s' -> dbwf s'.
Proof.
  intros Hw. destruct 1; simpl; rewrite ?GetVersioned_db; try done.
  - eapply dbwf_mutates; [done|apply Put_mutates].
  - eapply dbwf_mutates; [done|apply PutIfVersion_mutates].
  - eapply dbwf_mutates; [done|apply Delete_mutates].
  - eapply dbwf_mutates; [done|apply DeleteIfVersion_mutates].
  - edestruct Claim_updates as [? ?]; [done|]. by eapply dbwf_updated.
  - edestruct Finish_updates as [? ?]; [done|]. by eapply dbwf_updated.
  - by apply dbwf_purge.
Qed.

Lemma db_steps_wf s s' : dbwf s -> rtc db_step s s' -> dbwf s'.
Proof. intros Hw Hr. induction Hr; eauto using db_step_wf. Qed.

Lemma wf_outbox_ids db gone : dbwf (db, gone) -> NoDup (o_id <$> outbox db).
Proof.
  intros Hw. pose proof (wf_ids _ Hw) as H. simpl in H. rewrite fmap_app in H. by apply NoDup_app in H as [? _].
Qed.

(** C8: every version the source ever committed has exactly one event, written
    in the same transaction: while undelivered it is in the outbox, where no
    crash, lost answer, failed delivery or retention run can remove it, and
    every event in the outbox announces a version that was committed. *)
Theorem outbox_complete db gone :
  rtc db_step (empty_db, []) (db, gone) ->
  (forall key v, 1 <= v <= committed_version db key ->
     exists r, r ∈ outbox db ++ gone /\ o_key r = key /\ o_version r = v /\
       (pending r = true -> r ∈ outbox db) /\
       forall r', r' ∈ outbox db ++ gone -> o_key r' = key -> o_version r' = v -> r' = r) /\
  (forall r, r ∈ outbox db -> 1 <= o_version r <= committed_version db (o_key r)).
Proof.
  intros Hr. pose proof (db_steps_wf _ _ dbwf_empty Hr) as [Hid Hfr Hnx Hat Hev Hpr Hco Hun Hgo]. simpl in *.
  split; [|intros r Hin; apply Hev, elem_of_app; by left].
  intros key v Hv. destruct (Hco key v Hv) as (r & Hin & Ek & Ev). exists r. split_and!; auto.
  - intros Hp. apply elem_of_app in Hin as [Hin|Hin]; [done|]. by rewrite (Hgo r Hin) in Hp.
  - intros r' [i Hi]%list_elem_of_lookup Ek' Ev'. apply list_elem_of_lookup in Hin as [j Hj].
    assert (i = j) as ->; [|congruence].
    eapply NoDup_lookup; [exact Hun|rewrite list_lookup_fmap, Hi; done|].
    rewrite list_lookup_fmap, Hj. simpl. congruence.
Qed.

(** One call keeps a key's row or replaces it by one with a higher version. *)
Definition row_grows (db db' : DB) : Prop :=
  forall key p, products db !! key = Some p ->
    exists p', products db' !! key = Some p' /\ (p' = p \/ p_version p < p_version p').

Lemma row_grows_same db db' : products db' = products db -> row_grows db db'.
Proof. intros E key p Hp. rewrite E. eauto. Qed.

Lemma mutates_grows db db' key : mutates db db' key -> row_grows db db'.
Proof.
  intros [->|(p & ts & _ & _ & (Hv & _ & HP & _))]; [by apply row_grows_same|].
  intros k q Hq. rewrite HP. destruct (decide (k = key)) as [->|Hne].
  - rewrite lookup_insert_eq. exists p. split; [done|]. right. unfold committed_version in Hv.
    rewrite Hq in Hv. lia.
  - rewrite lookup_insert_ne by done. eauto.
Qed.

Lemma db_step_grows s s' : dbwf s -> db_step s s' -> row_grows s.1 s'.1.
Proof.
  intros Hw. destruct 1; simpl; rewrite ?GetVersioned_db; try (by apply row_grows_same).
  - eapply mutates_grows, Put_mutates.
  - eapply mutates_grows, PutIfVersion_mutates.
  - eapply mutates_grows, Delete_mutates.
  - eapply mutates_grows, DeleteIfVersion_mutates.
  - edestruct Claim_updates as [[? _] _]; [done|]. by apply row_grows_same.
  - edestruct Finish_updates as [[? _] _]; [done|]. by apply row_grows_same.
  - apply row_grows_same. unfold PurgeDelivered. case_bool; [done|]. destruct (run f _ db) as [db' r] eqn:E.
    apply run_cases in E as [->|[a E]]; [done|]. by injection E as <- _.
Qed.

(** A key's row is never removed and its version never repeats: after any
    calls the key still has a row, which is unchanged or has a strictly higher
    version, through deletion and recreation, so a version a client once saw
    can only match the row it saw it with. *)
Theorem source_versions_grow db gone db' gone' key p :
  rtc db_step (empty_db, []) (db, gone) -> rtc db_step (db, gone) (db', gone') ->
  products db !! key = Some p ->
  exists p', products db' !! key = Some p' /\ (p' = p \/ p_version p < p_version p').
Proof.
  intros Hr Hr'. pose proof (db_steps_wf _ _ dbwf_empty Hr) as Hw. clear Hr.
  remember (db, gone) as s eqn:Es. remember (db', gone') as s' eqn:Es'.
  revert db gone p Hw Es. induction Hr' as [s|s s1 s2 Hs Hr IH]; intros db gone p Hw Es Hp; subst.
  - simplify_eq. eauto.
  - destruct s1 as [db1 gone1]. destruct (db_step_grows _ _ Hw Hs key p Hp) as (p1 & Hp1 & H1). simpl in Hp1.
    destruct (IH eq_refl db1 gone1 p1 (db_step_wf _ _ Hw Hs) eq_refl Hp1) as (p2 & Hp2 & H2).
    exists p2. split; [done|]. destruct H1 as [->|?], H2 as [->|?]; auto; right; lia.
Qed.

(** ** Conditional writes *)

(** What [ctx.Err()] can be. *)
Definition ctx_error (c : option error) : Prop :=
  c = None \/ c = Some Canceled \/ c = Some DeadlineExceeded.

(** The state of a key that [PutIfVersion] with this version accepts. *)
Definition matches (db : DB) (key : string) (expected : Z) : Prop :=
  if expected =? 0 then forall p, products db !! key = Some p -> p_deleted p = true
  else exists p, products db !! key = Some p /\ p_deleted p = false /\ p_version p = expected.

Definition put_stmt (key : string) (value : bytes) (expected : Z) (ts : Time) : DB -> option (DB * option Z) :=
  if expected =? 0 then sql_upsert true key value ts else sql_update (Some expected) false key value ts.

Lemma put_stmt_ok key value expected ts db db' o :
  put_stmt key value expected ts db = Some (db', o) ->
  (o = None /\ db' = db /\ ~ matches db key expected) \/
  (exists v, o = Some v /\ matches db key expected /\ writes_next db db' key (mkProduct value v false) ts).
Proof.
  unfold put_stmt, matches. destruct (expected =? 0).
  - intros [(-> & -> & _ & p & Hp & Hd)|(p & -> & Hw & <- & Hd & Hm)]%sql_upsert_ok.
    + left. split_and!; auto. intros H. by rewrite (H p Hp) in Hd.
    + right. eexists. split; [done|]. split; [by apply Hm|]. destruct p. simpl in *. by subst.
  - intros [(-> & -> & Hm)|(p & q & -> & Hw & <- & Hd & Hq & Hqd & He)]%sql_update_ok.
    + left. split_and!; auto. intros (q & Hq & Hqd & E). destruct (Hm q Hq Hqd) as (e & [= <-] & ?). congruence.
    + right. eexists. split; [done|]. split; [exists q; split_and!; auto; symmetry; auto|].
      destruct p. simpl in *. by subst.
Qed.

Lemma PutIfVersion_ok db f c ts key value expected :
  let '(db', (v, err)) := PutIfVersion db f c ts key value expected in
  (db' <> db -> matches db key expected /\ exists v', writes_next db db' key (mkProduct value v' false) ts) /\
  (err = None -> matches db key expected /\ writes_next db db' key (mkProduct value v false) ts) /\
  (f = Answered -> ctx_error c -> err = Some ErrPreconditionFailed -> db' = db /\ ~ matches db key expected) /\
  (f = Answered -> validateValue key value = None -> 0 <= expected -> matches db key expected ->
   committed_version db key < maxInt64 -> next_id db < maxInt64 -> err = None).
Proof.
  unfold PutIfVersion. destruct (validateValue key value) as [e0|] eqn:Ev.
  { split_and!; try done. intros _ _ [= ->]. unfold validateValue, ValidateKey in Ev.
    by repeat (case_bool; simplify_eq). }
  destruct (expected <? 0) eqn:Ee; reflect_bool; [split_and!; try done; lia|].
  fold (put_stmt key value expected ts). destruct (run f (put_stmt key value expected ts) db) as [db' r] eqn:Er.
  destruct (mutationResult c (scan r)) as [v err] eqn:Em. split; [|split; [|split]].
  - intros Hne. apply run_cases in Er as [->|[o E]]; [done|].
    apply put_stmt_ok in E as [(_ & -> & _)|(v' & _ & Hm & Hw)]; [done|eauto].
  - intros ->. destruct r as [[n|]|e]; simpl in Em; [|done|by case_bool; destruct c]. injection Em as ->.
    apply run_answered, put_stmt_ok in Er as [(? & _)|(v' & [= ->] & Hm & Hw)]; [done|]. done.
  - intros -> Hc Herr. unfold run in Er. destruct (put_stmt key value expected ts db) as [[d o]|] eqn:E.
    + injection Er as <- <-. apply put_stmt_ok in E as [(-> & -> & Hm)|(v' & -> & _)]; [done|]. simplify_eq/=.
    + injection Er as <- <-. destruct Hc as [->|[->| ->]]; simplify_eq/=.
  - intros -> Hval H0 Hm Hc Hn.
    assert (exists d v, put_stmt key value expected ts db = Some (d, Some v)) as (d & v' & E).
    { unfold put_stmt, matches, committed_version in *. destruct (expected =? 0).
      - unfold sql_upsert. destruct (products db !! key) as [p|] eqn:Hp.
        + rewrite (Hm p eq_refl). simpl. unfold bigint_succ, store_product, insert_event, bigint_succ. simpl.
          rewrite (proj2 (Z.ltb_lt (p_version p) _)) by done. simpl.
          rewrite (proj2 (Z.ltb_lt (next_id db) _)) by done. simpl. eauto.
        + unfold store_product, insert_event, bigint_succ. simpl.
          rewrite (proj2 (Z.ltb_lt (next_id db) _)) by done. simpl. eauto.
      - destruct Hm as (p & Hp & Hd & E). unfold sql_update. rewrite Hp in *. rewrite Hd, E, Z.eqb_refl. simpl.
        unfold store_product, insert_event, bigint_succ. simpl. rewrite E in Hc.
        rewrite (proj2 (Z.ltb_lt expected _)) by done. simpl.
        rewrite (proj2 (Z.ltb_lt (next_id db) _)) by done. simpl. eauto. }
    unfold run in Er. rewrite E in Er. injection Er as <- <-. by injection Em as <- <-.
Qed.

(** C24: [PutIfVersion] is a compare-and-set with exactly one event. The tables
    change only if the key's state matches the expected version (zero: no live
    row), and then by the next version of that value and its event; success
    reports that version; a precondition failure that the database answered
    means nothing was written and the state did not match; and an accepted
    write the database answered is reported as a success unless a sequence is
    exhausted. *)
Theorem PutIfVersion_contract db f c ts key value expected :
  let '(db', (v, err)) := PutIfVersion db f c ts key value expected in
  (db' <> db -> matches db key expected /\ exists v', writes_next db db' key (mkProduct value v' false) ts) /\
  (err = None -> matches db key expected /\ writes_next db db' key (mkProduct value v false) ts) /\
  (f = Answered -> ctx_error c -> err = Some ErrPreconditionFailed -> db' = db /\ ~ matches db key expected) /\
  (f = Answered -> validateValue key value = None -> 0 <= expected -> matches db key expected ->
   committed_version db key < maxInt64 -> next_id db < maxInt64 -> err = None).
Proof. apply PutIfVersion_ok. Qed.

Lemma DeleteIfVersion_ok db f c ts key expected :
  let '(db', (v, err)) := DeleteIfVersion db f c ts key expected in
  (db' <> db -> (exists p, products db !! key = Some p /\ p_deleted p = false /\ p_version p = expected) /\
     writes_next db db' key (mkProduct [] (expected + 1) true) ts) /\
  (err = None -> v = expected + 1 /\ db' <> db) /\
  (f = Answered -> ctx_error c -> err = Some ErrPreconditionFailed -> db' = db).
Proof.
  unfold DeleteIfVersion. destruct (ValidateKey key) as [e|] eqn:Ek; [by split_and!|].
  destruct (expected <=? 0) eqn:Ee; [by split_and!|]. reflect_bool.
  destruct (run f _ db) as [db' r] eqn:Er. destruct (mutationResult c (scan r)) as [v err] eqn:Em.
  assert (forall o, sql_update (Some expected) true key [] ts db = Some (db', o) ->
    (o = None /\ db' = db) \/
    (o = Some (expected + 1) /\ (exists p, products db !! key = Some p /\ p_deleted p = false /\ p_version p = expected) /\
     writes_next db db' key (mkProduct [] (expected + 1) true) ts)) as Hstmt.
  { intros o [(-> & -> & _)|(p & q & -> & Hw & Hv & Hd & Hq & Hqd & He)]%sql_update_ok; [by left|]. right.
    specialize (He expected eq_refl). subst expected. destruct Hw as (Hw1 & Hw).
    unfold committed_version in Hw1. rewrite Hq in Hw1. destruct p as [pv pn pd]. simpl in *. subst.
    split; [done|]. split; [eauto|]. split; [|done]. simpl. unfold committed_version. by rewrite Hq. }
  split; [|split].
  - intros Hne. apply run_cases in Er as [->|[o E]]; [done|].
    destruct (Hstmt o E) as [[_ ->]|(_ & H)]; done.
  - intros ->. destruct r as [[n|]|e]; simpl in Em; [|done|by case_bool; destruct c]. injection Em as ->.
    apply run_answered in Er. destruct (Hstmt _ Er) as [[? _]|([= ->] & _ & Hw)]; [done|].
    split; [done|]. intros ->. destruct Hw as (_ & _ & _ & _ & Hn & _). lia.
  - intros -> Hc Herr. unfold run in Er. destruct (sql_update _ _ _ _ _ db) as [[d o]|] eqn:E; injection Er as <- <-.
    + destruct (Hstmt o eq_refl) as [[_ ->]|(-> & _)]; [done|]. simplify_eq/=.
    + done.
Qed.

(** [DeleteIfVersion] writes only over a live row of exactly that version:
    the next version as a tombstone, with its event; success reports that
    version, and a precondition failure the database answered means nothing
    was written. *)
Theorem DeleteIfVersion_contract db f c ts key expected :
  let '(db', (v, err)) := DeleteIfVersion db f c ts key expected in
  (db' <> db -> (exists p, products db !! key = Some p /\ p_deleted p = false /\ p_version p = expected) /\
     writes_next db db' key (mkProduct [] (expected + 1) true) ts) /\
  (err = None -> v = expected + 1 /\ db' <> db) /\
  (f = Answered -> ctx_error c -> err = Some ErrPreconditionFailed -> db' = db).
Proof. apply DeleteIfVersion_ok. Qed.

(** A successful read is of one committed snapshot: it returns the live
    row's value with that row's version, which is the committed version of the
    key and within the bounds the cache asks for; a missing or deleted key is
    reported as not found, and a read never changes the tables. *)
Theorem GetVersioned_snapshot db gone f c key :
  rtc db_step (empty_db, []) (db, gone) ->
  let '(db', ((value, v), err)) := GetVersioned db f c key in
  db' = db /\
  (err = None -> products db !! key = Some (mkProduct value v false) /\ v = committed_version db key /\
     1 <= v <= maxInt64 /\ blen value <= MaxValueBytes) /\
  (f = Answered -> ValidateKey key = None ->
     (err = Some ErrNotFound <-> forall p, products db !! key = Some p -> p_deleted p = true)).
Proof.
  intros Hr. pose proof (db_steps_wf _ _ dbwf_empty Hr) as Hw.
  pose proof (GetVersioned_db db f c key) as Hdb. revert Hdb.
  unfold GetVersioned. destruct (ValidateKey key) as [e|] eqn:Ek; [intros _; by split_and!|].
  destruct (run f (sql_select key) db) as [db' r] eqn:Er. simpl. intros ->.
  destruct (scan r) as [[value v]|e] eqn:Es.
  - destruct r as [[a|]|e]; [|done..]. injection Es as ->. apply run_answered in Er.
    injection Er as Ep. destruct (products db !! key) as [p|] eqn:Hp; [|done].
    destruct (p_deleted p) eqn:Hd; [done|]. injection Ep as <- <-. split; [done|]. split.
    + intros _. destruct (wf_product _ Hw key p Hp) as (_ & Hb & Hv). unfold committed_version. rewrite Hp.
      destruct p. simpl in *. by subst.
    + intros _ _. split; [done|]. intros H. by rewrite (H p eq_refl) in Hd.
  - assert (f = Answered -> Is e ErrNoRows = true /\ forall p, products db !! key = Some p -> p_deleted p = true) as HA.
    { intros ->. unfold run, sql_select in Er. injection Er as <-.
      destruct (products db !! key) as [p|] eqn:Hp; [destruct (p_deleted p) eqn:Hd|];
        simpl in Es; try done; injection Es as <-; (split; [done|]); [|done].
      by intros p' [= <-]. }
    destruct (Is e ErrNoRows) eqn:En; [|destruct c]; (split; [done|]; split; [done|]);
      intros Hf; destruct (HA Hf) as [? ?]; done.
Qed.

(** ** Leases *)

(** All rows of an event carry at least this attempt, now and forever. *)
Definition attempts_from (db : DB) (id a : Z) : Prop :=
  id < next_id db /\ forall r, r ∈ outbox db -> o_id r = id -> a <= o_attempts r.

Lemma updated_attempts db db' id a : attempts_from db id a -> rows_updated db db' -> attempts_from db' id a.
Proof.
  intros [Hid Ha] (_ & HN & HE & Hatt). split; [by rewrite HN|]. intros r' Hr' E.
  assert (row_event r' ∈ row_event <$> outbox db') as Hm by by apply list_elem_of_fmap_2.
  rewrite HE in Hm. apply list_elem_of_fmap in Hm as (r & Er & Hr). injection Er as E1 _ _.
  specialize (Ha r Hr ltac:(congruence)). specialize (Hatt r r' Hr Hr' ltac:(congruence)). lia.
Qed.

Lemma mutates_attempts db db' key id a : attempts_from db id a -> mutates db db' key -> attempts_from db' id a.
Proof.
  intros [Hid Ha] [->|(p & ts & _ & _ & (_ & _ & _ & HO & HN & _))]; [done|].
  split; [lia|]. rewrite HO. intros r [Hr| ->%list_elem_of_singleton]%elem_of_app; [auto|]. simpl. lia.
Qed.

Lemma db_step_attempts s s' id a : dbwf s -> attempts_from s.1 id a -> db_step s s' -> attempts_from s'.1 id a.
Proof.
  intros Hw Ha. destruct 1; simpl in *; rewrite ?GetVersioned_db; try done.
  - eapply mutates_attempts; [done|apply Put_mutates].
  - eapply mutates_attempts; [done|apply PutIfVersion_mutates].
  - eapply mutates_attempts; [done|apply Delete_mutates].
  - eapply mutates_attempts; [done|apply DeleteIfVersion_mutates].
  - edestruct Claim_updates as [? _]; [done|]. by eapply updated_attempts.
  - edestruct Finish_updates as [? _]; [done|]. by eapply updated_attempts.
  - unfold PurgeDelivered. case_bool; [done|]. destruct (run f _ db) as [db' r] eqn:E.
    apply run_cases in E as [->|[n E]]; [done|]. injection E as <- _. destruct Ha as [Hid Ha].
    split; [done|]. simpl. intros x [_ Hx]%list_elem_of_filter. auto.
Qed.

Lemma db_steps_attempts s s' id a : dbwf s -> attempts_from s.1 id a -> rtc db_step s s' -> attempts_from s'.1 id a.
Proof. intros Hw Ha Hr. induction Hr; eauto using db_step_attempts, db_step_wf. Qed.

(** The row a successful [Claim] took and what it left. *)
Lemma Claim_ok db gone f locked tw ts lease db' e :
  dbwf (db, gone) -> Claim db f locked tw ts lease = (db', (e, true, None)) ->
  0 < lease <= Minute /\ attempts_from db' (EventID e) (Attempt e) /\
  exists r, r ∈ outbox db /\ claimable tw r = true /\ locked r = false /\
    (forall x, x ∈ outbox db -> claimable tw x = true -> locked x = false -> row_leb r x = true) /\
    e = mkEvent (o_id r) (o_key r) (o_version r) (o_attempts r + 1) /\
    lease_row (o_attempts r + 1) (ts + lease) r ∈ outbox db'.
Proof.
  intros Hw. pose proof (wf_outbox_ids _ _ Hw) as Hnd. unfold Claim.
  destruct ((lease <=? 0) || (Minute <? lease)) eqn:El; [done|]. reflect_bool.
  destruct (run f _ db) as [d r0] eqn:Er. destruct r0 as [[e0|]|er]; simpl; [|done|by case_bool].
  intros [= -> ->]. apply run_answered, sql_claim_ok in Er as (r & Hr & Hc & Hl & Hmin & He & Ha & ->); [|done].
  split; [lia|].
  assert (forall x', x' ∈ update_row (outbox db) (o_id r) (lease_row (o_attempts r + 1) (ts + lease)) ->
    o_id x' = o_id r -> x' = lease_row (o_attempts r + 1) (ts + lease) r) as Hback.
  { intros x' (x & -> & Hx)%list_elem_of_fmap. case_bool; reflect_bool; [|done].
    intros _. by rewrite (row_by_id _ x r Hnd Hx Hr). }
  split.
  - subst e. split; simpl.
    + apply (wf_fresh _ Hw). simpl. apply elem_of_app. by left.
    + intros x Hx E. rewrite (Hback x Hx E). simpl. lia.
  - exists r. split_and!; auto. simpl. unfold update_row. apply list_elem_of_fmap. exists r. split; [|done].
    by rewrite Z.eqb_refl.
Qed.

(** [Claim] takes the first event by (available time, id) among those that
    are undelivered, due, not under a live lease and not locked by another
    transaction, and leases it for the asked duration under a new attempt
    number. *)
Theorem Claim_contract db gone f locked tw ts lease db' e :
  rtc db_step (empty_db, []) (db, gone) -> Claim db f locked tw ts lease = (db', (e, true, None)) ->
  exists r, r ∈ outbox db /\ claimable tw r = true /\ locked r = false /\
    (forall x, x ∈ outbox db -> claimable tw x = true -> locked x = false -> row_leb r x = true) /\
    e = mkEvent (o_id r) (o_key r) (o_version r) (o_attempts r + 1) /\
    lease_row (o_attempts r + 1) (ts + lease) r ∈ outbox db'.
Proof. intros Hr HC. by destruct (Claim_ok _ _ _ _ _ _ _ _ _ (db_steps_wf _ _ dbwf_empty Hr) HC) as (_ & _ & H). Qed.

(** C23: the attempt number is a fencing token: once an event has been claimed
    again, the earlier claimant's [Finish] changes nothing, ever, and is told
    so, whatever happened in between. *)
Theorem reclaimed_finish_ignored db0 gone0 f1 l1 tw1 ts1 lease1 db1 e1 db2 gone2 f2 l2 tw2 ts2 lease2 db3 e2 db4 gone4 f tw ts dlv retry :
  rtc db_step (empty_db, []) (db0, gone0) ->
  Claim db0 f1 l1 tw1 ts1 lease1 = (db1, (e1, true, None)) -> rtc db_step (db1, gone0) (db2, gone2) ->
  Claim db2 f2 l2 tw2 ts2 lease2 = (db3, (e2, true, None)) -> EventID e1 = EventID e2 ->
  rtc db_step (db3, gone2) (db4, gone4) ->
  Attempt e1 < Attempt e2 /\
  (Finish db4 f tw ts e1 dlv retry).1 = db4 /\ (Finish db4 f tw ts e1 dlv retry).2.1 = false.
Proof.
  intros H0 HC1 H12 HC2 Hid H34. pose proof (db_steps_wf _ _ dbwf_empty H0) as Hw0.
  destruct (Claim_ok _ _ _ _ _ _ _ _ _ Hw0 HC1) as (_ & Ha1 & _).
  assert (dbwf (db1, gone0)) as Hw1.
  { replace db1 with (Claim db0 f1 l1 tw1 ts1 lease1).1 by (by rewrite HC1). by eapply db_step_wf, db_claim. }
  pose proof (db_steps_wf _ _ Hw1 H12) as Hw2. pose proof (db_steps_attempts _ _ _ _ Hw1 Ha1 H12) as Ha2. simpl in Ha2.
  destruct (Claim_ok _ _ _ _ _ _ _ _ _ Hw2 HC2) as (_ & Ha3 & r & Hr & _ & _ & _ & He2 & _).
  assert (dbwf (db3, gone2)) as Hw3.
  { replace db3 with (Claim db2 f2 l2 tw2 ts2 lease2).1 by (by rewrite HC2). by eapply db_step_wf, db_claim. }
  pose proof (db_steps_attempts _ _ _ _ Hw3 Ha3 H34) as [_ Ha4]. simpl in Ha4.
  assert (Attempt e1 < Attempt e2) as Hlt.
  { destruct Ha2 as [_ Ha2]. subst e2. simpl in *. specialize (Ha2 r Hr ltac:(congruence)). lia. }
  split; [done|].
  assert (forall r, r ∈ outbox db4 -> finishable e1 tw r = false) as Hno.
  { intros x Hx. unfold finishable. destruct (o_id x =? EventID e1) eqn:E1; [|done].
    destruct (o_attempts x =? Attempt e1) eqn:E2; [|done]. reflect_bool.
    specialize (Ha4 x Hx ltac:(congruence)). lia. }
  unfold Finish. case_bool; [done|].
  assert (sql_finish e1 dlv retry tw ts db4 = Some (db4, 0)) as Hs.
  { unfold sql_finish. rewrite (filter_all_false _ (outbox db4)).
    - f_equal. f_equal. destruct db4 as [P O N]. simpl in *. f_equal.
      rewrite <- (list_fmap_id O) at 2. apply list_fmap_ext. intros i x Hx. simpl.
      by rewrite (Hno x (list_elem_of_lookup_2 _ _ _ Hx)).
    - intros x Hx E. by rewrite (Hno x Hx) in E. }
  unfold run. rewrite Hs. by destruct f.
Qed.

Lemma PurgeDelivered_ok db gone f locked tw retention limit :
  dbwf (db, gone) ->
  let '(db', (n, err)) := PurgeDelivered db f locked tw retention limit in
  products db' = products db /\ outbox db' `sublist_of` outbox db /\
  (forall r, r ∈ outbox db -> r ∉ outbox db' -> exists t, o_delivered r = Some t /\ t < tw - retention) /\
  (Z.of_nat (length (outbox db)) - Z.of_nat (length (outbox db')) <= Z.max 0 limit) /\
  (err = None -> n = Z.of_nat (length (outbox db)) - Z.of_nat (length (outbox db'))).
Proof.
  intros Hw. pose proof (wf_outbox_ids _ _ Hw) as Hnd.
  unfold PurgeDelivered. case_bool; [split_and!; [done|done|by intros r ? ?|lia|done]|].
  destruct (run f _ db) as [db' r] eqn:E.
  assert (db' = db \/ sql_purge retention limit locked tw db
    = Some (db', Z.of_nat (length (filter (fun r => o_id r ∈ purge_ids retention limit locked tw db) (outbox db))))) as Hcase.
  { apply run_cases in E as [->|[n E]]; [by left|right]. injection E as <- _. done. }
  set (ids := purge_ids retention limit locked tw db) in *.
  assert (length (outbox db) = length (filter (fun r => o_id r ∉ ids) (outbox db))
          + length (filter (fun r => o_id r ∈ ids) (outbox db)))%nat as Hlen.
  { rewrite (filter_partition (fun r => o_id r ∉ ids) (outbox db)) at 1. rewrite length_app. f_equal. f_equal.
    apply list_filter_iff. intros x. split; [apply dec_stable|auto]. }
  assert (Z.of_nat (length (filter (fun r => o_id r ∈ ids) (outbox db))) <= Z.max 0 limit) as Hbound.
  { assert (length ids <= Z.to_nat limit)%nat by (subst ids; unfold purge_ids; rewrite length_fmap, length_take; lia).
    assert ((o_id <$> filter (fun r => o_id r ∈ ids) (outbox db)) ⊆+ ids) as Hsub%submseteq_length.
    { apply NoDup_submseteq.
      - eapply sublist_NoDup; [exact Hnd|]. apply fmap_sublist, sublist_filter.
      - intros x (y & -> & [Hy _]%list_elem_of_filter)%list_elem_of_fmap. done. }
    rewrite length_fmap in Hsub. lia. }
  assert (err_ok : forall n e, match r with inl n => (n, None) | inr e => (0, Some (databaseError "outbox retention failed" e)) end = (n, e) ->
    e = None -> r = inl n) by (intros n e; destruct r; congruence).
  destruct (match r with inl n => _ | inr e => _ end) as [n err] eqn:Em.
  destruct Hcase as [->|Hs].
  - split_and!; [done|done|by intros x ? ?|lia|]. intros He. rewrite (err_ok n err eq_refl He) in E.
    apply run_answered in E. injection E as E <-. fold ids in E |- *.
    apply (f_equal (fun d => length (outbox d))) in E. simpl in E. lia.
  - injection Hs as <-. simpl. fold ids. split_and!; [done|apply sublist_filter| |lia|].
    + intros x Hx Hnx. assert (o_id x ∈ ids) as Hid.
      { destruct (decide (o_id x ∈ ids)); [done|]. destruct Hnx. by apply list_elem_of_filter. }
      pose proof (purge_ids_delivered _ _ _ _ _ _ Hnd Hx Hid) as Hp. unfold purgeable in Hp.
      destruct (o_delivered x) as [t|]; [|done]. reflect_bool. eauto.
    + intros He. rewrite (err_ok n err eq_refl He) in E. apply run_answered in E. injection E as <-. fold ids. lia.
Qed.

(** Retention only ever removes events that were delivered more than the
    retention period ago, at most the given number of them, and reports how
    many; pending events and products are untouched. *)
Theorem PurgeDelivered_contract db gone f locked tw retention limit :
  rtc db_step (empty_db, []) (db, gone) ->
  let '(db', (n, err)) := PurgeDelivered db f locked tw retention limit in
  products db' = products db /\ outbox db' `sublist_of` outbox db /\
  (forall r, r ∈ outbox db -> r ∉ outbox db' -> exists t, o_delivered r = Some t /\ t < tw - retention) /\
  (Z.of_nat (length (outbox db)) - Z.of_nat (length (outbox db')) <= Z.max 0 limit) /\
  (err = None -> n = Z.of_nat (length (outbox db)) - Z.of_nat (length (outbox db'))).
Proof. intros Hr. apply (PurgeDelivered_ok db gone), (db_steps_wf _ _ dbwf_empty Hr). Qed.

(** ** Witnesses: a key is created, its event claimed, lost, and claimed again *)
Definition unlocked (_ : outboxRow) : bool := false.
Definition db_created : DB := (PutIfVersion empty_db Answered None 5 "k" [Byte.x61] 0).1.
Definition db_leased : DB := (Claim db_created Answered unlocked 10 10 Second).1.
Definition db_again : DB := (Claim db_leased Answered unlocked (10 + Second) (10 + Second) Second).1.

Lemma db_created_run : rtc db_step (empty_db, []) (db_created, []).
Proof. apply rtc_once, db_putif. Qed.

Lemma outbox_complete_witness :
  committed_version db_created "k" = 1 /\
  exists r, r ∈ outbox db_created ++ [] /\ o_key r = "k" /\ o_version r = 1 /\ (pending r = true -> r ∈ outbox db_created).
Proof.
  split; [reflexivity|].
  destruct (outbox_complete db_created [] db_created_run) as [H _].
  destruct (H "k" 1 ltac:(vm_compute; split; congruence)) as (r & H1 & H2 & H3 & H4 & _). by exists r.
Defined.

Lemma source_versions_grow_witness :
  exists p', products (Delete db_created Answered None 6 "k").1 !! "k" = Some p' /\
    (p' = mkProduct [Byte.x61] 1 false \/ p_version (mkProduct [Byte.x61] 1 false) < p_version p').
Proof.
  apply (source_versions_grow db_created [] _ [] "k" (mkProduct [Byte.x61] 1 false) db_created_run).
  - apply rtc_once, db_delete.
  - reflexivity.
Defined.

Lemma GetVersioned_snapshot_witness :
  let '(db', ((value, v), err)) := GetVersioned db_created Answered None "k" in
  db' = db_created /\ err = None /\ v = 1.
Proof.
  pose proof (GetVersioned_snapshot db_created [] Answered None "k" db_created_run) as H.
  destruct (GetVersioned db_created Answered None "k") as [db' [[value v] err]] eqn:E.
  destruct H as (H & _). split; [exact H|]. injection E as _ _ <- <-. split; reflexivity.
Defined.

Lemma Claim_contract_witness :
  exists r, r ∈ outbox db_created /\ claimable 10 r = true /\ unlocked r = false /\
    (forall x, x ∈ outbox db_created -> claimable 10 x = true -> unlocked x = false -> row_leb r x = true) /\
    mkEvent 1 "k" 1 1 = mkEvent (o_id r) (o_key r) (o_version r) (o_attempts r + 1) /\
    lease_row (o_attempts r + 1) (10 + Second) r ∈ outbox db_leased.
Proof.
  apply (Claim_contract db_created [] Answered unlocked 10 10 Second db_leased (mkEvent 1 "k" 1 1) db_created_run).
  vm_compute. reflexivity.
Defined.

Lemma reclaimed_finish_ignored_witness :
  1 < 2 /\ (Finish db_again Answered (11 + Second) (11 + Second) (mkEvent 1 "k" 1 1) true 0).1 = db_again /\
  (Finish db_again Answered (11 + Second) (11 + Second) (mkEvent 1 "k" 1 1) true 0).2.1 = false.
Proof.
  apply (reclaimed_finish_ignored db_created [] Answered unlocked 10 10 Second db_leased (mkEvent 1 "k" 1 1)
    db_leased [] Answered unlocked (10 + Second) (10 + Second) Second db_again (mkEvent 1 "k" 1 2)
    db_again [] Answered (11 + Second) (11 + Second) true 0 db_created_run).
  - vm_compute. reflexivity.
  - apply rtc_refl.
  - vm_compute. reflexivity.
  - reflexivity.
  - apply rtc_refl.
Defined.

Definition db_delivered : DB := (Finish db_leased Answered 11 11 (mkEvent 1 "k" 1 1) true 0).1.

Lemma db_delivered_run : rtc db_step (empty_db, []) (db_delivered, []).
Proof.
  eapply rtc_l; [apply (db_putif empty_db [] Answered None 5 "k" [Byte.x61] 0)|].
  eapply rtc_l; [apply (db_claim db_created [] Answered unlocked 10 10 Second)|].
  apply rtc_once. apply (db_finish db_leased [] Answered 11 11 (mkEvent 1 "k" 1 1) true 0).
Qed.

Lemma PurgeDelivered_contract_witness :
  outbox (PurgeDelivered db_delivered Answered unlocked (20 + Hour) Hour 10).1 = [] /\
  forall r, r ∈ outbox db_delivered -> exists t, o_delivered r = Some t /\ t < 20 + Hour - Hour.
Proof.
  split; [vm_compute; reflexivity|]. intros r Hr.
  pose proof (PurgeDelivered_contract db_delivered [] Answered unlocked (20 + Hour) Hour 10 db_delivered_run) as H.
  destruct (PurgeDelivered db_delivered Answered unlocked (20 + Hour) Hour 10) as [db' [n err]] eqn:E.
  destruct H as (_ & _ & H & _). apply (H r Hr).
  replace (outbox db') with (@nil outboxRow); [apply not_elem_of_nil|].
  apply (f_equal (fun x => outbox x.1)) in E. simpl in E. rewrite <- E. vm_compute. reflexivity.
Defined.
