(* ===== verification/Outbox.v ===== *)
(** * The outbox worker ([internal/outbox/worker.go]) and its sender
      ([outboxSender] of [internal/app/bootstrap.go])

    The worker is written against the [Queue] interface; the PostgreSQL store
    is an instance of it. A queue operation takes the surroundings of its call
    ([callEnv]: the fate of its statement and the clock readings) and returns
    the queue after it. *)
From S2P Require Import Prelude GoStrings Errors LRU CacheStore Bloom Admission Group Directory Protocol Postgres.

Definition LeaseDuration : Duration := 10 * Second.
Definition storageTimeout : Duration := Second.
Definition deliveryTimeout : Duration := 2 * Second.
Definition pollInterval : Duration := Second.
Definition maintenanceInterval : Duration := 30 * Second.

(** [c_fate2] and [c_bytes] are for [Stats]: its second statement and the
    table size it reads. *)
Record callEnv := mkCall {
  c_fate : fate; c_where : Time; c_set : Time; c_locked : outboxRow -> bool; c_fate2 : fate; c_bytes : Z }.

(** ** The interface *)
Class Queue (Q : Type) := {
  q_Claim : Q -> callEnv -> Duration -> Q * (Event * bool * option error);
  q_Finish : Q -> callEnv -> Event -> bool -> Duration -> Q * (bool * option error);
  q_Stats : Q -> callEnv -> Q * (OutboxStats * option error);
  q_PurgeDelivered : Q -> callEnv -> Duration -> Z -> Q * (Z * option error);
}.

(** [retryDelay]: the loop doubles until it passes a minute, so it stops
    within six rounds. *)
Fixpoint retryLoop (fuel : nat) (n attempt : Z) (delay : Duration) : Duration :=
  match fuel with
  | O => delay
  | S fuel' => if (n <? attempt) && (delay <? Minute) then retryLoop fuel' (n + 1) attempt (i64 (delay * 2)) else delay
  end.
Definition retryDelay (attempt : Z) : Duration := Z.min (retryLoop 6 1 attempt Second) Minute.

Section Worker.
Context {Q : Type} `{!Queue Q}.
(** [w.Send], and whether an observer is installed. *)
Variable Send : Event -> option error.
Variable observer : bool.

Definition w_observe (operation result : string) : list event :=
  if observer then [(operation, result)] else [].

(** [e1], [e2]: the calls of [Claim] and [Finish]. *)
Definition Step (q : Q) (e1 e2 : callEnv) : Q * (bool * option error) * list event :=
  let '(q1, (ev, found, err)) := q_Claim q e1 LeaseDuration in
  match err with
  | Some e => (q1, (false, Some e), w_observe "claim" "error")
  | None =>
      if negb found then (q1, (false, None), [])
      else
        let sendErr := Send ev in
        let result := match sendErr with None => "delivered" | Some _ => "retry" end in
        let sent := match sendErr with None => true | Some _ => false end in
        let '(q2, (owned, err)) := q_Finish q1 e2 ev sent (retryDelay (Attempt ev)) in
        match err with
        | Some e => (q2, (true, Some e), w_observe "claim" "ok" ++ w_observe "finish" "error")
        | None =>
            if negb owned then (q2, (true, None), w_observe "claim" "ok" ++ w_observe "finish" "lease_lost")
            else (q2, (true, None), w_observe "claim" "ok" ++ w_observe "finish" result)
        end
  end.

(** The purge loop of [maintain]; [calls i] surrounds its [i]-th round and
    [workErr i] is [work.Err()] before it. [None]: more rounds than [fuel]. *)
Fixpoint purgeLoop (fuel : nat) (q : Q) (calls : nat -> callEnv) (workErr : nat -> option error) (i : nat)
    : option (Q * list event) :=
  match workErr i with
  | Some _ => Some (q, [])
  | None =>
      match fuel with
      | O => None
      | S fuel' =>
          let '(q', (removed, err)) := q_PurgeDelivered q (calls i) Retention 1000 in
          match err with
          | Some _ => Some (q', w_observe "purge" "error")
          | None =>
              if removed <? 1000 then Some (q', w_observe "purge" "ok")
              else '(q2, evs) ← purgeLoop fuel' q' calls workErr (S i);
                   Some (q2, w_observe "purge" "ok" ++ evs)
          end
      end
  end.

(** The gauges [maintain] reports go to the observer. *)
Definition maintain (fuel : nat) (q : Q) (e : callEnv) (calls : nat -> callEnv) (workErr : nat -> option error)
    : option (Q * option OutboxStats * list event) :=
  let '(q1, (stats, err)) := q_Stats q e in
  let reported := match err with None => if observer then Some stats else None | Some _ => None end in
  let evs := match err with Some _ => w_observe "stats" "error" | None => [] end in
  '(q2, evs2) ← purgeLoop fuel q1 calls workErr 0;
  Some (q2, reported, evs ++ evs2).

(** One iteration of [Run]'s loop: the queue, the next maintenance time and
    whether the loop waits [pollInterval] before the next one. *)
Definition runIteration (fuel : nat) (q : Q) (nextMaintenance now1 now2 : Time) (e e1 e2 : callEnv)
    (calls : nat -> callEnv) (workErr : nat -> option error) : option (Q * Time * bool) :=
  '(q1, next) ← (if After now1 nextMaintenance
                 then '(q', _, _) ← maintain fuel q e calls workErr; Some (q', now2 + maintenanceInterval)
                 else Some (q, nextMaintenance));
  let '(q2, (worked, err), _) := Step q1 e1 e2 in
  Some (q2, next, negb (worked && match err with None => true | Some _ => false end)).
End Worker.

(** ** The PostgreSQL queue *)
#[export] Instance DB_Queue : Queue DB := {|
  q_Claim db e lease := Claim db (c_fate e) (c_locked e) (c_where e) (c_set e) lease;
  q_Finish db e ev delivered retry := Finish db (c_fate e) (c_where e) (c_set e) ev delivered retry;
  q_Stats db e := (db, StoreStats db (c_fate e) (c_fate2 e) (c_where e) (c_bytes e));
  q_PurgeDelivered db e retention limit := PurgeDelivered db (c_fate e) (c_locked e) (c_where e) retention limit;
|}.

(** ** The sender *)
Section Sender.
Context {C : Type} `{!Store C}.

(** [None] is a panic of the invalidation. *)
Definition outboxSender (ready : bool) (g : Group C) (d : Directory) (ev : Event) (t1 t2 : Time)
    (send : Client -> option error) (order : list nat) : option (Group C * option error) :=
  if negb ready then Some (g, Some (NewError "outbox discovery not ready"))
  else
    '(g', report, err) ← DirInvalidateVersion d g (Key ev) (EventVersion ev) t1 t2 send order;
    match err with
    | Some e => Some (g', Some e)
    | None =>
        if negb (Complete report) || (KnownMembers report =? 0)
        then Some (g', Some (NewError "outbox delivery incomplete"))
        else Some (g', None)
    end.
End Sender.

(** ** Backoff *)

(** The retry delay of attempt [a] is [2^(a-1)] seconds, capped at one
    minute, for every positive [int64] attempt; it never overflows and stays
    within what [Finish] accepts. *)
Theorem retryDelay_exponential a :
  retryDelay a = Z.min (2 ^ Z.max 0 (a - 1) * Second) Minute /\ Second <= retryDelay a <= Minute.
Proof.
  assert (retryDelay a = Z.min (2 ^ Z.max 0 (a - 1) * Second) Minute) as ->.
  { destruct (decide (a <= 1)) as [H1|H1].
    - replace (Z.max 0 (a - 1)) with 0 by lia. unfold retryDelay. cbn [retryLoop].
      by rewrite (proj2 (Z.ltb_ge 1 a)) by lia.
    - destruct (decide (a <= 6)) as [H6|H6].
      + assert (a ∈ seqZ 2 5) as Hin by (apply elem_of_seqZ; lia). revert Hin. clear.
        assert (forallb (fun a => retryDelay a =? Z.min (2 ^ Z.max 0 (a - 1) * Second) Minute) (seqZ 2 5) = true) as HF
          by (vm_compute; reflexivity).
        rewrite forallb_forall in HF. intros Hin. by apply Z.eqb_eq, HF, list_elem_of_In.
      + assert (retryLoop 6 1 a Second = 64 * Second) as E.
        { cbn [retryLoop]. rewrite !(proj2 (Z.ltb_lt _ a)) by lia. vm_compute. reflexivity. }
        unfold retryDelay. rewrite E. pose proof (Z.pow_le_mono_r 2 6 (Z.max 0 (a - 1)) ltac:(lia) ltac:(lia)).
        unfold Second, Minute, Second in *. lia. }
  pose proof (Z.pow_le_mono_r 2 0 (Z.max 0 (a - 1)) ltac:(lia) ltac:(lia)). unfold Minute, Second. lia.
Qed.

Lemma retryDelay_range a : 0 <= retryDelay a <= Minute.
Proof.
  unfold retryDelay. assert (forall fuel n d, Second <= d <= 120 * Second -> Second <= retryLoop fuel n a d <= 120 * Second) as H.
  { induction fuel as [|fuel IH]; intros n d Hd; cbn [retryLoop]; [done|]. case_bool; [|done]. reflect_bool.
    rewrite i64_id by (unfold two63, Second in *; lia). apply IH. unfold Minute, Second in *. lia. }
  specialize (H 6%nat 1 Second ltac:(unfold Second; lia)). unfold Minute, Second in *. lia.
Qed.

(** ** One step over PostgreSQL *)

Lemma Claim_delivered db gone f locked tw ts lease r r' :
  dbwf (db, gone) -> r ∈ outbox db -> r' ∈ outbox (Claim db f locked tw ts lease).1 -> o_id r' = o_id r ->
  o_delivered r' = o_delivered r.
Proof.
  intros Hw Hr. pose proof (wf_outbox_ids _ _ Hw) as Hnd. unfold Claim.
  assert (forall r', r' ∈ outbox db -> o_id r' = o_id r -> o_delivered r' = o_delivered r) as Hsame
    by (intros x Hx E; by rewrite (row_by_id _ x r Hnd Hx Hr E)).
  case_bool; [apply Hsame|]. destruct (run f _ db) as [db' res] eqn:E. simpl.
  apply run_cases in E as [->|[o E]]; [apply Hsame|].
  unfold sql_claim in E. destruct (first_row _) as [c|]; [|simplify_eq; apply Hsame].
  apply bind_Some in E as (a & _ & [= <- _]). simpl.
  intros (x & -> & Hx)%list_elem_of_fmap Eid.
  assert (o_id x = o_id r) as Ex by (by case_bool). rewrite (row_by_id _ x r Hnd Hx Hr Ex). by case_bool.
Qed.

(** What [Finish] makes of a row. *)
Lemma Finish_row db gone f tw ts ev dlv retry r r' :
  dbwf (db, gone) -> r ∈ outbox db -> r' ∈ outbox (Finish db f tw ts ev dlv retry).1 -> o_id r' = o_id r ->
  r' = r \/ (finishable ev tw r = true /\ r' = finish_row dlv retry ts r).
Proof.
  intros Hw Hr. pose proof (wf_outbox_ids _ _ Hw) as Hnd. unfold Finish.
  assert (forall r', r' ∈ outbox db -> o_id r' = o_id r ->
    r' = r \/ (finishable ev tw r = true /\ r' = finish_row dlv retry ts r)) as Hsame
    by (intros x Hx E; left; by apply (row_by_id _ x r Hnd Hx Hr E)).
  case_bool; [apply Hsame|]. destruct (run f _ db) as [db' res] eqn:E. simpl.
  apply run_cases in E as [->|[o E]]; [apply Hsame|]. injection E as <- _. simpl.
  intros (x & -> & Hx)%list_elem_of_fmap Eid.
  assert (o_id x = o_id r) as Ex by (by case_bool). rewrite (row_by_id _ x r Hnd Hx Hr Ex).
  destruct (finishable ev tw r); [right|left]; done.
Qed.

Lemma finishable_facts ev tw r : finishable ev tw r = true -> o_id r = EventID ev /\ pending r = true.
Proof. unfold finishable. intros H. by reflect_bool. Qed.

Lemma Finish_delivered db gone f tw ts ev dlv retry r r' :
  dbwf (db, gone) -> r ∈ outbox db -> r' ∈ outbox (Finish db f tw ts ev dlv retry).1 -> o_id r' = o_id r ->
  pending r = true -> pending r' = false -> dlv = true /\ o_id r = EventID ev.
Proof.
  intros Hw Hr Hr' E Hp Hp'. destruct (Finish_row _ _ _ _ _ _ _ _ _ _ Hw Hr Hr' E) as [->|[[Hid _]%finishable_facts ->]].
  - congruence.
  - by destruct dlv.
Qed.

(** A delivered row stays delivered. *)
Lemma Finish_keeps db gone f tw ts ev dlv retry r r' :
  dbwf (db, gone) -> r ∈ outbox db -> r' ∈ outbox (Finish db f tw ts ev dlv retry).1 -> o_id r' = o_id r ->
  pending r = false -> pending r' = false.
Proof.
  intros Hw Hr Hr' E Hp. destruct (Finish_row _ _ _ _ _ _ _ _ _ _ Hw Hr Hr' E) as [->|[[_ Hq]%finishable_facts _]]; congruence.
Qed.

Lemma rows_updated_fwd db db' r :
  rows_updated db db' -> r ∈ outbox db -> exists r', r' ∈ outbox db' /\ o_id r' = o_id r.
Proof.
  intros (_ & _ & HE & _) Hr. assert (row_event r ∈ row_event <$> outbox db) as Hm by by apply list_elem_of_fmap_2.
  rewrite <- HE in Hm. apply list_elem_of_fmap in Hm as (r' & E & Hr'). exists r'. split; [done|].
  by injection E as -> _ _.
Qed.

(** Over the PostgreSQL queue a worker step is a run of the source that
    never passes [Claim] or [Finish] arguments they reject, and it marks an
    event delivered only if the sender succeeded on exactly that event (its
    key and version), whatever the fates of the two statements were. *)
Theorem Step_delivers_only_sent Send obs db gone e1 e2 :
  rtc db_step (empty_db, []) (db, gone) ->
  let '(db', (_, err), _) := Step Send obs db e1 e2 in
  rtc db_step (db, gone) (db', gone) /\
  (err <> Some (NewError "invalid outbox lease") /\ err <> Some (NewError "invalid outbox completion")) /\
  forall r r', r ∈ outbox db -> r' ∈ outbox db' -> o_id r' = o_id r -> pending r = true -> pending r' = false ->
    exists a, Send (mkEvent (o_id r) (o_key r) (o_version r) a) = None.
Proof.
  intros Hrun. pose proof (db_steps_wf _ _ dbwf_empty Hrun) as Hw. unfold Step. simpl.
  pose proof (db_claim db gone (c_fate e1) (c_locked e1) (c_where e1) (c_set e1) LeaseDuration) as Hs1.
  pose proof (fun r r' H => Claim_delivered db gone (c_fate e1) (c_locked e1) (c_where e1) (c_set e1) LeaseDuration r r' Hw H) as HD1.
  destruct (Claim db (c_fate e1) (c_locked e1) (c_where e1) (c_set e1) LeaseDuration) as [db1 [[ev found] err]] eqn:EC.
  simpl in Hs1, HD1. pose proof (db_step_wf _ _ Hw Hs1) as Hw1.
  assert (forall r r', r ∈ outbox db -> r' ∈ outbox db1 -> o_id r' = o_id r -> pending r = true -> pending r' = false ->
    exists a, Send (mkEvent (o_id r) (o_key r) (o_version r) a) = None) as Hno1.
  { intros r r' Hr Hr' E Hp. unfold pending in *. rewrite (HD1 r r' Hr Hr' E). congruence. }
  assert (err <> Some (NewError "invalid outbox lease") /\ err <> Some (NewError "invalid outbox completion")) as Herr1.
  { unfold Claim in EC. simpl in EC. destruct (run _ _ db) as [d res]. destruct (scan res) as [x|x]; [|case_bool];
      injection EC as _ _ _ <-; done. }
  destruct err as [e|]; [split_and!; [by apply rtc_once|apply Herr1|apply Herr1|done]|].
  destruct found; [|split_and!; [by apply rtc_once|done|done|done]]. simpl negb. cbv iota.
  destruct (Claim_ok _ _ _ _ _ _ _ _ _ Hw EC) as (_ & _ & rc & Hrc & _ & _ & _ & Hev & _).
  set (sent := match Send ev with None => true | Some _ => false end).
  pose proof (db_finish db1 gone (c_fate e2) (c_where e2) (c_set e2) ev sent (retryDelay (Attempt ev))) as Hs2.
  pose proof (fun r r' H => Finish_delivered db1 gone (c_fate e2) (c_where e2) (c_set e2) ev sent (retryDelay (Attempt ev)) r r' Hw1 H) as HD2.
  destruct (Finish db1 (c_fate e2) (c_where e2) (c_set e2) ev sent (retryDelay (Attempt ev))) as [db2 [owned err]] eqn:EF.
  simpl in Hs2, HD2.
  assert (rtc db_step (db, gone) (db2, gone)) as Hrun2 by (eapply rtc_l; [done|by apply rtc_once]).
  assert (err <> Some (NewError "invalid outbox lease") /\ err <> Some (NewError "invalid outbox completion")) as Herr2.
  { assert (0 < EventID ev /\ 0 < Attempt ev) as [Hid Hat].
    { subst ev. simpl. pose proof (wf_fresh _ Hw rc ltac:(apply elem_of_app; by left)).
      pose proof (wf_attempts _ Hw rc Hrc). lia. }
    pose proof (retryDelay_range (Attempt ev)) as Hrd. unfold Finish in EF.
    rewrite (proj2 (Z.leb_gt (EventID ev) 0)), (proj2 (Z.leb_gt (Attempt ev) 0)), (proj2 (Z.ltb_ge (retryDelay _) 0)),
      (proj2 (Z.ltb_ge Minute (retryDelay _))) in EF by lia. simpl in EF.
    destruct (run _ _ db1) as [d res]. destruct res; injection EF as _ _ <-; done. }
  assert (forall r r', r ∈ outbox db -> r' ∈ outbox db2 -> o_id r' = o_id r -> pending r = true -> pending r' = false ->
    exists a, Send (mkEvent (o_id r) (o_key r) (o_version r) a) = None) as Hyes.
  { intros r r' Hr Hr' E Hp Hp'.
    destruct (Claim_updates db gone (c_fate e1) (c_locked e1) (c_where e1) (c_set e1) LeaseDuration Hw) as [HU _].
    rewrite EC in HU. simpl in HU. destruct (rows_updated_fwd _ _ r HU Hr) as (r1 & Hr1 & E1).
    assert (pending r1 = true) as Hp1 by (unfold pending in *; by rewrite (HD1 r r1 Hr Hr1 E1)).
    destruct (HD2 r1 r' Hr1 Hr' ltac:(congruence) Hp1 Hp') as [Hsent Hid].
    assert (rc = r) as -> by (apply (row_by_id _ _ _ (wf_outbox_ids _ _ Hw) Hrc Hr); subst ev; simpl in Hid; congruence).
    exists (Attempt ev). subst ev sent. simpl. by destruct (Send _). }
  destruct err as [e|]; [by split_and!; [|apply Herr2|apply Herr2|]|]. destruct owned; by split_and!.
Qed.

(** The retention loop of [maintain] stops on its own: over the PostgreSQL
    queue, whatever the deadline does, it ends within one round per thousand
    rows of the outbox plus one. *)
Theorem maintain_terminates obs fuel db gone e calls workErr :
  rtc db_step (empty_db, []) (db, gone) -> Z.of_nat (length (outbox db)) < 1000 * Z.of_nat fuel ->
  exists r, maintain obs fuel db e calls workErr = Some r.
Proof.
  intros Hrun Hlt. pose proof (db_steps_wf _ _ dbwf_empty Hrun) as Hw.
  assert (forall fuel db gone i, dbwf (db, gone) -> Z.of_nat (length (outbox db)) < 1000 * Z.of_nat fuel ->
    exists r, purgeLoop obs fuel db calls workErr i = Some r) as Hloop.
  { clear. induction fuel as [|fuel IH]; intros db gone i Hw Hlt; [lia|]. cbn [purgeLoop].
    destruct (workErr i); [eauto|]. simpl.
    pose proof (PurgeDelivered_ok db gone (c_fate (calls i)) (c_locked (calls i)) (c_where (calls i)) Retention 1000 Hw) as HP.
    pose proof (dbwf_purge db gone (c_fate (calls i)) (c_locked (calls i)) (c_where (calls i)) Retention 1000 Hw) as Hw'.
    destruct (PurgeDelivered db _ _ _ Retention 1000) as [db' [n err]]. simpl in Hw'.
    destruct err; [eauto|]. destruct HP as (_ & _ & _ & _ & Hn). specialize (Hn eq_refl).
    destruct (n <? 1000) eqn:E; reflect_bool; [eauto|].
    destruct (IH db' _ (S i) Hw') as [[q evs] ->]; [lia|]. simpl. eauto. }
  unfold maintain. simpl. destruct (StoreStats db _ _ _ _) as [st err].
  destruct (Hloop fuel db gone 0%nat Hw Hlt) as [[q evs] ->]. simpl. eauto.
Qed.

(** The sender reports success only when readiness held, the local group
    applied the event's version, the membership snapshot was not empty, and
    every other member of it acknowledged; so an event is never finished on an
    empty or partial view of the cluster. *)
Lemma outboxSender_complete {C : Type} `{!Store C} ready (g g' : Group C) d s ev t1 t2 send order :
  dir_ok d -> state d = Some s -> order ≡ₚ seq 0 (length (remotes d s)) ->
  outboxSender ready g d ev t1 t2 send order = Some (g', None) ->
  ready = true /\ members s <> [] /\
  (exists evs, InvalidateVersion g (Key ev) (EventVersion ev) t1 t2 = Some (g', evs, None)) /\
  forall m, m ∈ members s -> ID m <> selfID d -> send (client_of d m) = None.
Proof.
  intros Hd Hs Ho. unfold outboxSender. destruct ready; [|done]. simpl negb. cbv iota.
  intros ([[g1 report] err] & HD & H)%bind_Some. destruct err; [done|].
  unfold DirInvalidateVersion in HD. apply bind_Some in HD as ([[g2 evs] err2] & HI & HD).
  destruct err2; [done|]. rewrite Hs in HD. cbn [mbind option_bind] in HD.
  assert ((fun m => clients s !! ID m) <$> remotes d s = (fun m => Some (client_of d m)) <$> remotes d s) as Hcs.
  { apply list_fmap_ext. intros i m Hi. apply (Hd s Hs).
    apply list_elem_of_lookup_2 in Hi. by apply list_elem_of_filter in Hi as [_ ?]. }
  rewrite (fanOut_all order (remotes d s) _ (client_of d) send) in HD by done. cbn [mbind option_bind] in HD.
  injection HD as -> <-. cbn [Complete KnownMembers] in H.
  destruct (forallb _ _) eqn:EF; [|done]. simpl in H. destruct (_ =? 0) eqn:EL; [done|]. injection H as <-.
  split; [done|]. split; [by intros E; rewrite E in EL|]. split; [eauto|].
  intros m Hm Hne. rewrite forallb_forall in EF. apply sendStatus_ok, String.eqb_eq.
  apply (EF (mkInvResult (ID m) (sendStatus (send (client_of d m))))). apply list_elem_of_In.
  apply list_elem_of_fmap. exists m. split; [done|]. by apply list_elem_of_filter.
Qed.


(** ** Witnesses *)
Definition steady : callEnv := mkCall Answered 10 10 unlocked Answered 8192.
Definition always_ok (_ : Event) : option error := None.

Lemma Step_delivers_only_sent_witness :
  let '(db', (worked, err), _) := Step always_ok true db_created steady steady in
  rtc db_step (db_created, []) (db', []) /\ worked = true /\ err = None.
Proof.
  pose proof (Step_delivers_only_sent always_ok true db_created [] steady steady db_created_run) as H.
  destruct (Step always_ok true db_created steady steady) as [[db' [worked err]] evs] eqn:E.
  destruct H as (H & _). split; [exact H|].
  apply (f_equal (fun x => x.1.2)) in E. vm_compute in E. injection E as <- <-. split; reflexivity.
Defined.

Lemma maintain_terminates_witness :
  exists r, maintain true 1 db_created steady (fun _ => steady) (fun _ => None) = Some r.
Proof.
  apply (maintain_terminates true 1 db_created [] steady (fun _ => steady) (fun _ => None) db_created_run).
  vm_compute. reflexivity.
Defined.

Definition all_acknowledge (_ : Client) : option error := None.
