(* ===== verification/Relay.v ===== *)
(** * The relay drains the outbox ([Run] of [internal/outbox/worker.go])

    The iterations of the worker's loop over the PostgreSQL queue, and that a
    relay whose members accept what it sends leaves nothing undelivered. *)
From S2P Require Import Prelude GoStrings Errors LRU CacheStore Bloom Admission Group Directory Protocol Postgres Outbox.

(** What surrounds one iteration: the clock, the calls, the deadline of the
    retention loop. *)
Record iteration := mkIteration {
  it_now1 : Time; it_now2 : Time; it_stats : callEnv; it_claim : callEnv; it_finish : callEnv;
  it_purges : nat -> callEnv; it_workErr : nat -> option error }.

Section Loop.
Context {Q : Type} `{!Queue Q}.
Variable Send : Event -> option error.
Variable observer : bool.

(** [n] iterations of the loop from iteration [i] on: the queue, the next
    maintenance, and after which iterations the loop waited. *)
Fixpoint relayLoop (fuel n i : nat) (its : nat -> iteration) (q : Q) (next : Time) : option (Q * Time * list bool) :=
  match n with
  | O => Some (q, next, [])
  | S n' =>
      let it := its i in
      '(q', next', wait) ← runIteration Send observer fuel q next (it_now1 it) (it_now2 it) (it_stats it) (it_claim it)
                             (it_finish it) (it_purges it) (it_workErr it);
      '(q2, next2, waits) ← relayLoop fuel n' (S i) its q' next';
      Some (q2, next2, wait :: waits)
  end.
End Loop.

(** ** Proofs *)

(** Nothing stands in the way of an iteration: the statements of [Claim] and
    [Finish] are answered, no other transaction holds a row, the claim is made
    after [t] and the completion within the lease. *)
Record healthy (t : Time) (it : iteration) : Prop := {
  hl_claim : c_fate (it_claim it) = Answered;
  hl_locked : forall r, c_locked (it_claim it) r = false;
  hl_late : t <= c_where (it_claim it);
  hl_finish : c_fate (it_finish it) = Answered;
  hl_within : c_where (it_finish it) < c_set (it_claim it) + LeaseDuration;
}.

(** A row that can be claimed from [t] on, if it is pending. *)
Definition due (t : Time) (r : outboxRow) : Prop :=
  pending r = true -> o_available r <= t /\ (forall u, o_leased r = Some u -> u <= t) /\ o_attempts r < maxInt64.

Definition undelivered (rows : list outboxRow) : list outboxRow := filter (fun r => pending r = true) rows.
Definition waiting (db : DB) : nat := length (undelivered (outbox db)).

Lemma waiting_zero db : waiting db = 0%nat <-> forall r, r ∈ outbox db -> pending r = false.
Proof.
  unfold waiting, undelivered. rewrite length_zero_iff_nil. split.
  - intros E r Hr. destruct (pending r) eqn:Ep; [|done].
    assert (r ∈ filter (fun r => pending r = true) (outbox db)) as Hin by by apply list_elem_of_filter.
    rewrite E in Hin. by apply not_elem_of_nil in Hin.
  - intros H. apply elem_of_nil_inv. intros r [Hp Hr]%list_elem_of_filter. by rewrite (H r Hr) in Hp.
Qed.

(** Delivering one pending row takes it out of the count. *)
Definition deliver (ts : Time) (id attempts : Z) (rows : list outboxRow) : list outboxRow :=
  (fun r => if o_id r =? id then finish_row true 0 ts (lease_row attempts 0 r) else r) <$> rows.

Lemma deliver_other ts id a rows : id ∉ o_id <$> rows -> deliver ts id a rows = rows.
Proof.
  intros Hid. unfold deliver. rewrite <- (list_fmap_id rows) at 2. apply list_fmap_ext. intros i r Hr.
  rewrite (proj2 (Z.eqb_neq (o_id r) id)); [done|]. intros E. apply Hid. rewrite <- E.
  apply list_elem_of_fmap_2. by eapply list_elem_of_lookup_2.
Qed.

Lemma deliver_count ts a rows r :
  NoDup (o_id <$> rows) -> r ∈ rows -> pending r = true ->
  length (undelivered rows) = S (length (undelivered (deliver ts (o_id r) a rows))).
Proof.
  intros Hnd Hr Hp. induction rows as [|x rows IH]; [by apply not_elem_of_nil in Hr|].
  apply NoDup_cons in Hnd as [Hx Hnd]. unfold undelivered in *. cbn [deliver fmap list_fmap].
  fold (deliver ts (o_id r) a rows). apply elem_of_cons in Hr as [->|Hr].
  - rewrite Z.eqb_refl, deliver_other by done. rewrite !filter_cons, decide_True by done.
    by rewrite decide_False by done.
  - assert (o_id x <> o_id r) as Hne by (intros E; apply Hx; rewrite E; by apply list_elem_of_fmap_2).
    rewrite (proj2 (Z.eqb_neq _ _) Hne), !filter_cons. case_decide; cbn [length]; by rewrite IH.
Qed.

(** A healthy claim chooses among all that is pending. *)
Lemma due_claimable t tw rows locked :
  t <= tw -> (forall r, locked r = false) -> Forall (due t) rows ->
  filter (fun r => claimable tw r && negb (locked r) = true) rows = undelivered rows.
Proof.
  intros Ht Hl HF. unfold undelivered. induction HF as [|r rows Hr HF IH]; [done|]. rewrite !filter_cons, IH.
  unfold claimable. rewrite Hl, andb_true_r. destruct (pending r) eqn:Ep; [|done].
  destruct (Hr Ep) as (Ha & Hu & _). rewrite (proj2 (Z.leb_le _ tw)) by lia. cbn [andb].
  destruct (o_leased r) as [u|]; [|done]. by rewrite (proj2 (Z.leb_le u tw)) by (specialize (Hu u eq_refl); lia).
Qed.

Lemma Claim_due db t it :
  healthy t it -> Forall (due t) (outbox db) ->
  let e := it_claim it in
  Claim db (c_fate e) (c_locked e) (c_where e) (c_set e) LeaseDuration =
  match first_row (undelivered (outbox db)) with
  | None => (db, (mkEvent 0 "" 0 0, false, None))
  | Some r =>
      (mkDB (products db) (update_row (outbox db) (o_id r) (lease_row (o_attempts r + 1) (c_set e + LeaseDuration))) (next_id db),
       (mkEvent (o_id r) (o_key r) (o_version r) (o_attempts r + 1), true, None))
  end.
Proof.
  intros [Hf Hl Ht _ _] HF e. unfold Claim. change ((LeaseDuration <=? 0) || (Minute <? LeaseDuration)) with false. cbv iota.
  subst e. rewrite Hf. unfold run, sql_claim. rewrite (due_claimable t) by done.
  destruct (first_row (undelivered (outbox db))) as [r|] eqn:E; [|done].
  apply first_row_some in E as [[Hp Hr]%list_elem_of_filter _].
  rewrite Forall_forall in HF. destruct (HF r Hr Hp) as (_ & _ & Ha). unfold bigint_succ.
  by rewrite (proj2 (Z.ltb_lt _ _) Ha).
Qed.

(** The completion of the claimed row. *)
Lemma Finish_claimed db gone it r :
  let e := it_finish it in let until := c_set (it_claim it) + LeaseDuration in
  dbwf (db, gone) -> r ∈ outbox db -> pending r = true -> c_fate e = Answered -> c_where e < until ->
  let db1 := mkDB (products db) (update_row (outbox db) (o_id r) (lease_row (o_attempts r + 1) until)) (next_id db) in
  let ev := mkEvent (o_id r) (o_key r) (o_version r) (o_attempts r + 1) in
  exists owned, Finish db1 (c_fate e) (c_where e) (c_set e) ev true (retryDelay (Attempt ev)) =
    (mkDB (products db) (deliver (c_set e) (o_id r) (o_attempts r + 1) (outbox db)) (next_id db), (owned, None)).
Proof.
  intros e until Hw Hr Hp Hf Hu db1 ev. unfold Finish. pose proof (retryDelay_range (Attempt ev)) as Hrd.
  assert (0 < EventID ev /\ 0 < Attempt ev) as [Hid Hat].
  { subst ev. simpl. pose proof (wf_fresh _ Hw r ltac:(apply elem_of_app; by left)). pose proof (wf_attempts _ Hw r Hr). lia. }
  rewrite (proj2 (Z.leb_gt (EventID ev) 0)), (proj2 (Z.leb_gt (Attempt ev) 0)), (proj2 (Z.ltb_ge (retryDelay _) 0)),
    (proj2 (Z.ltb_ge Minute (retryDelay _))) by lia. cbn [orb]. rewrite Hf. unfold run, sql_finish. eexists.
  f_equal. subst db1. cbn [products outbox next_id]. f_equal. unfold update_row, deliver. rewrite <- list_fmap_compose.
  apply list_fmap_ext. intros i x Hx%list_elem_of_lookup_2. cbn [compose].
  destruct (o_id x =? o_id r) eqn:E; reflect_bool.
  - rewrite (row_by_id _ x r (wf_outbox_ids _ _ Hw) Hx Hr E). unfold finishable. subst ev.
    change (pending (lease_row (o_attempts r + 1) until r)) with (pending r). rewrite Hp.
    cbn [lease_row o_id o_attempts o_leased EventID Attempt]. by rewrite !Z.eqb_refl, (proj2 (Z.ltb_lt _ until) Hu).
  - unfold finishable. subst ev. cbn [EventID]. by rewrite (proj2 (Z.eqb_neq _ _) E).
Qed.

Lemma deliver_due t ts id a rows : Forall (due t) rows -> Forall (due t) (deliver ts id a rows).
Proof.
  intros HF. unfold deliver. apply Forall_fmap. eapply Forall_impl; [exact HF|]. intros r Hr. cbn [compose].
  case_bool; [|done]. intros Hp. discriminate Hp.
Qed.

(** A healthy step delivers one event, or finds none. *)
Lemma Step_healthy Send obs db gone t it :
  dbwf (db, gone) -> healthy t it -> Forall (due t) (outbox db) -> (forall ev, Send ev = None) ->
  exists db' worked evs, Step Send obs db (it_claim it) (it_finish it) = (db', (worked, None), evs) /\
    rtc db_step (db, gone) (db', gone) /\ Forall (due t) (outbox db') /\ length (outbox db') = length (outbox db) /\
    worked = negb (waiting db =? 0)%nat /\ waiting db' = pred (waiting db).
Proof.
  intros Hw Hh HF HS. pose proof (Claim_due db t it Hh HF) as HC. cbv zeta in HC. unfold Step. cbn [q_Claim q_Finish DB_Queue].
  pose proof (db_claim db gone (c_fate (it_claim it)) (c_locked (it_claim it)) (c_where (it_claim it)) (c_set (it_claim it)) LeaseDuration) as Hs1.
  rewrite HC in Hs1 |- *. destruct (first_row (undelivered (outbox db))) as [r|] eqn:E.
  - apply first_row_some in E as [[Hp Hr]%list_elem_of_filter _]. cbn [negb]. rewrite HS. cbn [fst] in Hs1.
    destruct (Finish_claimed db gone it r Hw Hr Hp (hl_finish _ _ Hh) (hl_within _ _ Hh)) as [owned HF2]. cbv zeta in HF2.
    set (db1 := mkDB _ (update_row _ _ _) _) in *. set (ev := mkEvent _ _ _ _) in *.
    pose proof (db_finish db1 gone (c_fate (it_finish it)) (c_where (it_finish it)) (c_set (it_finish it)) ev true (retryDelay (Attempt ev))) as Hs2.
    rewrite HF2 in Hs2 |- *. cbn [fst] in Hs2.
    pose proof (deliver_count (c_set (it_finish it)) (o_attempts r + 1) (outbox db) r (wf_outbox_ids _ _ Hw) Hr Hp) as Hcount.
    assert (waiting db <> 0%nat) as Hne by (unfold waiting; lia).
    exists (mkDB (products db) (deliver (c_set (it_finish it)) (o_id r) (o_attempts r + 1) (outbox db)) (next_id db)), true.
    rewrite (proj2 (Nat.eqb_neq _ _) Hne). destruct owned; cbn [negb]; (eexists; split; [reflexivity|]);
      (split; [eapply rtc_l; [exact Hs1|by apply rtc_once]|]; split; [by apply deliver_due|];
       split; [by apply length_fmap|]; split; [done|]; unfold waiting in *; cbn [outbox]; lia).
  - apply first_row_none in E. assert (waiting db = 0%nat) as E0 by (unfold waiting; by rewrite E).
    exists db, false, []. rewrite E0. cbn [negb]. split; [done|]. split; [apply rtc_refl|]. done.
Qed.

(** ** The retention loop takes away nothing that is pending *)
Definition kept (db db' : DB) : Prop := outbox db' `sublist_of` outbox db /\ waiting db' = waiting db.

Lemma kept_refl db : kept db db.
Proof. done. Qed.
Lemma kept_trans db1 db2 db3 : kept db1 db2 -> kept db2 db3 -> kept db1 db3.
Proof. intros [S1 W1] [S2 W2]. split; [by etrans|congruence]. Qed.

Lemma kept_due t db db' : kept db db' -> Forall (due t) (outbox db) -> Forall (due t) (outbox db').
Proof. intros [HS _]. rewrite !Forall_forall. intros H r Hr. apply H. by eapply elem_of_sublist. Qed.

Lemma PurgeDelivered_kept db gone f locked tw retention limit :
  dbwf (db, gone) -> kept db (PurgeDelivered db f locked tw retention limit).1.
Proof.
  intros Hw. pose proof (PurgeDelivered_ok db gone f locked tw retention limit Hw) as H.
  destruct (PurgeDelivered _ _ _ _ _ _) as [db' [n err]]. destruct H as (_ & HS & Hout & _). simpl. split; [done|].
  assert (NoDup (outbox db)) as Hnd by (eapply NoDup_fmap_1, wf_outbox_ids, Hw).
  unfold waiting, undelivered. apply Permutation_length, NoDup_Permutation;
    [by apply NoDup_filter, (sublist_NoDup _ (outbox db))|by apply NoDup_filter|].
  intros r. rewrite !list_elem_of_filter. split; intros [Hp Hr]; (split; [done|]); [by eapply elem_of_sublist|].
  destruct (decide (r ∈ outbox db')); [done|]. destruct (Hout r Hr) as (d & Hd & _); [done|].
  unfold pending in Hp. by rewrite Hd in Hp.
Qed.

Lemma purgeLoop_kept obs fuel db gone calls workErr i :
  dbwf (db, gone) -> Z.of_nat (length (outbox db)) < 1000 * Z.of_nat fuel ->
  exists db' evs gone', purgeLoop obs fuel db calls workErr i = Some (db', evs) /\
    rtc db_step (db, gone) (db', gone') /\ kept db db'.
Proof.
  revert db gone i. induction fuel as [|fuel IH]; intros db gone i Hw Hlt; [lia|]. cbn [purgeLoop].
  destruct (workErr i); [exists db, [], gone; by split_and!; [|apply rtc_refl|]|]. cbn [q_PurgeDelivered DB_Queue].
  pose proof (db_purge db gone (c_fate (calls i)) (c_locked (calls i)) (c_where (calls i)) Retention 1000) as Hs.
  pose proof (PurgeDelivered_ok db gone (c_fate (calls i)) (c_locked (calls i)) (c_where (calls i)) Retention 1000 Hw) as HP.
  pose proof (PurgeDelivered_kept db gone (c_fate (calls i)) (c_locked (calls i)) (c_where (calls i)) Retention 1000 Hw) as HK.
  pose proof (db_step_wf _ _ Hw Hs) as Hw'.
  destruct (PurgeDelivered db _ _ _ Retention 1000) as [db' [n err]]. cbn [fst] in *.
  destruct err; [eexists db', _, _; split; [reflexivity|]; split; [by apply rtc_once|done]|].
  destruct HP as (_ & _ & _ & _ & Hn). specialize (Hn eq_refl).
  destruct (n <? 1000) eqn:E; reflect_bool; [eexists db', _, _; split; [reflexivity|]; split; [by apply rtc_once|done]|].
  destruct (IH db' _ (S i) Hw') as (db2 & evs & gone2 & -> & Hr & HK2); [lia|].
  eexists db2, _, gone2. split; [reflexivity|]. split; [by eapply rtc_l|by eapply kept_trans].
Qed.

(** C22: the relay drains: from any state of the tables, once members accept
    what is sent, statements are answered, completions come within their lease
    and the retry delays of what is pending have passed, as many iterations of
    the loop as there are undelivered events deliver them all, maintenance in
    between included. It does not wait as long as there is work, and waits
    after every iteration without. *)
Theorem relay_drains Send obs fuel db gone t its i n next :
  rtc db_step (empty_db, []) (db, gone) -> Z.of_nat (length (outbox db)) < 1000 * Z.of_nat fuel ->
  (forall ev, Send ev = None) -> (forall j, healthy t (its j)) -> Forall (due t) (outbox db) ->
  exists db' gone' next' , 
    relayLoop Send obs fuel n i its db next
      = Some (db', next', replicate (Nat.min n (waiting db)) false ++ replicate (n - waiting db) true) /\
    rtc db_step (db, gone) (db', gone') /\ waiting db' = (waiting db - n)%nat /\
    ((waiting db <= n)%nat -> forall r, r ∈ outbox db' -> pending r = false).
Proof.
  intros Hrun Hlen HS Hh HF. pose proof (db_steps_wf _ _ dbwf_empty Hrun) as Hw. clear Hrun.
  assert (exists db' gone' next', relayLoop Send obs fuel n i its db next
      = Some (db', next', replicate (Nat.min n (waiting db)) false ++ replicate (n - waiting db) true) /\
    rtc db_step (db, gone) (db', gone') /\ waiting db' = (waiting db - n)%nat) as (db' & gone' & next' & H1 & H2 & H3).
  2: { exists db', gone', next'. split_and!; try done. intros Hle. apply waiting_zero. lia. }
  revert db gone i next Hw Hlen HF. induction n as [|n IH]; intros db gone i next Hw Hlen HF; cbn [relayLoop].
  { exists db, gone, next. split; [by destruct (waiting db)|]. split; [apply rtc_refl|lia]. }
  assert (exists db1 gone1 next1, (if After (it_now1 (its i)) next
      then '(q', _, _) ← maintain obs fuel db (it_stats (its i)) (it_purges (its i)) (it_workErr (its i));
           Some (q', it_now2 (its i) + maintenanceInterval)
      else Some (db, next)) = Some (db1, next1) /\ rtc db_step (db, gone) (db1, gone1) /\ kept db db1)
    as (db1 & gone1 & next1 & Hm & Hr1 & HK).
  { destruct (After _ next); [|exists db, gone, next; by split_and!; [|apply rtc_refl|]].
    unfold maintain. cbn [q_Stats DB_Queue]. destruct (StoreStats db _ _ _ _) as [st err].
    destruct (purgeLoop_kept obs fuel db gone (it_purges (its i)) (it_workErr (its i)) 0 Hw Hlen) as (db1 & evs & gone1 & -> & Hr & HK).
    eexists db1, gone1, _. split; [reflexivity|done]. }
  unfold runIteration. rewrite Hm. cbn [mbind option_bind]. pose proof (db_steps_wf _ _ Hw Hr1) as Hw1.
  destruct (Step_healthy Send obs db1 gone1 t (its i) Hw1 (Hh i) (kept_due _ _ _ HK HF) HS)
    as (db2 & worked & evs & -> & Hr2 & HF2 & Hl2 & Hwk & Hcount). cbn [mbind option_bind].
  pose proof (db_steps_wf _ _ Hw1 Hr2) as Hw2. pose proof (sublist_length _ _ (proj1 HK)) as Hl1.
  destruct (IH db2 gone1 (S i) next1 Hw2 ltac:(lia) HF2) as (db' & gone' & next' & -> & Hr3 & H3).
  exists db', gone', next'. destruct HK as [_ HK]. rewrite HK in *. cbn [mbind option_bind]. split; [|split; [|lia]].
  - rewrite Hwk, Hcount, andb_true_r. destruct (waiting db) as [|k] eqn:Ek; cbn [Nat.eqb negb pred Nat.sub Nat.min replicate app]; [|done].
    by rewrite Nat.min_0_r, Nat.sub_0_r.
  - etrans; [exact Hr1|]. by etrans.
Qed.

(** ** A concrete run of the loop *)
Definition steady_iteration : iteration := mkIteration 0 0 steady steady steady (fun _ => steady) (fun _ => None).

Lemma relay_drains_witness :
  waiting db_created = 1%nat /\
  exists db' next', relayLoop always_ok true 1 2 0 (fun _ => steady_iteration) db_created 7 = Some (db', next', [false; true]) /\
    forall r, r ∈ outbox db' -> pending r = false.
Proof.
  split; [vm_compute; reflexivity|].
  destruct (relay_drains always_ok true 1 db_created [] 10 (fun _ => steady_iteration) 0 2 7 db_created_run)
    as (db' & gone' & next' & E & _ & _ & H).
  - vm_compute. reflexivity.
  - reflexivity.
  - intros j. split; try reflexivity.
  - apply Forall_forall. intros r Hr _.
    assert (forallb (fun r => (o_available r <=? 10) && match o_leased r with None => true | Some _ => false end &&
      (o_attempts r <? maxInt64)) (outbox db_created) = true) as HF by (vm_compute; reflexivity).
    rewrite forallb_forall in HF. specialize (HF r ltac:(by apply list_elem_of_In)).
    destruct (o_leased r); [by rewrite andb_false_r in HF|]. rewrite andb_true_r in HF. apply andb_true_iff in HF as [H1 H2].
    reflect_bool. done.
  - exists db', next'. split; [exact E|]. apply H. vm_compute. apply Nat.le_succ_diag_r.
Defined.
