(* ===== verification/Cluster.v ===== *)
(** * The running system: nodes, source, outbox and relays

    Composition of the parts: any number of nodes, each a machine of
    [Consistency]; the two tables of the source; the relays that claim an
    event, broadcast it with [outboxSender] and finish it with what the
    broadcast reported. Statements may lose their answers, relays may die at
    any point, nodes may come and go. The theorem says what the whole is for:
    an event that is not pending any more has reached every running node. *)
From S2P Require Import Prelude GoStrings Errors LRU CacheStore Bloom Admission Group Read Consistency Directory Protocol Postgres Outbox.

Section Cluster.
Context {C : Type} `{!Store C, !StoreLaws C}.
Notation config := (config (C := C)).
Notation world := (world (C := C)).

(** A claimed event, and how far its relay has come: [Sending name todo sent]
    says that the broadcast for the group [name] will end with the result
    [sent] once the members of [todo] have acknowledged. *)
Inductive progress := Claimed | Sending (name : string) (todo : list (string * Client)) (sent : bool).
Record relay := mkRelay { rl_event : Event; rl_progress : progress }.

Record cluster := mkCluster {
  cl_db : DB;
  cl_gone : list outboxRow;
  cl_nodes : gmap string config;
  cl_relays : list relay;
}.

(** ** Nodes *)

(** What a read of the tables answers, by [GetVersioned_snapshot]: the value of
    the live row under the version of the row. *)
Definition rows_answer (db : DB) : Genuine := fun key v value => products db !! key = Some (mkProduct value v false).

(** A step of a node that reads the source from the tables as they are. *)
Definition node_step (db : DB) (s s' : config) : Prop :=
  step (answers := rows_answer db) s s' /\ committed (wld s') = committed (wld s).

Definition set_committed (f : string -> Z) (s : config) : config :=
  mkConfig (mkWorld (grp (wld s)) f (acked (wld s)) (invalidations (wld s)) (started (wld s))) (flights s) (callers s).

(** A node that starts, with an empty cache ([launched]), reads the source from
    now on: what is committed counts as acknowledged. *)
Definition joined (g : Group C) (db : DB) : config :=
  mkConfig (mkWorld g (committed_version db) (committed_version db) 0 []) [] [].

(** The node after a local [InvalidateVersion]; a refused one changes nothing. *)
Definition relayed (s : config) (key : string) (v : Z) (t1 t2 : Time) : config :=
  match InvalidateVersion (grp (wld s)) key v t1 t2 with
  | Some (g, _, None) => invalidated s g key v
  | _ => s
  end.

(** ** Steps *)
Inductive db_write : DB -> DB -> Prop :=
| w_put db f c ts key value : db_write db (Put db f c ts key value).1
| w_putif db f c ts key value expd : db_write db (PutIfVersion db f c ts key value expd).1
| w_delete db f c ts key : db_write db (Delete db f c ts key).1
| w_deleteif db f c ts key expd : db_write db (DeleteIfVersion db f c ts key expd).1.

(** The members whose acknowledgement [send] announces. *)
Definition acknowledging (d : Directory) (sn : snapshot) (send : Client -> option error) : list (string * Client) :=
  (fun m => (ID m, client_of d m)) <$> filter (fun m => send (client_of d m) = None) (remotes d sn).

(** The assumption on every broadcast: the membership snapshot it starts from
    names every node that runs at that moment. The code sends to whatever its
    directory holds; a running node that is not in it (one the watcher has not
    seen yet, one that was unreachable and has kept its views, one that has
    just become a member with views it already had) is not told and, as
    [outbox/README.md] says, relies on the TTL of its views. Nothing is supposed
    of nodes that start after the snapshot was taken. *)
Definition sees_everyone (ns : gmap string config) (sn : snapshot) : Prop :=
  forall n, is_Some (ns !! n) -> n ∈ ID <$> members sn.

Definition isNone {A} (o : option A) : bool := match o with None => true | Some _ => false end.

Inductive cstep : cluster -> cluster -> Prop :=
| cs_node db gone ns rs id s s' :
    ns !! id = Some s -> node_step db s s' ->
    cstep (mkCluster db gone ns rs) (mkCluster db gone (<[id := s']> ns) rs)
| cs_join db gone ns rs id g :
    ns !! id = None -> launched g (committed_version db) ->
    cstep (mkCluster db gone ns rs) (mkCluster db gone (<[id := joined g db]> ns) rs)
| cs_leave db gone ns rs id :
    cstep (mkCluster db gone ns rs) (mkCluster db gone (delete id ns) rs)
| cs_write db gone ns rs db' :
    db_write db db' ->
    cstep (mkCluster db gone ns rs) (mkCluster db' gone (set_committed (committed_version db') <$> ns) rs)
| cs_purge db gone ns rs f locked tw retention limit :
    let db' := (PurgeDelivered db f locked tw retention limit).1 in
    cstep (mkCluster db gone ns rs)
      (mkCluster db' (gone ++ purged_rows db db') (set_committed (committed_version db') <$> ns) rs)
| cs_claim db gone ns rs f locked tw ts db' ev found err :
    Claim db f locked tw ts LeaseDuration = (db', (ev, found, err)) ->
    cstep (mkCluster db gone ns rs)
      (mkCluster db' gone (set_committed (committed_version db') <$> ns)
         (if found && isNone err then rs ++ [mkRelay ev Claimed] else rs))
| cs_send db gone ns rs i ev id s ready d sn t1 t2 send order g' err :
    rs !! i = Some (mkRelay ev Claimed) ->
    ns !! id = Some s -> 2 * (invalidations (wld s) + 1) < two64 ->
    dir_ok d -> selfID d = id -> state d = Some sn -> order ≡ₚ seq 0 (length (remotes d sn)) ->
    sees_everyone ns sn ->
    outboxSender ready (grp (wld s)) d ev t1 t2 send order = Some (g', err) ->
    cstep (mkCluster db gone ns rs)
      (mkCluster db gone
         (<[id := if ready then relayed s (Key ev) (EventVersion ev) t1 t2 else s]> ns)
         (<[i := mkRelay ev (Sending (Name (grp (wld s))) (acknowledging d sn send) (isNone err))]> rs))
| cs_ack db gone ns rs i ev name todo sent id c s token t1 t2 h' resp :
    rs !! i = Some (mkRelay ev (Sending name todo sent)) -> (id, c) ∈ todo ->
    ns !! id = Some s -> 2 * (invalidations (wld s) + 1) < two64 ->
    let g := grp (wld s) in
    ServeHTTP (mkHandler {[Name g := g]} token) (clientRequest c name (Key ev) (EventVersion ev)) t1 t2 = Some (h', resp) ->
    ClientInvalidateVersion None (fun _ => inl resp) c name (Key ev) (EventVersion ev) = None ->
    cstep (mkCluster db gone ns rs)
      (mkCluster db gone (<[id := relayed s (Key ev) (EventVersion ev) t1 t2]> ns)
         (<[i := mkRelay ev (Sending name (filter (fun x => x.1 <> id) todo) sent)]> rs))
| cs_finish db gone ns rs i ev name sent f tw ts :
    rs !! i = Some (mkRelay ev (Sending name [] sent)) ->
    let db' := (Finish db f tw ts ev sent (retryDelay (Attempt ev))).1 in
    cstep (mkCluster db gone ns rs)
      (mkCluster db' gone (set_committed (committed_version db') <$> ns) (delete i rs))
| cs_drop db gone ns rs i : cstep (mkCluster db gone ns rs) (mkCluster db gone ns (delete i rs)).

Definition initial_cluster : cluster := mkCluster empty_db [] ∅ [].

(** ** The source in steps *)
Lemma committed_range s k : dbwf s -> 0 <= committed_version s.1 k < two63.
Proof.
  intros Hw. unfold committed_version. destruct (products s.1 !! k) as [p|] eqn:E; [|unfold two63; lia].
  destruct (wf_product _ Hw _ _ E) as (_ & _ & Hv). unfold maxInt64 in Hv. unfold two63. lia.
Qed.

Lemma committed_mono s s' k : dbwf s -> db_step s s' -> committed_version s.1 k <= committed_version s'.1 k.
Proof.
  intros Hw Hs. pose proof (committed_range s' k (db_step_wf _ _ Hw Hs)) as H'.
  pose proof (db_step_grows _ _ Hw Hs) as Hg. revert H'. unfold committed_version.
  destruct (products s.1 !! k) as [p|] eqn:E; [|lia].
  destruct (Hg _ _ E) as (p' & -> & [->|Hlt]); lia.
Qed.

(** The events of [rows] are still told by [rows']. *)
Definition told (rows rows' : list outboxRow) : Prop :=
  forall r, r ∈ rows -> exists r', r' ∈ rows' /\ row_event r' = row_event r.

Lemma told_fmap rows rows' : row_event <$> rows' = row_event <$> rows -> told rows rows'.
Proof.
  intros HE r Hr. assert (row_event r ∈ row_event <$> rows') as (r' & E & Hr')%list_elem_of_fmap
    by (rewrite HE; by apply list_elem_of_fmap_2). by exists r'.
Qed.

(** Every running node has acknowledged [v] of [key]. *)
Definition reached (ns : gmap string config) (key : string) (v : Z) : Prop :=
  forall id s, ns !! id = Some s -> v <= acked (wld s) key.

(** A change of the source that loses no event and marks none delivered that
    has not reached the nodes. *)
Record source_change (ns : gmap string config) (db : DB) (gone : list outboxRow) (db' : DB) (gone' : list outboxRow)
    : Prop := {
  sc_step : db_step (db, gone) (db', gone');
  sc_told : told (outbox db ++ gone) (outbox db' ++ gone');
  sc_done : forall r', r' ∈ outbox db' ++ gone' -> pending r' = false ->
    (exists r, r ∈ outbox db ++ gone /\ pending r = false /\ row_event r = row_event r') \/
    reached ns (o_key r') (o_version r');
}.

Lemma write_step db gone db' : db_write db db' -> db_step (db, gone) (db', gone).
Proof. destruct 1; constructor. Qed.
Lemma write_mutates db db' : db_write db db' -> exists key, mutates db db' key.
Proof. destruct 1; eexists; [apply Put_mutates|apply PutIfVersion_mutates|apply Delete_mutates|apply DeleteIfVersion_mutates]. Qed.

Lemma write_change ns db gone db' : db_write db db' -> source_change ns db gone db' gone.
Proof.
  intros Hs. split; [by apply write_step|..];
    apply write_mutates in Hs as [key [->|(p & ts & _ & _ & (_ & _ & _ & HO & _))]].
  - by intros r Hr; exists r.
  - intros r Hr. exists r. split; [|done]. rewrite HO. set_solver.
  - intros r' Hr' Hp. left. by exists r'.
  - rewrite HO. intros r' Hr' Hp. left. exists r'. rewrite !elem_of_app, list_elem_of_singleton in Hr'.
    rewrite elem_of_app. destruct Hr' as [[Hr'| ->]|Hr']; [by auto|done|by auto].
Qed.

Lemma purge_sub db f locked tw retention limit r :
  r ∈ outbox (PurgeDelivered db f locked tw retention limit).1 -> r ∈ outbox db.
Proof.
  unfold PurgeDelivered. case_bool; [done|]. destruct (run f _ db) as [db' res] eqn:E. simpl.
  apply run_cases in E as [->|[n E]]; [done|]. injection E as <- _. simpl. by intros [_ ?]%list_elem_of_filter.
Qed.

(** Retention moves rows to the ghost list and touches no other. *)
Lemma purge_rows_in db gone f locked tw retention limit r :
  let db' := (PurgeDelivered db f locked tw retention limit).1 in
  r ∈ outbox db' ++ (gone ++ purged_rows db db') <-> r ∈ outbox db ++ gone.
Proof.
  intros db'. unfold purged_rows. rewrite !elem_of_app, list_elem_of_filter. split.
  - intros [H%purge_sub|[H|[_ H]]]; auto.
  - destruct (decide (r ∈ outbox db')); tauto.
Qed.

Lemma purge_change ns db gone f locked tw retention limit :
  let db' := (PurgeDelivered db f locked tw retention limit).1 in
  source_change ns db gone db' (gone ++ purged_rows db db').
Proof.
  intros db'. pose proof (purge_rows_in db gone f locked tw retention limit) as Hin. simpl in Hin. fold db' in Hin.
  split; [constructor|..].
  - intros r Hr. exists r. by rewrite Hin.
  - intros r' Hr' Hp. left. exists r'. by rewrite <- Hin.
Qed.

(** [Claim] and [Finish] keep what the rows say; [Hdone] is what they mark. *)
Lemma updated_change ns db gone db' :
  dbwf (db, gone) -> db_step (db, gone) (db', gone) -> rows_updated db db' ->
  (forall r r', r ∈ outbox db -> r' ∈ outbox db' -> o_id r' = o_id r -> pending r = true -> pending r' = false ->
     reached ns (o_key r) (o_version r)) ->
  source_change ns db gone db' gone.
Proof.
  intros Hw Hs HU Hdone. pose proof HU as (_ & _ & HE & _). split; [done|..].
  - apply told_fmap. by rewrite !fmap_app, HE.
  - intros r' [Hr'|Hr']%elem_of_app Hp; [|left; exists r'; rewrite elem_of_app; by auto].
    destruct (told_fmap (outbox db') (outbox db) (eq_sym HE) r' Hr') as (r & Hr & Er).
    injection Er as Eid Ekey Ever. destruct (pending r) eqn:Epr.
    + right. rewrite <- Ekey, <- Ever. by apply (Hdone r r').
    + left. exists r. rewrite elem_of_app. split; [by left|]. split; [done|]. unfold row_event. congruence.
Qed.

Lemma claim_change ns db gone f locked tw ts lease :
  dbwf (db, gone) -> source_change ns db gone (Claim db f locked tw ts lease).1 gone.
Proof.
  intros Hw. apply updated_change; [done|constructor|by eapply Claim_updates|].
  intros r r' Hr Hr' E Hp Hp'. pose proof (Claim_delivered _ _ _ _ _ _ _ _ _ Hw Hr Hr' E) as Hd.
  unfold pending in *. rewrite Hd in Hp'. congruence.
Qed.

(** Event [ev] is, or was, a row of the outbox. *)
Definition known_event (rows : list outboxRow) (ev : Event) : Prop :=
  exists r, r ∈ rows /\ row_event r = (EventID ev, (Key ev, EventVersion ev)).

Lemma known_told rows rows' ev : told rows rows' -> known_event rows ev -> known_event rows' ev.
Proof. intros HT (r & Hr & E). destruct (HT r Hr) as (r' & Hr' & E'). exists r'. split; [done|congruence]. Qed.

Lemma finish_change ns db gone f tw ts ev sent retry :
  dbwf (db, gone) -> known_event (outbox db ++ gone) ev ->
  (sent = true -> reached ns (Key ev) (EventVersion ev)) ->
  source_change ns db gone (Finish db f tw ts ev sent retry).1 gone.
Proof.
  intros Hw (x & Hx & Ex) Hsent. apply updated_change; [done|constructor|by eapply Finish_updates|].
  intros r r' Hr Hr' E Hp Hp'. destruct (Finish_delivered _ _ _ _ _ _ _ _ _ _ Hw Hr Hr' E Hp Hp') as [-> Eid].
  injection Ex as Exid Exk Exv.
  assert (x = r) as -> by (apply (row_by_id _ _ _ (wf_ids _ Hw) Hx); [apply elem_of_app; by left|simpl; congruence]).
  rewrite Exk, Exv. by apply Hsent.
Qed.

(** ** The invariant

    It is stated for a relation [held] that contains what the tables answer at
    every point of the run. *)
Definition contained (A B : Genuine) : Prop := forall key v value, A key v value -> B key v value.

Lemma step_contained (A B : Genuine) (s s' : config) :
  contained A B -> step (answers := A) s s' -> step (answers := B) s s'.
Proof.
  intros HAB. assert (forall w p w' p', thread_step (C := C) (answers := A) w p w' p' -> thread_step (answers := B) w p w' p') as Ht.
  { intros w p w' p' [w1 f e g evs p1 E|w1 key k r Hr]; [by eapply ts_act|apply ts_source].
    intros Hn. destruct (Hr Hn) as [? Hg]. split; [done|]. by apply HAB. }
  destruct 1.
  - apply step_get.
  - eapply step_flight; eauto.
  - eapply step_caller; eauto.
  - by apply step_start.
  - by eapply step_join.
  - by eapply step_result.
  - by eapply step_give_up.
  - by eapply step_invalidate.
  - by apply step_commit.
  - by eapply step_clean.
Qed.

Section Held.
Context {held : Genuine}.

(** What a broadcast that will report success has left to do. *)
Definition progress_ok (ns : gmap string config) (rl : relay) : Prop :=
  match rl_progress rl with
  | Sending _ todo true => forall id s, ns !! id = Some s ->
      id ∈ todo.*1 \/ EventVersion (rl_event rl) <= acked (wld s) (Key (rl_event rl))
  | _ => True
  end.

Definition node_ok (db : DB) (s : config) : Prop := cinv s /\ committed (wld s) = committed_version db.

Record clinv (c : cluster) : Prop := {
  ci_db : dbwf (cl_db c, cl_gone c);
  ci_nodes : forall id s, cl_nodes c !! id = Some s -> node_ok (cl_db c) s;
  ci_relays : forall rl, rl ∈ cl_relays c ->
    known_event (outbox (cl_db c) ++ cl_gone c) (rl_event rl) /\ progress_ok (cl_nodes c) rl;
  ci_delivered : forall r, r ∈ outbox (cl_db c) ++ cl_gone c -> pending r = false ->
    reached (cl_nodes c) (o_key r) (o_version r);
}.

Lemma known_event_version db gone ev :
  dbwf (db, gone) -> known_event (outbox db ++ gone) ev ->
  ValidateKey (Key ev) = None /\ 1 <= EventVersion ev <= committed_version db (Key ev) /\ EventVersion ev < two63.
Proof.
  intros Hw (r & Hr & E). injection E as _ Ek Ev. pose proof (wf_event _ Hw r Hr) as Hv. simpl in Hv.
  rewrite Ek, Ev in Hv. pose proof (committed_range _ (Key ev) Hw) as Hc. simpl in Hc. split; [|lia].
  unfold committed_version in Hv. destruct (products db !! Key ev) as [p|] eqn:E; [|lia]. by apply (wf_product _ Hw _ _ E).
Qed.

(** Nodes only acknowledge more; one that joins has everything committed. *)
Definition evolves (db : DB) (ns ns' : gmap string config) : Prop :=
  forall id s', ns' !! id = Some s' ->
    (exists s, ns !! id = Some s /\ forall k, acked (wld s) k <= acked (wld s') k) \/
    (forall k, committed_version db k <= acked (wld s') k).

Lemma reached_evolves db ns ns' key v :
  evolves db ns ns' -> v <= committed_version db key -> reached ns key v -> reached ns' key v.
Proof.
  intros HE Hv HR id s' Hs'. destruct (HE _ _ Hs') as [(s & Hs & Ha)|Ha]; specialize (Ha key); [|lia].
  specialize (HR _ _ Hs). lia.
Qed.

Lemma progress_evolves db gone ns ns' rl :
  evolves db ns ns' -> dbwf (db, gone) -> known_event (outbox db ++ gone) (rl_event rl) ->
  progress_ok ns rl -> progress_ok ns' rl.
Proof.
  intros HE Hw Hk. apply known_event_version in Hk as (_ & Hv & _); [|done]. unfold progress_ok.
  destruct (rl_progress rl) as [|name todo []]; try done. intros HP id s' Hs'.
  destruct (HE _ _ Hs') as [(s & Hs & Ha)|Ha]; specialize (Ha (Key (rl_event rl))); [|right; lia].
  destruct (HP _ _ Hs); [by left|right; lia].
Qed.

Lemma clinv_nodes db gone ns ns' rs :
  clinv (mkCluster db gone ns rs) -> evolves db ns ns' ->
  (forall id s, ns' !! id = Some s -> node_ok db s) -> clinv (mkCluster db gone ns' rs).
Proof.
  intros [Hw Hn Hr Hd] HE Hn'. split; simpl in *; [done|done|..].
  - intros rl Hrl. destruct (Hr rl Hrl) as [Hk HP]. split; [done|]. by eapply progress_evolves.
  - intros r Hin Hp. eapply reached_evolves; [done|by apply (wf_event _ Hw)|by apply Hd].
Qed.

Lemma clinv_node db gone ns rs id s s' :
  clinv (mkCluster db gone ns rs) -> ns !! id = Some s -> node_ok db s' ->
  (forall k, acked (wld s) k <= acked (wld s') k) -> clinv (mkCluster db gone (<[id := s']> ns) rs).
Proof.
  intros HI Hs Hok Ha. eapply clinv_nodes; [done|..].
  - intros j t [[<- <-]|[_ Ht]]%lookup_insert_Some; left; [by exists s|by exists t].
  - intros j t [[<- <-]|[_ Ht]]%lookup_insert_Some; [done|]. by eapply (ci_nodes _ HI).
Qed.

Lemma clinv_relays db gone ns rs rs' :
  clinv (mkCluster db gone ns rs) ->
  (forall rl, rl ∈ rs' -> rl ∈ rs \/ (known_event (outbox db ++ gone) (rl_event rl) /\ progress_ok ns rl)) ->
  clinv (mkCluster db gone ns rs').
Proof.
  intros [Hw Hn Hr Hd] Hrs. split; simpl in *; [done|done| |done].
  intros rl Hrl. destruct (Hrs rl Hrl); [by apply Hr|done].
Qed.

Lemma set_committed_cinv f s :
  cinv s -> (forall k, committed (wld s) k <= f k < two63) -> cinv (set_committed f s).
Proof.
  intros (Hw & HF & HC) Hf. pose proof (commits_rely (wld s) f Hw Hf) as HR. split; [apply HR|]. split.
  - by eapply flights_ok_stable.
  - by eapply callers_ok_stable.
Qed.

Lemma clinv_source db gone ns rs db' gone' :
  clinv (mkCluster db gone ns rs) -> source_change ns db gone db' gone' ->
  clinv (mkCluster db' gone' (set_committed (committed_version db') <$> ns) rs).
Proof.
  intros [Hw Hn Hr Hd] [Hs HT Hdone]. simpl in *. pose proof (db_step_wf _ _ Hw Hs) as Hw'.
  assert (evolves db ns (set_committed (committed_version db') <$> ns)) as HE.
  { intros id s' (s & <- & Hs')%lookup_fmap_Some. left. by exists s. }
  split; simpl; [done|..].
  - intros id s' (s & <- & Hs')%lookup_fmap_Some. destruct (Hn _ _ Hs') as [Hc Hcm]. split; [|done].
    apply set_committed_cinv; [done|]. intros k. rewrite Hcm. split.
    + apply (committed_mono _ _ k Hw Hs).
    + apply (committed_range _ k Hw').
  - intros rl Hrl. destruct (Hr rl Hrl) as [Hk HP]. split; [by eapply known_told|]. by eapply progress_evolves.
  - intros r' Hr' Hp. assert (reached ns (o_key r') (o_version r')) as HR.
    { destruct (Hdone r' Hr' Hp) as [(r & Hrin & Hpr & E)|HR]; [|done].
      injection E as _ Ek Ev. rewrite <- Ek, <- Ev. by apply Hd. }
    intros id s' (s & <- & Hs')%lookup_fmap_Some. exact (HR id s Hs').
Qed.

(** ** One invalidation on one node *)
Lemma relayed_ok db s key v t1 t2 :
  node_ok db s -> ValidateKey key = None -> 0 <= v <= committed_version db key ->
  2 * (invalidations (wld s) + 1) < two64 ->
  node_ok db (relayed s key v t1 t2) /\ (forall k, acked (wld s) k <= acked (wld (relayed s key v t1 t2)) k) /\
  v <= acked (wld (relayed s key v t1 t2)) key /\
  exists evs, InvalidateVersion (grp (wld s)) key v t1 t2 = Some (grp (wld (relayed s key v t1 t2)), evs, None).
Proof.
  intros [Hc Hcm] Hk Hv Hn. unfold relayed.
  destruct (InvalidateVersion_ok (grp (wld s)) key v t1 t2 (inv_gwf _ (proj1 Hc)) Hk ltac:(lia)) as (g' & evs & HI & _).
  rewrite HI. pose proof (invalidated_step s g' evs key v t1 t2 HI ltac:(rewrite Hcm; lia) Hn) as Hs.
  split; [split; [by eapply step_cinv|done]|]. split; [intros k; by apply (step_acked _ _ k Hc Hs)|].
  split; [|by exists evs]. simpl. unfold upd. rewrite decide_True by done. lia.
Qed.

Lemma NewHandler_single (g : Group C) name x :
  ({[Name g := g]} : gmap string (Group C)) !! name = Some x -> x = g.
Proof. by intros [_ <-]%lookup_singleton_Some. Qed.

(** The relay's own node is the one its sender leaves behind. *)
Lemma send_group db s ready d ev t1 t2 send order g' err :
  node_ok db s -> ValidateKey (Key ev) = None -> 0 <= EventVersion ev <= committed_version db (Key ev) ->
  2 * (invalidations (wld s) + 1) < two64 ->
  outboxSender ready (grp (wld s)) d ev t1 t2 send order = Some (g', err) ->
  grp (wld (if ready then relayed s (Key ev) (EventVersion ev) t1 t2 else s)) = g'.
Proof.
  intros Hs Hk Hv Hn. destruct (relayed_ok db s (Key ev) (EventVersion ev) t1 t2 Hs Hk Hv Hn) as (_ & _ & _ & evs & HI).
  unfold outboxSender. destruct ready; [|by intros [= <- _]]. cbn [negb]. cbv iota.
  unfold DirInvalidateVersion. rewrite HI. cbn [mbind option_bind].
  destruct (state d) as [sn|]; [|done]. cbn [mbind option_bind].
  destruct (fanOut _ _ _ _); [|done]. cbn [mbind option_bind]. case_bool; by intros [= <- _].
Qed.

Lemma acknowledging_ids d sn send id :
  (forall m, m ∈ members sn -> ID m <> selfID d -> send (client_of d m) = None) ->
  id ∈ ID <$> members sn -> id <> selfID d -> id ∈ (acknowledging d sn send).*1.
Proof.
  intros Hsend (m & -> & Hm)%list_elem_of_fmap Hne. unfold acknowledging. rewrite <- list_fmap_compose.
  apply list_elem_of_fmap. exists m. split; [done|]. apply list_elem_of_filter. split; [by apply Hsend|].
  by apply list_elem_of_filter.
Qed.

(** ** Every step keeps the invariant *)
Lemma clinv_progress db gone ns rs i ev p p' :
  clinv (mkCluster db gone ns rs) -> rs !! i = Some (mkRelay ev p) -> progress_ok ns (mkRelay ev p') ->
  clinv (mkCluster db gone ns (<[i := mkRelay ev p']> rs)).
Proof.
  intros HI Hi HP. eapply clinv_relays; [done|].
  intros rl [j Hj]%list_elem_of_lookup. apply list_lookup_insert_Some in Hj as [(_ & <- & _)|[_ Hj]].
  - right. split; [|done]. exact (proj1 (ci_relays _ HI _ (list_elem_of_lookup_2 _ _ _ Hi))).
  - left. by eapply list_elem_of_lookup_2.
Qed.

Lemma clinv_send db gone ns rs i ev id s ready d sn t1 t2 send order g' err :
  clinv (mkCluster db gone ns rs) -> rs !! i = Some (mkRelay ev Claimed) ->
  ns !! id = Some s -> 2 * (invalidations (wld s) + 1) < two64 ->
  dir_ok d -> selfID d = id -> state d = Some sn -> order ≡ₚ seq 0 (length (remotes d sn)) ->
  sees_everyone ns sn ->
  outboxSender ready (grp (wld s)) d ev t1 t2 send order = Some (g', err) ->
  clinv (mkCluster db gone
         (<[id := if ready then relayed s (Key ev) (EventVersion ev) t1 t2 else s]> ns)
         (<[i := mkRelay ev (Sending (Name (grp (wld s))) (acknowledging d sn send) (isNone err))]> rs)).
Proof.
  intros HI Hi Hs Hn Hd Hself Hst Ho Hall HS.
  destruct (ci_relays _ HI _ (list_elem_of_lookup_2 _ _ _ Hi)) as [Hk _]. simpl in Hk.
  destruct (known_event_version _ _ _ (ci_db _ HI) Hk) as (Hkey & Hv & _). simpl in Hv.
  pose proof (ci_nodes _ HI _ _ Hs) as Hok.
  destruct (relayed_ok db s (Key ev) (EventVersion ev) t1 t2 Hok Hkey ltac:(lia) Hn) as (Hok' & Hmono & Hreach & _).
  assert (clinv (mkCluster db gone (<[id := if ready then relayed s (Key ev) (EventVersion ev) t1 t2 else s]> ns) rs)) as HI'.
  { destruct ready; eapply (clinv_node _ _ _ _ _ s); try done. }
  eapply clinv_progress; [done..|]. unfold progress_ok. cbn [rl_progress rl_event].
  destruct err as [e|]; [done|]. simpl isNone. cbv iota.
  destruct (outboxSender_complete ready _ g' d sn ev t1 t2 send order Hd Hst Ho HS) as (-> & _ & _ & Hsend).
  intros n x [[<- <-]|[Hne Hx]]%lookup_insert_Some; [by right|left].
  apply acknowledging_ids; [done| |congruence]. apply Hall. by exists x.
Qed.

Lemma clinv_ack db gone ns rs i ev name todo sent id c s token t1 t2 h' resp :
  clinv (mkCluster db gone ns rs) -> rs !! i = Some (mkRelay ev (Sending name todo sent)) ->
  ns !! id = Some s -> 2 * (invalidations (wld s) + 1) < two64 ->
  ServeHTTP (mkHandler {[Name (grp (wld s)) := grp (wld s)]} token) (clientRequest c name (Key ev) (EventVersion ev)) t1 t2
    = Some (h', resp) ->
  ClientInvalidateVersion None (fun _ => inl resp) c name (Key ev) (EventVersion ev) = None ->
  clinv (mkCluster db gone (<[id := relayed s (Key ev) (EventVersion ev) t1 t2]> ns)
           (<[i := mkRelay ev (Sending name (filter (fun x => x.1 <> id) todo) sent)]> rs)).
Proof.
  intros HI Hi Hs Hn HS HC.
  destruct (ci_relays _ HI _ (list_elem_of_lookup_2 _ _ _ Hi)) as [Hk HP]. simpl in Hk.
  destruct (known_event_version _ _ _ (ci_db _ HI) Hk) as (Hkey & Hv & Hv63). simpl in Hv.
  destruct (relayed_ok db s (Key ev) (EventVersion ev) t1 t2 (ci_nodes _ HI _ _ Hs) Hkey ltac:(lia) Hn)
    as (Hok' & Hmono & Hreach & evs & HIv).
  destruct (acknowledged_applied _ _ _ _ _ (EventVersion ev) _ _ _ ltac:(lia) HS HC) as (g & g' & evs' & Hg & HIv' & _).
  apply NewHandler_single in Hg as ->.
  eapply clinv_progress; [by eapply clinv_node|done|].
  unfold progress_ok in *. cbn [rl_progress rl_event] in *. destruct sent; [|done].
  intros n x [[<- <-]|[Hne Hx]]%lookup_insert_Some; [by right|].
  destruct (HP _ _ Hx) as [Ht|]; [left|by right].
  apply list_elem_of_fmap in Ht as (y & -> & Hy). apply list_elem_of_fmap. exists y. split; [done|].
  by apply list_elem_of_filter.
Qed.

Lemma cstep_inv c c' : contained (rows_answer (cl_db c)) held -> clinv c -> cstep c c' -> clinv c'.
Proof.
  intros Hheld HI Hs. destruct Hs as [db gone ns rs id s s' Hs [Hst Hcm]|db gone ns rs id g Hid Hg|db gone ns rs id
    |db gone ns rs db' Hw|db gone ns rs f locked tw retention limit db'
    |db gone ns rs f locked tw ts db' ev found err HC
    |db gone ns rs i ev id s ready d sn t1 t2 send order g' err Hi Hs Hn Hd Hself Hst Ho Hall HS
    |db gone ns rs i ev name todo sent id c s token t1 t2 h' resp Hi Hin Hs Hn g HS HC
    |db gone ns rs i ev name sent f tw ts Hi db'|db gone ns rs i].
  - apply (step_contained _ _ _ _ Hheld) in Hst. destruct (ci_nodes _ HI _ _ Hs) as [Hc Hc2]. eapply clinv_node; [done|done| |].
    + split; [by eapply step_cinv|exact (eq_trans Hcm Hc2)].
    + intros k. by apply (step_acked _ _ k Hc Hst).
  - eapply clinv_nodes; [done|..].
    + intros j t [[<- <-]|[_ Ht]]%lookup_insert_Some; [right; intros k; simpl; lia|left; by exists t].
    + intros j t [[<- <-]|[_ Ht]]%lookup_insert_Some; [|by apply (ci_nodes _ HI j)]. split; [|done].
      destruct Hg as (Hg1 & Hg2 & Hg3 & Hg4 & Hg5). apply fresh_cinv; auto.
      intros k. specialize (Hg5 k). lia.
  - eapply clinv_nodes; [done|..]; intros j t [_ Ht]%lookup_delete_Some; [left; by exists t|].
    by apply (ci_nodes _ HI j).
  - eapply clinv_source; [done|]. by apply write_change.
  - eapply clinv_source; [done|]. apply purge_change.
  - pose proof (claim_change ns db gone f locked tw ts LeaseDuration (ci_db _ HI)) as Hch.
    rewrite HC in Hch. simpl in Hch. pose proof (clinv_source _ _ _ _ _ _ HI Hch) as HI'.
    destruct (found && isNone err) eqn:E; [|done]. apply andb_true_iff in E as [-> E]. destruct err; [done|].
    eapply clinv_relays; [done|]. intros rl [Hrl|Hrl]%elem_of_app; [by left|right].
    apply list_elem_of_singleton in Hrl as ->. split; [|done].
    destruct (Claim_ok _ _ _ _ _ _ _ _ _ (ci_db _ HI) HC) as (_ & _ & r & Hr & _ & _ & _ & -> & _).
    apply (known_told _ _ _ (sc_told _ _ _ _ _ Hch)). exists r. split; [apply elem_of_app; by left|done].
  - by eapply clinv_send.
  - by eapply clinv_ack.
  - destruct (ci_relays _ HI _ (list_elem_of_lookup_2 _ _ _ Hi)) as [Hk HP].
    eapply clinv_source; [|apply finish_change; [apply HI|done|]].
    + eapply clinv_relays; [done|]. intros rl Hrl%list_elem_of_delete_inv. by left.
    + intros ->. intros id s Hs. destruct (HP id s Hs) as [Hin|]; [by apply elem_of_nil in Hin|done].
  - eapply clinv_relays; [done|]. intros rl Hrl%list_elem_of_delete_inv. by left.
Qed.

Lemma clinv_initial : clinv initial_cluster.
Proof. split; simpl; [apply dbwf_empty|set_solver..]. Qed.

(** A caller that starts a read on a node now. *)
Definition with_reader (s : config) (key : string) : config :=
  mkConfig (wld s) (flights s) (callers s ++ [mkCaller key (acked (wld s) key) (Get key)]).

Lemma reader_sees s key s2 c view :
  cinv s -> rtc step (with_reader s key) s2 -> callers s2 !! length (callers s) = Some c ->
  c_prog c = Ret (view, None) -> acked (wld s) key <= version view /\ dated (wld s2) key view.
Proof.
  intros Hc Hr Hi Hret.
  assert (cinv (with_reader s key)) as Hc1.
  { eapply step_cinv; [exact Hc|]. destruct s as [w fs cs]. apply step_get. }
  pose proof (steps_cinv _ _ Hc1 Hr) as (Hw & _ & HC).
  destruct (steps_caller _ _ _ _ Hr (list_lookup_middle (callers s) [] (mkCaller key (acked (wld s) key) (Get key)) _ eq_refl))
    as (c' & Hc' & Ea & Ek).
  simplify_eq. simpl in Ea, Ek. pose proof (HC _ _ Hi) as Hwp. rewrite Hret in Hwp.
  destruct (Hwp _ (rely_refl _ Hw) eq_refl) as [Hle Hd]. rewrite Ek in Hd. simpl in Hle. split; [lia|done].
Qed.

End Held.

(** ** Runs with the tables they went through *)
Inductive run : list DB -> cluster -> Prop :=
| run_start : run [empty_db] initial_cluster
| run_step dbs c c' : run dbs c -> cstep c c' -> run (cl_db c' :: dbs) c'.

Lemma run_exists c : rtc cstep initial_cluster c -> exists dbs, run dbs c.
Proof.
  revert c. apply rtc_ind_r; [exists [empty_db]; constructor|].
  intros c1 c2 _ Hs [dbs Hd]. exists (cl_db c2 :: dbs). by eapply run_step.
Qed.

(** What the tables have answered at some point of the run. *)
Definition held_in (dbs : list DB) : Genuine := fun key v value => exists db, db ∈ dbs /\ rows_answer db key v value.

Lemma run_current dbs c : run dbs c -> cl_db c ∈ dbs.
Proof. destruct 1; by left. Qed.

Lemma run_clinv (A : Genuine) dbs c :
  run dbs c -> contained (held_in dbs) A -> clinv (held := A) c.
Proof.
  intros Hr. induction Hr as [|dbs c c' Hr IH Hs]; intros HA; [apply clinv_initial|].
  assert (contained (held_in dbs) A) as HA'.
  { intros key v value (db & Hin & Hv). apply HA. exists db. split; [by right|done]. }
  eapply cstep_inv; [|by apply IH|done]. intros key v value Hv. apply HA'. exists (cl_db c).
  split; [by apply run_current|done].
Qed.

Lemma cstep_rows c c' : dbwf (cl_db c, cl_gone c) -> cstep c c' -> row_grows (cl_db c) (cl_db c').
Proof.
  intros Hw Hs. destruct Hs; simpl in *; try (by apply row_grows_same).
  - apply (db_step_grows _ (db', gone) Hw). by apply write_step.
  - apply (db_step_grows _ (db', gone ++ purged_rows db db') Hw). constructor.
  - match goal with H : Claim _ _ _ _ _ _ = _ |- _ =>
      apply (db_step_grows _ (db', gone) Hw); replace db' with (Claim db f locked tw ts LeaseDuration).1 by (by rewrite H) end.
    constructor.
  - apply (db_step_grows _ (db', gone) Hw). constructor.
Qed.

(** A row only gives way to a newer version, so a version has one value. *)
Lemma run_rows dbs c db key p :
  run dbs c -> db ∈ dbs -> products db !! key = Some p ->
  exists p', products (cl_db c) !! key = Some p' /\ (p' = p \/ p_version p < p_version p').
Proof.
  intros Hr. revert p. induction Hr as [|dbs c c' Hr IH Hs]; intros p Hin Hp.
  { apply list_elem_of_singleton in Hin as ->. by exists p; auto. }
  pose proof (run_clinv (held_in dbs) dbs c Hr (fun _ _ _ H => H)) as HI.
  apply elem_of_cons in Hin as [->|Hin]; [by exists p; auto|].
  destruct (IH p Hin Hp) as (p1 & Hp1 & H1). destruct (cstep_rows c c' (ci_db _ HI) Hs key p1 Hp1) as (p2 & Hp2 & H2).
  exists p2. split; [done|]. destruct H1 as [->|?], H2 as [->|?]; auto; right; lia.
Qed.

Lemma held_current dbs c key view :
  run dbs c -> held_in dbs key (version view) (b view) -> version view = committed_version (cl_db c) key ->
  rows_answer (cl_db c) key (version view) (b view).
Proof.
  intros Hr (db & Hin & Hp) Hv. destruct (run_rows dbs c db key _ Hr Hin Hp) as (p' & Hp' & [->|Hlt]); [done|].
  unfold committed_version in Hv. rewrite Hp' in Hv. simpl in Hlt. lia.
Qed.

Lemma acknowledged_everywhere {held : Genuine} c id s key v :
  clinv (held := held) c -> cl_nodes c !! id = Some s -> 0 <= v <= committed_version (cl_db c) key ->
  (forall r, r ∈ outbox (cl_db c) -> o_key r = key -> o_version r = v -> pending r = false) -> v <= acked (wld s) key.
Proof.
  intros HI Hs Hv Hp. destruct (ci_nodes _ HI _ _ Hs) as [[Hw _] _].
  destruct (decide (v = 0)) as [->|Hne]; [apply (inv_acked _ Hw)|].
  destruct (wf_complete _ (ci_db _ HI) key v) as (r & Hin & <- & <-); [simpl; lia|].
  refine (ci_delivered _ HI r Hin _ id s Hs).
  apply elem_of_app in Hin as [Hin|Hin]; [by apply Hp|by apply (wf_gone _ (ci_db _ HI))].
Qed.

Lemma reader_committed (A : Genuine) db s s' :
  rtc (node_step db) s s' -> contained (rows_answer db) A ->
  rtc (step (answers := A)) s s' /\ committed (wld s') = committed (wld s).
Proof.
  intros Hr HA. induction Hr as [s|s s1 s2 [Hs E] Hr [IH E2]]; [by split; [apply rtc_refl|]|].
  split; [|congruence]. eapply rtc_l; [by apply (step_contained _ _ _ _ HA)|done].
Qed.

(** C1: what the whole system is for: whatever reads, writes, relays,
    deliveries, lost answers, crashes, joins and departures led here, once the
    event of a committed version [v] is not pending any more, on every running
    node every resident view of the key and every read that starts now has a
    version from [v] on that is committed, with exactly the bytes the source
    held under that version; further writes may intervene ([A]: what the source
    answers then). When [v] is the newest version, a view and an undisturbed
    read are exactly the current row of the table. Each broadcast is supposed
    to see every running node in its membership snapshot. *)
Theorem delivered_everywhere dbs c id s key v :
  run dbs c -> cl_nodes c !! id = Some s -> 0 <= v <= committed_version (cl_db c) key ->
  (forall r, r ∈ outbox (cl_db c) -> o_key r = key -> o_version r = v -> pending r = false) ->
  let current view := rows_answer (cl_db c) key (version view) (b view) in
  (forall view, st_resident (mainCache (grp (wld s))) !! key = Some view ->
     v <= version view <= committed_version (cl_db c) key /\ held_in dbs key (version view) (b view) /\
     (v = committed_version (cl_db c) key -> current view)) /\
  (forall (A : Genuine) s2 cl view, contained (held_in dbs) A ->
     rtc (step (answers := A)) (with_reader s key) s2 -> callers s2 !! length (callers s) = Some cl ->
     c_prog cl = Ret (view, None) ->
     v <= version view <= committed (wld s2) key /\ A key (version view) (b view)) /\
  (forall s2 cl view, rtc (node_step (cl_db c)) (with_reader s key) s2 -> callers s2 !! length (callers s) = Some cl ->
     c_prog cl = Ret (view, None) -> v = committed_version (cl_db c) key -> current view).
Proof.
  intros Hr Hs Hv Hp current.
  assert (contained (rows_answer (cl_db c)) (held_in dbs)) as Hnow
    by (intros k n value H; exists (cl_db c); split; [by apply run_current|done]).
  assert (forall A s2 cl view, contained (held_in dbs) A -> rtc (step (answers := A)) (with_reader s key) s2 ->
    callers s2 !! length (callers s) = Some cl -> c_prog cl = Ret (view, None) ->
    v <= version view <= committed (wld s2) key /\ A key (version view) (b view)) as Hread.
  { intros A s2 cl view HA Hr2 Hcl Hret. pose proof (run_clinv A dbs c Hr HA) as HI.
    pose proof (acknowledged_everywhere c id s key v HI Hs Hv Hp). destruct (ci_nodes _ HI _ _ Hs) as [Hc _].
    destruct (reader_sees s key s2 cl view Hc Hr2 Hcl Hret) as [? [? ?]]. split; [lia|done]. }
  pose proof (run_clinv (held_in dbs) dbs c Hr (fun _ _ _ H => H)) as HI.
  destruct (ci_nodes _ HI _ _ Hs) as [[Hw _] Hcm]. split; [|split; [exact Hread|]].
  - intros view Hview. destruct (inv_resident _ Hw _ _ Hview) as [Hle [Hd Hg]]. rewrite Hcm in Hd.
    pose proof (acknowledged_everywhere c id s key v HI Hs Hv Hp). split; [lia|]. split; [done|].
    intros ->. eapply held_current; [done|done|lia].
  - intros s2 cl view Hr2 Hcl Hret ->. destruct (reader_committed _ _ _ _ Hr2 Hnow) as [Hr3 E].
    destruct (Hread _ s2 cl view (fun _ _ _ H => H) Hr3 Hcl Hret) as [Hle Hg]. rewrite E in Hle. simpl in Hle.
    rewrite Hcm in Hle. eapply held_current; [done|done|lia].
Qed.

End Cluster.

(** ** A concrete run: two nodes, a write and its delivery *)
Definition pair_ring : Directory :=
  (Update (mkDirectory "a" 1000 "secret" None) [mkMember "b" "10.0.0.2:80"; mkMember "a" "10.0.0.1:80"]).1.
Definition pair_client : Client := mkClient "10.0.0.2:80" 1000 "secret".
Definition sample_event : Event := mkEvent 1 "k" 1 1.

Definition db_claimed : DB := (Claim db_created Answered unlocked 10 10 LeaseDuration).1.
Definition db_done : DB := (Finish db_claimed Answered 11 11 sample_event true (retryDelay 1)).1.

Definition node0 : config (C := cache) := joined sample_group empty_db.
Definition node2 : config (C := cache) :=
  set_committed (committed_version db_claimed) (set_committed (committed_version db_created) node0).
Definition node_done : config (C := cache) := set_committed (committed_version db_done) (relayed node2 "k" 1 1 2).
Definition nodes0 : gmap string (config (C := cache)) := <["b" := node0]> (<["a" := node0]> ∅).
Definition nodes2 : gmap string (config (C := cache)) :=
  set_committed (committed_version db_claimed) <$> (set_committed (committed_version db_created) <$> nodes0).
Definition nodes_done : gmap string (config (C := cache)) :=
  set_committed (committed_version db_done) <$>
    <["b" := relayed node2 "k" 1 1 2]> (<["a" := relayed node2 "k" 1 1 2]> nodes2).

Lemma nodes2_lookup n : nodes2 !! n = if decide (n = "a" \/ n = "b") then Some node2 else None.
Proof.
  unfold nodes2, nodes0. rewrite !lookup_fmap. case_decide as Hn.
  - destruct Hn as [-> | ->]; reflexivity.
  - rewrite !lookup_insert_ne, lookup_empty by naive_solver. done.
Qed.

Lemma pair_send : exists sn g', state pair_ring = Some sn /\ ID <$> members sn = ["a"; "b"] /\
  length (remotes pair_ring sn) = 1%nat /\ acknowledging pair_ring sn all_acknowledge = [("b", pair_client)] /\
  outboxSender true (grp (wld node2)) pair_ring sample_event 1 2 all_acknowledge [0%nat] = Some (g', None).
Proof.
  destruct (state pair_ring) as [sn|] eqn:Es; [|discriminate Es].
  destruct (outboxSender true (grp (wld node2)) pair_ring sample_event 1 2 all_acknowledge [0%nat])
    as [[g' err]|] eqn:E; [|discriminate E].
  apply (f_equal (fmap snd)) in E. vm_compute in E. injection E as <-. exists sn, g'.
  vm_compute in Es. injection Es as <-. split_and!; vm_compute; reflexivity.
Qed.

Lemma pair_ack : exists h' resp,
  ServeHTTP (mkHandler {[Name (grp (wld node2)) := grp (wld node2)]} "secret") (clientRequest pair_client "products" "k" 1) 1 2
    = Some (h', resp) /\
  ClientInvalidateVersion None (fun _ => inl resp) pair_client "products" "k" 1 = None.
Proof.
  destruct (ServeHTTP _ _ 1 2) as [[h' resp]|] eqn:E; [|discriminate E]. exists h', resp. split; [done|].
  apply (f_equal (fmap snd)) in E. vm_compute in E. injection E as <-. vm_compute. reflexivity.
Qed.

Lemma sample_cluster_run : rtc cstep initial_cluster (mkCluster db_done [] nodes_done []).
Proof.
  destruct pair_send as (sn & g' & Hsn & Hids & Hlen & Hack & Hsend). destruct pair_ack as (h' & resp & HS & HC).
  pose proof sample_launched as HL.
  eapply rtc_l; [by apply (cs_join empty_db [] ∅ [] "a" sample_group)|].
  eapply rtc_l; [apply (cs_join empty_db [] _ [] "b" sample_group); [reflexivity|exact HL]|].
  eapply rtc_l; [apply (cs_write empty_db [] _ [] db_created), w_putif|].
  eapply rtc_l.
  { apply (cs_claim db_created [] _ [] Answered unlocked 10 10 db_claimed sample_event true None). vm_compute. reflexivity. }
  cbn [andb isNone app]. change (set_committed (committed_version db_claimed) <$> _) with nodes2.
  eapply rtc_l.
  { apply (cs_send db_claimed [] nodes2 [mkRelay sample_event Claimed] 0 sample_event "a" node2 true pair_ring sn 1 2
      all_acknowledge [0%nat] g' None); [reflexivity|reflexivity|reflexivity| |reflexivity|exact Hsn| | |exact Hsend].
    - apply (Update_ok (mkDirectory "a" 1000 "secret" None)). intros s. discriminate.
    - by rewrite Hlen.
    - intros n. rewrite nodes2_lookup, Hids. case_decide as Hn; [|by intros []]. intros _.
      destruct Hn as [-> | ->]; [by left|right; by left]. }
  rewrite Hack. cbn [isNone list_insert]. change (Name (grp (wld node2))) with "products".
  eapply rtc_l.
  { apply (cs_ack db_claimed [] _ _ 0 sample_event "products" [("b", pair_client)] true "b" pair_client node2 "secret" 1 2 h' resp);
      [reflexivity|by left|reflexivity|reflexivity|exact HS|exact HC]. }
  eapply rtc_l; [|apply rtc_refl].
  exact (cs_finish db_claimed [] (<["b" := relayed node2 "k" 1 1 2]> (<["a" := relayed node2 "k" 1 1 2]> nodes2))
    [mkRelay sample_event (Sending "products" [] true)] 0 sample_event "products" true Answered 11 11 eq_refl).
Qed.

Lemma delivered_everywhere_witness :
  cl_nodes (mkCluster db_done [] nodes_done []) !! "b" = Some node_done /\ committed_version db_done "k" = 1 /\
  forall s2 cl view, rtc (node_step db_done) (with_reader node_done "k") s2 -> callers s2 !! 0%nat = Some cl ->
    c_prog cl = Ret (view, None) -> products db_done !! "k" = Some (mkProduct (b view) (version view) false).
Proof.
  split; [reflexivity|]. split; [vm_compute; reflexivity|].
  destruct (run_exists _ sample_cluster_run) as [dbs Hr].
  destruct (delivered_everywhere dbs (mkCluster db_done [] nodes_done []) "b" node_done "k" 1 Hr eq_refl) as (_ & _ & H).
  - vm_compute. split; congruence.
  - intros r Hr' _ _. cbn [cl_db] in Hr'.
    assert (forallb (fun r => negb (pending r)) (outbox db_done) = true) as HF by (vm_compute; reflexivity).
    rewrite forallb_forall in HF. apply negb_true_iff, HF. by apply list_elem_of_In.
  - intros s2 cl view Hr2 Hcl Hret. apply (H s2 cl view Hr2 Hcl Hret). vm_compute. reflexivity.
Defined.
