(* ===== verification/Spec.v ===== *)
(** * What the system promises, and that the running system keeps it

    The abstract machine knows no caches, flights, fences, epochs, leases or
    messages: per key the list of contents the source has ever been given, per
    node a floor for every key and the reads it was asked for, and the versions
    that are reported as delivered. A read may answer with any content the
    source has held from the floor at its start on; a version is reported only
    when every floor has come up to it (of the running system this is true under
    the assumption [sees_everyone] of [Cluster] on the snapshots of the
    broadcasts). A node that joins is one that starts, with an empty cache. The
    simulation says that every step of [Cluster] is one step of this machine, or
    none. *)
From S2P Require Import Prelude GoStrings Errors LRU CacheStore Bloom Admission Group Read Consistency Directory Protocol Postgres Outbox Cluster.

(** ** The abstract machine *)

(** What a write leaves under its version: bytes, or nothing. *)
Notation content := (option bytes).

Inductive status := Waiting | Returned (view : ByteView) | Failed (e : error).

(** A read, and the floor of its key when it started. *)
Record read := mkRead { rd_key : string; rd_floor : Z; rd_status : status }.
Record anode := mkANode { an_floor : string -> Z; an_reads : list read }.

Inductive anode_step (newest : string -> Z) (holds : Genuine) : anode -> anode -> Prop :=
| an_call f rs key :
    anode_step newest holds (mkANode f rs) (mkANode f (rs ++ [mkRead key (f key) Waiting]))
| an_return f rs i key a view :
    rs !! i = Some (mkRead key a Waiting) -> a <= version view <= newest key ->
    holds key (version view) (b view) ->
    anode_step newest holds (mkANode f rs) (mkANode f (<[i := mkRead key a (Returned view)]> rs))
| an_fail f rs i key a e :
    rs !! i = Some (mkRead key a Waiting) ->
    anode_step newest holds (mkANode f rs) (mkANode f (<[i := mkRead key a (Failed e)]> rs))
| an_ack f rs key v :
    v <= newest key ->
    anode_step newest holds (mkANode f rs) (mkANode (upd f key (Z.max (f key) v)) rs).

(** The version of a content is its place in the history, from 1. *)
Record system := mkSystem {
  sy_history : string -> list content;
  sy_nodes : gmap string anode;
  sy_done : gset (string * Z);
}.

Definition newest (h : string -> list content) (key : string) : Z := Z.of_nat (length (h key)).

Definition holds (h : string -> list content) : Genuine := fun key v value =>
  1 <= v /\ h key !! Z.to_nat (v - 1) = Some (Some value).

Definition append (h : string -> list content) (key : string) (c : content) : string -> list content :=
  fun k => if decide (k = key) then h k ++ [c] else h k.

Inductive sstep : system -> system -> Prop :=
| ss_write h ns dn key c :
    ValidateKey key = None -> (forall value, c = Some value -> blen value <= MaxValueBytes) ->
    newest h key < maxInt64 ->
    sstep (mkSystem h ns dn) (mkSystem (append h key c) ns dn)
| ss_done h ns dn key v :
    1 <= v <= newest h key -> (forall id n, ns !! id = Some n -> v <= an_floor n key) ->
    sstep (mkSystem h ns dn) (mkSystem h ns ({[(key, v)]} ∪ dn))
| ss_node h ns dn id n n' :
    ns !! id = Some n -> anode_step (newest h) (holds h) n n' ->
    sstep (mkSystem h ns dn) (mkSystem h (<[id := n']> ns) dn)
| ss_join h ns dn id f :
    ns !! id = None -> (forall key, f key = newest h key) ->
    sstep (mkSystem h ns dn) (mkSystem h (<[id := mkANode f []]> ns) dn)
| ss_leave h ns dn id :
    sstep (mkSystem h ns dn) (mkSystem h (delete id ns) dn).

Definition initial_system : system := mkSystem (fun _ => []) ∅ ∅.

(** One step, or none. *)
Definition at_most_one (s s' : system) : Prop := s' = s \/ sstep s s'.

(** ** What the abstract machine guarantees *)
Definition read_sound (h : string -> list content) (r : read) : Prop :=
  match rd_status r with
  | Returned view => rd_floor r <= version view <= newest h (rd_key r) /\ holds h (rd_key r) (version view) (b view)
  | _ => True
  end.

Record sound (s : system) : Prop := {
  so_floor : forall id n key, sy_nodes s !! id = Some n -> 0 <= an_floor n key <= newest (sy_history s) key;
  so_reads : forall id n r, sy_nodes s !! id = Some n -> r ∈ an_reads n -> read_sound (sy_history s) r;
  so_done : forall key v, (key, v) ∈ sy_done s ->
    v <= newest (sy_history s) key /\ forall id n, sy_nodes s !! id = Some n -> v <= an_floor n key;
}.

Lemma append_prefix h key c k : h k `prefix_of` append h key c k.
Proof. unfold append. case_decide; [by apply prefix_app_r|done]. Qed.

Lemma newest_prefix (h h' : string -> list content) k : h k `prefix_of` h' k -> newest h k <= newest h' k.
Proof. intros ?%prefix_length. unfold newest. lia. Qed.

Lemma holds_prefix (h h' : string -> list content) k v value :
  h k `prefix_of` h' k -> holds h k v value -> holds h' k v value.
Proof. intros [l E] [Hv Hl]. split; [done|]. rewrite E. by apply lookup_app_l_Some. Qed.

Lemma read_sound_prefix (h h' : string -> list content) r :
  (forall k, h k `prefix_of` h' k) -> read_sound h r -> read_sound h' r.
Proof.
  intros HP. unfold read_sound. destruct (rd_status r); try done. intros [Hv Hh].
  pose proof (newest_prefix h h' (rd_key r) (HP _)). split; [lia|]. eapply holds_prefix; [apply HP|done].
Qed.

Lemma anode_step_sound h n n' :
  anode_step (newest h) (holds h) n n' ->
  (forall key, 0 <= an_floor n key <= newest h key) -> (forall r, r ∈ an_reads n -> read_sound h r) ->
  (forall key, an_floor n key <= an_floor n' key <= newest h key) /\ (forall r, r ∈ an_reads n' -> read_sound h r).
Proof.
  intros Hs Hf Hr. destruct Hs as [f rs key|f rs i key a view Hi Hv Hh|f rs i key a e Hi|f rs key v Hv]; simpl in *.
  - split; [intros k; specialize (Hf k); lia|]. intros r [Hin|Hin]%elem_of_app; [by apply Hr|].
    by apply list_elem_of_singleton in Hin as ->.
  - split; [intros k; specialize (Hf k); lia|]. intros r [j Hj]%list_elem_of_lookup.
    apply list_lookup_insert_Some in Hj as [(_ & <- & _)|[_ Hj]]; [by split|]. by eapply Hr, list_elem_of_lookup_2.
  - split; [intros k; specialize (Hf k); lia|]. intros r [j Hj]%list_elem_of_lookup.
    apply list_lookup_insert_Some in Hj as [(_ & <- & _)|[_ Hj]]; [done|]. by eapply Hr, list_elem_of_lookup_2.
  - split; [|done]. intros k. specialize (Hf k). unfold upd. case_decide; subst; lia.
Qed.

Lemma sstep_sound s s' : sound s -> sstep s s' -> sound s'.
Proof.
  intros [HF HR HD] Hs. destruct Hs as [h ns dn key c _ _ _|h ns dn key v Hv Hall|h ns dn id n n' Hn Hs|h ns dn id f Hid Hf|h ns dn id]; simpl in *.
  - assert (forall k, h k `prefix_of` append h key c k) as HP by (intros k; apply append_prefix). split; simpl.
    + intros id n k Hn. specialize (HF id n k Hn). pose proof (newest_prefix h _ k (HP k)). lia.
    + intros id n r Hn Hr. eapply read_sound_prefix; [done|eauto].
    + intros k v Hin. destruct (HD k v Hin) as [H1 H2]. pose proof (newest_prefix h _ k (HP k)). split; [lia|done].
  - split; simpl; [done|done|]. intros k w [E%elem_of_singleton|Hin]%elem_of_union; [|by apply HD].
    injection E as -> ->. split; [lia|done].
  - destruct (anode_step_sound h n n' Hs (fun k => HF id n k Hn) (fun r => HR id n r Hn)) as [HF' HR']. split; simpl.
    + intros j m k [[<- <-]|[_ Hm]]%lookup_insert_Some; [|by eapply HF]. specialize (HF' k). specialize (HF id n k Hn). lia.
    + intros j m r [[<- <-]|[_ Hm]]%lookup_insert_Some; [by apply HR'|by eapply HR].
    + intros k v Hin. destruct (HD k v Hin) as [H1 H2]. split; [done|].
      intros j m [[<- <-]|[_ Hm]]%lookup_insert_Some; [|by eapply H2]. specialize (HF' k). specialize (H2 id n Hn). lia.
  - split; simpl.
    + intros j m k [[<- <-]|[_ Hm]]%lookup_insert_Some; [|by eapply HF]. simpl. rewrite Hf. unfold newest. lia.
    + intros j m r [[<- <-]|[_ Hm]]%lookup_insert_Some; [set_solver|by eapply HR].
    + intros k v Hin. destruct (HD k v Hin) as [H1 H2]. split; [done|].
      intros j m [[<- <-]|[_ Hm]]%lookup_insert_Some; [|by eapply H2]. simpl. rewrite Hf. done.
  - split; simpl.
    + intros j m k [_ Hm]%lookup_delete_Some. by eapply HF.
    + intros j m r [_ Hm]%lookup_delete_Some. by eapply HR.
    + intros k v Hin. destruct (HD k v Hin) as [H1 H2]. split; [done|]. intros j m [_ Hm]%lookup_delete_Some. by eapply H2.
Qed.

Lemma initial_sound : sound initial_system.
Proof. split; simpl; set_solver. Qed.

Lemma sstep_history s s' key : sstep s s' -> sy_history s key `prefix_of` sy_history s' key.
Proof. destruct 1; simpl; try done. apply append_prefix. Qed.

(** ** The running system as an abstract one *)
Section Refinement.
Context {C : Type} `{!Store C, !StoreLaws C}.
Notation config := (config (C := C)).
Notation world := (world (C := C)).
Notation cluster := (cluster (C := C)).

Definition status_of (p : prog C Reply) : status :=
  match p with Ret (view, None) => Returned view | Ret (_, Some e) => Failed e | _ => Waiting end.

Definition read_of (c : caller (C := C)) : read := mkRead (c_key c) (c_ack c) (status_of (c_prog c)).
Definition anode_of (s : config) : anode := mkANode (acked (wld s)) (read_of <$> callers s).

(** A call moves on: its read stays as it is, returns what it may, or fails. *)
Lemma caller_moves {answers : Genuine} (w w' : world) fs fs' cs i key a p p' :
  inv w' -> callers_ok w' (<[i := mkCaller key a p']> cs) -> acked w' = acked w ->
  cs !! i = Some (mkCaller key a p) -> status_of p = Waiting ->
  let s := mkConfig w fs cs in let s' := mkConfig w' fs' (<[i := mkCaller key a p']> cs) in
  anode_of s' = anode_of s \/ anode_step (committed w') answers (anode_of s) (anode_of s').
Proof.
  intros Hw HC Ha Hi Hp s s'. unfold anode_of, s, s'. cbn [wld callers]. rewrite Ha, list_fmap_insert.
  assert ((read_of <$> cs) !! i = Some (mkRead key a Waiting)) as Hr
    by (rewrite list_lookup_fmap, Hi; simpl; unfold read_of; simpl; by rewrite Hp).
  change (read_of (mkCaller key a p')) with (mkRead key a (status_of p')).
  destruct (status_of p') as [|view|e] eqn:E.
  - left. by rewrite list_insert_id.
  - right. destruct p' as [[v [er|]]| | | |]; try done. injection E as ->.
    assert ((<[i := mkCaller key a (Ret (view, None))]> cs) !! i = Some (mkCaller key a (Ret (view, None)))) as Hi'
      by (apply list_lookup_insert_eq; by eapply lookup_lt_Some).
    destruct (HC i _ Hi' w' (rely_refl _ Hw) eq_refl) as [Hle [Hd Hg]]. simpl in Hle, Hd, Hg.
    by apply (an_return _ _ _ _ i key a view).
  - right. by apply (an_fail _ _ _ _ i key a e).
Qed.

Lemma thread_step_acked {answers : Genuine} (w : world) p w' p' : thread_step w p w' p' -> acked w' = acked w.
Proof. by destruct 1. Qed.

Lemma thread_step_waiting {answers : Genuine} (w : world) p w' p' : thread_step w p w' p' -> status_of p = Waiting.
Proof. by destruct 1. Qed.

(** Every step of a node is one of its abstract counterpart, or none. *)
Lemma node_simulates {answers : Genuine} (s s' : config) :
  cinv s -> step s s' ->
  anode_of s' = anode_of s \/ anode_step (committed (wld s')) answers (anode_of s) (anode_of s').
Proof.
  intros Hc Hs. pose proof (step_cinv _ _ Hc Hs) as (Hw' & _ & HC').
  destruct Hs as [w fs cs key|w fs cs i p w' p' Hi Ht|w fs cs i key a p w' p' Hi Ht
    |w fs cs i key a fence fkey k Hi|w fs cs i key a fence fkey k ch fi Hi Hch Hn
    |w fs cs i key a ch k r Hi Hr|w fs cs i key a ch k e Hi
    |w fs cs key v t1 t2 g evs err HI Hv Hn|w fs cs key v Hv|w fs cs limit locked t1 t2 clock c ch rm busy Hcl];
    simpl in Hw', HC'.
  - right. unfold anode_of. cbn [wld callers]. rewrite fmap_app. apply an_call.
  - left. unfold anode_of. simpl. by rewrite (thread_step_acked _ _ _ _ Ht).
  - eapply caller_moves; [done|done|by eapply thread_step_acked|done|by eapply thread_step_waiting].
  - eapply (caller_moves w); [done|done|done|done|done].
  - eapply (caller_moves w); [done|done|done|done|done].
  - eapply (caller_moves w); [done|done|done|done|done].
  - eapply (caller_moves w); [done|done|done|done|done].
  - destruct err; [by left|right]. by apply an_ack.
  - by left.
  - by left.
Qed.

Definition content_of (p : product) : content := if p_deleted p then None else Some (p_value p).

(** The row of a key shows the last content of its history. *)
Definition shows (row : option product) (l : list content) : Prop :=
  match row with
  | None => l = []
  | Some p => last l = Some (content_of p) /\ p_version p = Z.of_nat (length l)
  end.

(** An event that has been marked delivered, in the table or purged from it. *)
Definition marked (rows : list outboxRow) (key : string) (v : Z) : Prop :=
  exists r, r ∈ rows /\ pending r = false /\ o_key r = key /\ o_version r = v.

(** [dbs] are the tables the run went through; the last clause says that the
    history holds nothing the tables never held. *)
Record represents (dbs : list DB) (c : cluster) (s : system) : Prop := {
  rp_rows : forall key, shows (products (cl_db c) !! key) (sy_history s key);
  rp_nodes : sy_nodes s = anode_of <$> cl_nodes c;
  rp_done : forall key v, (key, v) ∈ sy_done s <-> marked (outbox (cl_db c) ++ cl_gone c) key v;
  rp_past : forall db key p, db ∈ dbs -> products db !! key = Some p ->
    1 <= p_version p /\ sy_history s key !! Z.to_nat (p_version p - 1) = Some (content_of p);
  rp_held : forall key n x, sy_history s key !! n = Some x ->
    exists db p, db ∈ dbs /\ products db !! key = Some p /\ p_version p = Z.of_nat n + 1 /\ content_of p = x;
}.

Lemma shows_newest (c : cluster) h key :
  shows (products (cl_db c) !! key) (h key) -> newest h key = committed_version (cl_db c) key.
Proof. unfold shows, newest, committed_version. destruct (_ !! _) as [p|]; [by intros [_ ->]|by intros ->]. Qed.

Lemma represents_holds dbs c s : represents dbs c s -> contained (held_in dbs) (holds (sy_history s)).
Proof.
  intros HR key v value (db & Hdb & Hp). destruct (rp_past _ _ _ HR db key _ Hdb Hp) as [Hv Hl]. by split.
Qed.

(** The nodes alone change. *)
Lemma represents_nodes dbs db gone ns rs h an dn ns' rs' an' :
  represents dbs (mkCluster db gone ns rs) (mkSystem h an dn) -> an' = anode_of <$> ns' -> db ∈ dbs ->
  represents (db :: dbs) (mkCluster db gone ns' rs') (mkSystem h an' dn).
Proof.
  intros [HR HN HD HP HH] -> Hin. split; simpl in *; try done.
  - intros db2 key p [->|Hin2]%elem_of_cons; eauto.
  - intros key n x Hx. destruct (HH key n x Hx) as (db2 & p & ? & ?). exists db2, p. split; [by right|done].
Qed.

Lemma anode_of_committed f (ns : gmap string config) : anode_of <$> (set_committed f <$> ns) = anode_of <$> ns.
Proof. rewrite <- map_fmap_compose. by apply map_fmap_ext. Qed.

(** The tables change, no product does. *)
Lemma represents_events dbs db gone ns rs h an dn db' gone' rs' f dn' :
  represents dbs (mkCluster db gone ns rs) (mkSystem h an dn) -> db ∈ dbs -> products db' = products db ->
  (forall key v, (key, v) ∈ dn' <-> marked (outbox db' ++ gone') key v) ->
  represents (db' :: dbs) (mkCluster db' gone' (set_committed f <$> ns) rs') (mkSystem h an dn').
Proof.
  intros [HR HN HD HP HH] Hin E Hdn. split; simpl in *; try done.
  - intros key. by rewrite E.
  - by rewrite anode_of_committed.
  - intros db2 key p [->|Hin2]%elem_of_cons; [rewrite E|]; eauto.
  - intros key n x Hx. destruct (HH key n x Hx) as (db2 & p & ? & ?). exists db2, p. split; [by right|done].
Qed.

(** *** The rows that are marked *)
#[local] Instance marked_dec rows key v : Decision (marked rows key v).
Proof.
  refine (cast_if (decide (Exists (fun r => pending r = false /\ o_key r = key /\ o_version r = v) rows)));
    unfold marked; by rewrite <- Exists_exists.
Defined.

Lemma marked_fwd db db' gone key v :
  rows_updated db db' ->
  (forall r r', r ∈ outbox db -> r' ∈ outbox db' -> o_id r' = o_id r -> pending r = false -> pending r' = false) ->
  marked (outbox db ++ gone) key v -> marked (outbox db' ++ gone) key v.
Proof.
  intros (_ & _ & HE & _) Hkeep (r & [Hr|Hr]%elem_of_app & Hp & Hk & Hv); [|exists r; rewrite elem_of_app; by auto].
  destruct (told_fmap _ _ HE r Hr) as (r' & Hr' & E). injection E as Eid Ek Ev.
  exists r'. rewrite elem_of_app. split_and!; [by left|by apply (Hkeep r r')|congruence|congruence].
Qed.

Lemma marked_back db db' gone key v :
  rows_updated db db' -> marked (outbox db' ++ gone) key v ->
  marked (outbox db ++ gone) key v \/
  exists r r', r ∈ outbox db /\ r' ∈ outbox db' /\ o_id r' = o_id r /\ pending r = true /\ pending r' = false /\
    o_key r = key /\ o_version r = v.
Proof.
  intros (_ & _ & HE & _) (r' & [Hr'|Hr']%elem_of_app & Hp & Hk & Hv);
    [|left; exists r'; rewrite elem_of_app; by auto].
  destruct (told_fmap _ _ (eq_sym HE) r' Hr') as (r & Hr & E). injection E as Eid Ek Ev.
  destruct (pending r) eqn:Epr.
  - right. exists r, r'. split_and!; congruence.
  - left. exists r. rewrite elem_of_app. split_and!; [by left|done|congruence|congruence].
Qed.

Lemma claim_marked db gone f locked tw ts lease key v :
  dbwf (db, gone) ->
  marked (outbox (Claim db f locked tw ts lease).1 ++ gone) key v <-> marked (outbox db ++ gone) key v.
Proof.
  intros Hw. pose proof (proj1 (Claim_updates db gone f locked tw ts lease Hw)) as HU.
  assert (forall r r', r ∈ outbox db -> r' ∈ outbox (Claim db f locked tw ts lease).1 -> o_id r' = o_id r -> pending r' = pending r) as Hsame
    by (intros r r' Hr Hr' E; unfold pending; by rewrite (Claim_delivered _ _ _ _ _ _ _ _ _ Hw Hr Hr' E)).
  split.
  - intros H. apply (marked_back _ _ _ _ _ HU) in H as [?|(r & r' & Hr & Hr' & E & Hp & Hp' & _)]; [done|].
    pose proof (Hsame r r' Hr Hr' E). congruence.
  - apply marked_fwd; [done|]. intros r r' Hr Hr' E <-. by apply Hsame.
Qed.

(** [Finish] marks nothing but the event it is called with, and that one only
    after a broadcast that succeeded. *)
Lemma finish_marked db gone f tw ts ev sent retry key v :
  dbwf (db, gone) -> known_event (outbox db ++ gone) ev ->
  let rows' := outbox (Finish db f tw ts ev sent retry).1 ++ gone in
  (marked (outbox db ++ gone) key v -> marked rows' key v) /\
  (marked rows' key v -> marked (outbox db ++ gone) key v \/ (sent = true /\ key = Key ev /\ v = EventVersion ev)).
Proof.
  intros Hw (x & Hx & Ex) rows'. injection Ex as Exid Exk Exv.
  pose proof (proj1 (Finish_updates db gone f tw ts ev sent retry Hw)) as HU. split.
  - apply marked_fwd; [done|]. intros r r' Hr Hr'. by eapply Finish_keeps.
  - intros H. apply (marked_back _ _ _ _ _ HU) in H as [?|(r & r' & Hr & Hr' & E & Hp & Hp' & <- & <-)]; [by left|].
    right. destruct (Finish_delivered _ _ _ _ _ _ _ _ _ _ Hw Hr Hr' E Hp Hp') as [-> Eid]. split; [done|].
    assert (x = r) as -> by (apply (row_by_id _ _ _ (wf_ids _ Hw) Hx); [apply elem_of_app; by left|simpl; congruence]).
    by rewrite Exk, Exv.
Qed.

(** *** The steps *)
Lemma db_write_content db db' :
  db_write db db' -> db' = db \/ exists key p ts, ValidateKey key = None /\ blen (p_value p) <= MaxValueBytes /\ writes_next db db' key p ts.
Proof. intros [key [->|(p & ts & H)]]%write_mutates; [by left|]. right. by exists key, p, ts. Qed.

Lemma write_marked db db' gone k w key p ts :
  writes_next db db' key p ts -> marked (outbox db' ++ gone) k w <-> marked (outbox db ++ gone) k w.
Proof.
  intros (_ & _ & _ & HO & _). unfold marked. rewrite HO. setoid_rewrite elem_of_app. setoid_rewrite elem_of_app.
  setoid_rewrite list_elem_of_singleton. split.
  - intros (r & [[Hr| ->]|Hr] & Hp & E); [exists r; by auto|done|exists r; by auto].
  - intros (r & [Hr|Hr] & E); exists r; auto.
Qed.

Lemma write_shows db db' h key p ts k :
  (forall k, shows (products db !! k) (h k)) -> writes_next db db' key p ts ->
  shows (products db' !! k) (append h key (content_of p) k).
Proof.
  intros HR (Hv & _ & HP & _). specialize (HR k). unfold append. rewrite HP. case_decide as Ek.
  - subst k. rewrite lookup_insert_eq. unfold shows. rewrite last_snoc. split; [done|].
    rewrite length_app. simpl. rewrite Hv. unfold committed_version, shows in *.
    destruct (products db !! key) as [q|]; [destruct HR; lia|rewrite HR; simpl; lia].
  - by rewrite lookup_insert_ne.
Qed.

Lemma write_represents dbs db gone ns rs h an dn db' f key p ts :
  represents dbs (mkCluster db gone ns rs) (mkSystem h an dn) -> db ∈ dbs -> 0 <= committed_version db key ->
  writes_next db db' key p ts ->
  represents (db' :: dbs) (mkCluster db' gone (set_committed f <$> ns) rs) (mkSystem (append h key (content_of p)) an dn).
Proof.
  intros HRp Hin Hc0 Hwn. pose proof (shows_newest _ _ key (rp_rows _ _ _ HRp key)) as Hnew.
  destruct HRp as [HR HN HD HP HH]. simpl in *. pose proof Hwn as (Hv & _ & HPr & _).
  assert (append h key (content_of p) key !! Z.to_nat (p_version p - 1) = Some (content_of p)) as Hlast.
  { unfold append. rewrite decide_True by done. apply list_lookup_middle. unfold newest in Hnew. lia. }
  assert (forall db2 k q, db2 ∈ dbs -> products db2 !! k = Some q ->
    1 <= p_version q /\ append h key (content_of p) k !! Z.to_nat (p_version q - 1) = Some (content_of q)) as Hold.
  { intros db2 k q Hdb Hq. destruct (HP db2 k q Hdb Hq) as [H1 H2]. split; [done|].
    destruct (append_prefix h key (content_of p) k) as [l E]. rewrite E. by apply lookup_app_l_Some. }
  split; simpl.
  - intros k. by eapply write_shows.
  - by rewrite anode_of_committed.
  - intros k v. rewrite HD. symmetry. by eapply write_marked.
  - intros db2 k q [->|Hdb]%elem_of_cons; [|by eapply Hold]. rewrite HPr.
    intros [[<- <-]|[_ Hq]]%lookup_insert_Some; [split; [lia|done]|by eapply Hold].
  - intros k n x. unfold append. case_decide as Ek.
    + subst k. intros [Hx|[Hlen Hx]]%lookup_app_Some.
      * destruct (HH key n x Hx) as (db2 & q & ? & ?). exists db2, q. split; [by right|done].
      * apply list_lookup_singleton_Some in Hx as [Hn <-]. exists db', p. split; [by left|].
        rewrite HPr, lookup_insert_eq. split; [done|]. split; [|done]. unfold newest in Hnew. lia.
    + intros Hx. destruct (HH k n x Hx) as (db2 & q & ? & ?). exists db2, q. split; [by right|done].
Qed.

Lemma anode_step_weaken n1 n2 (A1 A2 : Genuine) a a' :
  (forall k, n1 k = n2 k) -> contained A1 A2 -> anode_step n1 A1 a a' -> anode_step n2 A2 a a'.
Proof.
  intros Hn HA Hs. destruct Hs as [f rs key|f rs i key a view Hi Hv Hh|f rs i key a e Hi|f rs key v Hv].
  - apply an_call.
  - apply an_return; [done|by rewrite <- Hn|by apply HA].
  - by eapply an_fail.
  - apply an_ack. by rewrite <- Hn.
Qed.

(** One node moves. *)
Lemma node_represents dbs db gone ns rs h an dn id s s' rs' :
  represents dbs (mkCluster db gone ns rs) (mkSystem h an dn) -> db ∈ dbs -> ns !! id = Some s ->
  anode_of s' = anode_of s \/ anode_step (newest h) (holds h) (anode_of s) (anode_of s') ->
  exists sys', at_most_one (mkSystem h an dn) sys' /\
    represents (db :: dbs) (mkCluster db gone (<[id := s']> ns) rs') sys'.
Proof.
  intros HR Hin Hs Hstep. pose proof (rp_nodes _ _ _ HR) as HN. simpl in HN.
  assert (an !! id = Some (anode_of s)) as Ha by (by rewrite HN, lookup_fmap, Hs).
  exists (mkSystem h (<[id := anode_of s']> an) dn). split.
  - destruct Hstep as [E|Hstep]; [left; by rewrite E, insert_id|right; by eapply ss_node].
  - eapply represents_nodes; [done| |done]. by rewrite fmap_insert, HN.
Qed.

Lemma relayed_anode db (s : config) key v t1 t2 n (A B : Genuine) :
  node_ok (held := A) db s -> ValidateKey key = None -> 0 <= v <= committed_version db key ->
  2 * (invalidations (wld s) + 1) < two64 -> (forall k, n k = committed_version db k) ->
  anode_step n B (anode_of s) (anode_of (relayed s key v t1 t2)).
Proof.
  intros Hok Hk Hv Hi Hn. destruct (relayed_ok db s key v t1 t2 Hok Hk Hv Hi) as (_ & _ & _ & evs & E).
  unfold relayed in *. destruct (InvalidateVersion (grp (wld s)) key v t1 t2) as [[[g ev] [e|]]|]; try done.
  apply an_ack. rewrite Hn. lia.
Qed.

(** What [Finish] does is one report, or none. *)
Lemma finish_simulates {A : Genuine} dbs db gone ns rs h an dn i ev name sent f tw ts :
  clinv (held := A) (mkCluster db gone ns rs) -> represents dbs (mkCluster db gone ns rs) (mkSystem h an dn) -> db ∈ dbs ->
  rs !! i = Some (mkRelay ev (Sending name [] sent)) ->
  let db' := (Finish db f tw ts ev sent (retryDelay (Attempt ev))).1 in
  exists sys', at_most_one (mkSystem h an dn) sys' /\
    represents (db' :: dbs) (mkCluster db' gone (set_committed (committed_version db') <$> ns) (delete i rs)) sys'.
Proof.
  intros HI HR Hin Hi db'. pose proof (shows_newest _ _ (Key ev) (rp_rows _ _ _ HR (Key ev))) as Hnew.
  destruct (ci_relays _ HI _ (list_elem_of_lookup_2 _ _ _ Hi)) as [Hk HPg]. simpl in Hk, Hnew.
  destruct (known_event_version _ _ _ (ci_db _ HI) Hk) as (Hkey & Hv & _). simpl in Hv.
  pose proof (fun key v => finish_marked db gone f tw ts ev sent (retryDelay (Attempt ev)) key v (ci_db _ HI) Hk) as Hfin.
  simpl in Hfin. fold db' in Hfin.
  pose proof (proj1 (proj1 (Finish_updates db gone f tw ts ev sent (retryDelay (Attempt ev)) (ci_db _ HI)))) as HPr. fold db' in HPr.
  destruct (decide (marked (outbox db' ++ gone) (Key ev) (EventVersion ev) /\ sent = true)) as [[Hm ->]|Hno].
  - exists (mkSystem h an ({[(Key ev, EventVersion ev)]} ∪ dn)). split.
    + right. apply ss_done; [rewrite Hnew; lia|]. pose proof (rp_nodes _ _ _ HR) as HN. simpl in HN. rewrite HN.
      intros id n (s & <- & Hs)%lookup_fmap_Some. destruct (HPg id s Hs) as [Hx|]; [by apply elem_of_nil in Hx|done].
    + eapply represents_events; [done|done|done|]. intros key v. rewrite elem_of_union, elem_of_singleton, (rp_done _ _ _ HR). simpl.
      destruct (Hfin key v) as [H1 H2]. split; [intros [[= -> ->]|?]; auto|]. intros [?|(_ & -> & ->)]%H2; auto.
  - exists (mkSystem h an dn). split; [by left|]. eapply represents_events; [done|done|done|].
    intros key v. rewrite (rp_done _ _ _ HR). simpl. destruct (Hfin key v) as [H1 H2]. split; [done|].
    intros Hm. destruct (H2 Hm) as [?|(-> & -> & ->)]; [done|]. by destruct Hno.
Qed.

(** A node that a relay's event reaches acknowledges it. *)
Lemma relay_simulates {A : Genuine} dbs db gone ns rs h an dn i ev p id s t1 t2 rs' :
  clinv (held := A) (mkCluster db gone ns rs) -> represents dbs (mkCluster db gone ns rs) (mkSystem h an dn) -> db ∈ dbs ->
  rs !! i = Some (mkRelay ev p) -> ns !! id = Some s -> 2 * (invalidations (wld s) + 1) < two64 ->
  exists sys', at_most_one (mkSystem h an dn) sys' /\
    represents (db :: dbs) (mkCluster db gone (<[id := relayed s (Key ev) (EventVersion ev) t1 t2]> ns) rs') sys'.
Proof.
  intros HI HR Hin Hi Hs Hn. destruct (ci_relays _ HI _ (list_elem_of_lookup_2 _ _ _ Hi)) as [Hk _]. simpl in Hk.
  destruct (known_event_version _ _ _ (ci_db _ HI) Hk) as (Hkey & Hv & _). simpl in Hv.
  eapply node_represents; [done|done|done|right].
  apply (relayed_anode db) with (A := A); [by apply (ci_nodes _ HI id)|done|lia|done|].
  intros k. exact (shows_newest _ _ k (rp_rows _ _ _ HR k)).
Qed.

(** Retention changes neither products nor what is marked. *)
Lemma purge_products db f locked tw retention limit :
  products (PurgeDelivered db f locked tw retention limit).1 = products db.
Proof.
  unfold PurgeDelivered. case_bool; [done|]. destruct (Postgres.run f _ db) as [db2 res] eqn:E. simpl.
  apply run_cases in E as [->|[n E]]; [done|]. by injection E as <- _.
Qed.

(** Every step of the running system is one of the abstract machine, or none. *)
Lemma simulates dbs c sys c' :
  run dbs c -> represents dbs c sys -> cstep c c' ->
  exists sys', at_most_one sys sys' /\ represents (cl_db c' :: dbs) c' sys'.
Proof.
  intros Hr HR Hs. pose proof (run_clinv (held_in dbs) dbs c Hr (fun _ _ _ H => H)) as HI.
  pose proof (run_current _ _ Hr) as Hin. pose proof (fun k => shows_newest _ _ k (rp_rows _ _ _ HR k)) as Hnew.
  pose proof (represents_holds _ _ _ HR) as Hheld. destruct sys as [h an dn]. simpl in Hnew, Hheld.
  assert (contained (rows_answer (cl_db c)) (held_in dbs)) as Hnow
    by (intros k n value H; by exists (cl_db c)).
  destruct Hs as [db gone ns rs id s s' Hs [Hst Hcm]|db gone ns rs id g Hid Hg|db gone ns rs id
    |db gone ns rs db' Hw|db gone ns rs f locked tw retention limit db'
    |db gone ns rs f locked tw ts db' ev found err HC
    |db gone ns rs i ev id s ready d sn t1 t2 send order g' err Hi Hs Hn Hd Hself Hst Ho Hall HS
    |db gone ns rs i ev name todo sent id c s token t1 t2 h' resp Hi Hin' Hs Hn g HS HC
    |db gone ns rs i ev name sent f tw ts Hi db'|db gone ns rs i]; cbn [cl_db] in *.
  - eapply node_represents; [done|done|done|]. destruct (ci_nodes _ HI _ _ Hs) as [Hc Hc2]. simpl in Hc2.
    apply (step_contained _ _ _ _ Hnow) in Hst.
    destruct (node_simulates s s' Hc Hst) as [?|Ha]; [by left|right].
    eapply anode_step_weaken; [|exact Hheld|exact Ha]. intros k. by rewrite Hcm, Hc2, Hnew.
  - exists (mkSystem h (<[id := mkANode (committed_version db) []]> an) dn). split.
    + right. apply ss_join; [|done]. pose proof (rp_nodes _ _ _ HR) as HN. simpl in HN. by rewrite HN, lookup_fmap, Hid.
    + eapply represents_nodes; [done| |done]. pose proof (rp_nodes _ _ _ HR) as HN. simpl in HN. by rewrite fmap_insert, HN.
  - exists (mkSystem h (delete id an) dn). split; [right; apply ss_leave|].
    eapply represents_nodes; [done| |done]. pose proof (rp_nodes _ _ _ HR) as HN. simpl in HN. by rewrite fmap_delete, HN.
  - destruct (db_write_content _ _ Hw) as [->|(key & p & ts & Hk & Hb & Hwn)].
    + exists (mkSystem h an dn). split; [by left|]. eapply represents_events; [done|done|done|apply (rp_done _ _ _ HR)].
    + exists (mkSystem (append h key (content_of p)) an dn). split.
      * right. apply ss_write; [done| |].
        -- unfold content_of. intros value. destruct (p_deleted p); [done|]. by intros [= <-].
        -- rewrite Hnew. destruct Hwn as (Hv & Hmax & _). lia.
      * eapply write_represents; [done|done| |done]. apply (committed_range (db, gone)), (ci_db _ HI).
  - exists (mkSystem h an dn). split; [by left|]. eapply represents_events; [done|done| |].
    + apply purge_products.
    + intros key v. rewrite (rp_done _ _ _ HR). cbn [cl_db cl_gone].
      split; intros (r & Hrow & H); exists r; (split; [by apply (purge_rows_in db gone f locked tw retention limit)|done]).
  - exists (mkSystem h an dn). split; [by left|].
    replace db' with (Claim db f locked tw ts LeaseDuration).1 by (by rewrite HC).
    eapply represents_events; [done|done| |].
    + apply (proj1 (Claim_updates db gone f locked tw ts LeaseDuration (ci_db _ HI))).
    + intros key v. rewrite (rp_done _ _ _ HR). symmetry. apply claim_marked, (ci_db _ HI).
  - destruct ready; [by eapply relay_simulates|]. exists (mkSystem h an dn). split; [by left|].
    eapply represents_nodes; [done| |done]. rewrite insert_id by done. apply (rp_nodes _ _ _ HR).
  - by eapply relay_simulates.
  - by eapply finish_simulates.
  - exists (mkSystem h an dn). split; [by left|]. eapply represents_nodes; [done| |done]. apply (rp_nodes _ _ _ HR).
Qed.

Lemma initial_represents : represents [empty_db] initial_cluster initial_system.
Proof.
  split; simpl.
  - intros key. by rewrite lookup_empty.
  - by rewrite fmap_empty.
  - intros key v. split; [set_solver|]. intros (r & Hr & _). by apply elem_of_nil in Hr.
  - intros db key p ->%list_elem_of_singleton. simpl. by rewrite lookup_empty.
  - intros key n x. by rewrite lookup_nil.
Qed.

Lemma run_represents dbs c : run dbs c -> exists sys, rtc sstep initial_system sys /\ sound sys /\ represents dbs c sys.
Proof.
  intros Hr. induction Hr as [|dbs c c' Hr (sys & Hsys & Hsd & HR) Hs].
  { exists initial_system. split; [apply rtc_refl|]. split; [apply initial_sound|apply initial_represents]. }
  destruct (simulates dbs c sys c' Hr HR Hs) as (sys' & [->|Hstep] & HR'); [by exists sys|].
  exists sys'. split; [by eapply rtc_r|]. split; [by eapply sstep_sound|done].
Qed.

(** C2: refinement: the running system - nodes with caches, flights, fences and
    epochs, tables with an outbox, relays with leases, broadcasts over HTTP,
    lost answers, crashes, joins and departures - implements the abstract
    machine above, in which there is only a history of contents per key, a
    floor per key and node, reads that answer with a content the history has
    held from the floor at their start on, and versions reported as delivered
    once every floor has come up to them. This is under the assumption of
    [Cluster] that the membership snapshot a broadcast starts from names every
    node that is running then ([sees_everyone]): a running node that a broadcast
    does not see (an unseen or unreachable holder, or one that becomes a member
    later with views it already had) is not told of the version and relies on
    its TTL, so for such a node nothing is said. Every step of the system is one
    step of the machine or none, from the empty system on; so every state that
    can be reached shows a reachable abstract state: the same rows, the same
    answers to the same reads, the same acknowledged floors, the same delivered
    versions. And the machine is sound: a returned view has a version between
    the floor at the start of its read and the newest, with the bytes of the
    history under that version, and no node that was running when the event was
    broadcast, or that started later with an empty cache, has a floor below a
    delivered version. *)
Theorem system_refines_spec :
  represents [empty_db] initial_cluster initial_system /\
  (forall dbs c sys c', run dbs c -> represents dbs c sys -> cstep c c' ->
     exists sys', at_most_one sys sys' /\ represents (cl_db c' :: dbs) c' sys') /\
  (forall c, rtc cstep initial_cluster c ->
     exists dbs sys, run dbs c /\ rtc sstep initial_system sys /\ represents dbs c sys /\ sound sys).
Proof.
  split; [apply initial_represents|]. split; [exact simulates|].
  intros c [dbs Hr]%run_exists. destruct (run_represents dbs c Hr) as (sys & H1 & H2 & H3). by exists dbs, sys.
Qed.

End Refinement.

(** ** A concrete run: the delivered write of [Cluster] in the abstract machine *)
Lemma system_refines_spec_witness :
  exists dbs sys, run dbs (mkCluster db_done [] nodes_done []) /\ rtc sstep initial_system sys /\
    sy_history sys "k" = [Some [Byte.x61]] /\ ("k", 1) ∈ sy_done sys /\
    forall id n, sy_nodes sys !! id = Some n -> 1 <= an_floor n "k".
Proof.
  destruct (system_refines_spec (C := cache)) as (_ & _ & H).
  destruct (H _ sample_cluster_run) as (dbs & sys & Hr & Hsys & HR & Hsd). exists dbs, sys.
  split; [exact Hr|]. split; [exact Hsys|].
  assert (("k", 1) ∈ sy_done sys) as Hd.
  { apply (rp_done _ _ _ HR). destruct (outbox db_done) as [|r l] eqn:E; [discriminate E|].
    exists r. cbn [cl_db cl_gone]. rewrite E. vm_compute in E. injection E as <- <-. split; [by left|]. done. }
  split.
  - pose proof (rp_rows _ _ _ HR "k") as Hs. cbn [cl_db] in Hs.
    assert (products db_done !! "k" = Some (mkProduct [Byte.x61] 1 false)) as E by (vm_compute; reflexivity).
    rewrite E in Hs. destruct Hs as [Hl Hn]. simpl in Hn, Hl.
    destruct (sy_history sys "k") as [|x [|y l]]; [discriminate Hl| |simpl in Hn; lia]. by injection Hl as ->.
  - split; [exact Hd|]. intros id n Hn. destruct (so_done _ Hsd "k" 1 Hd) as [_ Hf]. by eapply Hf.
Defined.
