(* ===== verification/Api.v ===== *)
(** * The HTTP API and mutations
      ([internal/app/api.go], [mutations.go], [mutations_http.go])

    A handler is a function of the request, of the state it may change (the
    source, the group) and of what its surroundings do ([writeEnv] for the
    source write, the sends and their completion order for the broadcast). The
    source is any [MutableSource]; PostgreSQL is an instance. [None] is a
    panic. *)
From S2P Require Import Prelude GoStrings Errors LRU CacheStore Bloom Admission Group Read Directory Protocol Postgres.

(** ** [json.Valid]

    Recursive descent over the grammar the scanner of [encoding/json] accepts,
    with its nesting limit. *)
Definition json_space (c : ascii) : bool := existsb (fun z => byteval c =? z) [32; 9; 13; 10].
Fixpoint skip_space (s : string) : string :=
  match s with String c s' => if json_space c then skip_space s' else s | EmptyString => s end.

Definition is_hex (c : ascii) : bool := match unhex c with Some _ => true | None => false end.
(** The rest of a string literal after its opening quote. *)
Fixpoint json_string (s : string) : option string :=
  match s with
  | EmptyString => None
  | String c s1 =>
      if Ascii.eqb c "034" then Some s1
      else if Ascii.eqb c "092" then
        match s1 with
        | String d s2 =>
            if Ascii.eqb d "u" then
              match s2 with
              | String h1 (String h2 (String h3 (String h4 s3))) =>
                  if is_hex h1 && is_hex h2 && is_hex h3 && is_hex h4 then json_string s3 else None
              | _ => None
              end
            else if existsb (fun e => Ascii.eqb d e) ["b"; "f"; "n"; "r"; "t"; "092"; "/"; "034"]%char
                 then json_string s2 else None
        | EmptyString => None
        end
      else if byteval c <? 32 then None else json_string s1
  end.

Fixpoint skip_digits (s : string) : string :=
  match s with String c s' => if is_digit c then skip_digits s' else s | EmptyString => s end.
Definition digits1 (s : string) : option string :=
  match s with String c s' => if is_digit c then Some (skip_digits s') else None | EmptyString => None end.
Definition json_exponent (s : string) : option string :=
  match s with
  | String e s1 =>
      if Ascii.eqb e "e" || Ascii.eqb e "E" then
        match s1 with
        | String g s2 => if Ascii.eqb g "+" || Ascii.eqb g "-" then digits1 s2 else digits1 s1
        | EmptyString => None
        end
      else Some s
  | EmptyString => Some s
  end.
Definition json_fraction (s : string) : option string :=
  match s with
  | String "." s1 => s2 ← digits1 s1; json_exponent s2
  | _ => json_exponent s
  end.
(** A number after its optional sign. *)
Definition json_number (s : string) : option string :=
  match s with
  | String "0" s1 => json_fraction s1
  | String c s1 => if is_digit c then json_fraction (skip_digits s1) else None
  | EmptyString => None
  end.
Definition json_literal (word s : string) : option string :=
  if String.prefix word s then Some (TrimPrefix s word) else None.

Definition maxNestingDepth : Z := 10000.

(** What is expected next: a value, an object member or an array element. *)
Inductive json_mode := JValue | JMember | JElement.

Fixpoint json_scan (fuel : nat) (m : json_mode) (depth : Z) (s : string) : option string :=
  match fuel with
  | O => None
  | S fuel' =>
      match m with
      | JValue =>
          match skip_space s with
          | String "{" s1 =>
              if maxNestingDepth <? depth + 1 then None
              else match skip_space s1 with
                   | String "}" s2 => Some s2
                   | s2 => json_scan fuel' JMember (depth + 1) s2
                   end
          | String "[" s1 =>
              if maxNestingDepth <? depth + 1 then None
              else match skip_space s1 with
                   | String "]" s2 => Some s2
                   | s2 => json_scan fuel' JElement (depth + 1) s2
                   end
          | String "034" s1 => json_string s1
          | String "-" s1 => json_number s1
          | String "t" _ => json_literal "true" (skip_space s)
          | String "f" _ => json_literal "false" (skip_space s)
          | String "n" _ => json_literal "null" (skip_space s)
          | s1 => json_number s1
          end
      | JMember =>
          match skip_space s with
          | String "034" s1 =>
              s2 ← json_string s1;
              match skip_space s2 with
              | String ":" s3 =>
                  s4 ← json_scan fuel' JValue depth s3;
                  match skip_space s4 with
                  | String "," s5 => json_scan fuel' JMember depth s5
                  | String "}" s5 => Some s5
                  | _ => None
                  end
              | _ => None
              end
          | _ => None
          end
      | JElement =>
          s1 ← json_scan fuel' JValue depth s;
          match skip_space s1 with
          | String "," s2 => json_scan fuel' JElement depth s2
          | String "]" s2 => Some s2
          | _ => None
          end
      end
  end.

(** Every call but the last consumes a byte or is followed by one that does,
    so twice the length is enough fuel. *)
Definition json_Valid (b : bytes) : bool :=
  let s := String.string_of_list_byte b in
  match json_scan (2 * String.length s + 2) JValue 0 s with
  | Some rest => String.eqb (skip_space rest) ""
  | None => false
  end.

(** ** Request keys and ETags *)
Definition badKeyQuery : error :=
  NewError "requires one canonical key query: percent-encoded UTF-8, uppercase escapes, %20 for spaces".

Definition requestKey (r : Request) : string + error :=
  let '(values, ok) := ParseQuery (RawQuery r) in
  if negb ok || negb (base.size values =? 1)%nat then inr badKeyQuery
  else match values !! "key" with
  | Some [key] =>
      if negb (ValidString key) then inr badKeyQuery
      else match ValidateKey key with
           | Some e => inr e
           | None => if String.eqb (RawQuery r) ("key=" +:+ plus_to_percent20 (QueryEscape key))
                     then inl key else inr badKeyQuery
           end
  | _ => inr badKeyQuery
  end.

Definition quote : string := String "034" EmptyString.
Definition versionETag (version : Z) : string := quote +:+ "v" +:+ FormatInt version +:+ quote.

Definition badPrecondition : error :=
  NewError "require one exact If-Match ETag, or PUT with If-None-Match: *; do not combine them".

(** The expected version, the status on error, and the error. *)
Definition mutationPrecondition (r : Request) : Z * Z * option error :=
  let ifMatch := Values (ReqHeader r) "If-Match" in
  let absent := Values (ReqHeader r) "If-None-Match" in
  let bad := (0, StatusBadRequest, Some badPrecondition) in
  match ifMatch, absent with
  | [], [] => (0, StatusPreconditionRequired,
               Some (NewError "use If-Match with the GET ETag, or If-None-Match: * to create"))
  | [], [a] => if String.eqb (Method r) "PUT" && String.eqb (TrimSpace a) "*" then (0, 0, None) else bad
  | [m], [] =>
      let raw := TrimSpace m in
      if (slen raw <? 4) || negb (HasPrefix raw (quote +:+ "v")) || negb (HasSuffix raw quote) then bad
      else match ParseInt (slice 2 (String.length raw - 1) raw) with
           | Some version =>
               if (version <=? 0) || negb (String.eqb raw (versionETag version)) then bad
               else (version, 0, None)
           | None => bad
           end
  | _, _ => bad
  end.

(** ** Mutations *)
Record mutationResponse := mkMutResponse {
  SourceCommitted : option bool;
  SourceVersion : option Z;
  Invalidation : option InvalidationReport;
  RespError : string;
}.
Inductive mutationKind := mutationNotify | mutationPut | mutationDelete.
Record mutationCommand := mkCommand {
  kind : mutationKind; cmd_key : string; cmd_value : bytes; cmd_expected : Z; cmd_version : Z }.
Record mutationOutcome := mkOutcome {
  response : mutationResponse; writeErr : option error; broadcastErr : option error }.

(** What surrounds a source write: its fate, the state of its context, the
    clock of the database. *)
Record writeEnv := mkWriteEnv { we_fate : fate; we_ctx : option error; we_time : Time }.

Class MutableSource (S : Type) := {
  ms_PutIfVersion : S -> writeEnv -> string -> bytes -> Z -> S * (Z * option error);
  ms_DeleteIfVersion : S -> writeEnv -> string -> Z -> S * (Z * option error);
}.
#[export] Instance DB_MutableSource : MutableSource DB := {|
  ms_PutIfVersion db e key value expected := PutIfVersion db (we_fate e) (we_ctx e) (we_time e) key value expected;
  ms_DeleteIfVersion db e key expected := DeleteIfVersion db (we_fate e) (we_ctx e) (we_time e) key expected;
|}.

Definition DefaultWriteConcurrency : Z := 16.
Definition emptyResponse : mutationResponse := mkMutResponse None None None "".

Section Api.
Context {C : Type} `{!Store C} {S : Type} `{!MutableSource S}.

(** What the broadcast meets: clock readings, the members' answers and the
    order in which they arrive. *)
Record sendEnv := mkSendEnv {
  se_t1 : Time; se_t2 : Time; se_send : Client -> option error; se_order : list nat }.

(** The write of [executeMutation]: the store, the committed version, the error. *)
Definition sourceWrite (store : S) (cmd : mutationCommand) (we : writeEnv) : S * (Z * option error) :=
  let '(store', (v, err)) :=
    match kind cmd with
    | mutationPut => ms_PutIfVersion store we (cmd_key cmd) (cmd_value cmd) (cmd_expected cmd)
    | _ => ms_DeleteIfVersion store we (cmd_key cmd) (cmd_expected cmd)
    end in
  (store', (v, match err with
               | None => if v <=? 0 then Some (NewError "source returned an invalid committed version") else None
               | e => e
               end)).

(** The broadcast of [executeMutation], given the write's error and the
    version it committed. *)
Definition notifyMembers (g : Group C) (d : Directory) (cmd : mutationCommand) (metrics : bool) (se : sendEnv)
    (committed : option bool) (sourceVersion : option Z) (wErr : option error)
    : option (Group C * mutationOutcome * list event) :=
  let version := default (cmd_version cmd) sourceVersion in
  '(g', report, err) ← DirInvalidateVersion d g (cmd_key cmd) version (se_t1 se) (se_t2 se) (se_send se) (se_order se);
  let observe op res := if metrics then [(op, res)] else [] in
  match err with
  | Some e => Some (g', mkOutcome (mkMutResponse committed sourceVersion None "") wErr (Some e),
                    observe "broadcast" "error")
  | None =>
      Some (g', mkOutcome (mkMutResponse committed sourceVersion (Some report)
                  (match wErr with
                   | Some _ => "source write failed; commit status is unknown; verify the source before retrying"
                   | None => ""
                   end)) wErr None,
            observe "broadcast" (if Complete report then "complete" else "partial"))
  end.

(** The write of the source and the invalidation on this node are one step of
    the model; in the code readers run between them. A reader in between that
    gets an older version from the source or the cache is, for the theorems, one
    before this step, and what it leaves in the cache is what the invalidation
    meets; one that gets the new version is one after it. *)
Definition executeMutation (g : Group C) (store : option S) (d : Directory) (cmd : mutationCommand)
    (metrics : bool) (we : writeEnv) (se : sendEnv)
    : option (option S * Group C * mutationOutcome * list event) :=
  match kind cmd with
  | mutationNotify =>
      '(g', out, evs) ← notifyMembers g d cmd metrics se None None None;
      Some (store, g', out, evs)
  | _ =>
      st ← store;
      let '(st', (v, wErr)) := sourceWrite st cmd we in
      let committed := match wErr with None => Some true | Some _ => None end in
      let sourceVersion := match wErr with None => Some v | Some _ => None end in
      let evs := if metrics then [("write", Result wErr)] else [] in
      if IsErr wErr ErrPreconditionFailed then
        Some (Some st', g, mkOutcome (mkMutResponse (Some false) None None
                "precondition failed; refresh the value before retrying") wErr None, evs)
      else
        '(g', out, evs2) ← notifyMembers g d cmd metrics se committed sourceVersion wErr;
        Some (Some st', g', out, evs ++ evs2)
  end.

(** ** [mutate] *)

(** What a handler writes: a text answer, a JSON answer, or nothing. *)
Inductive httpReply :=
| Text (r : Response)
| Json (code : Z) (h : Header) (body : mutationResponse)
| NoReply.

(** How the request's body and connection behave: the error of reading it,
    and whether the client has gone when it has been read. *)
Record requestEnv := mkRequestEnv { bodyErr : option error; clientGone : bool }.

(** The answer to an outcome; [None] dereferences a missing report. *)
Definition mutationReply (r : Request) (out : mutationOutcome) : option (httpReply * string) :=
  let hdr : Header := HeaderSet ∅ "Cache-Control" "no-store" in
  let resp := response out in
  if IsErr (writeErr out) ErrPreconditionFailed then
    Some (Json StatusPreconditionFailed (HeaderSet hdr "Content-Type" "application/json") resp, "precondition_failed")
  else match broadcastErr out with
  | Some e => Some (Text (http_Error hdr (Error e) (Status e)), "error")
  | None =>
      report ← Invalidation resp;
      let status := match writeErr out with
                    | Some e => Status e
                    | None => if Complete report then StatusOK else StatusAccepted
                    end in
      let hdr := HeaderSet hdr "Content-Type" "application/json" in
      let hdr := match writeErr out, SourceVersion resp with
                 | None, Some v => if String.eqb (Method r) "PUT" then HeaderSet hdr "ETag" (versionETag v) else hdr
                 | _, _ => hdr
                 end in
      let result := match writeErr out with
                    | None => if Complete report then Result None else "partial"
                    | e => Result e
                    end in
      Some (Json status hdr resp, result)
  end.

Definition mutate (r : Request) (g : Group C) (store : option S) (d : Directory) (token : string)
    (writeSlots : chan) (metrics invalidateOnly : bool) (re : requestEnv) (we : writeEnv) (se : sendEnv)
    : option (option S * Group C * httpReply * string) :=
  let reply resp := Some (store, g, Text resp, "error") in
  if negb (Authorized r token) then reply (http_Error ∅ "unauthorized" StatusUnauthorized)
  else match requestKey r with
  | inr e => reply (http_Error ∅ (Error e) StatusBadRequest)
  | inl key =>
  match ValidateKey key with
  | Some e => reply (http_Error ∅ (Error e) StatusBadRequest)
  | None =>
  match ParseInvalidationVersion (ReqHeader r) with
  | (_, Some e) => reply (http_Error ∅ (Error e) StatusBadRequest)
  | (version, None) =>
  if negb invalidateOnly && negb (version =? 0) then
    reply (http_Error ∅ "invalidation version is only accepted on POST /invalidate" StatusBadRequest)
  else match try_send writeSlots with
  | None => Some (store, g, Text (http_Error (HeaderSet (HeaderSet ∅ "Retry-After" "1") "Cache-Control" "no-store")
                                    (Error ErrOverloaded) StatusServiceUnavailable), "overloaded")
  | Some _ =>
  let isPut := String.eqb (Method r) "PUT" in
  if isPut && (match bodyErr re with Some _ => true | None => false end || (MaxValueBytes <? blen (Body r))) then
    reply (http_Error ∅ "invalid or oversized request body" StatusRequestEntityTooLarge)
  else if isPut && negb (json_Valid (Body r)) then
    reply (http_Error ∅ "product detail must be valid JSON" StatusBadRequest)
  else if clientGone re then Some (store, g, NoReply, "error")
  else
    let '(expected, status, err) := if invalidateOnly then (0, 0, None) else mutationPrecondition r in
    match err with
    | Some e => reply (http_Error (HeaderSet ∅ "Cache-Control" "no-store") (Error e) status)
    | None =>
        let k := if invalidateOnly then mutationNotify else if isPut then mutationPut else mutationDelete in
        let cmd := mkCommand k key (if isPut then Body r else []) expected version in
        '(store', g', out, _) ← executeMutation g store d cmd metrics we se;
        '(resp, result) ← mutationReply r out;
        Some (store', g', resp, result)
    end
  end end end end.

(** ** [APIHandler] *)

(** The write slots of a handler; [None] is the panic on a negative limit. *)
Definition newWriteSlots (maxConcurrentWrites : Z) : option chan :=
  let n := default_to DefaultWriteConcurrency maxConcurrentWrites in
  if n <? 1 then None else Some (make_chan n).

Definition addHeader (name v : string) (reply : httpReply) : httpReply :=
  match reply with
  | Text r => Text (mkResponse (StatusCode r) (HeaderSet (RespHeader r) name v) (RespBody r))
  | Json code h b => Json code (HeaderSet h name v) b
  | NoReply => NoReply
  end.

(** The answer to a read that returned [got]. *)
Definition readReply (got : Reply) : httpReply * string :=
  let '(v, err) := got in
  (match err with
   | Some e =>
       Text (http_Error (if Is e ErrOverloaded then HeaderSet ∅ "Retry-After" "1" else ∅) (Error e) (Status e))
   | None =>
       let hdr : Header := HeaderSet ∅ "Content-Type" "application/octet-stream" in
       Text (mkResponse StatusOK (if 0 <? Version v then HeaderSet hdr "ETag" (versionETag (Version v)) else hdr)
               (ViewString v))
   end, Result err).

(** The [/api] route; [get] is what [Get] returns for a key. *)
Definition apiRoute (g : Group C) (store : option S) (d : option Directory) (token nodeID : string)
    (writeSlots : chan) (metrics ready : bool) (r : Request) (get : string -> Reply)
    (re : requestEnv) (we : writeEnv) (se : sendEnv) : option (option S * Group C * httpReply * string) :=
  let writable := match store, d with Some _, Some _ => negb (String.eqb token "") | _, _ => false end in
  let isWrite := writable && (String.eqb (Method r) "PUT" || String.eqb (Method r) "DELETE") in
  let node reply := if String.eqb nodeID "" then reply else addHeader "X-SimpleCache-Node" nodeID reply in
  if negb (String.eqb (Method r) "GET") && negb isWrite then
    Some (store, g, Text (http_Error (HeaderSet ∅ "Allow" (if writable then "GET, PUT, DELETE" else "GET"))
                            "method not allowed" 405), "error")
  else if negb ready then Some (store, g, Text (http_Error ∅ "not ready" 503), "error")
  else if isWrite then
    d ← d;
    '(store', g', reply, result) ← mutate r g store d token writeSlots metrics false re we se;
    Some (store', g', node reply, result)
  else match requestKey r with
  | inr e => Some (store, g, node (Text (http_Error ∅ (Error e) StatusBadRequest)), "error")
  | inl key => let '(reply, result) := readReply (get key) in Some (store, g, node reply, result)
  end.

(** The [/invalidate] route, registered when a directory and a token are
    configured. *)
Definition invalidateRoute (g : Group C) (store : option S) (d : Directory) (token : string)
    (writeSlots : chan) (metrics ready : bool) (r : Request)
    (re : requestEnv) (we : writeEnv) (se : sendEnv) : option (option S * Group C * httpReply * string) :=
  if negb (String.eqb (Method r) "POST") then
    Some (store, g, Text (http_Error (HeaderSet ∅ "Allow" "POST") "method not allowed" StatusMethodNotAllowed), "error")
  else if negb ready then Some (store, g, Text (http_Error ∅ "not ready" StatusServiceUnavailable), "error")
  else mutate r g store d token writeSlots metrics true re we se.

Definition healthz : Response := mkResponse 200 ∅ "".
Definition readyz (ready : bool) : Response :=
  if negb ready then http_Error ∅ "not ready" 503 else mkResponse 200 ∅ "".
End Api.

(** ** Keys on the wire *)

Lemma requestKey_wire r key : ValidateKey key = None -> RawQuery r = "key=" +:+ wire key -> requestKey r = inl key.
Proof.
  intros Hk Hq. unfold requestKey. rewrite Hq, ParseQuery_wire. rewrite map_size_singleton. simpl negb. cbv iota. simpl orb.
  rewrite lookup_singleton_eq, Hk. apply ValidateKey_ok in Hk as (_ & -> & _). simpl negb. cbv iota.
  fold (wire key). by rewrite String.eqb_refl.
Qed.

(** C35: a query is accepted exactly when it is the one canonical spelling of a
    valid key, and then yields that key: no percent-encoding alias, duplicate
    parameter, plus sign or extra parameter reaches the cache under a second
    spelling. *)
Theorem requestKey_canonical r key :
  requestKey r = inl key <-> ValidateKey key = None /\ RawQuery r = "key=" +:+ wire key.
Proof.
  split; [unfold requestKey|].
  - destruct (ParseQuery (RawQuery r)) as [values ok]. case_bool; [done|].
    destruct (values !! "key") as [[|k [|]]|]; try done. case_bool; [done|].
    destruct (ValidateKey k) eqn:Hk; [done|]. case_bool; [|done]. intros [= ->].
    split; [done|]. by apply String.eqb_eq.
  - intros [Hk Hq]. by apply requestKey_wire.
Qed.

(** ** ETags *)

Lemma string_rev_app_app a b acc : string_rev_app (a +:+ b) acc = string_rev_app b (string_rev_app a acc).
Proof.
  revert acc. induction a as [|c a IH]; intros acc; [done|].
  change (string_rev_app (a +:+ b) (String c acc) = string_rev_app b (string_rev_app a (String c acc))). apply IH.
Qed.

Lemma string_rev_app_acc s acc : string_rev_app s acc = string_rev s +:+ acc.
Proof.
  unfold string_rev. revert acc. induction s as [|c s IH]; intros acc; [done|]. simpl.
  rewrite (IH (String c acc)), (IH (String c "")). by rewrite app_String_assoc.
Qed.

Lemma string_rev_snoc a c : string_rev (a +:+ String c "") = String c (string_rev a).
Proof. unfold string_rev. by rewrite string_rev_app_app. Qed.

Lemma string_rev_cons c s : string_rev (String c s) = string_rev s +:+ String c "".
Proof. unfold string_rev at 1. simpl. apply string_rev_app_acc. Qed.

Lemma string_rev_involutive s : string_rev (string_rev s) = s.
Proof. induction s as [|c s IH]; [done|]. by rewrite string_rev_cons, string_rev_snoc, IH. Qed.

Lemma trim_left_none n ws s : Forall (fun w => String.prefix w s = false) ws -> trim_left_go n ws s = s.
Proof.
  intros H. destruct n as [|n]; [done|]. simpl.
  destruct (list_find _ ws) as [[i w]|] eqn:E; [|done].
  apply list_find_Some in E as (Hi & Hp & _). rewrite Forall_forall in H.
  by rewrite (H w (list_elem_of_lookup_2 _ _ _ Hi)) in Hp.
Qed.

Lemma no_space_prefix s : Forall (fun w => String.prefix w (String "034" s) = false) white_space /\
  Forall (fun w => String.prefix w (String "034" s) = false) (string_rev <$> white_space).
Proof. split; repeat constructor. Qed.

(** Text between quotes has no space to trim. *)
Lemma TrimSpace_quoted s : TrimSpace (String "034" (s +:+ quote)) = String "034" (s +:+ quote).
Proof.
  unfold TrimSpace. cbv zeta. rewrite (trim_left_none _ white_space) by apply no_space_prefix.
  change (String "034" (s +:+ quote)) with (String "034" s +:+ String "034" "").
  rewrite string_rev_snoc, trim_left_none by apply no_space_prefix.
  by rewrite <- string_rev_snoc, string_rev_involutive.
Qed.

Lemma HasSuffix_quoted s : HasSuffix (s +:+ quote) quote = true.
Proof. unfold HasSuffix, quote. rewrite string_rev_snoc. simpl. by destruct (string_rev s). Qed.

Lemma slice_quoted a : slice 2 (String.length (quote +:+ "v" +:+ a +:+ quote) - 1) (quote +:+ "v" +:+ a +:+ quote) = a.
Proof.
  unfold slice.
  assert (String.length (quote +:+ "v" +:+ a +:+ quote) = String.length a + 3)%nat as ->.
  { rewrite !length_app_string. simpl. lia. }
  replace (String.length a + 3 - 1 - 2)%nat with (String.length a) by lia.
  change (String.substring 2 (String.length a) (quote +:+ "v" +:+ a +:+ quote))
    with (String.substring 0 (String.length a) (a +:+ quote)).
  induction a as [|c a IH]; [done|]. change (String c a +:+ quote) with (String c (a +:+ quote)).
  simpl. by rewrite IH.
Qed.

Lemma mutationPrecondition_etag r v :
  Values (ReqHeader r) "If-Match" = [versionETag v] -> Values (ReqHeader r) "If-None-Match" = [] ->
  0 < v < two63 -> mutationPrecondition r = (v, 0, None).
Proof.
  intros Hm Ha Hv. unfold mutationPrecondition. rewrite Hm, Ha. cbv zeta.
  assert (TrimSpace (versionETag v) = versionETag v) as ->.
  { unfold versionETag.
    change (quote +:+ "v" +:+ FormatInt v +:+ quote) with (String "034" ((String "v" (FormatInt v)) +:+ quote)).
    apply TrimSpace_quoted. }
  assert (4 <= slen (versionETag v)) as Hlen.
  { unfold slen, versionETag. rewrite !length_app_string. destruct (FormatUint_cons v) as (c & s & E & _).
    unfold FormatInt. rewrite (proj2 (Z.ltb_ge v 0)), E by lia. simpl. lia. }
  rewrite (proj2 (Z.ltb_ge _ _)) by lia.
  assert (HasPrefix (versionETag v) (quote +:+ "v") = true) as ->.
  { unfold HasPrefix, versionETag. rewrite <- app_String_assoc. apply prefix_app. }
  assert (HasSuffix (versionETag v) quote = true) as ->.
  { unfold versionETag. rewrite <- !app_String_assoc. apply HasSuffix_quoted. }
  cbn [negb orb]. unfold versionETag at 1 2. rewrite slice_quoted, ParseInt_FormatInt by lia.
  rewrite (proj2 (Z.leb_gt v 0)), String.eqb_refl by lia. done.
Qed.

(** What an accepted precondition was made of. *)
Lemma mutationPrecondition_parts r v st :
  mutationPrecondition r = (v, st, None) ->
  st = 0 /\
  ((v = 0 /\ Method r = "PUT" /\ Values (ReqHeader r) "If-Match" = [] /\
     exists a, Values (ReqHeader r) "If-None-Match" = [a] /\ TrimSpace a = "*") \/
   (0 < v < two63 /\ Values (ReqHeader r) "If-None-Match" = [] /\
     exists m, Values (ReqHeader r) "If-Match" = [m] /\ TrimSpace m = versionETag v)).
Proof.
  unfold mutationPrecondition.
  destruct (Values (ReqHeader r) "If-Match") as [|m [|]], (Values (ReqHeader r) "If-None-Match") as [|a [|]]; try done.
  - case_bool; [|done]. intros [= <- <-]. apply andb_true_iff in Heqb as [H1 H2].
    apply String.eqb_eq in H1. apply String.eqb_eq in H2. split; [done|]. left. eauto 10.
  - case_bool; [done|]. destruct (ParseInt _) as [n|] eqn:E; [|done]. case_bool; [done|].
    intros [= <- <-]. apply orb_false_iff in Heqb0 as [H1 H2]. reflect_bool. apply String.eqb_eq in H2.
    apply ParseInt_range in E. split; [done|]. right. split; [lia|]. eauto.
Qed.

(** The ETag a read or write hands out is accepted back as exactly that
    version, and nothing else is accepted: a positive expected version comes
    only from a single If-Match that is, up to surrounding space, the canonical
    ETag of that version, and zero only from PUT with a single
    If-None-Match of "*"; the two are never combined. *)
Theorem mutationPrecondition_exact r v st :
  mutationPrecondition r = (v, st, None) <->
  st = 0 /\
  ((v = 0 /\ Method r = "PUT" /\ Values (ReqHeader r) "If-Match" = [] /\
     exists a, Values (ReqHeader r) "If-None-Match" = [a] /\ TrimSpace a = "*") \/
   (0 < v < two63 /\ Values (ReqHeader r) "If-None-Match" = [] /\
     exists m, Values (ReqHeader r) "If-Match" = [m] /\ TrimSpace m = versionETag v)).
Proof.
  split.
  - apply mutationPrecondition_parts.
  - intros [-> [(-> & Hm & HM & a & Ha & Ht)|(Hv & Ha & m & HM & Ht)]].
    + unfold mutationPrecondition. by rewrite HM, Ha, Hm, Ht.
    + set (r' := mkRequest (Method r) (EscapedPath r) (RawQuery r)
                   (<["If-Match" := [versionETag v]]> (delete "If-None-Match" (ReqHeader r))) (Body r)).
      assert (TrimSpace (versionETag v) = versionETag v) as HT.
      { change (versionETag v) with (String "034" ((String "v" (FormatInt v)) +:+ quote)). apply TrimSpace_quoted. }
      rewrite <- (mutationPrecondition_etag r' v); [|..|done].
      * unfold mutationPrecondition. subst r'. cbn [ReqHeader Method].
        assert (Values (<["If-Match":=[versionETag v]]> (delete "If-None-Match" (ReqHeader r))) "If-Match" = [versionETag v]) as ->
          by (unfold Values; by rewrite lookup_insert_eq).
        assert (Values (<["If-Match":=[versionETag v]]> (delete "If-None-Match" (ReqHeader r))) "If-None-Match" = []) as ->
          by (unfold Values; by rewrite lookup_insert_ne, lookup_delete_eq).
        rewrite HM, Ha. cbv zeta. by rewrite Ht, HT.
      * subst r'. unfold Values. simpl. by rewrite lookup_insert_eq.
      * subst r'. unfold Values. simpl. by rewrite lookup_insert_ne, lookup_delete_eq.
Qed.

(** ** Mutations over PostgreSQL *)

(** An error of the driver is neither of the two sentinels the store gives a
    meaning to. *)
Definition driver_error (e : error) : Prop := Is e ErrNoRows = false /\ Is e ErrPreconditionFailed = false.
Definition fate_ok (f : fate) : Prop :=
  match f with Answered => True | Refused e | Unheard e => driver_error e end.

(** What the caller may conclude from a write's result. *)
Definition write_ok (db db' : DB) (key : string) (v : Z) (err : option error) : Prop :=
  (IsErr err ErrPreconditionFailed = true -> db' = db) /\
  (err = None -> v = committed_version db' key /\ v = committed_version db key + 1).

Lemma mutationResult_precondition f c (stmt : DB -> option (DB * option Z)) db db' r :
  fate_ok f -> ctx_error c -> run f stmt db = (db', r) ->
  IsErr (mutationResult c (scan r)).2 ErrPreconditionFailed = true ->
  stmt db = Some (db', None).
Proof.
  intros Hf Hc Hr HE. destruct r as [[v|]|e]; simpl in HE; [done| |].
  - by apply run_answered in Hr.
  - exfalso. assert (driver_error e) as [H1 H2].
    { unfold run in Hr. destruct f; destruct (stmt db) as [[d x]|]; simplify_eq/=; done. }
    rewrite H1 in HE. destruct Hc as [->|[->| ->]]; simpl in HE; [|done|done].
    by rewrite H2 in HE.
Qed.

Lemma committed_next db db' key p ts :
  writes_next db db' key p ts -> p_version p = committed_version db' key /\ p_version p = committed_version db key + 1.
Proof.
  intros (Hv & _ & HP & _). split; [|done]. rewrite (committed_insert _ _ _ _ _ HP). by rewrite decide_True.
Qed.

Lemma PutIfVersion_write_ok db f c ts key value expected :
  fate_ok f -> ctx_error c ->
  write_ok db (PutIfVersion db f c ts key value expected).1 key
    (PutIfVersion db f c ts key value expected).2.1 (PutIfVersion db f c ts key value expected).2.2.
Proof.
  intros Hf Hc. pose proof (PutIfVersion_ok db f c ts key value expected) as H.
  destruct (PutIfVersion db f c ts key value expected) as [db' [v err]] eqn:E. simpl.
  destruct H as (_ & Hok & _). split.
  - intros HE. unfold PutIfVersion in E. destruct (validateValue key value) as [e|] eqn:Ev.
    { by simplify_eq. }
    case_bool; [by simplify_eq|]. destruct (run f _ db) as [d r] eqn:Er. injection E as <- E.
    assert (mutationResult c (scan r) = (v, err)) as E' by done.
    apply (mutationResult_precondition f c _ db d r Hf Hc) in Er; [|by rewrite E'].
    destruct (expected =? 0).
    + apply sql_upsert_ok in Er as [(_ & -> & _)|(p & ? & _)]; done.
    + apply sql_update_ok in Er as [(_ & -> & _)|(p & q & ? & _)]; done.
  - intros He. destruct (Hok He) as [_ Hw]. by apply committed_next in Hw.
Qed.

Lemma DeleteIfVersion_write_ok db f c ts key expected :
  fate_ok f -> ctx_error c ->
  write_ok db (DeleteIfVersion db f c ts key expected).1 key
    (DeleteIfVersion db f c ts key expected).2.1 (DeleteIfVersion db f c ts key expected).2.2.
Proof.
  intros Hf Hc. pose proof (DeleteIfVersion_ok db f c ts key expected) as H.
  destruct (DeleteIfVersion db f c ts key expected) as [db' [v err]] eqn:E. simpl.
  destruct H as (Hch & Hok & _). split.
  - intros HE. unfold DeleteIfVersion in E. destruct (ValidateKey key) as [e|] eqn:Ev; [by simplify_eq|].
    case_bool; [by simplify_eq|]. destruct (run f _ db) as [d r] eqn:Er. injection E as <- E.
    assert (mutationResult c (scan r) = (v, err)) as E' by done.
    apply (mutationResult_precondition f c _ db d r Hf Hc) in Er; [|by rewrite E'].
    apply sql_update_ok in Er as [(_ & -> & _)|(p & q & ? & _)]; done.
  - intros He. destruct (Hok He) as [-> Hne]. destruct (Hch Hne) as [_ Hw]. by apply committed_next in Hw.
Qed.

Section Mutations.
Context {C : Type} `{!Store C, !StoreLaws C}.
Variables (d : Directory) (s : snapshot).
Hypotheses (Hd : dir_ok d) (Hs : state d = Some s).

Lemma notifyMembers_ok (g : Group C) cmd metrics (se : sendEnv) com sv wErr :
  gwf g -> ValidateKey (cmd_key cmd) = None -> 0 <= default (cmd_version cmd) sv ->
  se_order se ≡ₚ seq 0 (length (remotes d s)) ->
  exists g' out evs evs', notifyMembers g d cmd metrics se com sv wErr = Some (g', out, evs) /\
    InvalidateVersion g (cmd_key cmd) (default (cmd_version cmd) sv) (se_t1 se) (se_t2 se) = Some (g', evs', None) /\
    SourceCommitted (response out) = com /\ SourceVersion (response out) = sv /\ writeErr out = wErr /\
    broadcastErr out = None /\ is_Some (Invalidation (response out)).
Proof using All.
  intros Hg Hk Hv Ho.
  destruct (InvalidateVersion_ok g (cmd_key cmd) (default (cmd_version cmd) sv) (se_t1 se) (se_t2 se) Hg Hk Hv)
    as (g' & evs' & HI & _).
  unfold notifyMembers, DirInvalidateVersion. rewrite HI. cbn [mbind option_bind]. rewrite Hs. cbn [mbind option_bind].
  assert ((fun m => clients s !! ID m) <$> remotes d s = (fun m => Some (client_of d m)) <$> remotes d s) as Hcs.
  { apply list_fmap_ext. intros i m Hi. apply (Hd s Hs).
    apply list_elem_of_lookup_2 in Hi. by apply list_elem_of_filter in Hi as [_ ?]. }
  rewrite (fanOut_all (se_order se) (remotes d s) _ (client_of d)) by done. cbn [mbind option_bind].
  eexists _, _, _, _. split; [done|]. split; [done|]. by repeat split.
Qed.

Lemma write_ok_positive db db' key v err :
  0 <= committed_version db key -> write_ok db db' key v err ->
  write_ok db db' key v (match err with
    | None => if v <=? 0 then Some (NewError "source returned an invalid committed version") else None
    | e => e end).
Proof.
  intros H0 [W1 W2]. destruct err as [e|]; [split; [exact W1|done]|].
  destruct (W2 eq_refl) as [E1 E2]. rewrite (proj2 (Z.leb_gt v 0)) by lia. by split.
Qed.

(** The write step of a mutation, whichever it is. *)
Lemma sourceWrite_ok db cmd we :
  0 <= committed_version db (cmd_key cmd) -> fate_ok (we_fate we) -> ctx_error (we_ctx we) ->
  write_ok db (sourceWrite db cmd we).1 (cmd_key cmd) (sourceWrite db cmd we).2.1 (sourceWrite db cmd we).2.2.
Proof.
  intros H0 Hf Hc.
  pose proof (PutIfVersion_write_ok db (we_fate we) (we_ctx we) (we_time we) (cmd_key cmd) (cmd_value cmd) (cmd_expected cmd) Hf Hc) as HP.
  pose proof (DeleteIfVersion_write_ok db (we_fate we) (we_ctx we) (we_time we) (cmd_key cmd) (cmd_expected cmd) Hf Hc) as HD.
  unfold sourceWrite. simpl.
  destruct (DeleteIfVersion db _ _ _ _ _) as [db1 [v1 err1]], (PutIfVersion db _ _ _ _ _ _) as [db2 [v2 err2]].
  destruct (kind cmd); by apply write_ok_positive.
Qed.

(** C12: what a write tells its caller is true of the source and of the cache.
    "Committed" with version [v] means the source now has exactly the next
    version [v] of the key and this node has been invalidated with [v]; "not
    committed" means the source and the cache are untouched; and when the
    outcome is unknown, this node has been invalidated by force, so neither
    outcome can leave a stale view behind. *)
Theorem executeMutation_truthful (g : Group C) db gone cmd metrics (we : writeEnv) (se : sendEnv) :
  rtc db_step (empty_db, []) (db, gone) -> gwf g ->
  kind cmd <> mutationNotify -> ValidateKey (cmd_key cmd) = None -> cmd_version cmd = 0 ->
  fate_ok (we_fate we) -> ctx_error (we_ctx we) -> se_order se ≡ₚ seq 0 (length (remotes d s)) ->
  exists db' g' out evs, executeMutation g (Some db) d cmd metrics we se = Some (Some db', g', out, evs) /\
    broadcastErr out = None /\
    match SourceCommitted (response out) with
    | Some true => exists v evs', SourceVersion (response out) = Some v /\
        v = committed_version db' (cmd_key cmd) /\ v = committed_version db (cmd_key cmd) + 1 /\
        InvalidateVersion g (cmd_key cmd) v (se_t1 se) (se_t2 se) = Some (g', evs', None)
    | Some false => db' = db /\ g' = g /\ Invalidation (response out) = None
    | None => exists evs', InvalidateVersion g (cmd_key cmd) 0 (se_t1 se) (se_t2 se) = Some (g', evs', None) /\
        writeErr out <> None
    end.
Proof using All.
  intros Hrun Hg Hkind Hk Hv0 Hf Hc Ho. pose proof (db_steps_wf _ _ dbwf_empty Hrun) as Hw.
  assert (0 <= committed_version db (cmd_key cmd)) as H0.
  { unfold committed_version. destruct (products db !! cmd_key cmd) as [p|] eqn:Hp; [|done].
    apply (wf_product _ Hw) in Hp. lia. }
  pose proof (sourceWrite_ok db cmd we H0 Hf Hc) as [W1 W2].
  unfold executeMutation.
  assert (forall X (a b : X), match kind cmd with mutationNotify => a | _ => b end = b) as ->
    by (intros; by destruct (kind cmd)).
  cbn [mbind option_bind]. destruct (sourceWrite db cmd we) as [db' [v wErr]]. simpl in W1, W2.
  destruct (IsErr wErr ErrPreconditionFailed) eqn:EP.
  { eexists _, _, _, _. split; [done|]. split; [done|]. simpl. by rewrite W1. }
  destruct wErr as [e|].
  - destruct (notifyMembers_ok g cmd metrics se None None (Some e) Hg Hk) as (g' & out & evs & evs' & -> & HI & H1 & H2 & H3 & H4 & _);
      [simpl; lia|done|]. simpl in HI. rewrite Hv0 in HI.
    eexists _, _, _, _. split; [done|]. split; [done|]. rewrite H1. exists evs'. split; [done|]. by rewrite H3.
  - destruct (W2 eq_refl) as [E1 E2].
    destruct (notifyMembers_ok g cmd metrics se (Some true) (Some v) None Hg Hk) as (g' & out & evs & evs' & -> & HI & H1 & H2 & H3 & H4 & _);
      [simpl; lia|done|]. simpl in HI.
    eexists _, _, _, _. split; [done|]. split; [done|]. rewrite H1. by exists v, evs'.
Qed.
End Mutations.

(** C36: a mutation request changes the source or the cache only if it carries
    the token, spells a valid key canonically, found a free write slot and a
    client still there, and, for a write, states an exact precondition and (for
    PUT) a body that is valid JSON within the size limit; every other request
    is answered without touching either. *)
Theorem mutate_guarded {C : Type} `{!Store C} {S : Type} `{!MutableSource S}
    r (g g' : Group C) (store store' : option S) d token ws metrics invalidateOnly re we se reply result :
  mutate r g store d token ws metrics invalidateOnly re we se = Some (store', g', reply, result) ->
  store' <> store \/ g' <> g ->
  Authorized r token = true /\ occupied ws < buffer ws /\ clientGone re = false /\
  (exists key, requestKey r = inl key /\ ValidateKey key = None) /\
  (invalidateOnly = false -> (exists v, mutationPrecondition r = (v, 0, None)) /\
     ParseInvalidationVersion (ReqHeader r) = (0, None)) /\
  (Method r = "PUT" -> json_Valid (Body r) = true /\ blen (Body r) <= MaxValueBytes).
Proof.
  unfold mutate. intros H Hne.
  destruct (Authorized r token) eqn:EA; [|simplify_eq/=; naive_solver]. cbn [negb] in H.
  destruct (requestKey r) as [key|e] eqn:EK; [|simplify_eq; naive_solver].
  destruct (ValidateKey key) eqn:EV; [simplify_eq; naive_solver|].
  destruct (ParseInvalidationVersion (ReqHeader r)) as [version [e|]] eqn:EP; [simplify_eq; naive_solver|].
  destruct (negb invalidateOnly && negb (version =? 0)) eqn:EI; [simplify_eq; naive_solver|].
  destruct (try_send ws) as [ws'|] eqn:EW; [|simplify_eq; naive_solver].
  apply try_send_ok in EW as [Hfree _].
  destruct (String.eqb (Method r) "PUT" && _) eqn:EB; [simplify_eq; naive_solver|].
  destruct (String.eqb (Method r) "PUT" && negb _) eqn:EJ; [simplify_eq; naive_solver|].
  destruct (clientGone re) eqn:EG; [simplify_eq; naive_solver|].
  split; [done|]. split; [done|]. split; [done|]. split; [eauto|].
  split.
  - intros ->. simpl in EI, H. split; [|apply negb_false_iff, Z.eqb_eq in EI; by subst].
    destruct (mutationPrecondition r) as [[v st] [e|]] eqn:EM; [simplify_eq; naive_solver|].
    exists v. by apply mutationPrecondition_parts in EM as [-> _].
  - intros Hput. rewrite Hput in EB, EJ. simpl in EB, EJ. apply orb_false_iff in EB as [_ EB]. reflect_bool.
    by split; [|lia].
Qed.

(** ** Witnesses *)
Definition sample_write : writeEnv := mkWriteEnv Answered None 20.
Definition sample_broadcast : sendEnv := mkSendEnv 1 2 sample_send [0; 1]%nat.
Definition sample_put : mutationCommand := mkCommand mutationPut "k" [Byte.x62] 1 0.

Lemma executeMutation_truthful_witness :
  exists db' g' out evs, executeMutation sample_group (Some db_created) sample_ring sample_put true sample_write sample_broadcast
      = Some (Some db', g', out, evs) /\ broadcastErr out = None.
Proof.
  destruct (state sample_ring) as [s|] eqn:Es; [|discriminate Es].
  destruct (executeMutation_truthful sample_ring s sample_ring_ok Es sample_group db_created [] sample_put true
    sample_write sample_broadcast db_created_run sample_group_gwf) as (db' & g' & out & evs & H1 & H2 & _).
  - discriminate.
  - reflexivity.
  - reflexivity.
  - exact I.
  - left. reflexivity.
  - rewrite (sample_ring_remotes s Es). reflexivity.
  - exists db', g', out, evs. split; [exact H1|exact H2].
Defined.

(** The write is reported as committed at version 2, with one member missing. *)
Example sample_put_result :
  ('(_, _, out, _) ← executeMutation sample_group (Some db_created) sample_ring sample_put true sample_write sample_broadcast;
   Some (SourceCommitted (response out), SourceVersion (response out), Complete <$> Invalidation (response out)))
  = Some (Some true, Some 2, Some false).
Proof. vm_compute. reflexivity. Qed.

Definition sample_put_request : Request :=
  mkRequest "PUT" "/api" "key=k"
    (<["If-Match" := [versionETag 1]]> {["Authorization" := ["Bearer secret"]]}) [Byte.x31].

Lemma mutate_guarded_witness :
  exists store' g' reply result,
    mutate sample_put_request sample_group (Some db_created) sample_ring "secret" (make_chan 16) true false
      (mkRequestEnv None false) sample_write sample_broadcast = Some (store', g', reply, result) /\
    result = "partial" /\ Authorized sample_put_request "secret" = true /\ json_Valid (Body sample_put_request) = true.
Proof.
  destruct (mutate sample_put_request sample_group (Some db_created) sample_ring "secret" (make_chan 16) true false
      (mkRequestEnv None false) sample_write sample_broadcast) as [[[[store' g'] reply] result]|] eqn:E.
  2: { apply (f_equal (fmap snd)) in E. vm_compute in E. discriminate E. }
  assert (result = "partial") as Hr by (apply (f_equal (fmap snd)) in E; vm_compute in E; by injection E).
  assert (store' <> Some db_created) as Hst.
  { intros E2. apply (f_equal (fmap (fun x => (fun db => committed_version db "k") <$> x.1.1.1))) in E.
    rewrite E2 in E. vm_compute in E. discriminate E. }
  exists store', g', reply, result. split; [reflexivity|]. split; [exact Hr|].
  destruct (mutate_guarded _ _ _ _ _ _ _ _ _ _ _ _ _ _ _ E (or_introl Hst)) as (H1 & _ & _ & _ & _ & H2).
  split; [exact H1|]. apply H2. reflexivity.
Defined.

Example json_Valid_samples :
  json_Valid <$> (String.list_byte_of_string <$> ["{}"; " [1, -2.5e+3, true ] "; "01"; "[1,]"; "{ }x"; "nul"])
  = [true; true; false; false; false; false].
Proof. vm_compute. reflexivity. Qed.
