(* ===== verification/Writes.v ===== *)
(** * A write through the public API, seen by the readers of its node

    Composition of [executeMutation] ([internal/app/mutations.go]) with the
    running system of [Cluster]: the write commits at the source, its own
    broadcast invalidates the node that took it, and every read that starts on
    that node from then on sees the write or a later one, whatever the other
    nodes, relays and writers do. *)
From S2P Require Import Prelude GoStrings Errors LRU CacheStore Bloom Admission Group Read Consistency Directory Protocol Postgres Outbox Cluster Api.

Section Writes.
Context {C : Type} `{!Store C, !StoreLaws C}.
Notation config := (config (C := C)).
Notation cluster := (cluster (C := C)).

(** The cluster after node [id], in state [s], took a write that left the
    tables [db'] and its group [g'] invalidated with [v]. *)
Definition written (c : cluster) (id : string) (s : config) (db' : DB) (g' : Group C) (key : string) (v : Z) : cluster :=
  let f := committed_version db' in
  mkCluster db' (cl_gone c) (<[id := invalidated (set_committed f s) g' key v]> (set_committed f <$> cl_nodes c)) (cl_relays c).

(** What the command leaves in the row of its key. *)
Definition written_row (cmd : mutationCommand) (v : Z) : product :=
  match kind cmd with mutationPut => mkProduct (cmd_value cmd) v false | _ => mkProduct [] v true end.

(** ** Runs that go on from a run *)
Definition goes_on (x y : list DB * cluster) : Prop := cstep x.2 y.2 /\ y.1 = cl_db y.2 :: x.1.

Lemma goes_on_run dbs c dbs2 c2 :
  run dbs c -> rtc goes_on (dbs, c) (dbs2, c2) -> run dbs2 c2 /\ (forall db, db ∈ dbs -> db ∈ dbs2).
Proof.
  intros Hr Hg. remember (dbs, c) as x eqn:Ex. remember (dbs2, c2) as y eqn:Ey. revert dbs c Hr Ex Ey.
  induction Hg as [x|x [dbs1 c1] y [Hs E] Hg IH]; intros dbs c Hr -> Ey; [by simplify_eq|]. simpl in Hs, E. subst dbs1 y.
  destruct (IH (cl_db c1 :: dbs) c1) as [H1 H2]; [by eapply run_step|done|done|].
  split; [done|]. intros db Hdb. apply H2. by right.
Qed.

(** Two rows of one version are one row, wherever in the run they were. *)
Lemma run_unique dbs c key db1 db2 p1 p2 :
  run dbs c -> db1 ∈ dbs -> db2 ∈ dbs -> products db1 !! key = Some p1 -> products db2 !! key = Some p2 ->
  p_version p1 = p_version p2 -> p1 = p2.
Proof.
  intros Hr. induction Hr as [|dbs c c' Hr IH Hs]; intros H1 H2 E1 E2 Ev.
  { apply list_elem_of_singleton in H1 as ->, H2 as ->. by simplify_eq. }
  pose proof (run_step _ _ _ Hr Hs) as Hr'.
  destruct (run_rows _ _ _ _ _ Hr' H1 E1) as (q1 & Q1 & D1), (run_rows _ _ _ _ _ Hr' H2 E2) as (q2 & Q2 & D2). simplify_eq.
  apply elem_of_cons in H1 as [->|H1], H2 as [->|H2]; [by simplify_eq|..|by apply IH]; simplify_eq.
  - destruct D2 as [->|]; [done|lia].
  - destruct D1 as [->|]; [done|lia].
Qed.

(** ** Acknowledgements last *)
Lemma evolves_insert db (ns : gmap string config) id (s s' : config) :
  ns !! id = Some s -> (forall k, acked (wld s) k <= acked (wld s') k) -> evolves db ns (<[id := s']> ns).
Proof. intros Hs Ha j t [[<- <-]|[_ Ht]]%lookup_insert_Some; left; [by exists s|by exists t]. Qed.

Lemma evolves_fmap db (ns : gmap string config) f : evolves db ns (set_committed f <$> ns).
Proof. intros j t (s & <- & Hs)%lookup_fmap_Some. left. by exists s. Qed.

Lemma relayed_acked (s : config) key v t1 t2 k : acked (wld s) k <= acked (wld (relayed s key v t1 t2)) k.
Proof.
  unfold relayed. destruct (InvalidateVersion _ _ _ _ _) as [[[g evs] []]|]; [done| |done].
  simpl. unfold upd. case_decide; [subst|]; lia.
Qed.

Lemma cstep_evolves (A : Genuine) c c' :
  contained (rows_answer (cl_db c)) A -> clinv (held := A) c -> cstep c c' ->
  evolves (cl_db c) (cl_nodes c) (cl_nodes c').
Proof.
  intros HA HI Hs. destruct Hs; cbn [cl_db cl_nodes] in *; try apply evolves_fmap.
  - match goal with H : node_step _ _ _ |- _ => destruct H as [Hst _] end.
    apply (step_contained _ _ _ _ HA) in Hst. eapply evolves_insert; [done|]. intros k.
    apply (step_acked _ _ k) in Hst; [done|]. by apply (ci_nodes _ HI id s).
  - intros j t [[<- <-]|[_ Ht]]%lookup_insert_Some; [right; intros k; simpl; lia|left; by exists t].
  - intros j t [_ Ht]%lookup_delete_Some. left. by exists t.
  - eapply evolves_insert; [done|]. intros k. case_match; [apply relayed_acked|lia].
  - eapply evolves_insert; [done|]. intros k. apply relayed_acked.
  - intros j t Ht. left. by exists t.
Qed.

(** A node that runs at the end has everything acknowledged that it had, or
    has joined in between, when the source had it already. *)
Lemma run_acked dbs c dbs2 c2 id key v :
  run dbs c -> rtc goes_on (dbs, c) (dbs2, c2) -> v <= committed_version (cl_db c) key ->
  (forall s, cl_nodes c !! id = Some s -> v <= acked (wld s) key) ->
  forall s2, cl_nodes c2 !! id = Some s2 -> v <= acked (wld s2) key.
Proof.
  intros Hr Hg. remember (dbs, c) as x eqn:Ex. remember (dbs2, c2) as y eqn:Ey. revert dbs c Hr Ex Ey.
  induction Hg as [x|x [dbs1 c1] y [Hs E] Hg IH]; intros dbs c Hr -> Ey Hv Ha; [by simplify_eq|].
  simpl in Hs, E. subst dbs1 y.
  pose proof (run_clinv (held_in dbs) dbs c Hr (fun _ _ _ H => H)) as HI.
  apply (IH (cl_db c1 :: dbs) c1); [by eapply run_step|done|done|..].
  - pose proof (run_step _ _ _ Hr Hs) as Hr'. unfold committed_version in Hv |- *.
    pose proof (ci_db _ (run_clinv (held_in (cl_db c1 :: dbs)) _ c1 Hr' (fun _ _ _ H => H))) as Hw'.
    pose proof (committed_range _ key Hw') as H0. unfold committed_version in H0. simpl in H0.
    destruct (products (cl_db c) !! key) as [p|] eqn:Ep; [|lia].
    destruct (cstep_rows c c1 (ci_db _ HI) Hs key p Ep) as (p' & -> & [->|?]); lia.
  - intros s1 Hs1. assert (contained (rows_answer (cl_db c)) (held_in dbs)) as HA.
    { intros k n value H. exists (cl_db c). split; [by apply run_current|done]. }
    destruct (cstep_evolves _ _ _ HA HI Hs id s1 Hs1) as [(s & Hin & Hle)|Hle]; [|specialize (Hle key); lia].
    specialize (Hle key). specialize (Ha s Hin). lia.
Qed.

(** ** The write *)
Lemma sourceWrite_row db cmd we db' v :
  kind cmd <> mutationNotify -> sourceWrite db cmd we = (db', (v, None)) ->
  db_write db db' /\ 0 < v /\ products db' !! cmd_key cmd = Some (written_row cmd v).
Proof.
  intros Hk. unfold sourceWrite, written_row. cbn [ms_PutIfVersion ms_DeleteIfVersion DB_MutableSource].
  pose proof (PutIfVersion_ok db (we_fate we) (we_ctx we) (we_time we) (cmd_key cmd) (cmd_value cmd) (cmd_expected cmd)) as HP.
  pose proof (DeleteIfVersion_ok db (we_fate we) (we_ctx we) (we_time we) (cmd_key cmd) (cmd_expected cmd)) as HD.
  pose proof (w_putif db (we_fate we) (we_ctx we) (we_time we) (cmd_key cmd) (cmd_value cmd) (cmd_expected cmd)) as WP.
  pose proof (w_deleteif db (we_fate we) (we_ctx we) (we_time we) (cmd_key cmd) (cmd_expected cmd)) as WD.
  destruct (DeleteIfVersion db _ _ _ _ _) as [db1 [v1 err1]], (PutIfVersion db _ _ _ _ _ _) as [db2 [v2 err2]].
  cbn [fst] in WP, WD. destruct (kind cmd); [done|..]; intros E.
  - destruct err2; [by simplify_eq|]. destruct (v2 <=? 0) eqn:Ev; simplify_eq. reflect_bool. split; [done|]. split; [lia|].
    destruct HP as (_ & HP & _). destruct (HP eq_refl) as (_ & _ & _ & -> & _). by rewrite lookup_insert_eq.
  - destruct err1; [by simplify_eq|]. destruct (v1 <=? 0) eqn:Ev; simplify_eq. reflect_bool. split; [done|]. split; [lia|].
    destruct HD as (H1 & H2 & _). destruct (H2 eq_refl) as [-> Hne]. destruct (H1 Hne) as (_ & _ & _ & -> & _).
    by rewrite lookup_insert_eq.
Qed.

Lemma executeMutation_committed (d : Directory) sn (g : Group C) db cmd metrics we se db' g' out evs v :
  dir_ok d -> state d = Some sn -> gwf g -> kind cmd <> mutationNotify -> ValidateKey (cmd_key cmd) = None ->
  se_order se ≡ₚ seq 0 (length (remotes d sn)) ->
  executeMutation g (Some db) d cmd metrics we se = Some (Some db', g', out, evs) ->
  SourceCommitted (response out) = Some true -> SourceVersion (response out) = Some v ->
  sourceWrite db cmd we = (db', (v, None)) /\
  exists evs', InvalidateVersion g (cmd_key cmd) v (se_t1 se) (se_t2 se) = Some (g', evs', None).
Proof.
  intros Hd Hsn Hg Hk Hkey Ho. unfold executeMutation.
  assert (forall X (a b : X), match kind cmd with mutationNotify => a | _ => b end = b) as ->
    by (intros; by destruct (kind cmd)).
  cbn [mbind option_bind]. destruct (sourceWrite db cmd we) as [db1 [v1 wErr]] eqn:ES.
  destruct (IsErr wErr ErrPreconditionFailed); [intros E; by simplify_eq|]. destruct wErr as [e|].
  { unfold notifyMembers. destruct (DirInvalidateVersion _ _ _ _ _ _ _ _) as [[[g1 rep] [e1|]]|]; [..|done];
      cbn [mbind option_bind]; intros E; by simplify_eq. }
  pose proof (sourceWrite_row _ _ _ _ _ Hk ES) as (_ & Hpos & _).
  destruct (notifyMembers_ok d sn Hd Hsn g cmd metrics se (Some true) (Some v1) None Hg Hkey ltac:(simpl; lia) Ho)
    as (g1 & out1 & evs1 & evs2 & -> & HI & H1 & H2 & _).
  cbn [mbind option_bind]. intros E _. injection E as <- <- <- _. rewrite H2. intros [= <-]. by eauto.
Qed.

Lemma written_goes_on dbs c id s db' g' evs key v t1 t2 :
  cl_nodes c !! id = Some s -> db_write (cl_db c) db' ->
  v <= committed_version db' key -> 2 * (invalidations (wld s) + 1) < two64 ->
  InvalidateVersion (grp (wld s)) key v t1 t2 = Some (g', evs, None) ->
  rtc goes_on (dbs, c) (db' :: db' :: dbs, written c id s db' g' key v).
Proof.
  intros Hs Hw Hv Hn HI. destruct c as [db gone ns rs]. simpl in *. set (f := committed_version db').
  apply (rtc_l _ _ (db' :: dbs, mkCluster db' gone (set_committed f <$> ns) rs)); [|apply rtc_once].
  - split; [by apply cs_write|reflexivity].
  - split; [|reflexivity].
    apply (cs_node db' gone (set_committed f <$> ns) rs id (set_committed f s)); [by rewrite lookup_fmap, Hs|].
    split; [|done]. by eapply (invalidated_step (set_committed f s)).
Qed.

(** What a view of version [v] holds, once the row of [v] is [written_row]. *)
Lemma written_view dbs c db cmd v value :
  run dbs c -> db ∈ dbs -> products db !! cmd_key cmd = Some (written_row cmd v) ->
  held_in dbs (cmd_key cmd) v value -> kind cmd = mutationPut /\ value = cmd_value cmd.
Proof.
  intros Hr Hdb Hrow (db2 & Hdb2 & Hp).
  pose proof (run_unique dbs c _ _ _ _ _ Hr Hdb Hdb2 Hrow Hp) as E. unfold written_row in E.
  destruct (kind cmd); [by specialize (E eq_refl)| |by specialize (E eq_refl)]. by injection (E eq_refl) as <-.
Qed.

(** C3: read your writes: a [PUT] or [DELETE] that a node took and reported as
    committed with version [v] is seen by every read that starts on that node
    afterwards, wherever the system has gone in between ([c2]: other writes,
    relays, retention, the node's own restart): its version is from [v] on, and
    a view of version [v] itself holds the bytes that were written ([A]: what
    the source answers while the read runs). While [v]
    is the newest version, an undisturbed read of a written key returns exactly
    these bytes under [v], and no read of a deleted key succeeds. *)
Theorem read_your_writes dbs c id s d sn cmd metrics we se db' g' out evs v :
  run dbs c -> cl_nodes c !! id = Some s -> 2 * (invalidations (wld s) + 1) < two64 ->
  dir_ok d -> state d = Some sn -> se_order se ≡ₚ seq 0 (length (remotes d sn)) ->
  kind cmd <> mutationNotify -> ValidateKey (cmd_key cmd) = None ->
  executeMutation (grp (wld s)) (Some (cl_db c)) d cmd metrics we se = Some (Some db', g', out, evs) ->
  SourceCommitted (response out) = Some true -> SourceVersion (response out) = Some v ->
  let key := cmd_key cmd in
  let now := (db' :: db' :: dbs, written c id s db' g' key v) in
  rtc goes_on (dbs, c) now /\
  forall dbs2 c2 s2, rtc goes_on now (dbs2, c2) -> cl_nodes c2 !! id = Some s2 ->
    (forall (A : Genuine) s3 cl view, contained (held_in dbs2) A ->
       rtc (step (answers := A)) (with_reader s2 key) s3 -> callers s3 !! length (callers s2) = Some cl ->
       c_prog cl = Ret (view, None) ->
       v <= version view <= committed (wld s3) key /\ A key (version view) (b view) /\
       ((forall value, A key v value -> held_in dbs2 key v value) -> version view = v -> kind cmd = mutationPut /\ b view = cmd_value cmd)) /\
    (forall s3 cl view, v = committed_version (cl_db c2) key ->
       rtc (node_step (cl_db c2)) (with_reader s2 key) s3 -> callers s3 !! length (callers s2) = Some cl ->
       c_prog cl = Ret (view, None) ->
       kind cmd = mutationPut /\ version view = v /\ b view = cmd_value cmd).
Proof.
  intros Hr Hs Hn Hd Hsn Ho Hk Hkey HE Hcom Hver key now.
  pose proof (run_clinv (held_in dbs) dbs c Hr (fun _ _ _ H => H)) as HI.
  destruct (ci_nodes _ HI _ _ Hs) as [[Hw _] _].
  destruct (executeMutation_committed d sn _ _ _ _ _ _ _ _ _ _ _ Hd Hsn (inv_gwf _ Hw) Hk Hkey Ho HE Hcom Hver) as (HS & evs' & HIv).
  destruct (sourceWrite_row _ _ _ _ _ Hk HS) as (Hwr & Hpos & Hrow).
  assert (committed_version db' key = v) as Hv
    by (unfold committed_version; subst key; rewrite Hrow; unfold written_row; by destruct (kind cmd)).
  pose proof (written_goes_on dbs c id s db' g' evs' key v _ _ Hs Hwr ltac:(lia) Hn HIv) as Hg. fold now in Hg.
  split; [done|]. intros dbs2 c2 s2 Hg2 Hs2.
  destruct (goes_on_run _ _ _ _ Hr Hg) as [Hr1 _]. destruct (goes_on_run _ _ _ _ Hr1 Hg2) as [Hr2 Hsub].
  assert (v <= acked (wld s2) key) as Hack.
  { eapply (run_acked _ _ _ _ id key v Hr1 Hg2); [simpl; lia| |done]. intros s1 Hs1. cbn [cl_nodes written] in Hs1.
    rewrite lookup_insert_eq in Hs1. injection Hs1 as <-. simpl. unfold upd. rewrite decide_True by done. lia. }
  assert (forall value, held_in dbs2 key v value -> kind cmd = mutationPut /\ value = cmd_value cmd) as Hval
    by (intros value; eapply written_view; [done|apply Hsub; by left|done]).
  assert (forall (A : Genuine) s3 cl view, contained (held_in dbs2) A ->
    rtc (step (answers := A)) (with_reader s2 key) s3 -> callers s3 !! length (callers s2) = Some cl ->
    c_prog cl = Ret (view, None) ->
    v <= version view <= committed (wld s3) key /\ A key (version view) (b view)) as Hread.
  { intros A s3 cl view HA Hr3 Hcl Hret. pose proof (run_clinv A dbs2 c2 Hr2 HA) as HI2.
    destruct (reader_sees s2 key s3 cl view (proj1 (ci_nodes _ HI2 _ _ Hs2)) Hr3 Hcl Hret) as [? [? ?]]. split; [lia|done]. }
  split.
  - intros A s3 cl view HA Hr3 Hcl Hret. destruct (Hread A s3 cl view HA Hr3 Hcl Hret) as [Hle Hb].
    split; [done|]. split; [done|]. intros HA2 E. apply Hval, HA2. by rewrite <- E.
  - intros s3 cl view E Hr3 Hcl Hret.
    assert (contained (rows_answer (cl_db c2)) (held_in dbs2)) as Hnow
      by (intros k n value H; exists (cl_db c2); split; [by apply run_current|done]).
    destruct (reader_committed _ _ _ _ Hr3 Hnow) as [Hr4 E2].
    destruct (Hread _ s3 cl view (fun _ _ _ H => H) Hr4 Hcl Hret) as [Hle Hb]. rewrite E2 in Hle. simpl in Hle.
    destruct (ci_nodes _ (run_clinv (held_in dbs2) dbs2 c2 Hr2 (fun _ _ _ H => H)) _ _ Hs2) as [_ Hcm]. rewrite Hcm in Hle.
    assert (version view = v) as Ev by lia. rewrite Ev in Hb. destruct (Hval _ Hb). done.
Qed.

End Writes.

(** ** A concrete write *)
Definition write_one : mutationCommand := mkCommand mutationPut "k" [Byte.x62] 0 0.
Definition quiet : sendEnv := mkSendEnv 1 2 all_acknowledge [0%nat].
Definition pair_cluster : cluster (C := cache) := mkCluster empty_db [] nodes0 [].

Lemma pair_cluster_steps : rtc cstep initial_cluster pair_cluster.
Proof.
  eapply rtc_l; [by apply (cs_join empty_db [] ∅ [] "a" sample_group), sample_launched|].
  eapply rtc_once. apply (cs_join empty_db [] _ [] "b" sample_group); [reflexivity|apply sample_launched].
Qed.

Lemma pair_cluster_run : exists dbs, run dbs pair_cluster.
Proof. apply run_exists, pair_cluster_steps. Qed.

Lemma read_your_writes_witness :
  exists db' g' out evs,
    executeMutation (grp (wld node0)) (Some empty_db) pair_ring write_one true sample_write quiet = Some (Some db', g', out, evs) /\
    SourceVersion (response out) = Some 1 /\
    forall s3 cl view,
      rtc (node_step db') (with_reader (invalidated (set_committed (committed_version db') node0) g' "k" 1) "k") s3 ->
      callers s3 !! 0%nat = Some cl -> c_prog cl = Ret (view, None) -> version view = 1 /\ b view = [Byte.x62].
Proof.
  destruct pair_send as (sn & _ & Hsn & _ & Hlen & _). destruct pair_cluster_run as [dbs Hr].
  assert (match executeMutation (grp (wld node0)) (Some empty_db) pair_ring write_one true sample_write quiet with
    | Some (Some db', _, out, _) =>
        Some (SourceCommitted (response out), SourceVersion (response out), committed_version db' "k")
    | _ => None end = Some (Some true, Some 1, 1)) as HE by (vm_compute; reflexivity).
  destruct (executeMutation (grp (wld node0)) (Some empty_db) pair_ring write_one true sample_write quiet)
    as [[[[[db'|] g'] out] evs]|] eqn:E; [|discriminate HE..].
  injection HE as Hcom Hver Hdb'.
  exists db', g', out, evs. split; [reflexivity|]. split; [exact Hver|]. intros s3 cl view Hr3 Hcl Hret.
  destruct (read_your_writes dbs pair_cluster "a" node0 pair_ring sn write_one true sample_write quiet db' g' out evs 1
    Hr eq_refl) as [_ H].
  - vm_compute. reflexivity.
  - apply (Update_ok (mkDirectory "a" 1000 "secret" None)). intros s. discriminate.
  - exact Hsn.
  - by rewrite Hlen.
  - discriminate.
  - reflexivity.
  - exact E.
  - exact Hcom.
  - exact Hver.
  - destruct (H _ _ (invalidated (set_committed (committed_version db') node0) g' "k" 1) (rtc_refl _ _)) as [_ H2].
    + apply lookup_insert_eq.
    + destruct (H2 s3 cl view (eq_sym Hdb') Hr3 Hcl Hret) as (_ & H3 & H4). split; [exact H3|exact H4].
Defined.
