(* ===== verification/Updates.v ===== *)
(** * Conditional updates over cached reads

    A client reads a product from the cache of any node, keeps the [ETag] of
    the answer, and later sends it back as [If-Match] with a write, to any node.
    The cache may have answered with a view that was old already, and anything
    may have happened in between; the theorem says that the write takes place
    only over exactly the bytes the client has read. *)
From S2P Require Import Prelude GoStrings Errors LRU CacheStore Bloom Admission Group Read Consistency Directory Protocol Postgres Outbox Cluster Api Writes.

(** ** What a write request does to the tables *)

(** The command of a conditional write request. *)
Definition write_command (r : Request) (key : string) (expected : Z) : mutationCommand :=
  let isPut := String.eqb (Method r) "PUT" in
  mkCommand (if isPut then mutationPut else mutationDelete) key (if isPut then Body r else []) expected 0.

Section Updates.
Context {C : Type} `{!Store C, !StoreLaws C}.
Notation config := (config (C := C)).
Notation cluster := (cluster (C := C)).

Lemma executeMutation_store (g g' : Group C) db d cmd metrics we se db' out evs :
  kind cmd <> mutationNotify -> executeMutation g (Some db) d cmd metrics we se = Some (Some db', g', out, evs) ->
  db' = (sourceWrite db cmd we).1.
Proof.
  intros Hk. unfold executeMutation.
  assert (forall X (a b : X), match kind cmd with mutationNotify => a | _ => b end = b) as ->
    by (intros; by destruct (kind cmd)).
  cbn [mbind option_bind]. destruct (sourceWrite db cmd we) as [db1 [v wErr]]. case_bool; [intros E; by simplify_eq|].
  intros (([g1 out1] & evs1) & _ & E)%bind_Some. by simplify_eq.
Qed.

(** A write request that changes the tables runs the command its headers state. *)
Lemma mutate_command r (g g' : Group C) db d token ws metrics re we se db' reply result :
  mutate r g (Some db) d token ws metrics false re we se = Some (Some db', g', reply, result) -> db' <> db ->
  exists key expected, requestKey r = inl key /\ mutationPrecondition r = (expected, 0, None) /\
    db' = (sourceWrite db (write_command r key expected) we).1.
Proof.
  unfold mutate. intros H Hne.
  destruct (Authorized r token); [|simplify_eq/=; done]. cbn [negb] in H.
  destruct (requestKey r) as [key|e]; [|by simplify_eq].
  destruct (ValidateKey key); [by simplify_eq|].
  destruct (ParseInvalidationVersion (ReqHeader r)) as [version [e|]]; [by simplify_eq|].
  cbn [negb andb] in H. destruct (version =? 0) eqn:E0; [|by simplify_eq/=]. cbn [negb] in H. reflect_bool. subst version.
  destruct (try_send ws) as [ws'|]; [|by simplify_eq].
  destruct (String.eqb (Method r) "PUT" && (_ || _)); [by simplify_eq|].
  destruct (String.eqb (Method r) "PUT" && negb _); [by simplify_eq|].
  destruct (clientGone re); [by simplify_eq|].
  destruct (mutationPrecondition r) as [[expected st] [e|]] eqn:EM; [by simplify_eq|]. exists key, expected.
  split; [done|]. split; [by apply mutationPrecondition_parts in EM as [-> _]|].
  apply bind_Some in H as ([[[st' g1] out] evs] & HE & H). apply bind_Some in H as ([rep res] & _ & H). injection H as -> <- _ _.
  apply executeMutation_store in HE; [exact HE|]. simpl. by destruct (String.eqb (Method r) "PUT").
Qed.

Lemma apiRoute_write r (g g' : Group C) db d token nodeID ws metrics ready get re we se db' reply result :
  apiRoute g (Some db) d token nodeID ws metrics ready r get re we se = Some (Some db', g', reply, result) -> db' <> db ->
  exists key expected, requestKey r = inl key /\ mutationPrecondition r = (expected, 0, None) /\
    db' = (sourceWrite db (write_command r key expected) we).1.
Proof.
  unfold apiRoute. intros H Hne.
  destruct (negb (String.eqb (Method r) "GET") && negb _); [by simplify_eq|].
  destruct (negb ready); [by simplify_eq|].
  destruct (match d with Some _ => negb (String.eqb token "") | None => false end && _); [|].
  - apply bind_Some in H as (d1 & _ & H). apply bind_Some in H as ([[[st' g1] rep] res] & HE & H).
    injection H as -> _ _ _. by eapply mutate_command.
  - destruct (requestKey r) as [key|e]; [|by simplify_eq]. destruct (readReply (get key)). by simplify_eq.
Qed.

(** The command writes only over a live row of the version it expects, the
    next version of that key, and leaves every other row alone. *)
Lemma command_over db r key expected we :
  0 < expected -> let db' := (sourceWrite db (write_command r key expected) we).1 in
  db' <> db ->
  (exists p, products db !! key = Some p /\ p_deleted p = false /\ p_version p = expected) /\
  products db' = <[key := written_row (write_command r key expected) (expected + 1)]> (products db).
Proof.
  intros He db'. unfold db', sourceWrite, written_row. cbn [ms_PutIfVersion ms_DeleteIfVersion DB_MutableSource].
  pose proof (PutIfVersion_ok db (we_fate we) (we_ctx we) (we_time we) key (Body r) expected) as HP.
  pose proof (DeleteIfVersion_ok db (we_fate we) (we_ctx we) (we_time we) key expected) as HD.
  unfold write_command. cbn [kind cmd_key cmd_value cmd_expected].
  destruct (String.eqb (Method r) "PUT").
  - destruct (PutIfVersion db _ _ _ _ _ _) as [db1 [v err]]. cbn [fst]. intros Hne.
    destruct HP as (HP & _). destruct (HP Hne) as [Hm (v' & Hv & _ & HPr & _)].
    unfold matches in Hm. rewrite (proj2 (Z.eqb_neq _ _)) in Hm by lia. split; [done|].
    destruct Hm as (p & Hp & _ & Ep). simpl in Hv. unfold committed_version in Hv. rewrite Hp in Hv.
    by rewrite HPr, Hv, Ep.
  - destruct (DeleteIfVersion db _ _ _ _ _) as [db1 [v err]]. cbn [fst]. intros Hne.
    destruct HD as (HD & _). destruct (HD Hne) as [Hm (_ & _ & HPr & _)]. by split.
Qed.

(** ** Reads of the run *)
Lemma run_versions dbs c db key p :
  run dbs c -> db ∈ dbs -> products db !! key = Some p -> 1 <= p_version p <= maxInt64.
Proof.
  intros Hr Hdb Hp. assert (exists gone, dbwf (db, gone)) as [gone Hw].
  { induction Hr as [|dbs c c' Hr IH Hs].
    - apply list_elem_of_singleton in Hdb as ->. exists []. apply dbwf_empty.
    - apply elem_of_cons in Hdb as [->|Hdb]; [|by apply IH]. exists (cl_gone c').
      apply (ci_db _ (run_clinv _ _ _ (run_step _ _ _ Hr Hs) (fun _ _ _ H => H))). }
  by apply (wf_product _ Hw key p Hp).
Qed.

(** What a returned read of the cluster holds was a row of the table. *)
Lemma returned_row dbs c id s i cl view :
  run dbs c -> cl_nodes c !! id = Some s -> callers s !! i = Some cl -> c_prog cl = Ret (view, None) ->
  held_in dbs (c_key cl) (version view) (b view) /\ 0 < version view < two63.
Proof.
  intros Hr Hs Hi Hret. pose proof (run_clinv (held_in dbs) dbs c Hr (fun _ _ _ H => H)) as HI.
  destruct (ci_nodes _ HI _ _ Hs) as [(Hw & _ & HC) _].
  pose proof (HC _ _ Hi) as Hwp. rewrite Hret in Hwp. destruct (Hwp _ (rely_refl _ Hw) eq_refl) as [_ [_ Hg]].
  split; [exact Hg|]. destruct Hg as (db & Hdb & Hp). pose proof (run_versions _ _ _ _ _ Hr Hdb Hp) as Hv. simpl in Hv.
  unfold maxInt64 in Hv. unfold two63. lia.
Qed.

(** C4: no lost update, round trip of the [ETag]: a client got a view of a key
    from the cache of some node, with the [ETag] of that answer; wherever the
    system has gone since, when its conditional write carries this [ETag] back
    as its only [If-Match] to any node and changes the tables, then the row of
    the key is live and still exactly what the client was shown, bytes and
    version; the write leaves the body of the request (or, for DELETE, a
    tombstone) under the next version and touches no other row. *)
Theorem no_lost_update dbs c id s i cl view resp result1 dbs2 c2
    r (g g' : Group C) d token nodeID ws metrics ready get re we se db' reply result :
  run dbs c -> cl_nodes c !! id = Some s -> callers s !! i = Some cl -> c_prog cl = Ret (view, None) ->
  readReply (view, None) = (Text resp, result1) ->
  rtc goes_on (dbs, c) (dbs2, c2) ->
  requestKey r = inl (c_key cl) -> Values (ReqHeader r) "If-Match" = [HeaderGet (RespHeader resp) "ETag"] ->
  Values (ReqHeader r) "If-None-Match" = [] ->
  apiRoute g (Some (cl_db c2)) d token nodeID ws metrics ready r get re we se = Some (Some db', g', reply, result) ->
  db' <> cl_db c2 ->
  products (cl_db c2) !! c_key cl = Some (mkProduct (b view) (version view) false) /\
  products db' = <[c_key cl := if String.eqb (Method r) "PUT" then mkProduct (Body r) (version view + 1) false
                               else mkProduct [] (version view + 1) true]> (products (cl_db c2)).
Proof.
  intros Hr Hs Hi Hret Hreply Hg Hkey Hm Ha Hroute Hne.
  destruct (returned_row _ _ _ _ _ _ _ Hr Hs Hi Hret) as [(db & Hdb & Hp) Hv].
  unfold readReply, Version in Hreply. rewrite (proj2 (Z.ltb_lt 0 _)) in Hreply by lia. injection Hreply as <- _.
  unfold HeaderGet, Values, HeaderSet in Hm. cbn [RespHeader] in Hm. rewrite lookup_insert_eq in Hm. cbn [default head] in Hm.
  destruct (apiRoute_write _ _ _ _ _ _ _ _ _ _ _ _ _ _ _ _ _ Hroute Hne) as (key & expected & Ek & Em & ->).
  assert (key = c_key cl) as -> by congruence.
  rewrite (mutationPrecondition_etag r (version view) Hm Ha Hv) in Em. injection Em as <-.
  destruct (command_over (cl_db c2) r (c_key cl) (version view) we ltac:(lia) Hne) as [(p & Hp2 & Hd & Ev) ->].
  destruct (goes_on_run _ _ _ _ Hr Hg) as [Hr2 Hsub].
  pose proof (run_unique dbs2 c2 _ _ _ _ _ Hr2 (Hsub _ Hdb) (run_current _ _ Hr2) Hp Hp2 ltac:(simpl; lia)) as <-.
  split; [done|]. unfold written_row, write_command. cbn [kind cmd_key cmd_value]. by destruct (String.eqb (Method r) "PUT").
Qed.

End Updates.

(** ** A concrete run: a write, a read through a cache, a conditional write *)
#[local] Instance byte_decides : EqDecision Byte.byte := Byte.byte_eq_dec.
#[local] Instance product_decides : EqDecision product.
Proof. solve_decision. Defined.

Definition commits_nothing (ch : choice) : Prop := match ch with ChCommit _ _ => False | _ => True end.

Section NodeRuns.
Context {C : Type} `{!Store C, !StoreLaws C} (db : DB).
#[local] Existing Instance rows_answer.
#[local] Instance rows_decides k v value : Decision (rows_answer db k v value).
Proof. unfold rows_answer. apply _. Defined.

Definition exec_node := exec (C := C) (answers := rows_answer db) (decides := rows_decides).

Lemma exec1_node (s s' : config (C := C)) ch :
  exec1 (answers := rows_answer db) (decides := rows_decides) s ch = Some s' -> commits_nothing ch -> node_step db s s'.
Proof.
  intros E Hq. split; [by eapply exec1_step|]. destruct s as [w fs cs].
  assert (forall p e r w' p', exec_thread (answers := rows_answer db) (decides := rows_decides) w p e r = Some (w', p') -> committed w' = committed w) as Ht
    by (intros p e r w' p' [ | ]%exec_thread_step; done).
  destruct ch as [key|i e r|i e r|i|i|key v]; simpl in E; [by simplify_eq|..|done].
  - apply bind_Some in E as (p & _ & E). apply bind_Some in E as ([w' p'] & Hx & [= <-]). by eapply Ht.
  - apply bind_Some in E as (p & _ & E). apply bind_Some in E as ([w' p'] & Hx & [= <-]). by eapply Ht.
  - apply bind_Some in E as ([key a p] & _ & E). simpl in E. destruct p; try done. by simplify_eq.
  - apply bind_Some in E as ([key a p] & _ & E). simpl in E. destruct p; try done.
    apply bind_Some in E as (q & _ & E). destruct q; try done. by simplify_eq.
Qed.

Lemma exec_head (s s' : config (C := C)) ch chs :
  exec_node s (ch :: chs) = Some s' ->
  exists s1, exec1 (answers := rows_answer db) (decides := rows_decides) s ch = Some s1 /\
    exec (answers := rows_answer db) (decides := rows_decides) s1 chs = Some s'.
Proof. unfold exec_node. simpl. by intros (s1 & H1 & H2)%bind_Some; exists s1. Qed.

Lemma exec_node_steps (s s' : config (C := C)) chs :
  exec_node s chs = Some s' -> Forall commits_nothing chs -> rtc (node_step db) s s'.
Proof.
  unfold exec_node. revert s. induction chs as [|ch chs IH]; intros s E HF; simpl in E; [injection E as ->; apply rtc_refl|].
  apply Forall_cons in HF as [Hq HF]. apply bind_Some in E as (s1 & H1 & H2).
  eapply rtc_l; [by eapply exec1_node|by apply IH].
Qed.

Lemma node_steps_cluster gone ns rs id (s s' : config (C := C)) :
  ns !! id = Some s -> rtc (node_step db) s s' ->
  rtc cstep (mkCluster db gone ns rs) (mkCluster db gone (<[id := s']> ns) rs).
Proof.
  intros Hs Hr. revert ns Hs. induction Hr as [s|s s1 s2 H Hr IH]; intros ns Hs; [by rewrite insert_id by done|].
  eapply rtc_l; [by eapply (cs_node db gone ns rs id s s1)|].
  specialize (IH (<[id:=s1]> ns) (lookup_insert_eq _ _ _)). by rewrite insert_insert_eq in IH.
Qed.
End NodeRuns.

Definition row_answer : SourceReply := ([Byte.x61], 1, None).
Definition read_schedule : list choice :=
  ChGet "k" :: replicate 6 (ChCaller 0 calm row_answer) ++ [ChStart 0] ++
  replicate 15 (ChFlight 0 calm row_answer) ++ [ChResult 0] ++ replicate 2 (ChCaller 0 calm row_answer).

Definition nodes1 : gmap string (config (C := cache)) := set_committed (committed_version db_created) <$> nodes0.
Definition node1 : config (C := cache) := set_committed (committed_version db_created) node0.

Example read_schedule_result : first_result (exec_node db_created node1 read_schedule) = Some (1, false).
Proof. vm_compute. reflexivity. Qed.

Lemma no_lost_update_witness :
  exists (s : config (C := cache)) cl view db' g' reply result,
    callers s !! 0%nat = Some cl /\ c_prog cl = Ret (view, None) /\
    apiRoute sample_group (Some db_created) (Some pair_ring) "secret" "a" (make_chan 16) true true sample_put_request
      (fun _ => (view, None)) (mkRequestEnv None false) sample_write quiet = Some (Some db', g', reply, result) /\
    products db_created !! "k" = Some (mkProduct (b view) (version view) false) /\
    products db' !! "k" = Some (mkProduct [Byte.x31] 2 false).
Proof.
  destruct (first_result_some _ _ read_schedule_result) as (s & cl & view & Ex & Hcl & Hret & Hv).
  assert (c_key cl = "k") as Hck.
  { destruct (exec_head _ _ _ _ _ Ex) as (s1 & H1 & H2). injection H1 as <-.
    destruct (steps_caller _ _ 0%nat _ (exec_steps _ _ _ H2) eq_refl) as (c' & Hc' & _ & Hk).
    rewrite Hcl in Hc'. injection Hc' as <-. exact Hk. }
  assert (rtc cstep pair_cluster (mkCluster db_created [] (<["a" := s]> nodes1) [])) as Hsteps.
  { eapply rtc_l; [apply (cs_write empty_db [] nodes0 [] db_created), w_putif|].
    apply (node_steps_cluster db_created [] nodes1 [] "a" node1 s); [reflexivity|].
    eapply exec_node_steps; [exact Ex|]. repeat constructor. }
  assert (exists dbs, run dbs (mkCluster db_created [] (<["a" := s]> nodes1) [])) as [dbs Hr]
    by (apply run_exists; etransitivity; [apply pair_cluster_steps|exact Hsteps]).
  destruct (apiRoute sample_group (Some db_created) (Some pair_ring) "secret" "a" (make_chan 16) true true sample_put_request
      (fun _ => (view, None)) (mkRequestEnv None false) sample_write quiet) as [[[[[db'|] g'] reply] result]|] eqn:E.
  2, 3: exfalso; apply (f_equal (fmap (fun x => isNone x.1.1.1))) in E; vm_compute in E; discriminate E.
  exists s, cl, view, db', g', reply, result. split; [exact Hcl|]. split; [exact Hret|]. split; [exact E|].
  assert (committed_version db' "k" = 2) as Hdb'.
  { apply (f_equal (fmap (fun x => (fun db => committed_version db "k") <$> x.1.1.1))) in E.
    vm_compute in E |- *. congruence. }
  destruct (no_lost_update dbs (mkCluster db_created [] (<["a" := s]> nodes1) []) "a" s 0%nat cl view _ _ dbs
    (mkCluster db_created [] (<["a" := s]> nodes1) []) sample_put_request sample_group g' (Some pair_ring) "secret" "a"
    (make_chan 16) true true (fun _ => (view, None)) (mkRequestEnv None false) sample_write quiet db' reply result
    Hr (lookup_insert_eq _ _ _) Hcl Hret eq_refl (rtc_refl _ _)) as [H1 H2].
  - rewrite Hck. vm_compute. reflexivity.
  - unfold Version. rewrite Hv. vm_compute. reflexivity.
  - vm_compute. reflexivity.
  - exact E.
  - intros E2. cbn [cl_db] in E2. rewrite E2 in Hdb'. vm_compute in Hdb'. discriminate Hdb'.
  - rewrite Hck in H1, H2. split; [exact H1|]. rewrite H2, lookup_insert_eq, Hv. reflexivity.
Defined.
