(* ===== verification/Config.v ===== *)
(** * Runtime configuration ([internal/app/config.go])

    [FromEnv] binds environment strings to a [Config], [Validate] checks it.
    Both return an error as a value; [FromEnv] returns the configuration it had
    built so far with it. The environment is a function from names to values,
    unset names being empty. *)
From S2P Require Import Prelude GoStrings NetAddr Errors LRU CacheStore Bloom Admission Group Read Directory Protocol Postgres Api.

Record Config := mkConfiguration {
  cfg_ClusterAddr : string;
  cfg_APIAddr : string;
  cfg_SelfID : string;
  cfg_DiscoveryMode : string;
  cfg_Namespace : string;
  cfg_ClusterService : string;
  cfg_API : bool;
  cfg_CacheBytes : Z;
  cfg_TTL : Duration;
  cfg_SourceConcurrency : Z;
  cfg_SourceMaxPending : Z;
  cfg_MaxMissWaiters : Z;
  cfg_WriteConcurrency : Z;
  cfg_Members : list Member;
  cfg_DebugAddr : string;
  cfg_ProfileContention : bool;
  cfg_SourceMode : string;
  cfg_DatabaseURL : string;
  cfg_AdminToken : string;
}.

(** [Config{}] *)
Definition zeroConfig : Config :=
  mkConfiguration "" "" "" "" "" "" false 0 0 0 0 0 0 [] "" false "" "" "".

(** Assignments to the fields [FromEnv] changes after construction. *)
Definition set_modes (c : Config) (discovery source api : string) : Config :=
  mkConfiguration (cfg_ClusterAddr c) api (cfg_SelfID c) discovery (cfg_Namespace c) (cfg_ClusterService c)
    (cfg_API c) (cfg_CacheBytes c) (cfg_TTL c) (cfg_SourceConcurrency c) (cfg_SourceMaxPending c)
    (cfg_MaxMissWaiters c) (cfg_WriteConcurrency c) (cfg_Members c) (cfg_DebugAddr c) (cfg_ProfileContention c)
    source (cfg_DatabaseURL c) (cfg_AdminToken c).
Definition set_numbers (c : Config) (cacheBytes ttl concurrency pending waiters writes : Z) : Config :=
  mkConfiguration (cfg_ClusterAddr c) (cfg_APIAddr c) (cfg_SelfID c) (cfg_DiscoveryMode c) (cfg_Namespace c)
    (cfg_ClusterService c) (cfg_API c) cacheBytes ttl concurrency pending
    waiters writes (cfg_Members c) (cfg_DebugAddr c) (cfg_ProfileContention c)
    (cfg_SourceMode c) (cfg_DatabaseURL c) (cfg_AdminToken c).
Definition set_identity (c : Config) (self : string) (ms : list Member) : Config :=
  mkConfiguration (cfg_ClusterAddr c) (cfg_APIAddr c) self (cfg_DiscoveryMode c) (cfg_Namespace c)
    (cfg_ClusterService c) (cfg_API c) (cfg_CacheBytes c) (cfg_TTL c) (cfg_SourceConcurrency c) (cfg_SourceMaxPending c)
    (cfg_MaxMissWaiters c) (cfg_WriteConcurrency c) ms (cfg_DebugAddr c) (cfg_ProfileContention c)
    (cfg_SourceMode c) (cfg_DatabaseURL c) (cfg_AdminToken c).

Definition set_CacheBytes c v := set_numbers c v (cfg_TTL c) (cfg_SourceConcurrency c) (cfg_SourceMaxPending c) (cfg_MaxMissWaiters c) (cfg_WriteConcurrency c).
Definition set_TTL c v := set_numbers c (cfg_CacheBytes c) v (cfg_SourceConcurrency c) (cfg_SourceMaxPending c) (cfg_MaxMissWaiters c) (cfg_WriteConcurrency c).
Definition set_SourceConcurrency c v := set_numbers c (cfg_CacheBytes c) (cfg_TTL c) v (cfg_SourceMaxPending c) (cfg_MaxMissWaiters c) (cfg_WriteConcurrency c).
Definition set_SourceMaxPending c v := set_numbers c (cfg_CacheBytes c) (cfg_TTL c) (cfg_SourceConcurrency c) v (cfg_MaxMissWaiters c) (cfg_WriteConcurrency c).
Definition set_MaxMissWaiters c v := set_numbers c (cfg_CacheBytes c) (cfg_TTL c) (cfg_SourceConcurrency c) (cfg_SourceMaxPending c) v (cfg_WriteConcurrency c).
Definition set_WriteConcurrency c v := set_numbers c (cfg_CacheBytes c) (cfg_TTL c) (cfg_SourceConcurrency c) (cfg_SourceMaxPending c) (cfg_MaxMissWaiters c) v.

(** [if err != nil { return c, err }] between two steps. *)
Definition and_then (r : Config * option error) (k : Config -> Config * option error) : Config * option error :=
  match r with
  | (c, Some e) => (c, Some e)
  | (c, None) => k c
  end.
Declare Scope config_scope.
Delimit Scope config_scope with config.
Notation "r '|>' k" := (and_then r k) (at level 60, right associativity, only parsing) : config_scope.

Definition fails (message : string) : option error := Some (NewError message).

(** ** Validation *)

(** The error of [SplitHostPort] itself is dropped by every caller. *)
Definition validateListenAddr (address : string) : option error :=
  match SplitHostPort address with
  | None => fails "address"
  | Some (_, port) =>
      match ParseInt port with
      | Some n => if (n <? 0) || (65535 <? n) then fails "invalid listener port" else None
      | None => fails "invalid listener port"
      end
  end.

Definition validateDebugAddr (address : string) : option error :=
  if String.eqb address "" then None
  else
    let bad := fails "DEBUG_ADDR requires a literal loopback IP and port" in
    match SplitHostPort address with
    | None => bad
    | Some (host, port) =>
        match ParseInt port, ParseIP host with
        | Some number, Some ip =>
            if (number <? 0) || (65535 <? number) || negb (IsLoopback ip) then bad else None
        | _, _ => bad
        end
    end.

Section Config.
(** The library parameters: the reading of bracketed hosts ([net/url]) and the
    lower-casing of strings with a non-ASCII byte ([strings.ToLower] goes
    through the Unicode tables only for those). *)
Variable parseIPLiteral : string -> option string.
Variable unicodeLower : string -> string.

Definition ToLower (s : string) : string :=
  if all_bytes (fun c => byteval c <? 128) s then lower_ascii s else unicodeLower s.

(** The address, or the error. *)
Definition staticAddress (raw : string) : string + error :=
  let bad := inr (NewError "invalid static member address") in
  match url_Parse parseIPLiteral raw with
  | None => bad
  | Some u =>
      if negb (String.eqb (u_Scheme u) "http") || String.eqb (u_Host u) "" || u_User u ||
         negb (String.eqb (u_RawQuery u) "") || negb (String.eqb (u_Fragment u) "") ||
         (negb (String.eqb (u_Path u) "") && negb (String.eqb (u_Path u) "/")) then bad
      else match SplitHostPort (u_Host u) with
      | None => bad
      | Some (host, port) =>
          match ParseInt port with
          | None => bad
          | Some number =>
              if String.eqb host "" || (number <? 1) || (65535 <? number) then bad
              else inl (JoinHostPort (ToLower host) (FormatInt number))
          end
      end
  end.

(** The loop over [c.Members]. *)
Fixpoint validateMembers (ms : list Member) : option error :=
  match ms with
  | [] => None
  | m :: ms' =>
      if String.eqb (ID m) "" || contains_byte "/" (Address m) || contains_byte "?" (Address m) ||
         contains_byte "#" (Address m) then fails "invalid member"
      else match staticAddress ("http://" +:+ Address m) with
           | inr _ => fails "invalid member address"
           | inl _ => validateMembers ms'
           end
  end.

Definition validateDiscovery (c : Config) : option error :=
  if String.eqb (cfg_DiscoveryMode c) "static" then None
  else if String.eqb (cfg_DiscoveryMode c) "kubernetes" then
    let bad := fails "Kubernetes discovery requires namespace/pod SelfID, POD_NAMESPACE and CLUSTER_SERVICE" in
    match cut "/" (cfg_SelfID c) with
    | None => bad
    | Some (namespace, pod) =>
        if String.eqb (cfg_Namespace c) "" || String.eqb (cfg_ClusterService c) "" ||
           negb (String.eqb namespace (cfg_Namespace c)) || String.eqb pod "" || contains_byte "/" pod
        then bad else None
    end
  else fails "unsupported DISCOVERY_MODE".

Definition MiB : Z := 1048576.

Definition Validate (c : Config) : option error :=
  if negb (bool_decide (validateListenAddr (cfg_ClusterAddr c) = None)) then fails "invalid ClusterAddr"
  else if (cfg_API c || negb (String.eqb (cfg_APIAddr c) "")) &&
          negb (bool_decide (validateListenAddr (cfg_APIAddr c) = None)) then fails "invalid API_ADDR"
  else if String.eqb (cfg_SelfID c) "" then fails "SelfID is required"
  else match validateDebugAddr (cfg_DebugAddr c) with
  | Some e => Some e
  | None =>
      if cfg_ProfileContention c && String.eqb (cfg_DebugAddr c) "" then fails "contention profiling requires DEBUG_ADDR"
      else if (cfg_CacheBytes c <? MiB) || (128 * MiB <? cfg_CacheBytes c) then fails "invalid CACHE_BYTES"
      else if (cfg_TTL c <? 0) || (Hour <? cfg_TTL c) then fails "invalid TTL_SECONDS"
      else if (cfg_SourceConcurrency c <? 1) || (1024 <? cfg_SourceConcurrency c) then fails "invalid SOURCE_MAX_CONCURRENCY"
      else if (cfg_SourceMaxPending c <? 0) || (4096 <? cfg_SourceMaxPending c) then fails "invalid SOURCE_MAX_PENDING"
      else if (cfg_MaxMissWaiters c <? 0) || (4096 <? cfg_MaxMissWaiters c) then fails "invalid MAX_MISS_WAITERS"
      else if (cfg_WriteConcurrency c <? 0) || (256 <? cfg_WriteConcurrency c) then fails "invalid WRITE_MAX_CONCURRENCY"
      else match validateDiscovery c with
      | Some e => Some e
      | None => validateMembers (cfg_Members c)
      end
  end.

Definition validateSourceConfig (c : Config) : option error :=
  let mode := cfg_SourceMode c in
  if negb (String.eqb mode "") && negb (String.eqb mode "demo") && negb (String.eqb mode "postgres")
  then fails "unsupported SOURCE_MODE"
  else if String.eqb mode "postgres" && (String.eqb (cfg_DatabaseURL c) "" || String.eqb (cfg_AdminToken c) "")
  then fails "postgres mode requires DATABASE_URL and CACHE_ADMIN_TOKEN"
  else None.

(** ** [FromEnv] *)
Variable Getenv : string -> string.

Definition removedVariables : list string := ["READ_ROUTING_MODE"; "HOT_CACHE_BYTES"; "PEERS"; "PEER_SERVICE"].

Definition removedVariable : option error :=
  match list_find (fun old => Getenv old <> "") removedVariables with
  | Some (_, old) => fails (old +:+ " was removed; use Gateway routing and MEMBERS/CLUSTER_SERVICE for invalidation discovery")
  | None => None
  end.

(** An integer setting: unset keeps the default; [zeroDefault] refuses an
    explicit zero. *)
Definition intSetting (name : string) (zeroDefault : bool) (set : Config -> Z -> Config) (c : Config) : Config * option error :=
  let raw := Getenv name in
  if String.eqb raw "" then (c, None)
  else match ParseInt raw with
       | Some n => if (n =? 0) && zeroDefault then (c, fails ("invalid " +:+ name)) else (set c n, None)
       | None => (c, fails ("invalid " +:+ name))
       end.

(** [time.ParseDuration(raw + "s")] when [raw] is the integer [n]: the
    conversion to nanoseconds must not overflow. *)
Definition secondsDuration (n : Z) : option Duration :=
  if Z.abs n <=? maxInt64 / Second then Some (n * Second) else None.

Definition ttlSetting (c : Config) : Config * option error :=
  let raw := Getenv "TTL_SECONDS" in
  if String.eqb raw "" then (c, None)
  else match ParseInt raw with
       | None => (c, fails "invalid TTL_SECONDS")
       | Some n =>
           match secondsDuration n with
           | None => (c, fails "invalid TTL_SECONDS")
           | Some d => if d =? 0 then (c, fails "invalid TTL_SECONDS") else (set_TTL c d, None)
           end
       end.

(** The loop over the comma-separated members. *)
Fixpoint appendMembers (raws : list string) (c : Config) : Config * option error :=
  match raws with
  | [] => (c, None)
  | raw :: raws' =>
      match staticAddress (TrimSpace raw) with
      | inr e => (c, Some e)
      | inl address => appendMembers raws' (set_identity c (cfg_SelfID c) (cfg_Members c ++ [mkMember address address]))
      end
  end.

(** The switch on the discovery mode. *)
Definition bindIdentity (port : Z) (c : Config) : Config * option error :=
  if String.eqb (cfg_DiscoveryMode c) "kubernetes" then
    let pod := Getenv "POD_NAME" in
    if String.eqb pod "" then
      (c, fails "Kubernetes discovery requires POD_NAME, POD_NAMESPACE and CLUSTER_SERVICE")
    else (set_identity c (cfg_Namespace c +:+ "/" +:+ pod) (cfg_Members c), None)
  else if String.eqb (cfg_DiscoveryMode c) "static" then
    let self := Getenv "SELF_ADDR" in
    let self := if String.eqb self "" then "http://localhost:" +:+ FormatInt port else self in
    match staticAddress self with
    | inr e => (c, Some e)
    | inl address =>
        let members := Getenv "MEMBERS" in
        let members := if String.eqb members "" then self else members in
        appendMembers (split_byte "," members) (set_identity c address (cfg_Members c))
    end
  else (c, None).

Definition orElse (v d : string) : string := if String.eqb v "" then d else v.

Open Scope config_scope.

Definition FromEnv (port : Z) (api : bool) : Config * option error :=
  match removedVariable with
  | Some e => (zeroConfig, Some e)
  | None =>
      let c := mkConfiguration ("0.0.0.0:" +:+ FormatInt port) "0.0.0.0:9999" "" (Getenv "DISCOVERY_MODE")
                 (Getenv "POD_NAMESPACE") (Getenv "CLUSTER_SERVICE") api (64 * MiB) Minute 32 DefaultSourcePending
                 DefaultMissWaiters DefaultWriteConcurrency [] (Getenv "DEBUG_ADDR") false (Getenv "SOURCE_MODE")
                 (Getenv "DATABASE_URL") (Getenv "CACHE_ADMIN_TOKEN") in
      if (port <? 1) || (65535 <? port) then (c, fails "invalid notification port")
      else
        let c := set_modes c (orElse (cfg_DiscoveryMode c) "static") (orElse (cfg_SourceMode c) "demo")
                   (orElse (Getenv "API_ADDR") (cfg_APIAddr c)) in
        intSetting "CACHE_BYTES" false set_CacheBytes c |> fun c =>
        ttlSetting c |> fun c =>
        intSetting "SOURCE_MAX_CONCURRENCY" false set_SourceConcurrency c |> fun c =>
        intSetting "SOURCE_MAX_PENDING" false set_SourceMaxPending c |> fun c =>
        intSetting "MAX_MISS_WAITERS" true set_MaxMissWaiters c |> fun c =>
        intSetting "WRITE_MAX_CONCURRENCY" true set_WriteConcurrency c |> fun c =>
        bindIdentity port c |> fun c =>
        match Validate c with
        | Some e => (c, Some e)
        | None => (c, validateSourceConfig c)
        end
  end.

Close Scope config_scope.

End Config.

(** ** What a validated configuration allows *)
Section Validated.
Variable parseIPLiteral : string -> option string.
Variable unicodeLower : string -> string.
Notation Validate := (Validate parseIPLiteral unicodeLower).
Notation validateMembers := (validateMembers parseIPLiteral unicodeLower).
Notation staticAddress := (staticAddress parseIPLiteral unicodeLower).

(** The bounds [Validate] establishes. *)
Record bounded (c : Config) : Prop := {
  b_self : cfg_SelfID c <> "";
  b_bytes : MiB <= cfg_CacheBytes c <= 128 * MiB;
  b_ttl : 0 <= cfg_TTL c <= Hour;
  b_concurrency : 1 <= cfg_SourceConcurrency c <= 1024;
  b_pending : 0 <= cfg_SourceMaxPending c <= 4096;
  b_waiters : 0 <= cfg_MaxMissWaiters c <= 4096;
  b_writes : 0 <= cfg_WriteConcurrency c <= 256;
  b_mode : cfg_DiscoveryMode c = "static" \/ cfg_DiscoveryMode c = "kubernetes";
  b_members : validateMembers (cfg_Members c) = None;
}.

Lemma Validate_bounded c : Validate c = None -> bounded c.
Proof.
  unfold Config.Validate. intros H.
  repeat match type of H with
  | (if ?b then _ else _) = None => destruct b eqn:?; [done|]
  | match ?x with Some _ => _ | None => _ end = None => destruct x eqn:?; [done|]
  end.
  assert (cfg_DiscoveryMode c = "static" \/ cfg_DiscoveryMode c = "kubernetes").
  { unfold validateDiscovery in *. repeat case_match; try done; rewrite ?String.eqb_eq in *; auto. }
  reflect_bool. split; auto; try lia. by apply String.eqb_neq.
Qed.

Lemma validateMembers_elem ms m :
  validateMembers ms = None -> m ∈ ms ->
  ID m <> "" /\ contains_byte "/" (Address m) = false /\ contains_byte "?" (Address m) = false /\
  contains_byte "#" (Address m) = false /\ exists a, staticAddress ("http://" +:+ Address m) = inl a.
Proof.
  induction ms as [|m' ms IH]; intros H Hm; [by apply elem_of_nil in Hm|]. cbn [Config.validateMembers] in H.
  destruct (_ || _ || _ || _) eqn:E; [done|].
  destruct (staticAddress ("http://" +:+ Address m')) as [a|] eqn:Ea; [|done].
  apply elem_of_cons in Hm as [->|Hm]; [|auto]. reflect_bool. split_and!; eauto. by apply String.eqb_neq.
Qed.

(** Parsing a member's address as a URL. *)
Lemma url_Parse_member a :
  contains_byte "/" a = false -> contains_byte "?" a = false -> contains_byte "#" a = false ->
  forall u, url_Parse parseIPLiteral ("http://" +:+ a) = Some u ->
  parseAuthority parseIPLiteral a = Some (u_User u, u_Host u).
Proof.
  intros H1 H2 H3 u. unfold url_Parse.
  rewrite (cut_none "#" ("http://" +:+ a)) by (rewrite contains_byte_app, H3; done).
  rewrite String.eqb_refl. intros (v & Hv & [= <-])%bind_Some. revert Hv. unfold url_parse.
  destruct (negb _); [done|]. change (String.eqb ("http://" +:+ a) "*") with false. cbv iota.
  change (getScheme 0 ("http://" +:+ a)) with (Scheme "http" ("//" +:+ a)).
  cbn [mbind option_bind]. change (lower_ascii "http") with "http".
  rewrite (cut_none "?" ("//" +:+ a)) by (rewrite contains_byte_app, H2; done).
  assert (HasPrefix ("//" +:+ a) "/" = true) as -> by (unfold HasPrefix; by destruct a).
  assert (HasPrefix ("//" +:+ a) "//" = true) as -> by apply prefix_app.
  change (String.eqb "http" "") with false. cbn [negb andb orb].
  assert (slice_from 2 ("//" +:+ a) = a) as -> by apply (slice_from_app "//" a).
  rewrite (IndexByte_none "/" a H1).
  intros ([[user host] path] & Hh & (p & Hp & [= <-])%bind_Some)%bind_Some.
  by apply bind_Some in Hh as ([u0 h0] & Hh & [= <- <- <-]).
Qed.

Lemma parseAuthority_host a h :
  parseAuthority parseIPLiteral a = Some (false, h) -> parseHost parseIPLiteral a = Some h.
Proof.
  unfold parseAuthority. destruct (LastIndexByte a "@") as [i|].
  - intros (h' & _ & H)%bind_Some. case_match; [done|]. destruct (match _ with Some np => np | None => _ end).
    apply bind_Some in H as (? & _ & (? & _ & [=])%bind_Some).
  - by intros (h' & H & [= <-])%bind_Some.
Qed.

Definition port_ok (port : string) : Prop := exists n, ParseInt port = Some n /\ 1 <= n <= 65535.

Lemma staticAddress_inv raw a :
  staticAddress raw = inl a -> exists u host port, url_Parse parseIPLiteral raw = Some u /\ u_User u = false /\
    SplitHostPort (u_Host u) = Some (host, port) /\ host <> "" /\ port_ok port.
Proof.
  unfold Config.staticAddress. destruct (url_Parse _ _) as [u|]; [|done].
  destruct (_ || _) eqn:E; [done|]. destruct (SplitHostPort _) as [[host port]|] eqn:Es; [|done].
  destruct (ParseInt port) as [n|] eqn:Ep; [|done]. destruct (String.eqb host "" || _ || _) eqn:E2; [done|]. intros _.
  reflect_bool. rewrite ?String.eqb_neq in *. exists u, host, port. split_and!; auto. exists n. split; [done|lia].
Qed.

(** An address that [Validate] accepts is one the directory accepts. *)
Lemma static_validAddress a r :
  contains_byte "/" a = false -> contains_byte "?" a = false -> contains_byte "#" a = false ->
  contains_byte "[" a = false -> staticAddress ("http://" +:+ a) = inl r -> validAddress a = true.
Proof.
  intros H1 H2 H3 H4 (u & host & port & Hu & Hn & Hs & Hh & n & Hp & Hr)%staticAddress_inv.
  apply (url_Parse_member a H1 H2 H3) in Hu. rewrite Hn in Hu. apply parseAuthority_host in Hu.
  unfold parseHost in Hu. rewrite H4 in Hu. unfold validAddress. rewrite H1, H2, H3. cbn [orb].
  destruct (LastIndexByte a ":") as [i|] eqn:Ei.
  - apply LastIndexByte_split in Ei as (p & q & -> & -> & Hq).
    rewrite slice_from_app in Hu. cbn [validOptionalPort] in Hu. rewrite Ascii.eqb_refl in Hu. cbn [andb] in Hu.
    destruct (all_bytes is_digit q) eqn:Ed; [|done].
    rewrite unescape_host_colon, (unescape_host_digits q Ed) in Hu.
    apply bind_Some in Hu as (p' & Hp' & [= Hu]). rewrite <- Hu in Hs.
    assert (forall c, byteval c < 128 -> c <> "%"%char -> unhex c = None -> contains_byte c p' = contains_byte c p) as Hkeep
      by (intros c ? ? ?; by apply (unescape_host_contains c p p')).
    apply SplitHostPort_inv in Hs as (E & Hh' & Hp2).
    2:{ rewrite contains_byte_app in H4 |- *. by rewrite (Hkeep "["%char). }
    assert (contains_byte ":" port = false) as Hport by (unfold plain_host in Hp2; reflect_bool; done).
    destruct (split_last_unique ":" p' q host port Hq Hport E) as [-> ->].
    assert (plain_host p = true) as Hpl by (unfold plain_host in *; by rewrite <- !Hkeep).
    rewrite (SplitHostPort_plain p port Hpl Hp2), Hp.
    rewrite bool_decide_eq_false_2 by (intros ->; by simplify_eq/=).
    rewrite (proj2 (Z.ltb_lt 0 n)), (proj2 (Z.leb_le n 65535)) by lia. done.
  - exfalso. apply LastIndexByte_none in Ei.
    rewrite <- (unescape_host_contains ":" a (u_Host u)) in Ei by done.
    apply LastIndexByte_none in Ei. unfold SplitHostPort in Hs. by rewrite Ei in Hs.
Qed.

Lemma validated_members c :
  bounded c -> (forall m, m ∈ cfg_Members c -> contains_byte "[" (Address m) = false) ->
  forall m, m ∈ cfg_Members c -> valid_member m = true.
Proof.
  intros Hb Hbr m Hm.
  destruct (validateMembers_elem _ m (b_members c Hb) Hm) as (Hid & H1 & H2 & H3 & a & Ha).
  unfold valid_member. rewrite bool_decide_eq_false_2 by done. by apply (static_validAddress (Address m) a); auto.
Qed.
End Validated.

(** ** What [FromEnv] yields *)
Section FromEnvFacts.
Variable parseIPLiteral : string -> option string.
Variable unicodeLower : string -> string.
Notation FromEnv := (FromEnv parseIPLiteral unicodeLower).
Notation Validate := (Validate parseIPLiteral unicodeLower).

Lemma and_then_ok r k c : and_then r k = (c, None) -> exists c1, r = (c1, None) /\ k c1 = (c, None).
Proof. destruct r as [c1 [e|]]; [done|]. eauto. Qed.

(** An explicit zero of a setting that treats zero as "default" is refused. *)
Lemma intSetting_ok Getenv name z set c c' :
  intSetting Getenv name z set c = (c', None) ->
  c' = c \/ exists n, ParseInt (Getenv name) = Some n /\ (z = true -> n <> 0) /\ c' = set c n.
Proof.
  unfold intSetting. destruct (String.eqb (Getenv name) ""); [by intros [= ->]; left|].
  destruct (ParseInt (Getenv name)) as [n|]; [|done].
  destruct (n =? 0) eqn:E, z; simpl; try done; intros [= <-]; right; exists n; reflect_bool; naive_solver.
Qed.

Lemma ttlSetting_ok Getenv c c' :
  ttlSetting Getenv c = (c', None) -> c' = c \/ exists n, n <> 0 /\ c' = set_TTL c (n * Second).
Proof.
  unfold ttlSetting. destruct (String.eqb _ ""); [by intros [= ->]; left|].
  destruct (ParseInt _) as [n|]; [|done]. unfold secondsDuration. destruct (_ <=? _); [|done].
  destruct (n * Second =? 0) eqn:E; [done|]. intros [= <-]. right. exists n. reflect_bool. split; [lia|done].
Qed.

(** The fields a step leaves alone. *)
Definition same_budgets (c c' : Config) : Prop :=
  cfg_TTL c' = cfg_TTL c /\ cfg_MaxMissWaiters c' = cfg_MaxMissWaiters c /\ cfg_WriteConcurrency c' = cfg_WriteConcurrency c.

Lemma appendMembers_budgets raws c : same_budgets c (appendMembers parseIPLiteral unicodeLower raws c).1.
Proof.
  revert c. induction raws as [|r raws IH]; intros c; simpl; [done|]. case_match; [|done].
  by destruct (IH (set_identity c (cfg_SelfID c) (cfg_Members c ++ [mkMember s s]))) as (? & ? & ?).
Qed.

Lemma bindIdentity_budgets Getenv port c :
  same_budgets c (bindIdentity parseIPLiteral unicodeLower Getenv port c).1.
Proof.
  unfold bindIdentity. case_match; [by case_match|]. case_match; [|done]. case_match; [|done].
  match goal with |- same_budgets _ (appendMembers _ _ ?r ?d).1 => exact (appendMembers_budgets r d) end.
Qed.

(** Budgets for which zero would mean "default" and is refused here. *)
Definition explicit (c : Config) : Prop := cfg_TTL c <> 0 /\ cfg_MaxMissWaiters c <> 0 /\ cfg_WriteConcurrency c <> 0.

Lemma intSetting_explicit Getenv name z set c c' :
  (forall n, (z = true -> n <> 0) -> explicit c -> explicit (set c n)) ->
  intSetting Getenv name z set c = (c', None) -> explicit c -> explicit c'.
Proof. intros Hset [->|(n & _ & Hz & ->)]%intSetting_ok; auto. Qed.

Lemma ttlSetting_explicit Getenv c c' : ttlSetting Getenv c = (c', None) -> explicit c -> explicit c'.
Proof.
  intros [->|(n & Hn & ->)]%ttlSetting_ok; [done|]. intros (_ & ? & ?).
  split; [simpl; unfold Second; lia|done].
Qed.

(** C39: what [FromEnv] accepts is a validated configuration with usable budgets:
    every bound of [Validate] and the source settings hold, no removed variable
    is set, and the lifetime, the waiter and the write budgets are positive, so
    an explicit zero is refused although the zero value means "default"
    elsewhere. *)
Theorem FromEnv_sound Getenv port api c :
  FromEnv Getenv port api = (c, None) ->
  Validate c = None /\ validateSourceConfig c = None /\ 1 <= port <= 65535 /\
  (forall old, old ∈ removedVariables -> Getenv old = "") /\
  0 < cfg_TTL c <= Hour /\ 0 < cfg_MaxMissWaiters c <= 4096 /\ 0 < cfg_WriteConcurrency c <= 256.
Proof.
  unfold Config.FromEnv. destruct (removedVariable Getenv) as [e|] eqn:Er; [done|].
  destruct ((port <? 1) || _) eqn:Ep; [done|]. reflect_bool. set (c0 := set_modes _ _ _ _).
  intros (c1 & H1 & (c2 & H2 & (c3 & H3 & (c4 & H4 & (c5 & H5 & (c6 & H6 & (c7 & H7 & Hend)%and_then_ok)%and_then_ok)%and_then_ok)%and_then_ok)%and_then_ok)%and_then_ok)%and_then_ok.
  destruct (Config.Validate _ _ c7) as [e|] eqn:Ev; [done|]. simplify_eq. pose proof (Validate_bounded _ _ c Ev) as Hb.
  assert (forall old, old ∈ removedVariables -> Getenv old = "") as Hold.
  { unfold removedVariable in Er. destruct (list_find _ _) as [[i old]|] eqn:El; [done|].
    apply list_find_None in El. rewrite Forall_forall in El. intros old Ho. apply dec_stable, (El old Ho). }
  pose proof (bindIdentity_budgets Getenv port c6) as Hbi. rewrite H7 in Hbi. destruct Hbi as (B1 & B2 & B3). simpl in *.
  assert (explicit c6) as (E1 & E2 & E3).
  { apply intSetting_explicit in H6; [done|unfold explicit; simpl; naive_solver|].
    apply intSetting_explicit in H5; [done|unfold explicit; simpl; naive_solver|].
    apply intSetting_explicit in H4; [done|unfold explicit; simpl; naive_solver|].
    apply intSetting_explicit in H3; [done|unfold explicit; simpl; naive_solver|].
    apply ttlSetting_explicit in H2; [done|].
    by apply intSetting_explicit in H1; [|unfold explicit; simpl; naive_solver|]. }
  destruct Hb. rewrite B1, B2, B3 in *. split_and!; auto; lia.
Qed.
(** A setting that is present and parses. *)
Lemma intSetting_set Getenv name z set c n :
  Getenv name = FormatInt n -> - two63 <= n < two63 -> (z = true -> n <> 0) ->
  intSetting Getenv name z set c = (set c n, None).
Proof.
  intros Hg Hn Hz. unfold intSetting. rewrite Hg, ParseInt_FormatInt by done.
  rewrite (proj2 (String.eqb_neq _ "") (FormatInt_nonempty n)).
  destruct (n =? 0) eqn:E; reflect_bool; [|done]. destruct z; [|done]. by destruct Hz.
Qed.

Lemma intSetting_unset Getenv name z set c : Getenv name = "" -> intSetting Getenv name z set c = (c, None).
Proof. intros Hg. unfold intSetting. by rewrite Hg. Qed.

Lemma ttlSetting_set Getenv c n :
  Getenv "TTL_SECONDS" = FormatInt n -> 1 <= n <= 3600 -> ttlSetting Getenv c = (set_TTL c (n * Second), None).
Proof.
  intros Hg Hn. unfold ttlSetting. rewrite Hg, ParseInt_FormatInt by (unfold two63; lia).
  rewrite (proj2 (String.eqb_neq _ "") (FormatInt_nonempty n)). unfold secondsDuration.
  change (maxInt64 / Second) with 9223372036. rewrite (proj2 (Z.leb_le _ _)) by lia.
  rewrite (proj2 (Z.eqb_neq _ 0)) by (unfold Second; lia). done.
Qed.

(** The configuration of a node in Kubernetes mode from settings within the
    operator's bounds. *)
Definition kubernetesConfig (port : Z) (api : bool) (ns pod svc : string) (bytes ttl pending waiters writes : Z)
    (mode db token : string) : Config :=
  mkConfiguration ("0.0.0.0:" +:+ FormatInt port) "0.0.0.0:9999" (ns +:+ "/" +:+ pod) "kubernetes" ns svc api
    bytes (ttl * Second) 32 pending waiters writes [] "" false mode db token.

Lemma FromEnv_kubernetes Getenv port api ns pod svc bytes ttl pending waiters writes :
  (forall old, old ∈ removedVariables -> Getenv old = "") -> port = 8001 ->
  Getenv "DISCOVERY_MODE" = "kubernetes" -> Getenv "POD_NAMESPACE" = ns -> Getenv "POD_NAME" = pod ->
  Getenv "CLUSTER_SERVICE" = svc -> Getenv "DEBUG_ADDR" = "" -> Getenv "API_ADDR" = "" ->
  Getenv "SOURCE_MAX_CONCURRENCY" = "" ->
  Getenv "CACHE_BYTES" = FormatInt bytes -> Getenv "TTL_SECONDS" = FormatInt ttl ->
  Getenv "SOURCE_MAX_PENDING" = FormatInt pending -> Getenv "MAX_MISS_WAITERS" = FormatInt waiters ->
  Getenv "WRITE_MAX_CONCURRENCY" = FormatInt writes ->
  MiB <= bytes <= 128 * MiB -> 1 <= ttl <= 3600 -> 0 <= pending <= 4096 -> 1 <= waiters <= 4096 -> 1 <= writes <= 256 ->
  ns <> "" -> contains_byte "/" ns = false -> pod <> "" -> contains_byte "/" pod = false -> svc <> "" ->
  FromEnv Getenv port api =
    (let c := kubernetesConfig port api ns pod svc bytes ttl pending waiters writes (orElse (Getenv "SOURCE_MODE") "demo")
                (Getenv "DATABASE_URL") (Getenv "CACHE_ADMIN_TOKEN") in (c, validateSourceConfig c)).
Proof.
  intros Hold -> Hmode Hns Hpod Hsvc Hdbg Hapi Hconc Hb Ht Hp Hw Hwr Rb Rt Rp Rw Rwr N1 N2 N3 N4 N5.
  unfold Config.FromEnv. assert (removedVariable Getenv = None) as ->.
  { unfold removedVariable. destruct (list_find _ _) as [[i old]|] eqn:El; [|done].
    apply list_find_Some in El as (Hi & Hne & _). apply list_elem_of_lookup_2 in Hi. by destruct (Hne (Hold old Hi)). }
  rewrite Hmode, Hns, Hsvc, Hdbg, Hapi. change ((8001 <? 1) || (65535 <? 8001)) with false. cbv iota.
  unfold MiB in *. rewrite (intSetting_set _ _ _ _ _ bytes Hb) by (unfold two63; lia || done). cbn [and_then].
  rewrite (ttlSetting_set _ _ ttl Ht Rt). cbn [and_then]. rewrite (intSetting_unset _ _ _ _ _ Hconc). cbn [and_then].
  rewrite (intSetting_set _ _ _ _ _ pending Hp) by (unfold two63; lia || done). cbn [and_then].
  rewrite (intSetting_set _ _ _ _ _ waiters Hw) by (unfold two63; lia). cbn [and_then].
  rewrite (intSetting_set _ _ _ _ _ writes Hwr) by (unfold two63; lia). cbn [and_then].
  unfold bindIdentity. cbn [cfg_DiscoveryMode set_WriteConcurrency set_MaxMissWaiters set_SourceMaxPending set_TTL set_CacheBytes set_numbers set_modes].
  change (String.eqb (orElse "kubernetes" "static") "kubernetes") with true. cbv iota. rewrite Hpod.
  rewrite (proj2 (String.eqb_neq pod "") N3). cbn [and_then].
  set (c := set_identity _ _ _).
  assert (c = kubernetesConfig 8001 api ns pod svc bytes ttl pending waiters writes (orElse (Getenv "SOURCE_MODE") "demo")
    (Getenv "DATABASE_URL") (Getenv "CACHE_ADMIN_TOKEN")) as -> by reflexivity.
  assert (Validate (kubernetesConfig 8001 api ns pod svc bytes ttl pending waiters writes (orElse (Getenv "SOURCE_MODE") "demo")
    (Getenv "DATABASE_URL") (Getenv "CACHE_ADMIN_TOKEN")) = None) as ->; [|done].
  unfold Config.Validate, kubernetesConfig.
  cbn [cfg_ClusterAddr cfg_APIAddr cfg_SelfID cfg_DebugAddr cfg_ProfileContention cfg_CacheBytes cfg_TTL cfg_API
       cfg_SourceConcurrency cfg_SourceMaxPending cfg_MaxMissWaiters cfg_WriteConcurrency cfg_Members].
  change (validateListenAddr ("0.0.0.0:" +:+ FormatInt 8001)) with (@None error).
  change (validateListenAddr "0.0.0.0:9999") with (@None error).
  rewrite (bool_decide_eq_true_2 (@None error = None)) by done. cbn [negb]. rewrite andb_false_r.
  assert (String.eqb (ns +:+ "/" +:+ pod) "" = false) as -> by (destruct ns; done).
  change (validateDebugAddr "") with (@None error). cbn [andb].
  unfold MiB, Hour, Minute, Second.
  rewrite !(proj2 (Z.ltb_ge _ _)) by lia. cbn [orb].
  unfold validateDiscovery. cbn [cfg_DiscoveryMode cfg_SelfID cfg_Namespace cfg_ClusterService].
  change (String.eqb "kubernetes" "static") with false. change (String.eqb "kubernetes" "kubernetes") with true. cbv iota.
  change (ns +:+ "/" +:+ pod) with (ns +:+ String "/" pod). rewrite (cut_app "/" ns pod N2).
  rewrite (proj2 (String.eqb_neq ns "") N1), (proj2 (String.eqb_neq svc "") N5), String.eqb_refl,
    (proj2 (String.eqb_neq pod "") N3), N4. done.
Qed.
End FromEnvFacts.

Definition default_env : string -> string := fun _ => "".

Lemma FromEnv_sound_witness :
  exists c, FromEnv (fun _ => None) (fun s => s) default_env 8001 true = (c, None) /\
    cfg_Members c = [mkMember "localhost:8001" "localhost:8001"] /\
    Validate (fun _ => None) (fun s => s) c = None /\ 0 < cfg_TTL c <= Hour.
Proof.
  eexists. split; [vm_compute; reflexivity|]. split; [reflexivity|].
  edestruct (FromEnv_sound (fun _ => None) (fun s => s) default_env 8001 true) as (H1 & _ & _ & _ & H2 & _);
    [vm_compute; reflexivity|]. split; [exact H1|exact H2].
Defined.
