(* ===== verification/Bootstrap.v ===== *)
(** * Assembling and running a node ([internal/app/bootstrap.go])

    [buildNode] is [RunWithSource] up to the point where the ports are bound:
    every constructor it calls, in order, with the errors it returns; [None] is
    a panic of one of them. [bindServers] and [serve] are the server lifecycle.
    The Kubernetes client is a library: all that is used of its construction
    is whether it fails. *)
From S2P Require Import Prelude GoStrings NetAddr Errors LRU CacheStore Bloom Admission Group Read Directory Protocol Postgres Api Config.

Definition invalidationRequestTimeout : Duration := Second.

(** What [RunWithSource] learns about its source: the reading interface, whether
    it is a [MutableSource], and the keys of a source that lists them. *)
Record Source := mkSource {
  src_getter : Getter;
  src_mutable : bool;
  src_keys : option (list string);
}.

Record Node := mkNode {
  n_router : Directory;
  n_group : Group cache;
  n_handler : Handler cache;
  n_writeSlots : option chan;            (* of the API handler, when there is one *)
  n_watched : bool;                      (* discovery runs a watcher *)
}.

Section Bootstrap.
Variable parseIPLiteral : string -> option string.
Variable unicodeLower : string -> string.
Variables (optimalBits : Z -> Z) (optimalHashes : Z -> Z -> Z).

(** A mutable source must not use a startup-only key set. *)
Definition knownKeys (source : Source) : option (list string) :=
  if src_mutable source then None else src_keys source.

Definition groupName (c : Config) : string :=
  if String.eqb (cfg_SourceMode c) "postgres" then "products" else "scores".

Definition groupOptions (c : Config) (source : Source) (limiter : SourceLimiter) : Options :=
  mkOptions (cfg_TTL c) (knownKeys source) 0 (Some limiter) (Some (Derived 0)) true 0 (cfg_MaxMissWaiters c) 0 0.

(** Whether a watcher is created. [kubeErr]: what building the Kubernetes
    client and the watcher returns. *)
Definition buildWatcher (c : Config) (kubeErr : option error) : bool + error :=
  if String.eqb (cfg_DiscoveryMode c) "kubernetes" then
    match kubeErr with Some e => inr e | None => inl true end
  else if negb (String.eqb (cfg_DiscoveryMode c) "static") then inr (NewError "unsupported discovery mode")
  else inl false.

(** The member handler and, when configured, the API handler with its write
    slots. *)
Definition buildServers (c : Config) (router : Directory) (group : Group cache) (watched : bool) : option Node :=
  handler ← NewHandlerWithToken (cfg_AdminToken c) [group];
  slots ← (if cfg_API c then s ← newWriteSlots (cfg_WriteConcurrency c); Some (Some s) else Some None);
  Some (mkNode router group handler slots watched).

Definition buildNode (c : Config) (source : option Source) (kubeErr : option error) : option (Node + error) :=
  match Validate parseIPLiteral unicodeLower c with
  | Some e => Some (inr e)
  | None =>
      match source with
      | None => Some (inr (NewError "source is required"))
      | Some source =>
          router ← NewDirectory (cfg_SelfID c) invalidationRequestTimeout (cfg_AdminToken c);
          match Update router (cfg_Members c) with
          | (_, Some e) => Some (inr e)
          | (router, None) =>
              limiter ← NewSourceLimiterWithQueue (cfg_SourceConcurrency c) (cfg_SourceMaxPending c);
              group ← NewGroup fresh_area optimalBits optimalHashes (groupName c) (cfg_CacheBytes c)
                        (Some (src_getter source)) (groupOptions c source limiter);
              match buildWatcher c kubeErr with
              | inr e => Some (inr e)
              | inl watched =>
                  n ← buildServers c router group watched; Some (inl n)
              end
          end
      end
  end.

End Bootstrap.

(** ** Listeners

    [listen] is [net.Listen] on each address in turn; the result is the
    listeners returned, those closed again, and the error. *)
Fixpoint bindServers {L : Type} (addrs : list string) (listen : nat -> string -> L + error) (opened : list L)
    : list L * list L * option error :=
  match addrs with
  | [] => (opened, [], None)
  | a :: addrs' =>
      match listen (length opened) a with
      | inr e => ([], opened, Some e)
      | inl l => bindServers addrs' listen (opened ++ [l])
      end
  end.

(** ** [serve] *)
Inductive serveAction := SetServing (b : bool) | Shutdown (i : nat) | CloseServer (i : nat).

(** What ends the wait: the signal context, or a server that stopped with an
    error ([closed]: it is [http.ErrServerClosed]). *)
Inductive serveEnd := Signalled | Stopped (closed : bool) (e : error).

Fixpoint shutdownAll (i n : nat) (shutdown : nat -> option error) (result : option error)
    : list serveAction * option error :=
  match n with
  | O => ([], result)
  | S n' =>
      match shutdown i with
      | None => let '(acts, r) := shutdownAll (S i) n' shutdown result in (Shutdown i :: acts, r)
      | Some e =>
          let result := match result with None => Some e | r => r end in
          let '(acts, r) := shutdownAll (S i) n' shutdown result in (Shutdown i :: CloseServer i :: acts, r)
      end
  end.

Definition serve (servers : nat) (fin : serveEnd) (shutdown : nat -> option error) : list serveAction * option error :=
  let result := match fin with Stopped false e => Some e | _ => None end in
  let '(acts, r) := shutdownAll 0 servers shutdown result in
  (SetServing true :: SetServing false :: acts, r).

(** ** Proofs *)
Section Startup.
Variable parseIPLiteral : string -> option string.
Variable unicodeLower : string -> string.
Variables (optimalBits : Z -> Z) (optimalHashes : Z -> Z -> Z).
Notation build := (buildNode parseIPLiteral unicodeLower optimalBits optimalHashes).
Notation Validate := (Validate parseIPLiteral unicodeLower).

(** A member whose address has an IP literal in brackets. *)
Definition bracketed (c : Config) : Prop := exists m, m ∈ cfg_Members c /\ contains_byte "[" (Address m) = true.

Lemma validated_directory c :
  bounded parseIPLiteral unicodeLower c -> exists d,
    NewDirectory (cfg_SelfID c) invalidationRequestTimeout (cfg_AdminToken c) = Some d /\
    dir_ok (Update d (cfg_Members c)).1 /\
    ((Update d (cfg_Members c)).2 <> None -> bracketed c).
Proof.
  intros Hb. unfold NewDirectory. rewrite bool_decide_eq_false_2 by apply Hb. simpl.
  eexists. split; [done|].
  set (d := (Update (mkDirectory (cfg_SelfID c) invalidationRequestTimeout (cfg_AdminToken c) None) []).1).
  assert (dir_ok d) as Hd by (apply Update_ok; by intros s).
  destruct (Update_ok d (cfg_Members c) Hd) as (H1 & H2 & _). split; [done|]. intros Hne.
  destruct (decide (Exists (fun m => contains_byte "[" (Address m) = true) (cfg_Members c))) as [He|Hn].
  - apply Exists_exists in He as (m & ? & ?). by exists m.
  - exfalso. apply Hne, H2. apply (validated_members parseIPLiteral unicodeLower c Hb).
    intros m Hm. apply not_true_is_false. intros E. apply Hn, Exists_exists. eauto.
Qed.

Lemma validated_group c source :
  bounded parseIPLiteral unicodeLower c -> exists l g,
    NewSourceLimiterWithQueue (cfg_SourceConcurrency c) (cfg_SourceMaxPending c) = Some l /\
    NewGroup fresh_area optimalBits optimalHashes (groupName c) (cfg_CacheBytes c) (Some (src_getter source))
      (groupOptions c source l) = Some g /\
    gwf g /\ name g = groupName c /\ mainCache g = fresh_area (cfg_CacheBytes c).
Proof.
  intros []. unfold NewSourceLimiterWithQueue.
  rewrite (proj2 (Z.leb_gt _ 0)), (proj2 (Z.ltb_ge _ 0)) by lia. simpl. eexists. 
  assert (is_Some (NewGroup fresh_area optimalBits optimalHashes (groupName c) (cfg_CacheBytes c) (Some (src_getter source))
      (groupOptions c source (mkLimiter (make_chan (cfg_SourceConcurrency c)) (make_chan (cfg_SourceMaxPending c)))))) as [g Hg].
  { apply NewGroup_accepts. unfold groupName, MiB in *. split_and!; simpl; auto; try lia. by case_match. }
  exists g. split; [done|]. split; [done|]. destruct (NewGroup_fields _ _ _ _ _ _ _ _ Hg).
  apply NewGroup_gwf in Hg as (? & _); [done| |done]. apply fresh_cwf. unfold MiB in *. lia.
Qed.
Lemma validated_slots c :
  bounded parseIPLiteral unicodeLower c -> exists s, newWriteSlots (cfg_WriteConcurrency c) = Some s /\
    occupied s = 0 /\ 1 <= buffer s <= 256.
Proof.
  intros []. unfold newWriteSlots, default_to, DefaultWriteConcurrency.
  destruct (cfg_WriteConcurrency c =? 0) eqn:E; reflect_bool.
  - eexists. split; [done|]. simpl. lia.
  - rewrite (proj2 (Z.ltb_ge _ 1)) by lia. eexists. split; [done|]. simpl. lia.
Qed.

Lemma buildServers_ok c d g w :
  bounded parseIPLiteral unicodeLower c -> name g = groupName c -> exists n, buildServers c d g w = Some n /\
    n_group n = g /\ n_router n = d /\ groups (n_handler n) = {[groupName c := g]} /\
    h_token (n_handler n) = cfg_AdminToken c /\ n_watched n = w /\
    (if cfg_API c then exists s, n_writeSlots n = Some s /\ occupied s < buffer s else n_writeSlots n = None).
Proof.
  intros Hb Hn. destruct (validated_slots c Hb) as (s & Hs & Ho & Hbuf).
  unfold buildServers, NewHandlerWithToken. simpl. unfold Name. rewrite lookup_empty, Hn, Hs. simpl.
  destruct (cfg_API c); simpl; eexists; (split; [done|]); simpl; split_and!; auto.
  exists s. split; [done|lia].
Qed.

(** Assembly on every branch. *)
Lemma buildNode_ok c source kubeErr :
  exists r, build c source kubeErr = Some r /\
  match r with
  | inr e => Validate c = Some e \/ source = None \/ kubeErr = Some e \/ bracketed c
  | inl n =>
      Validate c = None /\ gwf (n_group n) /\ Capacity (GroupStats (n_group n)) = cfg_CacheBytes c /\
      groups (n_handler n) = {[groupName c := n_group n]} /\ h_token (n_handler n) = cfg_AdminToken c /\
      dir_ok (n_router n) /\ n_watched n = String.eqb (cfg_DiscoveryMode c) "kubernetes" /\
      (if cfg_API c then exists s, n_writeSlots n = Some s /\ occupied s < buffer s else n_writeSlots n = None)
  end.
Proof.
  unfold buildNode. destruct (Validate c) as [e|] eqn:E; [eexists; split; [done|]; by left|]. pose proof (Validate_bounded _ _ c E) as Hb.
  destruct source as [source|]; [|eexists; split; [done|]; right; by left].
  destruct (validated_directory c Hb) as (d & -> & Hd & Hbr). cbn [mbind option_bind].
  destruct (Update d (cfg_Members c)) as [d' [e|]]; [eexists; split; [done|]; do 3 right; by apply Hbr|].
  destruct (validated_group c source Hb) as (l & g & -> & Hg & Hw & Hn & Hc). cbn [mbind option_bind].
  rewrite Hg. cbn [mbind option_bind]. unfold buildWatcher.
  assert (Capacity (GroupStats g) = cfg_CacheBytes c) as Hcap by (unfold GroupStats; rewrite Hc; done).
  destruct (String.eqb (cfg_DiscoveryMode c) "kubernetes") eqn:Ek.
  - destruct kubeErr as [e|]; [eexists; split; [done|]; right; right; by left|]. cbv iota. destruct (buildServers_ok c d' g true Hb Hn) as (r & -> & <- & <- & ? & ? & ? & ?).
    eexists. split; [done|]. by split_and!.
  - destruct (b_mode _ _ c Hb) as [->|Hk]; [|by rewrite Hk in Ek]. cbn [negb].
    change (String.eqb "static" "static") with true. cbn [negb].
    cbv iota. destruct (buildServers_ok c d' g false Hb Hn) as (r & -> & <- & <- & ? & ? & ? & ?). eexists. split; [done|]. by split_and!.
Qed.
(** C37: no configuration, source or Kubernetes failure makes the assembly of a
    node panic: what the constructors would panic on has been turned into an
    error before. Assembly fails only with the error of [Validate], without a
    source, on the Kubernetes client, or on a member written with an IP literal
    in brackets; otherwise the group is well-formed with the configured
    capacity, it is the one the member handler serves under the admin token,
    the directory meets its contract, and the API has at least one free write
    slot. *)
Theorem startup_never_panics c source kubeErr :
  exists r, build c source kubeErr = Some r /\
  match r with
  | inr e => Validate c = Some e \/ source = None \/ kubeErr = Some e \/ bracketed c
  | inl n =>
      Validate c = None /\ gwf (n_group n) /\ Capacity (GroupStats (n_group n)) = cfg_CacheBytes c /\
      groups (n_handler n) = {[groupName c := n_group n]} /\ h_token (n_handler n) = cfg_AdminToken c /\
      dir_ok (n_router n) /\ n_watched n = String.eqb (cfg_DiscoveryMode c) "kubernetes" /\
      (if cfg_API c then exists s, n_writeSlots n = Some s /\ occupied s < buffer s else n_writeSlots n = None)
  end.
Proof. apply buildNode_ok. Qed.
End Startup.

(** ** Server lifecycle *)

(** [bindServers] opens all or nothing: without an error every address has
    its listener, in order, and none is closed; with an error no listener is
    returned and every one it had opened is closed. *)
Theorem bindServers_all_or_nothing {L : Type} addrs (listen : nat -> string -> L + error) :
  match bindServers addrs listen [] with
  | (ls, closed, None) => closed = [] /\ length ls = length addrs /\
      forall i a, addrs !! i = Some a -> exists l, ls !! i = Some l /\ listen i a = inl l
  | (ls, closed, Some e) => ls = [] /\ exists a, addrs !! length closed = Some a /\ listen (length closed) a = inr e /\
      forall i a, (i < length closed)%nat -> addrs !! i = Some a -> exists l, closed !! i = Some l /\ listen i a = inl l
  end.
Proof.
  pose (P := fun (opened : list L) (pre : list string) => length opened = length pre /\
    forall i a, pre !! i = Some a -> exists l, opened !! i = Some l /\ listen i a = inl l).
  assert (forall rest pre opened, P opened pre -> addrs = pre ++ rest ->
    match bindServers rest listen opened with
    | (ls, closed, None) => closed = [] /\ P ls addrs
    | (ls, closed, Some e) => ls = [] /\ exists pre' a rest', addrs = pre' ++ a :: rest' /\ P closed pre' /\
        listen (length closed) a = inr e
    end) as Hgen.
  { induction rest as [|a rest IH]; intros pre opened HP E; simpl.
    - split; [done|]. by rewrite E, app_nil_r.
    - destruct (listen (length opened) a) as [l|e] eqn:El; [|eauto 10].
      apply (IH (pre ++ [a])); [|by rewrite <- app_assoc]. destruct HP as [HL HP].
      split; [rewrite !length_app; simpl; lia|]. intros i b [Hi|[Hge Hi]]%lookup_app_Some.
      + destruct (HP i b Hi) as (l' & ? & ?). exists l'. split; [by apply lookup_app_l_Some|done].
      + apply list_lookup_singleton_Some in Hi as [Hi ->]. exists l.
        rewrite lookup_app_r, HL by lia. replace (i - length pre)%nat with 0%nat by lia.
        split; [done|]. by replace i with (length opened) by lia. }
  specialize (Hgen addrs [] [] ltac:(split; [done|intros i a Hi; by rewrite lookup_nil in Hi]) eq_refl).
  destruct (bindServers addrs listen []) as [[ls closed] [e|]].
  - destruct Hgen as (-> & pre & a & rest & -> & [HL HP] & He). split; [done|].
    exists a. split; [by apply list_lookup_middle|]. split; [done|].
    intros i b Hi Hb. rewrite lookup_app_l in Hb by lia. auto.
  - destruct Hgen as (-> & HL & HP). auto.
Qed.

Lemma shutdownAll_ok i n shutdown result :
  let '(acts, r) := shutdownAll i n shutdown result in
  (forall a, a ∈ acts <-> (exists j, a = Shutdown j /\ (i <= j < i + n)%nat) \/
                          (exists j, a = CloseServer j /\ (i <= j < i + n)%nat /\ shutdown j <> None)) /\
  (r = None <-> result = None /\ forall j, (i <= j < i + n)%nat -> shutdown j = None).
Proof.
  revert i result. induction n as [|n IH]; intros i result; simpl.
  { split; [|naive_solver lia]. intros a. rewrite elem_of_nil. split; [done|]. intros [(j & _ & ?)|(j & _ & ? & _)]; lia. }
  assert (forall j, (i <= j < i + S n)%nat <-> j = i \/ (S i <= j < S i + n)%nat) as Hj by lia.
  destruct (shutdown i) as [e|] eqn:E.
  - specialize (IH (S i) (match result with None => Some e | r => r end)).
    destruct (shutdownAll _ _ _ _) as [acts r]. destruct IH as [IH1 IH2]. split.
    + intros a. rewrite !elem_of_cons, IH1. setoid_rewrite Hj.
      split; [intros [->|[->|[(j & -> & ?)|(j & -> & ? & ?)]]]; eauto 10; right; exists i; by rewrite E; eauto|].
      intros [(j & -> & [->|?])|(j & -> & [->|?] & ?)]; eauto 10.
    + rewrite IH2. split; [by destruct result; intros []|]. intros [_ H]. by rewrite (H i) in E by lia.
  - specialize (IH (S i) result). destruct (shutdownAll _ _ _ _) as [acts r]. destruct IH as [IH1 IH2]. split.
    + intros a. rewrite elem_of_cons, IH1. setoid_rewrite Hj.
      split; [intros [->|[(j & -> & ?)|(j & -> & ? & ?)]]; eauto 10|].
      intros [(j & -> & [->|?])|(j & -> & [->|?] & ?)]; eauto 10. by rewrite E in *.
    + rewrite IH2. setoid_rewrite Hj. split; intros [H1 H2]; (split; [done|]); intros j; [|eauto].
      intros [->|?]; eauto.
Qed.

(** [serve] announces readiness once, withdraws it before it drains the
    first server, shuts every server down and closes exactly those that did not
    drain in time; it reports no error exactly when it was asked to stop (or a
    server was closed) and every server drained. *)
Theorem serve_drains servers fin shutdown :
  let '(acts, r) := serve servers fin shutdown in
  (exists rest, acts = SetServing true :: SetServing false :: rest /\ forall b, SetServing b ∉ rest) /\
  (forall i, Shutdown i ∈ acts <-> (i < servers)%nat) /\
  (forall i, CloseServer i ∈ acts <-> (i < servers)%nat /\ shutdown i <> None) /\
  (r = None <-> (forall e, fin <> Stopped false e) /\ forall i, (i < servers)%nat -> shutdown i = None).
Proof.
  unfold serve. set (result := match fin with Stopped false e => Some e | _ => None end).
  pose proof (shutdownAll_ok 0 servers shutdown result) as H.
  destruct (shutdownAll 0 servers shutdown result) as [acts r]. destruct H as [H1 H2].
  assert (result = None <-> forall e, fin <> Stopped false e) as Hr.
  { subst result. destruct fin as [|[] e]; split; try done. intros H. by destruct (H e). }
  split_and!.
  - exists acts. split; [done|]. intros b. rewrite H1. intros [(j & ? & _)|(j & ? & _)]; done.
  - intros i. rewrite !elem_of_cons, H1. split; [|eauto 10 with lia].
    intros [?|[?|[(j & [= ->] & ?)|(j & ? & _)]]]; try done; lia.
  - intros i. rewrite !elem_of_cons, H1. split.
    + intros [?|[?|[(j & ? & _)|(j & [= ->] & ? & ?)]]]; try done. split; [lia|done].
    + intros [? ?]. right. right. right. exists i. split_and!; auto; lia.
  - rewrite H2, Hr. split; intros [? H]; (split; [done|]); intros i ?; apply H; lia.
Qed.
