(* ===== verification/Demo.v ===== *)
(** * The demo source and the choice of a source
      ([internal/demo/source.go], [Run] of [internal/app/bootstrap.go])

    The demo source is a finite read-only map. [Get] waits for a timer; that
    the context ends first is an argument. A node on the demo source filters
    reads by its keys; a node on PostgreSQL has no filter. *)
From S2P Require Import Prelude GoStrings NetAddr Errors LRU CacheStore Bloom Admission Group Read Directory Protocol Postgres Api Config Bootstrap.

Definition AutoKeys : Z := 10000.
Definition MaxDiagnosticValueBytes : Z := 4096.

Module Demo.
Record Source := mkDemo { values : gmap string string; delay : Duration }.

(** [strings.Repeat] *)
Fixpoint Repeat (s : string) (n : nat) : string :=
  match n with O => "" | S n' => s +:+ Repeat s n' end.

Definition AutoValue (key : string) (valueBytes : Z) : string :=
  let value := "Value-for-" +:+ key in
  if slen value <? valueBytes then value +:+ Repeat "v" (Z.to_nat (valueBytes - slen value)) else value.

Definition autoKey (i : Z) : string := "Auto-" +:+ FormatInt i.
Definition fixedValues : list (string * string) := [("Tom", "630"); ("Jack", "589"); ("Sam", "567")].
Definition allValues (valueBytes : Z) : gmap string string :=
  foldl (fun m i => <[autoKey i := AutoValue (autoKey i) valueBytes]> m) (list_to_map fixedValues) (seqZ 0 AutoKeys).

(** [None] is one of the two panics. *)
Definition NewSized (delay : Duration) (valueBytes : Z) : option Source :=
  if delay <? 0 then None
  else if (valueBytes <? 0) || (MaxDiagnosticValueBytes <? valueBytes) then None
  else Some (mkDemo (allValues valueBytes) delay).
Definition New (delay : Duration) : option Source := NewSized delay 0.

(** The keys in the order of [sort.Strings]; the map is ranged over in any
    order, and sorting makes it irrelevant. *)
Definition Keys (s : Source) : list string := merge_sort String.le (map_to_list (values s)).*1.

(** [ended]: the error of the context when it ends before the timer. *)
Definition Get (s : Source) (ended : option error) (key : string) : bytes * option error :=
  match ended with
  | Some e => ([], Some e)
  | None =>
      match values s !! key with
      | None => ([], Some (notFoundKey key))
      | Some value => (String.list_byte_of_string value, None)
      end
  end.
End Demo.

(** ** [Run] *)
Definition demoSource (s : Demo.Source) : Source := mkSource PlainGetter false (Some (Demo.Keys s)).
Definition postgresSource : Source := mkSource VersionedGetter true None.

Section Run.
Variable parseIPLiteral : string -> option string.
Variable unicodeLower : string -> string.
Variables (optimalBits : Z -> Z) (optimalHashes : Z -> Z -> Z).
(** [postgres.Open] on the configured URL and the [int32] of the concurrency. *)
Variable open : string -> Z -> nat * option error.
Definition i32 (z : Z) : Z := (z + 2147483648) mod 4294967296 - 2147483648.
Notation buildNode := (buildNode parseIPLiteral unicodeLower optimalBits optimalHashes).

Definition Run (c : Config) (kubeErr : option error) : option (Node + error) :=
  match Validate parseIPLiteral unicodeLower c with
  | Some e => Some (inr e)
  | None =>
      match validateSourceConfig c with
      | Some e => Some (inr e)
      | None =>
          if String.eqb (cfg_SourceMode c) "" || String.eqb (cfg_SourceMode c) "demo"
          then s ← Demo.New (100 * Millisecond); buildNode c (Some (demoSource s)) kubeErr
          else if String.eqb (cfg_SourceMode c) "postgres"
          then match open (cfg_DatabaseURL c) (i32 (cfg_SourceConcurrency c)) with
               | (_, Some e) => Some (inr e)
               | (_, None) => buildNode c (Some postgresSource) kubeErr
               end
          else Some (inr (NewError "unsupported SOURCE_MODE"))
      end
  end.
End Run.

(** ** Proofs *)
Import Demo.

Lemma Repeat_length n : String.length (Repeat "v" n) = n.
Proof. induction n as [|n IH]; [done|]. cbn [Repeat]. rewrite length_app_string, IH. done. Qed.
Lemma AutoValue_length key vb : slen (AutoValue key vb) = Z.max (10 + slen key) vb.
Proof.
  unfold AutoValue. cbv zeta. assert (slen ("Value-for-" +:+ key) = 10 + slen key) as E.
  { unfold slen. rewrite length_app_string. simpl String.length. lia. }
  pose proof (slen_nonneg key). destruct (_ <? vb) eqn:Hlt; reflect_bool; rewrite E in *; [|lia].
  unfold slen at 1. rewrite length_app_string, Repeat_length. unfold slen in *. lia.
Qed.

Lemma fill_lookup vb l (m : gmap string string) k :
  let r := foldl (fun m i => <[autoKey i := AutoValue (autoKey i) vb]> m) m l in
  ((exists i, i ∈ l /\ k = autoKey i) /\ r !! k = Some (AutoValue k vb)) \/
  ((forall i, i ∈ l -> k <> autoKey i) /\ r !! k = m !! k).
Proof.
  revert m. induction l as [|i l IH]; intros m; simpl.
  - right. split; [|done]. intros i Hi. by apply elem_of_nil in Hi.
  - destruct (IH (<[autoKey i:=AutoValue (autoKey i) vb]> m)) as [[(j & Hj & ->) Hr]|[Hn Hr]].
    + left. split; [|done]. exists j. split; [by right|done].
    + destruct (decide (k = autoKey i)) as [->|Hne].
      * left. rewrite Hr, lookup_insert_eq. split; [|done]. exists i. split; [by left|done].
      * right. rewrite Hr, lookup_insert_ne by done. split; [|done]. intros j [->|Hj]%elem_of_cons; [done|by apply Hn].
Qed.

Lemma allValues_auto vb i : 0 <= i < AutoKeys -> allValues vb !! autoKey i = Some (AutoValue (autoKey i) vb).
Proof.
  intros Hi. unfold allValues. assert (i ∈ seqZ 0 AutoKeys) as Hin by (apply elem_of_seqZ; lia).
  revert Hin. generalize (seqZ 0 AutoKeys) as l. intros l Hin.
  destruct (fill_lookup vb l (list_to_map fixedValues) (autoKey i)) as [[_ H]|[H _]]; [done|]. by destruct (H i).
Qed.
Lemma allValues_dom vb : dom (allValues vb) = dom (allValues 0).
Proof.
  unfold allValues. generalize (seqZ 0 AutoKeys) as l. intros l. apply set_eq. intros k. rewrite !elem_of_dom.
  destruct (fill_lookup vb l (list_to_map fixedValues) k) as [[Hi ->]|[Hn ->]],
    (fill_lookup 0 l (list_to_map fixedValues) k) as [[Hi' ->]|[Hn' ->]]; try done.
  - destruct Hi as (i & Hi & ->). by destruct (Hn' i Hi).
  - destruct Hi' as (i & Hi & ->). by destruct (Hn i Hi).
Qed.

Lemma allValues_cases vb k v :
  allValues vb !! k = Some v -> v = AutoValue k vb \/ (list_to_map fixedValues : gmap string string) !! k = Some v.
Proof.
  unfold allValues. generalize (seqZ 0 AutoKeys) as l. intros l Hk.
  destruct (fill_lookup vb l (list_to_map fixedValues) k) as [[_ E]|[_ E]]; rewrite E in Hk; [|by right].
  left. congruence.
Qed.

(** Every key by computation. *)
Lemma allKeys_valid : forallb (fun kv => match ValidateKey kv.1 with None => slen kv.1 <=? 100 | Some _ => false end)
  (map_to_list (allValues 0)) = true.
Proof. vm_compute. reflexivity. Qed.
Lemma allKeys_size : base.size (allValues 0) = 10003%nat.
Proof. vm_compute. reflexivity. Qed.

#[local] Opaque allValues.

Lemma key_valid vb k : is_Some (allValues vb !! k) -> ValidateKey k = None /\ slen k <= 100.
Proof.
  rewrite <- elem_of_dom, allValues_dom, elem_of_dom. intros [v Hv].
  pose proof allKeys_valid as Hall. rewrite forallb_forall in Hall.
  specialize (Hall (k, v)). rewrite <- list_elem_of_In, elem_of_map_to_list in Hall. specialize (Hall Hv). simpl in Hall.
  destruct (ValidateKey k); [done|]. reflect_bool. auto.
Qed.

Lemma fixed_short k v : (list_to_map fixedValues : gmap string string) !! k = Some v -> slen v = 3.
Proof.
  intros Hk%elem_of_list_to_map_2. unfold fixedValues in Hk. rewrite !elem_of_cons, elem_of_nil in Hk.
  destruct Hk as [[= -> ->]|[[= -> ->]|[[= -> ->]|[]]]]; done.
Qed.
Lemma value_short vb k v : 0 <= vb <= MaxDiagnosticValueBytes -> allValues vb !! k = Some v -> slen v <= MaxDiagnosticValueBytes.
Proof.
  intros Hvb Hk. destruct (key_valid vb k) as [_ Hlen]; [by eexists|]. unfold MaxDiagnosticValueBytes in *.
  destruct (allValues_cases vb k v Hk) as [->|Hf]; [rewrite AutoValue_length; lia|]. apply fixed_short in Hf. lia.
Qed.

Lemma Keys_elem s k : k ∈ Keys s <-> is_Some (values s !! k).
Proof.
  unfold Keys. rewrite (merge_sort_Permutation String.le). rewrite list_elem_of_fmap. split.
  - intros ([k' v] & -> & Hin). apply elem_of_map_to_list in Hin. by eexists.
  - intros [v Hv]. exists (k, v). by rewrite elem_of_map_to_list.
Qed.

Lemma Get_missing s key :
  key ∉ Keys s -> (Get s None key).1 = [] /\ IsErr (Get s None key).2 ErrNotFound = true.
Proof.
  rewrite Keys_elem. unfold Get. destruct (values s !! key) as [v|]; [intros Hn; destruct Hn; by eexists|].
  intros _. split; reflexivity.
Qed.

Lemma list_byte_length s : blen (String.list_byte_of_string s) = slen s.
Proof. unfold blen, slen. f_equal. induction s as [|c s IH]; simpl; [done|by f_equal]. Qed.

(** The demo source is a fixed, complete map: it is built exactly for a
    delay that is not negative and a size in range; it then has 10003 distinct
    keys in sorted order, all of which the cache accepts, with values within
    the cache's bound; a read returns a value exactly for these keys, the
    generated value for a generated key, and "not found" otherwise. *)
Theorem demo_source_contract delay vb :
  (NewSized delay vb = None <-> delay < 0 \/ vb < 0 \/ MaxDiagnosticValueBytes < vb) /\
  forall s, NewSized delay vb = Some s ->
    Sorted String.le (Keys s) /\ NoDup (Keys s) /\ length (Keys s) = 10003%nat /\
    (forall i, 0 <= i < AutoKeys ->
       Get s None (autoKey i) = (String.list_byte_of_string (AutoValue (autoKey i) vb), None)) /\
    (forall key, key ∈ Keys s -> exists b, Get s None key = (b, None) /\ ValidateKey key = None /\ blen b <= MaxValueBytes) /\
    (forall key, key ∉ Keys s -> (Get s None key).1 = [] /\ IsErr (Get s None key).2 ErrNotFound = true).
Proof.
  unfold NewSized. split.
  - destruct (delay <? 0) eqn:E1; reflect_bool; [split; auto|]. destruct (_ || _) eqn:E2; reflect_bool; split; try done; intros; lia.
  - intros s. destruct (delay <? 0) eqn:E1; [done|]. destruct (_ || _) eqn:E2; [done|]. intros [= <-]. reflect_bool.
    assert (forall key, key ∈ Keys (mkDemo (allValues vb) delay) <-> is_Some (allValues vb !! key)) as Hk by apply Keys_elem.
    split_and!.
    + apply (Sorted_merge_sort String.le).
    + unfold Keys. rewrite (merge_sort_Permutation String.le). apply NoDup_fst_map_to_list.
    + unfold Keys. rewrite (merge_sort_Permutation String.le), length_fmap, length_map_to_list. cbn [values].
      rewrite <- size_dom, allValues_dom, size_dom. apply allKeys_size.
    + intros i Hi. unfold Get. cbn [values]. by rewrite allValues_auto.
    + intros key [v Hv]%Hk. unfold Get. cbn [values]. rewrite Hv. eexists. split; [done|]. split; [apply (key_valid vb); by eexists|].
      rewrite list_byte_length. apply value_short in Hv; [|lia]. unfold MaxValueBytes, MaxDiagnosticValueBytes in *. lia.
    + intros key. apply Get_missing.
Qed.

(** ** The filter of a running node *)
Section RunFacts.
Variable parseIPLiteral : string -> option string.
Variable unicodeLower : string -> string.
Variables (optimalBits : Z -> Z) (optimalHashes : Z -> Z -> Z).
Variable open : string -> Z -> nat * option error.
Notation buildNode := (buildNode parseIPLiteral unicodeLower optimalBits optimalHashes).
Notation Run := (Run parseIPLiteral unicodeLower optimalBits optimalHashes open).

Lemma buildNode_bloom c source kubeErr n :
  buildNode c (Some source) kubeErr = Some (inl n) ->
  match knownKeys source with
  | None => bloom (n_group n) = None
  | Some keys => exists bf, bloom (n_group n) = Some bf /\ forall key, key ∈ keys -> Contains bf key = Some true
  end.
Proof.
  unfold Bootstrap.buildNode. destruct (Validate _ _ c); [done|].
  intros (router & _ & H)%bind_Some. destruct (Update router _) as [router' [e|]]; [done|].
  apply bind_Some in H as (limiter & _ & H). apply bind_Some in H as (g & Hg & H).
  destruct (buildWatcher c kubeErr) as [watched|]; [|done]. apply bind_Some in H as (n' & Hn & [= <-]).
  apply NewGroup_bloom in Hg. unfold buildServers in Hn. apply bind_Some in Hn as (h & _ & Hn).
  apply bind_Some in Hn as (slots & _ & [= <-]). exact Hg.
Qed.

(** No node filters out what its source holds: a node started on PostgreSQL
    has no key filter, since its keys change, and holds an open pool; a node
    started on the demo source has a filter that passes every key for which
    the source has a value. No other source mode starts. *)
Theorem run_never_filters c kubeErr n :
  Run c kubeErr = Some (inl n) ->
  (cfg_SourceMode c = "postgres" /\ bloom (n_group n) = None /\
     exists pools, open (cfg_DatabaseURL c) (i32 (cfg_SourceConcurrency c)) = (pools, None)) \/
  (cfg_SourceMode c ∈ [""; "demo"] /\ exists s bf, New (100 * Millisecond) = Some s /\ bloom (n_group n) = Some bf /\
     forall key b, Get s None key = (b, None) -> Contains bf key = Some true).
Proof.
  unfold Demo.Run. destruct (Validate _ _ c); [done|]. destruct (validateSourceConfig c); [done|].
  destruct (String.eqb_spec (cfg_SourceMode c) "") as [E|E1]; [|destruct (String.eqb_spec (cfg_SourceMode c) "demo") as [E|E2]]; cbn [orb].
  1, 2: intros (s & Hs & Hb)%bind_Some; right; split; [rewrite E; set_solver|];
    apply buildNode_bloom in Hb as (bf & Hbf & Hin); exists s, bf; split_and!; [done|done|];
    intros key b Hg; apply Hin, Keys_elem; unfold Get in Hg; destruct (values s !! key); [by eexists|done].
  destruct (String.eqb_spec (cfg_SourceMode c) "postgres") as [E3|]; [|done].
  destruct (open _ _) as [pools [e|]] eqn:Eo; [done|]. intros Hb. left. split_and!; [done| |by exists pools].
  by apply buildNode_bloom in Hb.
Qed.
End RunFacts.

(** ** A concrete start *)
Definition sample_environment (name : string) : string :=
  if String.eqb name "SOURCE_MODE" then "postgres" else if String.eqb name "DATABASE_URL" then "postgres://db"
  else if String.eqb name "CACHE_ADMIN_TOKEN" then "token" else "".
Definition sample_node_config : Config := (FromEnv (fun _ => None) (fun s => s) sample_environment 8001 true).1.
Definition sample_open (url : string) (n : Z) : nat * option error :=
  Open (fun _ => None) (fun _ _ => None) None None url n.

Lemma run_never_filters_witness :
  exists n, Run (fun _ => None) (fun s => s) (fun _ => 64) (fun _ _ => 1) sample_open sample_node_config None = Some (inl n) /\
    bloom (n_group n) = None.
Proof.
  destruct (Run (fun _ => None) (fun s => s) (fun _ => 64) (fun _ _ => 1) sample_open sample_node_config None) as [[n|e]|] eqn:E.
  - exists n. split; [reflexivity|].
    destruct (run_never_filters (fun _ => None) (fun s => s) (fun _ => 64) (fun _ _ => 1) sample_open sample_node_config None n E)
      as [(_ & H & _)|[H _]]; [exact H|].
    exfalso. apply elem_of_cons in H as [H|H]; [vm_compute in H; discriminate|].
    apply list_elem_of_singleton in H. vm_compute in H. discriminate.
  - exfalso. vm_compute in E. discriminate.
  - exfalso. vm_compute in E. discriminate.
Defined.

Lemma demo_source_contract_witness :
  NewSized 0 4097 = None /\ exists s, NewSized 0 64 = Some s /\ length (Keys s) = 10003%nat.
Proof.
  destruct (demo_source_contract 0 4097) as [H _]. destruct (demo_source_contract 0 64) as [_ H2]. split.
  - apply H. right. right. reflexivity.
  - eexists. split; [reflexivity|]. destruct (H2 _ eq_refl) as (_ & _ & H3 & _). exact H3.
Defined.
