(* ===== verification/Lifecycle.v ===== *)
(** * The life of a node's process ([Run], [RunWithSource] and [serve] of
      [internal/app/bootstrap.go])

    The sequential start-up with the deferred calls each return leaves behind,
    then the process as a step relation: the main goroutine waits, drains the
    servers and runs its deferred calls in reverse, while server goroutines,
    requests, the relay, maintenance, the watcher and loads go on beside it.
    The theorems say that a shutdown always ends, in what order it takes things
    away, and that nothing that is still at work loses what it works with. *)
From S2P Require Import Prelude GoStrings NetAddr Errors LRU CacheStore Bloom Admission Group Read Directory Protocol Postgres Api Config Bootstrap Demo.

(** ** Servers *)
Record httpServer := mkHTTPServer {
  Addr : string; ReadHeaderTimeout : Duration; ReadTimeout : Duration; WriteTimeout : Duration; IdleTimeout : Duration }.

Definition readHeaderTimeout : Duration := 3 * Second.
Definition requestReadTimeout : Duration := 5 * Second.
Definition responseWriteTimeout : Duration := 10 * Second.
Definition connectionIdleTimeout : Duration := 30 * Second.

Definition newDataServer (addr : string) : httpServer :=
  mkHTTPServer addr readHeaderTimeout requestReadTimeout responseWriteTimeout connectionIdleTimeout.

Definition nodeServers (c : Config) : list httpServer :=
  [newDataServer (cfg_ClusterAddr c)] ++
  (if cfg_API c then [newDataServer (cfg_APIAddr c)] else []) ++
  (if negb (String.eqb (cfg_DebugAddr c) "")
   then [mkHTTPServer (cfg_DebugAddr c) readHeaderTimeout 0 0 connectionIdleTimeout] else []).

(** The addresses of the listeners that are logged; [None] is an index out of
    range. *)
Definition boundAddresses (c : Config) (listeners : list string) : option (gmap string string) :=
  cluster ← listeners !! 0%nat;
  let m := {["cluster" := cluster]} in
  m ← (if cfg_API c then a ← listeners !! 1%nat; Some (<["api" := a]> m) else Some m);
  if negb (String.eqb (cfg_DebugAddr c) "")
  then a ← listeners !! (length listeners - 1)%nat; Some (<["debug" := a]> m) else Some m.

(** ** The state of the process *)

(** The deferred calls; [AwaitRelay] is the second half of [JoinRelay]. *)
Inductive deferred :=
| ResetBlockRate | RestoreMutexFraction (previous : Z) | JoinRelay | AwaitRelay
| CloseRouter | CancelWork | CloseSource | CancelStartup.
#[export] Instance deferred_eq_dec : EqDecision deferred.
Proof. solve_decision. Defined.

Inductive goroutine := Relay | Watching | Maintenance.
#[export] Instance goroutine_eq_dec : EqDecision goroutine.
Proof. solve_decision. Defined.

(** What the deferred calls take away or restore. *)
Record resources := mkResources {
  sourceOpen : bool;                     (* the pool of the source *)
  routerOpen : bool;                     (* the transport between members *)
  workLive : bool;                       (* the context of loads, watcher, maintenance *)
  relayLive : bool;                      (* [relayCtx], below [work] *)
  mutexFraction : Z;
  blockRate : Z;
}.

Inductive servePhase := NotServing | Accepting | ServeReturned.
Record server := mkServer {
  sv_phase : servePhase;                 (* its goroutine in [Serve] *)
  sv_shut : bool;                        (* [Shutdown] has been called *)
  sv_closed : bool;                      (* [Close] has been called *)
  sv_active : nat;                       (* handlers at work *)
}.
Definition newServer : server := mkServer NotServing false false 0.

Inductive pc := Launching | Waiting | Draining (i : nat) | Shutting (i : nat) | Unwinding | Returned.

Record process := mkProcess {
  pr_pc : pc;
  pr_defers : list deferred;
  pr_result : option error;
  pr_res : resources;
  pr_running : list goroutine;
  pr_servers : list server;
  pr_errors : list (bool * error);       (* [errorsC]; the flag: it is [http.ErrServerClosed] *)
  pr_serving : bool;
  pr_loads : nat;                        (* flights under [work] *)
}.

(** ** Start-up *)

(** A return before the servers run. *)
Definition early (defers : list deferred) (res : resources) (e : error) : process :=
  mkProcess Unwinding defers (Some e) res [] [] [] false 0.

Section Start.
Variable parseIPLiteral : string -> option string.
Variable unicodeLower : string -> string.
Variables (optimalBits : Z -> Z) (optimalHashes : Z -> Z -> Z).
Notation buildNode := (buildNode parseIPLiteral unicodeLower optimalBits optimalHashes).
Notation Validate := (Validate parseIPLiteral unicodeLower).

(** [RunWithSource] up to [serve]. [queue]: the source is an [outbox.Queue];
    [fraction], [rate]: the profiling settings it finds. *)
Definition RunWithSource (outer : list deferred) (c : Config) (source : option Source) (queue : bool)
    (kubeErr : option error) (listen : nat -> string -> string + error) (fraction rate : Z) : option process :=
  match Validate c with
  | Some e => Some (early outer (mkResources true false false false fraction rate) e)
  | None =>
      match source with
      | None => Some (early outer (mkResources true false false false fraction rate) (NewError "source is required"))
      | Some s =>
          let defers := CloseRouter :: CancelWork :: outer in
          let res := mkResources true true true false fraction rate in
          node ← buildNode c (Some s) kubeErr;
          match node with
          | inr e => Some (early defers res e)
          | inl n =>
              match bindServers (Addr <$> nodeServers c) listen [] with
              | (_, _, Some e) => Some (early defers res e)
              | (listeners, _, None) =>
                  let relay := queue && negb (String.eqb (cfg_AdminToken c) "") in
                  let running := (if n_watched n then [Watching] else []) ++ [Maintenance] ++ (if relay then [Relay] else []) in
                  let defers := if relay then JoinRelay :: defers else defers in
                  let defers := if cfg_ProfileContention c
                                then ResetBlockRate :: RestoreMutexFraction fraction :: defers else defers in
                  let res := if cfg_ProfileContention c
                             then mkResources true true true relay 10 1000000
                             else mkResources true true true relay fraction rate in
                  addresses ← boundAddresses c listeners;
                  Some (mkProcess Launching defers None res running (replicate (length listeners) newServer) [] false 0)
              end
          end
      end
  end.

(** [Run]. [open] is [postgres.Open]: how many pools it leaves open, and its error. *)
Definition RunProcess (open : string -> Z -> nat * option error) (c : Config)
    (kubeErr : option error) (listen : nat -> string -> string + error) (fraction rate : Z) : option process :=
  let nothing := mkResources false false false false fraction rate in
  match Validate c with
  | Some e => Some (early [] nothing e)
  | None =>
      match validateSourceConfig c with
      | Some e => Some (early [] nothing e)
      | None =>
          if String.eqb (cfg_SourceMode c) "" || String.eqb (cfg_SourceMode c) "demo"
          then s ← Demo.New (100 * Millisecond);
               RunWithSource [] c (Some (demoSource s)) false kubeErr listen fraction rate
          else if String.eqb (cfg_SourceMode c) "postgres"
          then match open (cfg_DatabaseURL c) (i32 (cfg_SourceConcurrency c)) with
               | (_, Some e) => Some (early [CancelStartup] nothing e)
               | (_, None) =>
                   RunWithSource [CloseSource; CancelStartup] c (Some postgresSource) true kubeErr listen fraction rate
               end
          else Some (early [] nothing (NewError "unsupported SOURCE_MODE"))
      end
  end.
End Start.

(** ** Steps of the main goroutine *)
Definition with_source (r : resources) (b : bool) : resources :=
  mkResources b (routerOpen r) (workLive r) (relayLive r) (mutexFraction r) (blockRate r).
Definition with_router (r : resources) (b : bool) : resources :=
  mkResources (sourceOpen r) b (workLive r) (relayLive r) (mutexFraction r) (blockRate r).
(** Cancelling [work] cancels [relayCtx], which is below it. *)
Definition cancel_work (r : resources) : resources :=
  mkResources (sourceOpen r) (routerOpen r) false false (mutexFraction r) (blockRate r).
Definition stop_relay (r : resources) : resources :=
  mkResources (sourceOpen r) (routerOpen r) (workLive r) false (mutexFraction r) (blockRate r).
Definition with_profiles (r : resources) (fraction rate : Z) : resources :=
  mkResources (sourceOpen r) (routerOpen r) (workLive r) (relayLive r) fraction rate.

(** A deferred call: what it puts in front of the calls that are left, and the
    resources after it. [None]: it still waits. *)
Definition run_deferred (d : deferred) (r : resources) (running : list goroutine) : option (list deferred * resources) :=
  match d with
  | ResetBlockRate => Some ([], with_profiles r (mutexFraction r) 0)
  | RestoreMutexFraction previous => Some ([], with_profiles r previous (blockRate r))
  | JoinRelay => Some ([AwaitRelay], stop_relay r)
  | AwaitRelay => if decide (Relay ∈ running) then None else Some ([], r)
  | CloseRouter => Some ([], with_router r false)
  | CancelWork => Some ([], cancel_work r)
  | CloseSource => Some ([], with_source r false)
  | CancelStartup => Some ([], r)
  end.

Definition shut_down (s : server) : server := mkServer (sv_phase s) true (sv_closed s) (sv_active s).
Definition close_server (s : server) : server := mkServer (sv_phase s) (sv_shut s) true (sv_active s).
Definition first_error (r : option error) (e : error) : option error := match r with None => Some e | _ => r end.

Inductive main_step : process -> process -> Prop :=
| ms_launch ds r res rn svs errs sv ld :
    main_step (mkProcess Launching ds r res rn svs errs sv ld) (mkProcess Waiting ds r res rn svs errs true ld)
| ms_signal ds r res rn svs errs sv ld :
    main_step (mkProcess Waiting ds r res rn svs errs sv ld) (mkProcess (Draining 0) ds r res rn svs errs false ld)
| ms_failed ds r res rn svs closed e errs sv ld :
    main_step (mkProcess Waiting ds r res rn svs ((closed, e) :: errs) sv ld)
      (mkProcess (Draining 0) ds (if closed then r else Some e) res rn svs errs false ld)
| ms_shutdown i s ds r res rn svs errs sv ld :
    svs !! i = Some s ->
    main_step (mkProcess (Draining i) ds r res rn svs errs sv ld)
      (mkProcess (Shutting i) ds r res rn (<[i := shut_down s]> svs) errs sv ld)
| ms_drained i s ds r res rn svs errs sv ld :
    svs !! i = Some s -> sv_active s = 0%nat ->
    main_step (mkProcess (Shutting i) ds r res rn svs errs sv ld)
      (mkProcess (Draining (S i)) ds r res rn svs errs sv ld)
| ms_forced i s e ds r res rn svs errs sv ld :
    svs !! i = Some s ->
    main_step (mkProcess (Shutting i) ds r res rn svs errs sv ld)
      (mkProcess (Draining (S i)) ds (first_error r e) res rn (<[i := close_server s]> svs) errs sv ld)
| ms_all i ds r res rn svs errs sv ld :
    svs !! i = None ->
    main_step (mkProcess (Draining i) ds r res rn svs errs sv ld)
      (mkProcess Unwinding ds r res rn svs errs sv ld)
| ms_deferred d ds pre r res res' rn svs errs sv ld :
    run_deferred d res rn = Some (pre, res') ->
    main_step (mkProcess Unwinding (d :: ds) r res rn svs errs sv ld)
      (mkProcess Unwinding (pre ++ ds) r res' rn svs errs sv ld)
| ms_return r res rn svs errs sv ld :
    main_step (mkProcess Unwinding [] r res rn svs errs sv ld) (mkProcess Returned [] r res rn svs errs sv ld).

(** ** Steps of everything else, until the process has ended *)

(** The context a goroutine stops on. *)
Definition live (g : goroutine) (res : resources) : bool :=
  match g with Relay => relayLive res | _ => workLive res end.

Definition with_phase (s : server) (p : servePhase) : server := mkServer p (sv_shut s) (sv_closed s) (sv_active s).
Definition with_active (s : server) (n : nat) : server := mkServer (sv_phase s) (sv_shut s) (sv_closed s) n.

Inductive other_step : process -> process -> Prop :=
| os_ends g p ds r res rn svs errs sv ld :
    live g res = false ->
    other_step (mkProcess p ds r res rn svs errs sv ld)
      (mkProcess p ds r res (filter (fun g' => g' <> g) rn) svs errs sv ld)
| os_serve i s p ds r res rn svs errs sv ld :
    svs !! i = Some s -> sv_phase s = NotServing -> sv_shut s = false ->
    other_step (mkProcess p ds r res rn svs errs sv ld)
      (mkProcess p ds r res rn (<[i := with_phase s Accepting]> svs) errs sv ld)
| os_closed i s e p ds r res rn svs errs sv ld :
    svs !! i = Some s -> sv_phase s <> ServeReturned -> sv_shut s = true ->
    other_step (mkProcess p ds r res rn svs errs sv ld)
      (mkProcess p ds r res rn (<[i := with_phase s ServeReturned]> svs) (errs ++ [(true, e)]) sv ld)
| os_failed i s e p ds r res rn svs errs sv ld :
    svs !! i = Some s -> sv_phase s = Accepting -> sv_shut s = false ->
    other_step (mkProcess p ds r res rn svs errs sv ld)
      (mkProcess p ds r res rn (<[i := with_phase s ServeReturned]> svs) (errs ++ [(false, e)]) sv ld)
| os_request i s p ds r res rn svs errs sv ld :
    svs !! i = Some s -> sv_phase s = Accepting -> sv_shut s = false ->
    other_step (mkProcess p ds r res rn svs errs sv ld)
      (mkProcess p ds r res rn (<[i := with_active s (S (sv_active s))]> svs) errs sv ld)
| os_answer i s n p ds r res rn svs errs sv ld :
    svs !! i = Some s -> sv_active s = S n ->
    other_step (mkProcess p ds r res rn svs errs sv ld)
      (mkProcess p ds r res rn (<[i := with_active s n]> svs) errs sv ld)
| os_load i s n p ds r res rn svs errs sv ld :
    svs !! i = Some s -> sv_active s = S n ->
    other_step (mkProcess p ds r res rn svs errs sv ld) (mkProcess p ds r res rn svs errs sv (S ld))
| os_loaded p ds r res rn svs errs sv ld :
    other_step (mkProcess p ds r res rn svs errs sv (S ld)) (mkProcess p ds r res rn svs errs sv ld).

Definition pstep (p p' : process) : Prop := pr_pc p <> Returned /\ (main_step p p' \/ other_step p p').

(** ** Proofs: the deferred calls *)

(** The order in which they run. *)
Definition rank (d : deferred) : nat :=
  match d with
  | ResetBlockRate => 0 | RestoreMutexFraction _ => 1 | JoinRelay | AwaitRelay => 2
  | CloseRouter => 3 | CancelWork => 4 | CloseSource => 5 | CancelStartup => 6
  end.
Definition earlier (d d' : deferred) : Prop := (rank d < rank d')%nat.

(** What the deferred calls that are left say about the resources; [pg]: the
    source is PostgreSQL, [fraction]: the profiling fraction found at start. *)
Record defers_ok (pg : bool) (fraction : Z) (ds : list deferred) (res : resources) (running : list goroutine) : Prop := {
  df_sorted : StronglySorted earlier ds;
  df_router : routerOpen res = true <-> CloseRouter ∈ ds;
  df_work : workLive res = true <-> CancelWork ∈ ds;
  df_source : pg = true -> (sourceOpen res = true <-> CloseSource ∈ ds);
  df_relay_live : relayLive res = true -> JoinRelay ∈ ds;
  df_joined : Relay ∈ running -> JoinRelay ∈ ds \/ AwaitRelay ∈ ds;
  df_router_first : JoinRelay ∈ ds \/ AwaitRelay ∈ ds -> CloseRouter ∈ ds;
  df_work_first : CloseRouter ∈ ds -> CancelWork ∈ ds;
  df_source_first : pg = true -> CancelWork ∈ ds -> CloseSource ∈ ds;
  df_fraction : mutexFraction res = fraction \/ RestoreMutexFraction fraction ∈ ds;
  df_restores : forall f, RestoreMutexFraction f ∈ ds -> f = fraction;
}.

Lemma later_deferred d ds : StronglySorted earlier (d :: ds) -> forall x, (rank x <= rank d)%nat -> x ∉ ds.
Proof.
  intros HS x Hx Hin. apply StronglySorted_inv in HS as [_ HF]. rewrite Forall_forall in HF.
  specialize (HF x Hin). unfold earlier in HF. lia.
Qed.

(** A goroutine that ends changes none of it. *)
Lemma defers_ok_ends pg f ds res rn g :
  defers_ok pg f ds res rn -> defers_ok pg f ds res (filter (fun g' => g' <> g) rn).
Proof. intros []. split; try done. intros [_ H]%list_elem_of_filter. auto. Qed.

Lemma deferred_head (d : deferred) ds : d ∈ d :: ds <-> True.
Proof. split; [done|]. by left. Qed.
Lemma deferred_tail (d d' : deferred) ds : d' <> d -> d' ∈ d :: ds <-> d' ∈ ds.
Proof. rewrite elem_of_cons. naive_solver. Qed.

(** Decide membership of the head of a list of deferred calls. *)
Ltac settle_heads :=
  repeat match goal with
  | H : context [?d ∈ ?d :: ?ds] |- _ => rewrite (deferred_head d ds) in H
  | H : context [?d' ∈ ?d :: ?ds] |- _ => rewrite (deferred_tail d d' ds) in H by done
  | |- context [?d ∈ ?d :: ?ds] => rewrite (deferred_head d ds)
  | |- context [?d' ∈ ?d :: ?ds] => rewrite (deferred_tail d d' ds) by done
  end.

Lemma run_deferred_ok pg f d ds pre res res' rn :
  defers_ok pg f (d :: ds) res rn -> run_deferred d res rn = Some (pre, res') -> defers_ok pg f (pre ++ ds) res' rn.
Proof.
  intros [HS Hr Hw Hs Hl Hj H1 H2 H3 Hf Hrs] E. pose proof (later_deferred d ds HS) as Hno.
  apply StronglySorted_inv in HS as [HS HF].
  assert (forall f0, RestoreMutexFraction f0 ∈ ds -> f0 = f) as Hrs' by (intros f0 H; apply Hrs; by right).
  pose proof (Hno JoinRelay) as N1. pose proof (Hno AwaitRelay) as N2. pose proof (Hno CloseRouter) as N3.
  pose proof (Hno CancelWork) as N4. pose proof (Hno CloseSource) as N5.
  destruct d; simpl in E, N1, N2, N3, N4, N5; try (destruct (decide (Relay ∈ rn)) as [|Hnot]; [done|]); injection E as <- <-;
    repeat match goal with N : (_ <= _)%nat -> _ |- _ => first [specialize (N ltac:(lia))|clear N] end; clear Hno.
  2: { assert (previous = f) as -> by (apply Hrs; by left). split; simpl; settle_heads; tauto. }
  2: { split; simpl; try (settle_heads; tauto); [by constructor|done|].
       intros f0 Hf0. rewrite (deferred_tail _ _ ds) in Hf0 by done. auto. }
  all: clear Hrs; split; simpl; settle_heads; try done; tauto.
Qed.

(** ** Proofs: the servers *)

(** Whether [Shutdown] has been called on server [j]. *)
Definition shut_at (p : pc) (j : nat) : bool :=
  match p with
  | Launching | Waiting => false
  | Draining i => (j <? i)%nat
  | Shutting i => (j <=? i)%nat
  | Unwinding | Returned => true
  end.

Definition returned (s : server) : Prop := sv_phase s = ServeReturned.
#[export] Instance returned_dec s : Decision (returned s).
Proof. unfold returned. destruct (sv_phase s); [right|right|left]; done. Defined.

Record server_ok (p : pc) (result : option error) (j : nat) (s : server) : Prop := {
  so_shut : sv_shut s = shut_at p j;
  so_idle : sv_phase s = NotServing -> sv_active s = 0%nat;
  so_drained : sv_shut s = true -> sv_active s <> 0%nat -> sv_closed s = true \/ p = Shutting j;
  so_closed : sv_closed s = true -> result <> None;
}.

Record servers_ok (p : pc) (result : option error) (svs : list server) (errs : list (bool * error)) (serving : bool) : Prop := {
  ss_all : forall j s, svs !! j = Some s -> server_ok p result j s;
  ss_serving : serving = true -> p = Waiting;
  ss_errors : (length errs <= length (filter returned svs))%nat;
}.

(** The invariant of the process. *)
Record pinv (pg : bool) (fraction : Z) (p : process) : Prop := {
  pi_defers : defers_ok pg fraction (pr_defers p) (pr_res p) (pr_running p);
  pi_servers : servers_ok (pr_pc p) (pr_result p) (pr_servers p) (pr_errors p) (pr_serving p);
  pi_pc : match pr_pc p with
          | Unwinding => True
          | Returned => pr_defers p = []
          | Shutting i => CloseRouter ∈ pr_defers p /\ (i < length (pr_servers p))%nat
          | _ => CloseRouter ∈ pr_defers p
          end;
}.

(** A server that changes, with the servers that have returned counted. *)
Lemma filter_insert (svs : list server) i s s' :
  svs !! i = Some s ->
  (length (filter returned (<[i := s']> svs)) + (if decide (returned s) then 1 else 0) =
   length (filter returned svs) + (if decide (returned s') then 1 else 0))%nat.
Proof.
  revert i. induction svs as [|x svs IH]; intros [|i]; simpl; [done..| |].
  - intros [= ->]. rewrite !filter_cons. repeat case_decide; simpl; lia.
  - intros Hi. specialize (IH i Hi). rewrite !filter_cons. destruct (decide (returned x)); simpl; lia.
Qed.

Lemma servers_insert p r svs errs errs' sv i s s' :
  servers_ok p r svs errs sv -> svs !! i = Some s -> server_ok p r i s' ->
  (length errs' + (if decide (returned s) then 1 else 0) <= length errs + (if decide (returned s') then 1 else 0))%nat ->
  servers_ok p r (<[i := s']> svs) errs' sv.
Proof.
  intros [HA HS HE] Hi Hs' Hl. split; [|done|].
  - intros j t [(<- & <- & _)|[_ Hj]]%list_lookup_insert_Some; [done|by apply HA].
  - pose proof (filter_insert svs i s s' Hi). lia.
Qed.

(** A step of the main goroutine that leaves a server as it is. *)
Lemma server_next p p' r r' j s :
  server_ok p r j s -> shut_at p' j = shut_at p j -> (p = Shutting j -> sv_active s = 0%nat) -> (r <> None -> r' <> None) ->
  server_ok p' r' j s.
Proof.
  intros [S1 S2 S3 S4] E Hz Hr. split; [congruence|done| |auto].
  intros H1 H2. destruct (S3 H1 H2) as [|Hp]; [by left|]. by rewrite Hz in H2.
Qed.

Lemma shut_at_other i j : j <> i -> shut_at (Shutting i) j = shut_at (Draining i) j.
Proof. intros Hne. simpl. apply eq_true_iff_eq. rewrite Nat.leb_le, Nat.ltb_lt. lia. Qed.

Lemma filter_same (svs : list server) i s s' :
  svs !! i = Some s -> (returned s' <-> returned s) -> length (filter returned (<[i := s']> svs)) = length (filter returned svs).
Proof. intros Hi Hs. pose proof (filter_insert svs i s s' Hi). repeat case_decide; try tauto; lia. Qed.

Lemma first_error_some r e : first_error r e <> None.
Proof. by destruct r. Qed.
#[local] Hint Resolve first_error_some : core.

Lemma servers_main p p' :
  main_step p p' -> servers_ok (pr_pc p) (pr_result p) (pr_servers p) (pr_errors p) (pr_serving p) ->
  servers_ok (pr_pc p') (pr_result p') (pr_servers p') (pr_errors p') (pr_serving p').
Proof.
  intros Hs [HA HV HE]. destruct Hs; simpl in *.
  - split; [|done|done]. intros j s Hj. by apply (server_next Launching _ r _ j s (HA j s Hj)).
  - split; [|done|done]. intros j s Hj. by apply (server_next Waiting _ r _ j s (HA j s Hj)).
  - split; [|done|lia]. intros j s Hj. apply (server_next Waiting _ r _ j s (HA j s Hj)); try done. by destruct closed.
  - split; [|by intros E; specialize (HV E)|by rewrite (filter_same _ _ s)].
    intros j t [(<- & <- & _)|[Hne Hj]]%list_lookup_insert_Some.
    + destruct (HA i s H) as [S1 S2 S3 S4]. split; simpl; [symmetry; apply Nat.leb_refl|done|by right|done].
    + apply (server_next (Draining i) _ r _ j t (HA j t Hj)); try done. by apply shut_at_other.
  - split; [|by intros E; specialize (HV E)|done]. intros j t Hj.
    apply (server_next (Shutting i) _ r _ j t (HA j t Hj)); try done. intros [= ->]. by simplify_eq.
  - split; [|by intros E; specialize (HV E)|by rewrite (filter_same _ _ s)].
    intros j t [(<- & <- & _)|[Hne Hj]]%list_lookup_insert_Some.
    + destruct (HA i s H) as [S1 S2 S3 S4]. split; simpl; [done|done|by left|done].
    + apply (server_next (Shutting i) _ r _ j t (HA j t Hj)); try done. congruence.
  - split; [|by intros E; specialize (HV E)|done]. intros j t Hj.
    apply (server_next (Draining i) _ r _ j t (HA j t Hj)); try done. simpl. symmetry. apply Nat.ltb_lt.
    apply lookup_ge_None in H. apply lookup_lt_Some in Hj. lia.
  - by split.
  - split; [|by intros E; specialize (HV E)|done]. intros j t Hj. by apply (server_next Unwinding _ r _ j t (HA j t Hj)).
Qed.

Lemma servers_other p p' :
  other_step p p' -> servers_ok (pr_pc p) (pr_result p) (pr_servers p) (pr_errors p) (pr_serving p) ->
  servers_ok (pr_pc p') (pr_result p') (pr_servers p') (pr_errors p') (pr_serving p').
Proof.
  intros Hs Hok. pose proof (ss_all _ _ _ _ _ Hok) as HA. destruct Hs; simpl in *; try done.
  - eapply servers_insert; [done..| |]; [destruct (HA i s H) as [S1 S2 S3 S4]; split; simpl; auto; congruence|].
    unfold returned. simpl. repeat case_decide; congruence || lia.
  - eapply servers_insert; [done..| |]; [destruct (HA i s H) as [S1 S2 S3 S4]; by split|].
    unfold returned. rewrite length_app. simpl. repeat case_decide; congruence || lia.
  - eapply servers_insert; [done..| |]; [destruct (HA i s H) as [S1 S2 S3 S4]; by split|].
    unfold returned. rewrite length_app. simpl. repeat case_decide; congruence || lia.
  - eapply servers_insert; [done..| |done]. destruct (HA i s H) as [S1 S2 S3 S4]. split; simpl; congruence || done.
  - eapply servers_insert; [done..| |done]. destruct (HA i s H) as [S1 S2 S3 S4]. split; simpl; [done| |auto with lia|done].
    intros E. specialize (S2 E). lia.
Qed.

Lemma pstep_inv pg f p p' : pinv pg f p -> pstep p p' -> pinv pg f p'.
Proof.
  intros [HD HS HP] [Hne [Hs|Hs]].
  - split; [|by eapply servers_main|].
    + destruct Hs; simpl in *; try done. by eapply run_deferred_ok.
    + destruct Hs; simpl in *; try done; try by destruct HP. split; [done|]. rewrite length_insert. by eapply lookup_lt_Some.
  - split; [|by eapply servers_other|].
    + destruct Hs; simpl in *; try done. by apply defers_ok_ends.
    + destruct Hs; simpl in *; rewrite ?length_insert; done.
Qed.

(** ** Proofs: the start *)
Definition postgres (c : Config) : bool := String.eqb (cfg_SourceMode c) "postgres".

(** The deferred calls [Run] has made when it calls [RunWithSource]. *)
Definition outer_of (pg : bool) : list deferred := if pg then [CloseSource; CancelStartup] else [].

Lemma servers_ok_none p e : p <> Launching /\ p <> Waiting -> servers_ok p e [] [] false.
Proof. intros _. split; [intros j s Hj; by rewrite lookup_nil in Hj|done|done]. Qed.

Lemma servers_ok_fresh n : servers_ok Launching None (replicate n newServer) [] false.
Proof.
  split; [|done|simpl; lia]. intros j s [-> _]%lookup_replicate. by split.
Qed.

Section StartFacts.
Variable parseIPLiteral : string -> option string.
Variable unicodeLower : string -> string.
Variables (optimalBits : Z -> Z) (optimalHashes : Z -> Z -> Z).
Notation buildNode := (buildNode parseIPLiteral unicodeLower optimalBits optimalHashes).
Notation Validate := (Validate parseIPLiteral unicodeLower).
Notation RunWithSource := (RunWithSource parseIPLiteral unicodeLower optimalBits optimalHashes).
Notation RunProcess := (RunProcess parseIPLiteral unicodeLower optimalBits optimalHashes).

Lemma pinv_early pg f ds res e :
  defers_ok pg f ds res [] -> pinv pg f (early ds res e).
Proof. intros H. split; [done|by apply servers_ok_none|done]. Qed.

(** Deferred calls in order, over resources that are all there. *)
Lemma defers_ok_intro pg f ds res rn :
  StronglySorted earlier ds ->
  routerOpen res = bool_decide (CloseRouter ∈ ds) -> workLive res = bool_decide (CancelWork ∈ ds) ->
  (pg = true -> sourceOpen res = bool_decide (CloseSource ∈ ds)) ->
  relayLive res = bool_decide (JoinRelay ∈ ds) -> (Relay ∈ rn -> JoinRelay ∈ ds) -> AwaitRelay ∉ ds ->
  (JoinRelay ∈ ds -> CloseRouter ∈ ds) -> (CloseRouter ∈ ds -> CancelWork ∈ ds) ->
  (pg = true -> CancelWork ∈ ds -> CloseSource ∈ ds) ->
  (mutexFraction res = f \/ RestoreMutexFraction f ∈ ds) -> (forall f', RestoreMutexFraction f' ∈ ds -> f' = f) ->
  defers_ok pg f ds res rn.
Proof.
  intros HS Hr Hw Hs Hl Hj Ha H1 H2 H3 Hf Hrs. split; try done.
  - by rewrite Hr, bool_decide_eq_true.
  - by rewrite Hw, bool_decide_eq_true.
  - intros E. by rewrite (Hs E), bool_decide_eq_true.
  - by rewrite Hl, bool_decide_eq_true.
  - intros H. left. by apply Hj.
  - intros [?|?]; [by apply H1|done].
Qed.

Ltac concrete_defers :=
  unfold outer_of; apply defers_ok_intro; simpl; first [reflexivity|done|solve [repeat constructor]|set_solver].

Lemma outer_defers pg f rate : defers_ok pg f (outer_of pg) (mkResources true false false false f rate) [].
Proof. destruct pg; concrete_defers. Qed.

Lemma early_defers pg f rate :
  defers_ok pg f (CloseRouter :: CancelWork :: outer_of pg) (mkResources true true true false f rate) [].
Proof. destruct pg; concrete_defers. Qed.

Lemma running_defers pg f rate fraction' rate' (watched relay profiled : bool) :
  (relay = true -> pg = true) ->
  let base := if relay then JoinRelay :: CloseRouter :: CancelWork :: outer_of pg else CloseRouter :: CancelWork :: outer_of pg in
  defers_ok pg f (if profiled then ResetBlockRate :: RestoreMutexFraction f :: base else base)
    (if profiled then mkResources true true true relay fraction' rate' else mkResources true true true relay f rate)
    ((if watched then [Watching] else []) ++ [Maintenance] ++ (if relay then [Relay] else [])).
Proof. intros Hr. destruct pg, relay; [..|by specialize (Hr eq_refl)|]; destruct watched, profiled; concrete_defers. Qed.

Lemma boundAddresses_some c ls : length ls = length (nodeServers c) -> is_Some (boundAddresses c ls).
Proof.
  unfold nodeServers, boundAddresses. intros Hl.
  destruct (cfg_API c), (String.eqb (cfg_DebugAddr c) ""), ls as [|a [|b [|d [|]]]]; try discriminate Hl; by eexists.
Qed.

Lemma RunWithSource_ok c pg source queue kubeErr listen f rate :
  (queue = true -> pg = true) ->
  exists p, RunWithSource (outer_of pg) c source queue kubeErr listen f rate = Some p /\ pinv pg f p /\ (length (pr_servers p) <= 3)%nat /\
    (pr_pc p = Launching ->
     pr_result p = None /\ length (pr_servers p) = length (nodeServers c) /\
     exists s n, source = Some s /\ buildNode c (Some s) kubeErr = Some (inl n)).
Proof.
  intros Hq. unfold RunWithSource.
  destruct (Validate c) as [e|] eqn:Ev; [eexists; split; [done|]; split; [|split; [simpl; lia|done]]; apply pinv_early, outer_defers|].
  destruct source as [s|]; [|eexists; split; [done|]; split; [|split; [simpl; lia|done]]; apply pinv_early, outer_defers].
  destruct (buildNode_ok parseIPLiteral unicodeLower optimalBits optimalHashes c (Some s) kubeErr) as (r & Hr & _).
  rewrite Hr. cbn [mbind option_bind].
  destruct r as [n|e]; [|eexists; split; [done|]; split; [|split; [simpl; lia|done]]; apply pinv_early, early_defers].
  pose proof (bindServers_all_or_nothing (Addr <$> nodeServers c) listen) as Hb.
  destruct (bindServers _ listen []) as [[ls closed] [e|]];
    [eexists; split; [done|]; split; [|split; [simpl; lia|done]]; apply pinv_early, early_defers|].
  destruct Hb as (_ & Hl & _). rewrite length_fmap in Hl. destruct (boundAddresses_some c ls Hl) as [m ->].
  cbn [mbind option_bind]. eexists. split; [done|]. split; [|split; [|intros _; simpl; rewrite length_replicate; eauto 10]].
  2: { simpl. rewrite length_replicate, Hl. unfold nodeServers. destruct (cfg_API c), (negb _); simpl; lia. }
  split; simpl; [|apply servers_ok_fresh|].
  - apply running_defers. intros E. apply Hq. by destruct queue.
  - destruct (cfg_ProfileContention c), (queue && _); set_solver.
Qed.

(** [Run] agrees with what [Demo.Run] says of assembly: the process gets to its
    servers only with the node that was assembled. *)
Lemma RunProcess_ok open c kubeErr listen f rate :
  exists p, RunProcess open c kubeErr listen f rate = Some p /\ pinv (postgres c) f p /\ (length (pr_servers p) <= 3)%nat /\
    (pr_pc p = Launching ->
     pr_result p = None /\ length (pr_servers p) = length (nodeServers c) /\
     exists n, Demo.Run parseIPLiteral unicodeLower optimalBits optimalHashes open c kubeErr = Some (inl n)).
Proof.
  unfold RunProcess, Demo.Run. set (nothing := mkResources false false false false f rate).
  assert (forall pg ds, ds = [] \/ ds = [CancelStartup] -> defers_ok pg f ds nothing []) as Hn
    by (intros pg ds [->| ->]; subst nothing; concrete_defers).
  destruct (Validate c) as [e|]; [eexists; split; [done|]; split; [|split; [simpl; lia|done]]; apply pinv_early, Hn; by left|].
  destruct (validateSourceConfig c) as [e|]; [eexists; split; [done|]; split; [|split; [simpl; lia|done]]; apply pinv_early, Hn; by left|].
  unfold postgres. destruct (_ || _) eqn:Em.
  - assert (String.eqb (cfg_SourceMode c) "postgres" = false) as ->
      by (apply orb_true_iff in Em as [E|E]; apply String.eqb_eq in E; by rewrite E).
    change (Demo.New (100 * Millisecond)) with (Some (Demo.mkDemo (Demo.allValues 0) (100 * Millisecond))). cbn [mbind option_bind].
    destruct (RunWithSource_ok c false (Some (demoSource (Demo.mkDemo (Demo.allValues 0) (100 * Millisecond)))) false kubeErr listen f rate)
      as (p & E & Hp & H3 & HL); [done|]. exists p. split; [exact E|]. split; [done|]. split; [done|]. intros E2.
    destruct (HL E2) as (H1 & H2 & s & n & [= <-] & Hb). eauto.
  - destruct (String.eqb (cfg_SourceMode c) "postgres") eqn:Ep; cycle 1.
    { eexists; split; [done|]; split; [|split; [simpl; lia|done]]; apply pinv_early, Hn; by left. }
    destruct (open _ _) as [pools [e|]]; [eexists; split; [done|]; split; [|split; [simpl; lia|done]]; apply pinv_early, Hn; by right|].
    destruct (RunWithSource_ok c true (Some postgresSource) true kubeErr listen f rate) as (p & E & Hp & H3 & HL); [done|].
    exists p. split; [exact E|]. split; [done|]. split; [done|]. intros E2. destruct (HL E2) as (H1 & H2 & s & n & [= <-] & Hb). eauto.
Qed.
End StartFacts.

(** ** The theorems *)

(** How many steps the main goroutine still takes at most. *)
Definition cost (d : deferred) : nat := match d with JoinRelay => 2 | _ => 1 end.
Definition costs (ds : list deferred) : nat := sum_list (cost <$> ds).
#[export] Instance pc_eq_dec : EqDecision pc.
Proof. solve_decision. Defined.
Definition measure (p : process) : nat :=
  let n := length (pr_servers p) in
  match pr_pc p with
  | Launching => 2 * n + 5 + costs (pr_defers p)
  | Waiting => 2 * n + 4 + costs (pr_defers p)
  | Draining i => 2 * (n - i) + 3 + costs (pr_defers p)
  | Shutting i => 2 * (n - i) + 2 + costs (pr_defers p)
  | Unwinding => 1 + costs (pr_defers p)
  | Returned => 0
  end.

Lemma costs_cons d ds : costs (d :: ds) = (cost d + costs ds)%nat.
Proof. done. Qed.

Lemma main_measure p p' : main_step p p' -> (measure p' < measure p)%nat.
Proof.
  destruct 1; unfold measure; cbn [pr_pc pr_servers pr_defers]; rewrite ?length_insert;
    try match goal with H : _ !! _ = Some _ |- _ => apply lookup_lt_Some in H end; try lia.
  rewrite costs_cons. destruct d; simpl in H; try (destruct (decide (Relay ∈ rn)); [done|]); injection H as <- <-;
    cbn [app]; rewrite ?costs_cons; simpl cost; lia.
Qed.

Lemma other_measure p p' : other_step p p' -> measure p' = measure p.
Proof. destruct 1; unfold measure; cbn [pr_pc pr_servers pr_defers]; by rewrite ?length_insert. Qed.

(** The main goroutine is never stuck: it can step, or it waits for the relay,
    which has been told to stop. *)
Lemma main_progress pg f p :
  pinv pg f p -> pr_pc p <> Returned ->
  (exists p', main_step p p') \/ (exists p1 p', relayLive (pr_res p) = false /\ other_step p p1 /\
     pr_running p1 = filter (fun g => g <> Relay) (pr_running p) /\ main_step p1 p' /\ pr_pc p1 <> Returned).
Proof.
  intros [HD HS HP]. destruct p as [p ds r res rn svs errs sv ld]. simpl in *. intros Hne.
  destruct p as [| |i|i| |]; [left; eexists; constructor..| | | |done].
  - destruct (svs !! i) as [s|] eqn:E; left; eexists; [by eapply ms_shutdown|by eapply ms_all].
  - destruct HP as [_ [s E]%lookup_lt_is_Some]. left. eexists. by eapply (ms_forced i s DeadlineExceeded).
  - destruct ds as [|d ds]; [left; eexists; constructor|].
    destruct (run_deferred d res rn) as [[pre res']|] eqn:E; [left; eexists; by eapply ms_deferred|right].
    destruct d; simpl in E; try done. destruct (decide (Relay ∈ rn)); [|done].
    assert (relayLive res = false) as Hl.
    { destruct (relayLive res) eqn:El; [|done]. pose proof (df_relay_live _ _ _ _ _ HD El) as H.
      apply elem_of_cons in H as [|H]; [done|]. exfalso.
      by apply (later_deferred _ _ (df_sorted _ _ _ _ _ HD) JoinRelay). }
    eexists _, _. split; [done|]. split; [by apply (os_ends Relay)|]. split; [done|]. split; [|done].
    eapply ms_deferred. simpl. rewrite decide_False; [done|]. intros [H _]%list_elem_of_filter. done.
Qed.

Lemma pinv_returns pg f p : pinv pg f p -> exists p', rtc pstep p p' /\ pr_pc p' = Returned.
Proof.
  remember (measure p) as n eqn:En. revert p En. induction (lt_wf n) as [n _ IH]. intros p -> HI.
  destruct (decide (pr_pc p = Returned)) as [|Hne]; [exists p; split; [apply rtc_refl|done]|].
  destruct (main_progress pg f p HI Hne) as [[p1 Hs]|(p1 & p2 & _ & Ho & _ & Hs & Hne1)].
  - assert (pstep p p1) as Hp by (split; [done|by left]).
    destruct (IH (measure p1) (main_measure _ _ Hs) p1 eq_refl (pstep_inv _ _ _ _ HI Hp)) as (p' & Hr & He).
    exists p'. split; [by eapply rtc_l|done].
  - assert (pstep p p1) as Hp1 by (split; [done|by right]). assert (pstep p1 p2) as Hp2 by (split; [done|by left]).
    pose proof (main_measure _ _ Hs) as Hm. rewrite (other_measure _ _ Ho) in Hm.
    destruct (IH (measure p2) Hm p2 eq_refl) as (p' & Hr & He); [by eapply pstep_inv, Hp2; eapply pstep_inv|].
    exists p'. split; [by eapply rtc_l; [|by eapply rtc_l]|done].
Qed.

Lemma psteps_inv pg f p p' : pinv pg f p -> rtc pstep p p' -> pinv pg f p'.
Proof. intros HI Hr. induction Hr as [|p p1 p' Hs Hr IH]; [done|]. by apply IH; eapply pstep_inv. Qed.

(** The deferred calls take at most eight steps, in whatever state. *)
Definition steps_from (k : nat) : nat := if (k <=? 2)%nat then 8 - k else 7 - k.
Lemma costs_sorted k ds : StronglySorted earlier ds -> Forall (fun d => k <= rank d)%nat ds -> (costs ds <= steps_from k)%nat.
Proof.
  intros HS. revert k. induction HS as [|d ds HS IH HF]; intros k Hk; [apply Nat.le_0_l|].
  apply Forall_cons in Hk as [Hk _]. rewrite costs_cons.
  specialize (IH (S (rank d)) HF). revert IH Hk. unfold steps_from. destruct d; simpl;
    repeat (destruct k as [|k]; simpl; try lia).
Qed.

Lemma measure_bound pg f p : pinv pg f p -> (length (pr_servers p) <= 3)%nat -> (measure p <= 19)%nat.
Proof.
  intros [HD _ _] Hn. assert (costs (pr_defers p) <= 8)%nat as Hc.
  { apply (costs_sorted 0); [apply HD|]. apply Forall_forall. intros d _. apply Nat.le_0_l. }
  unfold measure. destruct (pr_pc p); lia.
Qed.

Section Theorems.
Variable parseIPLiteral : string -> option string.
Variable unicodeLower : string -> string.
Variables (optimalBits : Z -> Z) (optimalHashes : Z -> Z -> Z).
Notation RunProcess := (RunProcess parseIPLiteral unicodeLower optimalBits optimalHashes).
Notation Run := (Demo.Run parseIPLiteral unicodeLower optimalBits optimalHashes).


(** C20: a shutdown ends: from every state a node's process can be in, its main
    goroutine has at most 19 steps left, every one of its steps brings the end
    nearer and nothing else moves it away; it is never stuck, except that it
    may wait for the relay, which by then has been told to stop and may end at
    once; so [Run] can always return, whatever requests, loads and other
    goroutines do or fail to do. *)
Theorem shutdown_terminates open c kubeErr listen f rate p0 p :
  RunProcess open c kubeErr listen f rate = Some p0 -> rtc pstep p0 p ->
  (measure p <= 19)%nat /\
  (forall p', main_step p p' -> (measure p' < measure p)%nat) /\
  (forall p', other_step p p' -> measure p' = measure p) /\
  (pr_pc p <> Returned -> (exists p', main_step p p') \/
     (exists p1 p', relayLive (pr_res p) = false /\ other_step p p1 /\ pr_running p1 = filter (fun g => g <> Relay) (pr_running p) /\
        main_step p1 p')) /\
  exists p', rtc pstep p p' /\ pr_pc p' = Returned.
Proof.
  intros Hp0 Hr.
  destruct (RunProcess_ok parseIPLiteral unicodeLower optimalBits optimalHashes open c kubeErr listen f rate)
    as (p0' & Hp0' & HI0 & Hn & _). replace p0' with p0 in * by congruence.
  pose proof (psteps_inv _ _ _ _ HI0 Hr) as HI.
  assert (length (pr_servers p) = length (pr_servers p0)) as Hlen.
  { clear -Hr. induction Hr as [|p p1 p' [_ Hs] Hr IH]; [done|]. rewrite IH.
    destruct Hs as [Hs|Hs]; destruct Hs; simpl; by rewrite ?length_insert. }
  split; [apply (measure_bound _ _ _ HI); lia|]. split; [intros p'; apply main_measure|].
  split; [intros p'; apply other_measure|]. split; [|by eapply pinv_returns].
  intros Hne. destruct (main_progress _ _ _ HI Hne) as [?|(p1 & p' & Hl & Ho & Hrn & Hs & _)]; [by left|].
  right. by exists p1, p'.
Qed.
End Theorems.

(** ** A concrete life: a node on PostgreSQL that is told to stop while a
    request is at work *)
Definition sample_listen (i : nat) (a : string) : string + error := inl a.
Definition sample_process : process :=
  mkProcess Launching [JoinRelay; CloseRouter; CancelWork; CloseSource; CancelStartup] None
    (mkResources true true true true 5 0) [Maintenance; Relay] [newServer; newServer] [] false 0.
Definition sample_busy : server := mkServer Accepting false false 1.
Definition sample_stopping : process :=
  mkProcess (Draining 0) [JoinRelay; CloseRouter; CancelWork; CloseSource; CancelStartup] None
    (mkResources true true true true 5 0) [Maintenance; Relay] [newServer; sample_busy] [] false 0.

Lemma sample_process_start :
  RunProcess (fun _ => None) (fun s => s) (fun _ => 64) (fun _ _ => 1) sample_open sample_node_config None sample_listen 5 0
  = Some sample_process.
Proof. vm_compute. reflexivity. Qed.

Lemma sample_process_run : rtc pstep sample_process sample_stopping.
Proof.
  eapply rtc_l; [split; [done|left; apply ms_launch]|].
  eapply rtc_l; [split; [done|right; by apply (os_serve 1 newServer)]|].
  eapply rtc_l; [split; [done|right; by apply (os_request 1 (with_phase newServer Accepting))]|].
  eapply rtc_once. split; [done|left; apply ms_signal].
Qed.

Lemma shutdown_terminates_witness :
  measure sample_stopping = 13%nat /\ exists p', rtc pstep sample_stopping p' /\ pr_pc p' = Returned.
Proof.
  split; [reflexivity|].
  exact (proj2 (proj2 (proj2 (proj2 (shutdown_terminates (fun _ => None) (fun s => s) (fun _ => 64) (fun _ _ => 1)
    sample_open sample_node_config None sample_listen 5 0 sample_process sample_stopping sample_process_start sample_process_run))))).
Defined.

(** The same stop when the request is answered in time: no error. *)
Example sample_clean_stop :
  exists p', rtc pstep sample_stopping p' /\ pr_pc p' = Returned /\ pr_result p' = None /\ sourceOpen (pr_res p') = false.
Proof.
  eexists. split.
  - eapply rtc_l; [split; [done|left; by apply (ms_shutdown 0 newServer)]|].
    eapply rtc_l; [split; [done|left; by eapply (ms_drained 0)]|].
    eapply rtc_l; [split; [done|left; by apply (ms_shutdown 1 sample_busy)]|].
    eapply rtc_l; [split; [done|right; by eapply (os_answer 1)]|].
    eapply rtc_l; [split; [done|left; by eapply (ms_drained 1)]|].
    eapply rtc_l; [split; [done|left; by apply (ms_all 2)]|].
    eapply rtc_l; [split; [done|left; by eapply ms_deferred]|].
    eapply rtc_l; [split; [done|right; by apply (os_ends Relay)]|].
    do 5 (eapply rtc_l; [split; [done|left; by eapply ms_deferred]|]).
    eapply rtc_l; [split; [done|left; apply ms_return]|]. apply rtc_refl.
  - done.
Qed.
