(* ===== verification/Operator.v ===== *)
(** * The operator's desired state
      ([simplecache-operator]: [api/v1/simplecache_types.go],
       [internal/controller/resources.go], [internal/controller/validation.go])

    A [SimpleCache] resource is defaulted, validated and turned into the
    objects the controller maintains. Kubernetes' own name checks are
    parameters; a quantity is its exact value in units of 10^-9 (Kubernetes'
    finest scale), compared as a number. A map is ranged over in any order. *)
From S2P Require Import Prelude GoStrings NetAddr Errors LRU CacheStore Bloom Admission Group Read Directory Protocol Postgres Api Config.

Abbreviation ResourceList := (gmap string Z).
Record ResourceRequirements := mkResources { Requests : option ResourceList; Limits : option ResourceList }.

Record GatewaySpec := mkGateway { ClassName : string; Replicas : Z }.

Record SimpleCacheSpec := mkSpec {
  sp_Gateway : option GatewaySpec;
  sp_Size : Z;
  sp_Image : string;
  sp_SourceSecret : string;
  sp_CacheBytes : Z;
  sp_TTLSeconds : Z;
  sp_MaxMissWaiters : Z;
  sp_SourceMaxPending : option Z;
  sp_MaxConcurrentWrites : Z;
  sp_Resources : ResourceRequirements;
}.

(** The metadata of an API object, as far as the controller reads or sets it. *)
Record OwnerReference := mkOwnerRef { or_UID : string; or_Controller : bool }.
Record ObjectMeta := mkMeta {
  m_Name : string;
  m_Namespace : string;
  m_UID : string;
  m_ResourceVersion : string;
  m_Generation : Z;
  m_DeletionTimestamp : option Time;
  m_OwnerReferences : list OwnerReference;
}.

Record Condition := mkCondition {
  c_Type : string;
  c_Status : string;
  c_Reason : string;
  c_Message : string;
  c_ObservedGeneration : Z;
  c_LastTransitionTime : Time;
}.
Record SimpleCacheStatus := mkStatus {
  st_ObservedGeneration : Z;
  st_ReadyReplicas : Z;
  st_Conditions : list Condition;
}.
Record SimpleCache := mkSimpleCache { cr_Meta : ObjectMeta; cr_Spec : SimpleCacheSpec; cr_Status : SimpleCacheStatus }.
Definition cr_Name (cr : SimpleCache) : string := m_Name (cr_Meta cr).
Definition cr_Namespace (cr : SimpleCache) : string := m_Namespace (cr_Meta cr).
Definition cr_Generation (cr : SimpleCache) : Z := m_Generation (cr_Meta cr).

(** A missing ([nil]) map reads as empty. *)
Definition rl (m : option ResourceList) : ResourceList := default ∅ m.

(** ** [defaults] *)
Definition defaultGateway (g : GatewaySpec) : GatewaySpec :=
  mkGateway (orElse (ClassName g) "eg") (default_to 2 (Replicas g)).

Definition defaults (cr : SimpleCache) : SimpleCache :=
  let s := cr_Spec cr in
  mkSimpleCache (cr_Meta cr)
    (mkSpec (defaultGateway <$> sp_Gateway s) (default_to 3 (sp_Size s)) (sp_Image s) (sp_SourceSecret s)
       (default_to (64 * MiB) (sp_CacheBytes s)) (default_to 60 (sp_TTLSeconds s)) (default_to 128 (sp_MaxMissWaiters s))
       (Some (default 128 (sp_SourceMaxPending s))) (default_to 16 (sp_MaxConcurrentWrites s)) (sp_Resources s))
    (cr_Status cr).

(** ** Validation *)
Section Operator.
(** [validation.IsDNS1035Label] and its siblings report no problem. *)
Variables IsDNS1035Label IsDNS1123Label IsDNS1123Subdomain : string -> bool.
(** The order in which a map is ranged over. *)
Variable range : ResourceList -> list (string * Z).

Definition validateGateway (cr : SimpleCache) : option error :=
  match sp_Gateway (cr_Spec cr) with
  | None => None
  | Some g =>
      if negb (IsDNS1123Subdomain (ClassName g)) || (Replicas g <? 1) || (8 <? Replicas g)
      then fails "gateway className or replica count is invalid"
      else if (55 <? slen (cr_Name cr)) || negb (IsDNS1123Label (cr_Name cr))
      then fails "gateway mode requires a DNS label name of at most 55 characters"
      else None
  end.

(** The two loops over the resource maps. *)
Fixpoint checkRequests (limits : ResourceList) (l : list (string * Z)) : option error :=
  match l with
  | [] => None
  | (name, q) :: l' =>
      if q <? 0 then fails ("negative request for " +:+ name)
      else if match limits !! name with Some limit => limit <? q | None => false end
      then fails ("request exceeds limit for " +:+ name)
      else checkRequests limits l'
  end.
Fixpoint checkLimits (l : list (string * Z)) : option error :=
  match l with
  | [] => None
  | (name, q) :: l' => if q <? 0 then fails ("negative limit for " +:+ name) else checkLimits l'
  end.

Definition validateSpec (cr : SimpleCache) : option error :=
  let s := cr_Spec cr in
  let maxName := match sp_Gateway s with Some _ => 55 | None => 59 end in
  if (maxName <? slen (cr_Name cr)) || negb (IsDNS1035Label (cr_Name cr))
  then fails ("name must be a DNS label starting with a letter, at most " +:+ FormatInt maxName +:+ " characters")
  else match validateGateway cr with
  | Some e => Some e
  | None =>
      if negb (String.eqb (sp_SourceSecret s) "") && negb (IsDNS1123Subdomain (sp_SourceSecret s))
      then fails "sourceSecret must be a valid Secret name"
      else if String.eqb (TrimSpace (sp_Image s)) "" || (sp_Size s <? 1) || (10 <? sp_Size s) ||
              (sp_CacheBytes s <? MiB) || (128 * MiB <? sp_CacheBytes s) ||
              (sp_TTLSeconds s <? 1) || (3600 <? sp_TTLSeconds s)
      then fails "image, replica count, cache capacity or TTL is invalid"
      else if (sp_MaxMissWaiters s <? 1) || (4096 <? sp_MaxMissWaiters s) ||
              (sp_MaxConcurrentWrites s <? 1) || (256 <? sp_MaxConcurrentWrites s)
      then fails "miss waiter or write concurrency budget is invalid"
      else if match sp_SourceMaxPending s with Some p => (p <? 0) || (4096 <? p) | None => false end
      then fails "sourceMaxPending must be between 0 and 4096"
      else match checkRequests (rl (Limits (sp_Resources s))) (range (rl (Requests (sp_Resources s)))) with
      | Some e => Some e
      | None => checkLimits (range (rl (Limits (sp_Resources s))))
      end
  end.

End Operator.

(** ** [resourceDefaults] *)
Definition nano : Z := 1000000000.
Definition defaultRequests : list (string * Z) := [("cpu", nano / 10); ("memory", 128 * MiB * nano)].

Definition defaultRequest (limits requests : ResourceList) (nq : string * Z) : ResourceList :=
  let '(name, q) := nq in
  match requests !! name with
  | Some _ => requests
  | None =>
      let q := match limits !! name with Some limit => if limit <? q then limit else q | None => q end in
      <[name := q]> requests
  end.

Definition resourceDefaults (input : ResourceRequirements) : ResourceRequirements :=
  let limits := rl (Limits input) in
  let requests := foldl (defaultRequest limits) (rl (Requests input)) defaultRequests in
  let limits :=
    match limits !! "memory" with
    | Some _ => limits
    | None =>
        let limit := 256 * MiB * nano in
        let request := default 0 (requests !! "memory") in
        <["memory" := if limit <? request then request else limit]> limits
    end in
  mkResources (Some requests) (Some limits).

(** ** The objects *)
Definition labels (cr : SimpleCache) : gmap string string := {["app" := cr_Name cr]}.
Definition metadata (cr : SimpleCache) (name : string) : ObjectMeta :=
  mkMeta name (cr_Namespace cr) "" "" 0 None [].
Definition with_Name (m : ObjectMeta) (name : string) : ObjectMeta :=
  mkMeta name (m_Namespace m) (m_UID m) (m_ResourceVersion m) (m_Generation m) (m_DeletionTimestamp m) (m_OwnerReferences m).

Record ServicePort := mkServicePort { sv_Name : string; sv_Port : Z; sv_TargetPort : Z; sv_Protocol : string }.
Record Service := mkService {
  svc_Meta : ObjectMeta;
  svc_Type : string;
  svc_ClusterIP : string;
  svc_Selector : gmap string string;
  svc_Ports : list ServicePort;
  svc_PublishNotReady : bool;
}.

Definition clusterService (cr : SimpleCache) : Service :=
  mkService (metadata cr (cr_Name cr +:+ "-svc")) "ClusterIP" "None" (labels cr)
    [mkServicePort "cluster" 8001 8001 "TCP"] false.
Definition apiService (cr : SimpleCache) : Service :=
  mkService (metadata cr (cr_Name cr +:+ "-api")) "ClusterIP" "" (labels cr)
    [mkServicePort "api" 9999 9999 "TCP"] false.

(** A shard's Service selects one Pod of the StatefulSet ([gateway.go]). *)
Definition podNameLabel : string := "statefulset.kubernetes.io/pod-name".
Definition shardService (cr : SimpleCache) (ordinal : Z) : Service :=
  let svc := apiService cr in
  mkService (with_Name (svc_Meta svc) (cr_Name cr +:+ "-shard-" +:+ FormatInt ordinal))
    (svc_Type svc) (svc_ClusterIP svc)
    (<[podNameLabel := cr_Name cr +:+ "-" +:+ FormatInt ordinal]> (svc_Selector svc)) (svc_Ports svc)
    (svc_PublishNotReady svc).

(** The ServiceAccount of the Pods, the Role that lets them read
    EndpointSlices, and the binding of the two. *)
Record PolicyRule := mkRule { APIGroups : list string; RuleResources : list string; Verbs : list string }.
Record RoleRef := mkRoleRef { rr_APIGroup : string; rr_Kind : string; rr_Name : string }.
Record Subject := mkSubject { su_Kind : string; su_Name : string; su_Namespace : string }.
Record ServiceAccount := mkAccount { sa_Meta : ObjectMeta }.
Record Role := mkRole { ro_Meta : ObjectMeta; ro_Rules : list PolicyRule }.
Record RoleBinding := mkBinding { rb_Meta : ObjectMeta; rb_RoleRef : RoleRef; rb_Subjects : list Subject }.

Definition account (cr : SimpleCache) : ServiceAccount := mkAccount (metadata cr (cr_Name cr +:+ "-cache")).
Definition discoveryRole (cr : SimpleCache) : Role :=
  mkRole (metadata cr (cr_Name cr +:+ "-discovery"))
    [mkRule ["discovery.k8s.io"] ["endpointslices"] ["get"; "list"; "watch"]].
Definition discoveryBinding (cr : SimpleCache) : RoleBinding :=
  mkBinding (metadata cr (cr_Name cr +:+ "-discovery"))
    (mkRoleRef "rbac.authorization.k8s.io" "Role" (cr_Name cr +:+ "-discovery"))
    [mkSubject "ServiceAccount" (cr_Name cr +:+ "-cache") (cr_Namespace cr)].

Inductive EnvSource := EnvValue (v : string) | EnvField (path : string) | EnvSecret (secret key : string).
Abbreviation EnvVar := (string * EnvSource)%type.

Definition cacheEnv (cr : SimpleCache) : list EnvVar :=
  let s := cr_Spec cr in
  [("POD_NAME", EnvField "metadata.name");
   ("POD_NAMESPACE", EnvField "metadata.namespace");
   ("DISCOVERY_MODE", EnvValue "kubernetes");
   ("CLUSTER_SERVICE", EnvValue (cr_Name cr +:+ "-svc"));
   ("CACHE_BYTES", EnvValue (FormatInt (sp_CacheBytes s)));
   ("TTL_SECONDS", EnvValue (FormatInt (sp_TTLSeconds s)));
   ("MAX_MISS_WAITERS", EnvValue (FormatInt (sp_MaxMissWaiters s)));
   ("SOURCE_MAX_PENDING", EnvValue (FormatInt (default 128 (sp_SourceMaxPending s))));
   ("WRITE_MAX_CONCURRENCY", EnvValue (FormatInt (sp_MaxConcurrentWrites s)))] ++
  (if String.eqb (sp_SourceSecret s) "" then []
   else ("SOURCE_MODE", EnvValue "postgres") ::
        ((fun name => (name, EnvSecret (sp_SourceSecret s) name)) <$> ["DATABASE_URL"; "CACHE_ADMIN_TOKEN"])).

Record Probe := mkProbe { pr_Path : string; pr_Port : Z; pr_Period : Z; pr_Timeout : Z; pr_Failures : Z; pr_Successes : Z }.
Definition probe (path : string) : Probe := mkProbe path 9999 2 1 3 1.

(** [ct_Other], [pt_Other]: the fields of the API types that the operator
    never names, by name. *)
Record Container := mkContainer {
  ct_Name : string;
  ct_Image : string;
  ct_PullPolicy : string;
  ct_Command : list string;
  ct_Args : list string;
  ct_Ports : list (string * Z * string);
  ct_Env : list EnvVar;
  ct_Resources : ResourceRequirements;
  ct_Startup : option Probe;
  ct_Liveness : option Probe;
  ct_Readiness : option Probe;
  ct_Other : gmap string string;
}.
Record PodTemplateSpec := mkTemplate {
  pt_Labels : option (gmap string string);
  pt_Annotations : option (gmap string string);
  pt_ServiceAccountName : string;
  pt_DeprecatedServiceAccount : string;
  pt_Grace : option Z;
  pt_Containers : list Container;
  pt_Other : gmap string string;
}.
Record StatefulSetSpec := mkStatefulSetSpec {
  ss_Replicas : Z;
  ss_ServiceName : string;
  ss_PodManagement : string;
  ss_Selector : gmap string string;
  ss_Template : PodTemplateSpec;
}.
Record StatefulSetStatus := mkStatefulSetStatus {
  sst_ObservedGeneration : Z;
  sst_ReadyReplicas : Z;
  sst_UpdatedReplicas : Z;
  sst_CurrentRevision : string;
  sst_UpdateRevision : string;
}.
Record StatefulSet := mkStatefulSet { ss_Meta : ObjectMeta; ss_Spec : StatefulSetSpec; ss_Status : StatefulSetStatus }.

Definition statefulSet (cr : SimpleCache) : StatefulSet :=
  let s := cr_Spec cr in
  let startup := mkProbe "/healthz" 9999 2 1 30 1 in
  mkStatefulSet (metadata cr (cr_Name cr))
    (mkStatefulSetSpec (sp_Size s) (cr_Name cr +:+ "-svc") "Parallel" (labels cr)
       (mkTemplate (Some (labels cr))
          (Some (list_to_map [("prometheus.io/scrape", "true"); ("prometheus.io/port", "9999"); ("prometheus.io/path", "/metrics")]))
          (cr_Name cr +:+ "-cache") "" (Some 10)
          [mkContainer "cache" (sp_Image s) "IfNotPresent" ["./geecache-server"; "-port=8001"; "-api=true"] []
             [("cluster", 8001, "TCP"); ("api", 9999, "TCP")] (cacheEnv cr) (resourceDefaults (sp_Resources s))
             (Some startup) (Some (probe "/healthz")) (Some (probe "/readyz")) ∅] ∅))
    (mkStatefulSetStatus 0 0 0 "" "").

(** ** What the container sees

    Kubernetes resolves a variable from its value, from a field of the Pod or
    from a key of a Secret; the last entry of a name wins. *)
Definition resolveEnv (field : string -> string) (secret : string -> string -> string) (src : EnvSource) : string :=
  match src with
  | EnvValue v => v
  | EnvField path => field path
  | EnvSecret s k => secret s k
  end.
Definition podGetenv (field : string -> string) (secret : string -> string -> string) (env : list EnvVar) (name : string) : string :=
  match last (filter (fun e => e.1 = name) env) with
  | Some (_, src) => resolveEnv field secret src
  | None => ""
  end.

(** ** Proofs *)
Section Facts.
Variables IsDNS1035Label IsDNS1123Label IsDNS1123Subdomain : string -> bool.
Variable range : ResourceList -> list (string * Z).
Hypothesis range_perm : forall m, range m ≡ₚ map_to_list m.
Notation validateSpec := (validateSpec IsDNS1035Label IsDNS1123Label IsDNS1123Subdomain range).

(** No negative amount, no request above its limit. *)
Definition resources_ok (r : ResourceRequirements) : Prop :=
  (forall name q, rl (Requests r) !! name = Some q -> 0 <= q /\ forall l, rl (Limits r) !! name = Some l -> q <= l) /\
  (forall name q, rl (Limits r) !! name = Some q -> 0 <= q).

Lemma checkRequests_ok limits l :
  checkRequests limits l = None ->
  forall name q, (name, q) ∈ l -> 0 <= q /\ forall lim, limits !! name = Some lim -> q <= lim.
Proof.
  induction l as [|[n q] l IH]; intros H name q'; [by rewrite elem_of_nil|]. cbn [checkRequests] in H.
  destruct (q <? 0) eqn:E1; [done|]. destruct (match limits !! n with Some _ => _ | None => _ end) eqn:E2; [done|].
  intros [[= -> ->]|Hin]%elem_of_cons; [|by apply IH]. reflect_bool. split; [done|].
  intros lim Hl. rewrite Hl in E2. reflect_bool. lia.
Qed.

Lemma checkLimits_ok l : checkLimits l = None -> forall name q, (name, q) ∈ l -> 0 <= q.
Proof.
  induction l as [|[n q] l IH]; intros H name q'; [by rewrite elem_of_nil|]. cbn [checkLimits] in H.
  destruct (q <? 0) eqn:E; [done|]. intros [[= -> ->]|Hin]%elem_of_cons; [by reflect_bool|by eapply IH].
Qed.

Lemma range_elem m name q : (name, q) ∈ range m <-> m !! name = Some q.
Proof. rewrite range_perm. apply elem_of_map_to_list. Qed.

(** The bounds [validateSpec] establishes. *)
Record spec_ok (s : SimpleCacheSpec) : Prop := {
  so_size : 1 <= sp_Size s <= 10;
  so_bytes : MiB <= sp_CacheBytes s <= 128 * MiB;
  so_ttl : 1 <= sp_TTLSeconds s <= 3600;
  so_waiters : 1 <= sp_MaxMissWaiters s <= 4096;
  so_writes : 1 <= sp_MaxConcurrentWrites s <= 256;
  so_pending : forall p, sp_SourceMaxPending s = Some p -> 0 <= p <= 4096;
  so_resources : resources_ok (sp_Resources s);
}.

Lemma validateSpec_ok cr : validateSpec cr = None -> spec_ok (cr_Spec cr).
Proof.
  unfold Operator.validateSpec. intros H.
  destruct (_ || negb (IsDNS1035Label _)); [done|]. destruct (validateGateway _ _ _); [done|].
  destruct (_ && negb (IsDNS1123Subdomain _)); [done|].
  match type of H with (if ?b then _ else _) = None => destruct b eqn:E1; [done|] end.
  match type of H with (if ?b then _ else _) = None => destruct b eqn:E2; [done|] end.
  match type of H with (if ?b then _ else _) = None => destruct b eqn:E3; [done|] end.
  destruct (checkRequests _ _) eqn:E4; [done|]. reflect_bool. split; try lia.
  - intros p Hp. rewrite Hp in E3. reflect_bool. lia.
  - split.
    + intros name q Hq. apply (checkRequests_ok _ _ E4). by apply range_elem.
    + intros name q Hq. apply (checkLimits_ok _ H name). by apply range_elem.
Qed.

Lemma defaultRequest_ok limits requests name q :
  0 <= q -> (forall n l, limits !! n = Some l -> 0 <= l) ->
  (forall n r, requests !! n = Some r -> 0 <= r /\ forall l, limits !! n = Some l -> r <= l) ->
  (forall n r, defaultRequest limits requests (name, q) !! n = Some r -> 0 <= r /\ forall l, limits !! n = Some l -> r <= l) /\
  is_Some (defaultRequest limits requests (name, q) !! name) /\ requests ⊆ defaultRequest limits requests (name, q).
Proof.
  intros Hq Hl Hr. unfold defaultRequest. destruct (requests !! name) as [r0|] eqn:E; [by split_and!; eauto|].
  split_and!; [|by rewrite lookup_insert_eq; eauto|by apply insert_subseteq].
  intros n r. destruct (decide (n = name)) as [->|Hne]; [|rewrite lookup_insert_ne by done; apply Hr].
  rewrite lookup_insert_eq. intros [= <-]. destruct (limits !! name) as [l|] eqn:El.
  - pose proof (Hl name l El). destruct (l <? q) eqn:E2; reflect_bool; (split; [lia|]); intros ? [= <-]; lia.
  - split; [done|]. intros ? [=].
Qed.

(** Defaulting the resources of a validated specification keeps every
    amount the user gave, adds requests for CPU and memory and a memory limit,
    and never asks for more than a limit allows. *)
Theorem resourceDefaults_consistent r :
  resources_ok r ->
  resources_ok (resourceDefaults r) /\
  rl (Requests r) ⊆ rl (Requests (resourceDefaults r)) /\ rl (Limits r) ⊆ rl (Limits (resourceDefaults r)) /\
  is_Some (rl (Requests (resourceDefaults r)) !! "cpu") /\ is_Some (rl (Requests (resourceDefaults r)) !! "memory") /\
  is_Some (rl (Limits (resourceDefaults r)) !! "memory").
Proof.
  intros [Hreq Hlim]. unfold resourceDefaults, defaultRequests. cbn [foldl].
  set (limits := rl (Limits r)) in *. set (r0 := rl (Requests r)) in *.
  destruct (defaultRequest_ok limits r0 "cpu" (nano / 10)) as (H1 & C1 & S1); [done|done|done|].
  set (r1 := defaultRequest limits r0 _) in *.
  destruct (defaultRequest_ok limits r1 "memory" (128 * MiB * nano)) as (H2 & C2 & S2); [done|done|done|].
  set (r2 := defaultRequest limits r1 _) in *. clearbody r2.
  assert (is_Some (r2 !! "cpu")) as C3 by (destruct C1 as [q Hq]; eauto using lookup_weaken).
  assert (r0 ⊆ r2) as S3 by by etrans. unfold resources_ok. cbn [rl Requests Limits default].
  destruct (limits !! "memory") as [l|] eqn:El; [by split_and!; eauto|].
  destruct C2 as [m Hm]. rewrite Hm. cbn [default]. unfold rl, default. cbn [Requests Limits from_option id].
  destruct (H2 "memory" m Hm) as [Hm0 _].
  split_and!; eauto; try (by rewrite lookup_insert_eq; eauto); try (by apply insert_subseteq).
  - intros name q Hq. destruct (H2 name q Hq) as [? Hle]. split; [done|]. intros l.
    destruct (decide (name = "memory")) as [->|Hne]; [|rewrite lookup_insert_ne by done; apply Hle].
    rewrite lookup_insert_eq. intros [= <-]. simplify_eq. case_match; reflect_bool; lia.
  - intros name q. destruct (decide (name = "memory")) as [->|Hne]; [|rewrite lookup_insert_ne by done; apply Hlim].
    rewrite lookup_insert_eq. intros [= <-]. case_match; [done|]. unfold MiB, nano. lia.
Qed.
(** The variables of the generated container. *)
Lemma cacheEnv_values cr field secret :
  let env := podGetenv field secret (cacheEnv (defaults cr)) in
  let s := cr_Spec (defaults cr) in
  let ref k := if String.eqb (sp_SourceSecret (cr_Spec cr)) "" then "" else secret (sp_SourceSecret (cr_Spec cr)) k in
  (forall old, old ∈ removedVariables -> env old = "") /\ env "DISCOVERY_MODE" = "kubernetes" /\
  env "POD_NAMESPACE" = field "metadata.namespace" /\ env "POD_NAME" = field "metadata.name" /\
  env "CLUSTER_SERVICE" = cr_Name cr +:+ "-svc" /\ env "DEBUG_ADDR" = "" /\ env "API_ADDR" = "" /\
  env "SOURCE_MAX_CONCURRENCY" = "" /\ env "CACHE_BYTES" = FormatInt (sp_CacheBytes s) /\
  env "TTL_SECONDS" = FormatInt (sp_TTLSeconds s) /\
  env "SOURCE_MAX_PENDING" = FormatInt (default 128 (sp_SourceMaxPending (cr_Spec cr))) /\
  env "MAX_MISS_WAITERS" = FormatInt (sp_MaxMissWaiters s) /\
  env "WRITE_MAX_CONCURRENCY" = FormatInt (sp_MaxConcurrentWrites s) /\
  env "SOURCE_MODE" = (if String.eqb (sp_SourceSecret (cr_Spec cr)) "" then "" else "postgres") /\
  env "DATABASE_URL" = ref "DATABASE_URL" /\ env "CACHE_ADMIN_TOKEN" = ref "CACHE_ADMIN_TOKEN".
Proof.
  cbv zeta. unfold cacheEnv. cbn [cr_Spec defaults sp_SourceSecret].
  split.
  - intros old Ho. unfold removedVariables in Ho. rewrite !elem_of_cons, elem_of_nil in Ho.
    destruct (String.eqb (sp_SourceSecret (cr_Spec cr)) ""), Ho as [->|[->|[->|[->|[]]]]]; reflexivity.
  - destruct (String.eqb (sp_SourceSecret (cr_Spec cr)) ""); split_and!; reflexivity.
Qed.

(** C14: what the operator deploys, a node accepts: the environment of the
    container it generates for any validated specification (with defaults
    applied) makes [FromEnv] succeed on the port of the container's command,
    with exactly the capacity, lifetime and budgets of the specification, the
    identity namespace/pod, and PostgreSQL exactly when a source Secret is
    named. What is assumed of Kubernetes: a Pod and its namespace have names
    without a slash, and a named Secret has both keys. *)
Theorem operator_node_starts parseIPLiteral unicodeLower cr field secret ct :
  validateSpec (defaults cr) = None -> ct ∈ pt_Containers (ss_Template (ss_Spec (statefulSet (defaults cr)))) ->
  field "metadata.namespace" <> "" -> contains_byte "/" (field "metadata.namespace") = false ->
  field "metadata.name" <> "" -> contains_byte "/" (field "metadata.name") = false ->
  (sp_SourceSecret (cr_Spec cr) <> "" ->
     secret (sp_SourceSecret (cr_Spec cr)) "DATABASE_URL" <> "" /\
     secret (sp_SourceSecret (cr_Spec cr)) "CACHE_ADMIN_TOKEN" <> "") ->
  exists c, FromEnv parseIPLiteral unicodeLower (podGetenv field secret (ct_Env ct)) 8001 true = (c, None) /\
    cfg_CacheBytes c = sp_CacheBytes (cr_Spec (defaults cr)) /\
    cfg_TTL c = sp_TTLSeconds (cr_Spec (defaults cr)) * Second /\
    cfg_MaxMissWaiters c = sp_MaxMissWaiters (cr_Spec (defaults cr)) /\
    Some (cfg_SourceMaxPending c) = sp_SourceMaxPending (cr_Spec (defaults cr)) /\
    cfg_WriteConcurrency c = sp_MaxConcurrentWrites (cr_Spec (defaults cr)) /\
    cfg_SelfID c = field "metadata.namespace" +:+ "/" +:+ field "metadata.name" /\
    cfg_ClusterService c = m_Name (svc_Meta (clusterService (defaults cr))) /\
    (cfg_SourceMode c = "postgres" <-> sp_SourceSecret (cr_Spec cr) <> "").
Proof.
  intros Hv Hct N1 N2 N3 N4 Hsec. apply validateSpec_ok in Hv as [].
  unfold statefulSet in Hct. cbn [ss_Spec ss_Template pt_Containers] in Hct. apply list_elem_of_singleton in Hct as ->. cbn [ct_Env].
  set (s := cr_Spec (defaults cr)) in *.
  set (env := podGetenv field secret (cacheEnv (defaults cr))).
  destruct (cacheEnv_values cr field secret) as
    (Hold & E1 & E2 & E3 & E4 & E5 & E6 & E7 & E8 & E9 & E10 & E11 & E12 & Em & Ed & Et).
  fold env in Hold, E1, E2, E3, E4, E5, E6, E7, E8, E9, E10, E11, E12, Em, Ed, Et.
  rewrite (FromEnv_kubernetes parseIPLiteral unicodeLower env 8001 true _ _ _ _ _ _ _ _
    Hold eq_refl E1 E2 E3 E4 E5 E6 E7 E8 E9 E10 E11 E12); auto; [|by destruct (cr_Name cr)].
  cbv zeta. rewrite Em, Ed, Et. unfold kubernetesConfig, validateSourceConfig.
  cbn [cfg_SourceMode cfg_DatabaseURL cfg_AdminToken].
  destruct (String.eqb_spec (sp_SourceSecret (cr_Spec cr)) "") as [E|E].
  - eexists. split; [reflexivity|]. by split_and!.
  - destruct (Hsec E) as [H1 H2]. rewrite (proj2 (String.eqb_neq _ "") H1), (proj2 (String.eqb_neq _ "") H2).
    eexists. split; [reflexivity|]. by split_and!.
Qed.
End Facts.

(** ** Concrete resources *)

(** The documented form of a DNS label: lower-case letters, digits and inner
    hyphens, at most 63 bytes. *)
Definition dns_byte (c : ascii) : bool := is_digit c || in_range 97 122 c || Ascii.eqb c "-".
Definition dns_label (s : string) : bool :=
  all_bytes dns_byte s && (1 <=? slen s) && (slen s <=? 63) && negb (HasPrefix s "-") && negb (HasSuffix s "-").

Definition small_resources : ResourceRequirements := mkResources None (Some {["memory" := 64 * MiB * nano]}).

Lemma small_resources_ok : resources_ok small_resources.
Proof.
  split; intros name q; unfold small_resources, rl; simpl.
  - by rewrite lookup_empty.
  - intros [<- <-]%lookup_singleton_Some. unfold MiB, nano. lia.
Qed.

Lemma resourceDefaults_consistent_witness :
  resources_ok (resourceDefaults small_resources) /\
  rl (Requests (resourceDefaults small_resources)) !! "memory" = Some (64 * MiB * nano) /\
  rl (Limits (resourceDefaults small_resources)) !! "memory" = Some (64 * MiB * nano).
Proof.
  destruct (resourceDefaults_consistent small_resources small_resources_ok) as [H _].
  split; [exact H|]. vm_compute. split; reflexivity.
Defined.

Definition sample_cr : SimpleCache :=
  mkSimpleCache (mkMeta "shop" "prod" "7c1e" "41" 2 None []) (mkSpec None 0 "registry/cache:1" "shop-db" 0 0 0 (Some 0) 0 small_resources)
    (mkStatus 0 0 []).

Definition sample_field (path : string) : string :=
  if String.eqb path "metadata.name" then "shop-0" else if String.eqb path "metadata.namespace" then "prod" else "".
Definition sample_secret (_ key : string) : string :=
  if String.eqb key "DATABASE_URL" then "postgres://db" else "token".

Lemma sample_cr_valid : validateSpec dns_label dns_label dns_label map_to_list (defaults sample_cr) = None.
Proof. vm_compute. reflexivity. Qed.

Lemma operator_node_starts_witness :
  exists c, FromEnv (fun _ => None) (fun s => s) (podGetenv sample_field sample_secret (cacheEnv (defaults sample_cr)))
              8001 true = (c, None) /\
    cfg_CacheBytes c = 64 * MiB /\ cfg_SourceMaxPending c = 0 /\ cfg_SelfID c = "prod/shop-0" /\ cfg_SourceMode c = "postgres".
Proof.
  destruct (operator_node_starts dns_label dns_label dns_label map_to_list (fun m => reflexivity _)
    (fun _ => None) (fun s => s) sample_cr sample_field sample_secret
    (default (mkContainer "" "" "" [] [] [] [] small_resources None None None ∅)
       (head (pt_Containers (ss_Template (ss_Spec (statefulSet (defaults sample_cr))))))))
    as (c & H1 & H2 & _ & _ & H3 & _ & H4 & _ & H5).
  - apply sample_cr_valid.
  - by left.
  - done.
  - done.
  - done.
  - done.
  - done.
  - exists c. split; [exact H1|]. split; [exact H2|]. split; [by injection H3|]. split; [exact H4|]. by apply H5.
Defined.
