(* ===== verification/Kube.v ===== *)
(** * Kubernetes objects and the client of the controller

    The objects the controller handles, the JSON values inside unstructured
    ones, and the interface [Kube] to the libraries it calls (the
    controller-runtime client and [CreateOrUpdate], [metav1.IsControlledBy],
    [SetControllerReference], [meta.SetStatusCondition], the [Nested...]
    accessors). [KubeLaws] is what their documentation promises; nothing else
    is known about them. *)
From S2P Require Import Prelude GoStrings NetAddr Errors LRU CacheStore Bloom Admission Group Read Directory Protocol Postgres Api Config Operator.

(** ** JSON values ([any] of an unstructured object)

    A map is a list of fields with distinct keys ([json_wf]); a field that is
    absent reads as nil. *)
Unset Elimination Schemes.
Inductive JSON :=
| JNull
| JBool (b : bool)
| JInt (n : Z)
| JFloat (bits : Z)
| JString (s : string)
| JArray (l : list JSON)
| JObject (m : list (string * JSON)).
Set Elimination Schemes.

Section JSON_ind.
Variable P : JSON -> Prop.
Hypotheses (Hnull : P JNull) (Hbool : forall b, P (JBool b)) (Hint : forall n, P (JInt n))
  (Hfloat : forall n, P (JFloat n)) (Hstring : forall s, P (JString s))
  (Harray : forall l, Forall P l -> P (JArray l))
  (Hobject : forall m, Forall (fun kv => P kv.2) m -> P (JObject m)).

Fixpoint JSON_ind (j : JSON) : P j :=
  match j with
  | JNull => Hnull
  | JBool b => Hbool b
  | JInt n => Hint n
  | JFloat n => Hfloat n
  | JString s => Hstring s
  | JArray l => Harray l ((fix each l : Forall P l :=
      match l with [] => Forall_nil_2 P | x :: l' => Forall_cons_2 P x l' (JSON_ind x) (each l') end) l)
  | JObject m => Hobject m ((fix each m : Forall (fun kv => P kv.2) m :=
      match m with [] => Forall_nil_2 _ | kv :: m' => Forall_cons_2 _ kv m' (JSON_ind kv.2) (each m') end) m)
  end.
End JSON_ind.

Abbreviation fields := (list (string * JSON)).

(** [v, ok := m[k]], [m[k]] and [m[k] = v] *)
Fixpoint field (m : fields) (k : string) : option JSON :=
  match m with
  | [] => None
  | (k', v) :: m' => if String.eqb k k' then Some v else field m' k
  end.
Definition index (m : fields) (k : string) : JSON := default JNull (field m k).
Fixpoint setField (m : fields) (k : string) (v : JSON) : fields :=
  match m with
  | [] => [(k, v)]
  | (k', v') :: m' => if String.eqb k k' then (k, v) :: m' else (k', v') :: setField m' k v
  end.

Fixpoint distinct (l : list string) : bool :=
  match l with [] => true | k :: l' => negb (bool_decide (k ∈ l')) && distinct l' end.
Fixpoint json_wf (j : JSON) : bool :=
  match j with
  | JArray l => forallb json_wf l
  | JObject m => distinct (fst <$> m) && forallb (fun '(_, v) => json_wf v) m
  | _ => true
  end.

(** ** Objects *)
Record GroupVersionKind := mkGVK { gvk_Group : string; gvk_Version : string; gvk_Kind : string }.
#[export] Instance GVK_eq_dec : EqDecision GroupVersionKind.
Proof. solve_decision. Defined.

(** [u_Object] holds the fields besides [apiVersion], [kind] and [metadata]. *)
Record Unstructured := mkUnstructured { u_GVK : GroupVersionKind; u_Meta : ObjectMeta; u_Object : fields }.

Inductive Object :=
| OService (s : Service)
| OServiceAccount (a : ServiceAccount)
| ORole (r : Role)
| ORoleBinding (b : RoleBinding)
| OStatefulSet (s : StatefulSet)
| OUnstructured (u : Unstructured).

Definition objMeta (o : Object) : ObjectMeta :=
  match o with
  | OService s => svc_Meta s
  | OServiceAccount a => sa_Meta a
  | ORole r => ro_Meta r
  | ORoleBinding b => rb_Meta b
  | OStatefulSet s => ss_Meta s
  | OUnstructured u => u_Meta u
  end.

(** Group and kind, and Go's [%T]. *)
Definition objKind (o : Object) : string * string :=
  match o with
  | OService _ => ("", "Service")
  | OServiceAccount _ => ("", "ServiceAccount")
  | ORole _ => ("rbac.authorization.k8s.io", "Role")
  | ORoleBinding _ => ("rbac.authorization.k8s.io", "RoleBinding")
  | OStatefulSet _ => ("apps", "StatefulSet")
  | OUnstructured u => (gvk_Group (u_GVK u), gvk_Kind (u_GVK u))
  end.
Definition typeName (o : Object) : string :=
  match o with
  | OService _ => "*v1.Service"
  | OServiceAccount _ => "*v1.ServiceAccount"
  | ORole _ => "*v1.Role"
  | ORoleBinding _ => "*v1.RoleBinding"
  | OStatefulSet _ => "*v1.StatefulSet"
  | OUnstructured _ => "*unstructured.Unstructured"
  end.

(** An object is identified by group and kind, namespace and name. *)
Abbreviation Key := ((string * string) * (string * string))%type.
Definition objName (m : ObjectMeta) : string * string := (m_Namespace m, m_Name m).
Definition keyOf (o : Object) : Key := (objKind o, objName (objMeta o)).
Definition serviceKey (ns name : string) : Key := (("", "Service"), (ns, name)).
Definition statefulSetKey (ns name : string) : Key := (("apps", "StatefulSet"), (ns, name)).
Definition gvkKey (gvk : GroupVersionKind) (ns name : string) : Key := ((gvk_Group gvk, gvk_Kind gvk), (ns, name)).

Definition with_owners (m : ObjectMeta) (refs : list OwnerReference) : ObjectMeta :=
  mkMeta (m_Name m) (m_Namespace m) (m_UID m) (m_ResourceVersion m) (m_Generation m) (m_DeletionTimestamp m) refs.

(** Kinds of the built-in groups are handled through their Go structs. *)
Definition builtinGroups : list string := [""; "apps"; "rbac.authorization.k8s.io"].
Definition typed (o : Object) : Prop :=
  match o with OUnstructured u => gvk_Group (u_GVK u) ∉ builtinGroups | _ => True end.

(** Name and UID of an owner. *)
Abbreviation Identity := (string * string)%type.
Definition ownerID (cr : SimpleCache) : Identity := (cr_Name cr, m_UID (cr_Meta cr)).
Definition with_version (m : ObjectMeta) (version : string) : ObjectMeta :=
  mkMeta (m_Name m) (m_Namespace m) (m_UID m) version (m_Generation m) (m_DeletionTimestamp m) (m_OwnerReferences m).

(** ** Errors and effects

    A call of the client may change the world (the state of the API server and
    of everything that decides what the next call answers) and returns, fails
    or panics. *)
Inductive kerror :=
| ownershipConflict (message : string)
| apiNotFound (message : string)
| kError (message : string).
Definition kmessage (e : kerror) : string :=
  match e with ownershipConflict m | apiNotFound m | kError m => m end.

Inductive outcome (A : Type) := Ok (a : A) | Err (e : kerror) | Panic.
Arguments Ok {A} a.
Arguments Err {A} e.
Arguments Panic {A}.

Definition KM (W A : Type) : Type := W -> W * outcome A.
Definition kret {W A} (a : A) : KM W A := fun w => (w, Ok a).
Definition kfail {W A} (e : kerror) : KM W A := fun w => (w, Err e).
Definition kpanic {W A} : KM W A := fun w => (w, Panic).
Definition kbind {W A B} (m : KM W A) (k : A -> KM W B) : KM W B :=
  fun w => match m w with
           | (w', Ok a) => k a w'
           | (w', Err e) => (w', Err e)
           | (w', Panic) => (w', Panic)
           end.
Definition kread {W A} (get : W -> kerror + A) : KM W A :=
  fun w => (w, match get w with inl e => Err e | inr a => Ok a end).
Definition kwrite {W} (put : W -> W * option kerror) : KM W unit :=
  fun w => let '(w', e) := put w in (w', match e with Some e => Err e | None => Ok tt end).

Declare Scope kube_scope.
Delimit Scope kube_scope with kube.
Notation "'let!' x ':=' m 'in' k" := (kbind m (fun x => k)) (at level 200, x pattern, m at level 100, right associativity) : kube_scope.
Notation "m ;; k" := (kbind m (fun _ => k)) (at level 100, right associativity) : kube_scope.
Open Scope kube_scope.

(** ** What the libraries offer *)
Class Kube (W : Type) := {
  (** the API server: its objects and its SimpleCache resources *)
  stored : W -> gmap Key Object;
  caches : W -> gmap (string * string) SimpleCache;
  (** what the cache of the client shows of the kinds with a Go struct *)
  seen : W -> gmap Key Object;
  seenCaches : W -> gmap (string * string) SimpleCache;
  (** the client *)
  GetCache : string -> string -> W -> kerror + SimpleCache;
  GetService : string -> string -> W -> kerror + Service;
  GetStatefulSet : string -> string -> W -> kerror + StatefulSet;
  GetUnstructured : GroupVersionKind -> string -> string -> W -> kerror + Unstructured;
  ListServices : string -> W -> kerror + list Service;
  Delete : Key -> W -> W * option kerror;
  PatchStatus : SimpleCache -> W -> W * option kerror;
  CreateOrUpdate : Object -> (Object -> outcome Object) -> KM W unit;
  (** metadata and conditions *)
  IsControlledBy : ObjectMeta -> Identity -> bool;
  SetControllerReference : Identity -> list OwnerReference -> string + list OwnerReference;
  SetStatusCondition : W -> list Condition -> Condition -> list Condition;
  NestedSlice : fields -> list string -> list JSON;
  NestedString : fields -> list string -> string;
}.

(** What the server keeps of an object that is sent to it: identity, owners
    and everything that was set; it assigns a resource version and completes
    fields that were left open. A Service keeps an address that was sent; the
    Pod template of a StatefulSet keeps every named field, its deprecated
    account name defaults to the account name, and a resource with a limit and
    no request gets the limit as its request. *)
Definition resources_stored (sent got : ResourceRequirements) : Prop :=
  Limits got = Limits sent /\ rl (Requests got) = rl (Requests sent) ∪ rl (Limits sent) /\
  (Requests sent <> None -> Requests got <> None).
Record container_stored (sent got : Container) : Prop := {
  cs_Name : ct_Name got = ct_Name sent;
  cs_Image : ct_Image got = ct_Image sent;
  cs_PullPolicy : ct_PullPolicy got = ct_PullPolicy sent;
  cs_Command : ct_Command got = ct_Command sent;
  cs_Args : ct_Args got = ct_Args sent;
  cs_Ports : ct_Ports got = ct_Ports sent;
  cs_Env : ct_Env got = ct_Env sent;
  cs_Resources : resources_stored (ct_Resources sent) (ct_Resources got);
  cs_Startup : ct_Startup got = ct_Startup sent;
  cs_Liveness : ct_Liveness got = ct_Liveness sent;
  cs_Readiness : ct_Readiness got = ct_Readiness sent;
}.
Record template_stored (sent got : PodTemplateSpec) : Prop := {
  ts_Labels : pt_Labels got = pt_Labels sent;
  ts_Annotations : pt_Annotations got = pt_Annotations sent;
  ts_Account : pt_ServiceAccountName got = pt_ServiceAccountName sent;
  ts_Deprecated : pt_DeprecatedServiceAccount got =
    (if String.eqb (pt_DeprecatedServiceAccount sent) "" then pt_ServiceAccountName sent else pt_DeprecatedServiceAccount sent);
  ts_Grace : pt_Grace got = pt_Grace sent;
  ts_Containers : Forall2 container_stored (pt_Containers sent) (pt_Containers got);
}.
(** A JSON value is completed by adding fields to its objects; arrays keep
    their elements. *)
Definition scalar (j : JSON) : bool := match j with JArray _ | JObject _ => false | _ => true end.
Inductive completed : JSON -> JSON -> Prop :=
| completed_scalar j : scalar j = true -> completed j j
| completed_array l l' : Forall2 completed l l' -> completed (JArray l) (JArray l')
| completed_object m m' :
    Forall (fun kv => completed kv.2 (index m' kv.1)) m -> completed (JObject m) (JObject m').

Definition object_stored (sent got : Object) : Prop :=
  match sent, got with
  | OService s, OService g =>
      svc_Type g = svc_Type s /\ svc_Selector g = svc_Selector s /\ svc_Ports g = svc_Ports s /\
      svc_PublishNotReady g = svc_PublishNotReady s /\ (svc_ClusterIP s <> "" -> svc_ClusterIP g = svc_ClusterIP s)
  | OServiceAccount _, OServiceAccount _ => True
  | ORole s, ORole g => ro_Rules g = ro_Rules s
  | ORoleBinding s, ORoleBinding g => rb_RoleRef g = rb_RoleRef s /\ rb_Subjects g = rb_Subjects s
  | OStatefulSet s, OStatefulSet g =>
      ss_Replicas (ss_Spec g) = ss_Replicas (ss_Spec s) /\ ss_ServiceName (ss_Spec g) = ss_ServiceName (ss_Spec s) /\
      ss_PodManagement (ss_Spec g) = ss_PodManagement (ss_Spec s) /\ ss_Selector (ss_Spec g) = ss_Selector (ss_Spec s) /\
      template_stored (ss_Template (ss_Spec s)) (ss_Template (ss_Spec g))
  | OUnstructured s, OUnstructured g =>
      u_GVK g = u_GVK s /\ completed (index (u_Object s) "spec") (index (u_Object g) "spec")
  | _, _ => False
  end /\
  keyOf got = keyOf sent /\ m_OwnerReferences (objMeta got) = m_OwnerReferences (objMeta sent) /\
  m_ResourceVersion (objMeta got) <> "".

(** ** What the libraries promise

    - The manager's client reads the kinds with a Go struct from its cache: a
      read that succeeds answers with what the cache shows under the key, "not
      found" is answered only for a key it does not show, and a list holds
      exactly the Services of the namespace that it shows. Unstructured objects
      are read from the server. Nothing is said here of how old the cache is.
      Objects have a resource version, and those of a built-in kind are read
      into its Go struct.
    - [CreateOrUpdate] passes the object it reads to the function, or the one it
      was given when there is none, writes nothing when the function fails or
      changes nothing, and otherwise may store the function's result under the
      same key (also when the answer is lost). The server accepts a write only
      over the version that was read, and a creation only where nothing is
      stored, so what is written was computed from what was stored. Success
      means that it is stored, or that the object read needed no change.
    - [Delete] removes at most the object named; without an error, or with
      "not found", that object is gone.
    - [SetControllerReference] makes the owner the controller and changes
      nothing when it already was set by this call; [IsControlledBy] depends on
      the owner references of the object. The owner counts by name and UID.
    - A status patch replaces the status and assigns a resource version.
    - [SetStatusCondition] sets the condition of the given type. *)
Definition viewed {W} `{Kube W} (w : W) (o : Object) : option Object :=
  match o with OUnstructured _ => stored w !! keyOf o | _ => seen w !! keyOf o end.

Class KubeLaws (W : Type) `{Kube W} := {
  GetCache_unseen w ns name m : GetCache ns name w = inl (apiNotFound m) -> seenCaches w !! (ns, name) = None;
  GetCache_seen w ns name cr : GetCache ns name w = inr cr -> seenCaches w !! (ns, name) = Some cr;
  GetService_seen w ns name s : GetService ns name w = inr s -> seen w !! serviceKey ns name = Some (OService s);
  GetStatefulSet_seen w ns name s :
    GetStatefulSet ns name w = inr s -> seen w !! statefulSetKey ns name = Some (OStatefulSet s);
  GetUnstructured_ok w gvk ns name u :
    GetUnstructured gvk ns name w = inr u -> stored w !! gvkKey gvk ns name = Some (OUnstructured u);
  GetUnstructured_missing w gvk ns name m :
    GetUnstructured gvk ns name w = inl (apiNotFound m) -> stored w !! gvkKey gvk ns name = None;
  ListServices_seen w ns l s :
    ListServices ns w = inr l -> s ∈ l <-> m_Namespace (svc_Meta s) = ns /\ seen w !! keyOf (OService s) = Some (OService s);
  stored_key w k o : stored w !! k = Some o -> keyOf o = k;
  stored_typed w k o : stored w !! k = Some o -> typed o;
  stored_version w k o : stored w !! k = Some o -> m_ResourceVersion (objMeta o) <> "";
  caches_key w ns name cr : caches w !! (ns, name) = Some cr -> cr_Namespace cr = ns /\ cr_Name cr = name;

  CreateOrUpdate_step w obj f w' r :
    CreateOrUpdate obj f w = (w', r) ->
    caches w' = caches w /\
    (stored w' = stored w \/
     exists sent got, f (default obj (stored w !! keyOf obj)) = Ok sent /\ object_stored sent got /\
       stored w' = <[keyOf obj := got]> (stored w));
  CreateOrUpdate_done w obj f w' :
    CreateOrUpdate obj f w = (w', Ok tt) ->
    exists sent, f (default obj (viewed w obj)) = Ok sent /\
      ((exists got, stored w' !! keyOf obj = Some got /\ object_stored sent got) \/ viewed w obj = Some sent);
  CreateOrUpdate_same w obj f w' r o :
    CreateOrUpdate obj f w = (w', r) -> stored w !! keyOf obj = Some o -> f o = Ok o -> stored w' = stored w;
  CreateOrUpdate_conflict w obj f w' e :
    CreateOrUpdate obj f w = (w', Err (ownershipConflict e)) ->
    f (default obj (viewed w obj)) = Err (ownershipConflict e);
  CreateOrUpdate_panics w obj f w' :
    CreateOrUpdate obj f w = (w', Panic) -> f (default obj (viewed w obj)) = Panic;

  Delete_step w k w' r :
    Delete k w = (w', r) -> caches w' = caches w /\ (stored w' = stored w \/ stored w' = delete k (stored w));
  Delete_ok w k w' : Delete k w = (w', None) -> stored w' = delete k (stored w);
  Delete_missing w k w' m : Delete k w = (w', Some (apiNotFound m)) -> stored w' !! k = None;
  PatchStatus_step w cr w' r :
    PatchStatus cr w = (w', r) -> stored w' = stored w /\
      (caches w' = caches w \/
       exists old v, caches w !! objName (cr_Meta cr) = Some old /\
         caches w' =
           <[objName (cr_Meta cr) := mkSimpleCache (with_version (cr_Meta old) v) (cr_Spec old) (cr_Status cr)]> (caches w));

  PatchStatus_ok w cr w' old :
    PatchStatus cr w = (w', None) -> caches w !! objName (cr_Meta cr) = Some old ->
    exists v, caches w' =
      <[objName (cr_Meta cr) := mkSimpleCache (with_version (cr_Meta old) v) (cr_Spec old) (cr_Status cr)]> (caches w);

  SetControllerReference_ok owner m refs :
    SetControllerReference owner (m_OwnerReferences m) = inr refs -> IsControlledBy (with_owners m refs) owner = true;
  SetControllerReference_same owner refs refs' :
    SetControllerReference owner refs = inr refs' -> SetControllerReference owner refs' = inr refs';
  IsControlledBy_owners m m' owner :
    m_OwnerReferences m = m_OwnerReferences m' -> IsControlledBy m owner = IsControlledBy m' owner;
  SetStatusCondition_set w cs c :
    exists t, head (filter (fun c' => c_Type c' = c_Type c) (SetStatusCondition w cs c)) =
      Some (mkCondition (c_Type c) (c_Status c) (c_Reason c) (c_Message c) (c_ObservedGeneration c) t);
}.

(** ** A client that is up to date

    Every read answers with what is stored. The manager's cache promises this
    only once it has caught up with the last write; what the controller makes
    of a cache that has not is shown in [StaleReads]. *)
Class FreshReads (W : Type) `{Kube W} := {
  seen_stored w : seen w = stored w;
  seenCaches_stored w : seenCaches w = caches w;
}.

Section Fresh.
Context {W : Type} `{KubeLaws W, !FreshReads W}.

Lemma viewed_stored (w : W) o : viewed w o = stored w !! keyOf o.
Proof. unfold viewed. rewrite seen_stored. by destruct o. Qed.

Lemma GetCache_missing (w : W) ns name m : GetCache ns name w = inl (apiNotFound m) -> caches w !! (ns, name) = None.
Proof. rewrite <- seenCaches_stored. apply GetCache_unseen. Qed.
Lemma GetCache_ok (w : W) ns name cr : GetCache ns name w = inr cr -> caches w !! (ns, name) = Some cr.
Proof. rewrite <- seenCaches_stored. apply GetCache_seen. Qed.
Lemma GetService_ok (w : W) ns name s : GetService ns name w = inr s -> stored w !! serviceKey ns name = Some (OService s).
Proof. rewrite <- seen_stored. apply GetService_seen. Qed.
Lemma GetStatefulSet_ok (w : W) ns name s :
  GetStatefulSet ns name w = inr s -> stored w !! statefulSetKey ns name = Some (OStatefulSet s).
Proof. rewrite <- seen_stored. apply GetStatefulSet_seen. Qed.
Lemma ListServices_ok (w : W) ns l s :
  ListServices ns w = inr l -> s ∈ l <-> m_Namespace (svc_Meta s) = ns /\ stored w !! keyOf (OService s) = Some (OService s).
Proof. rewrite <- seen_stored. apply ListServices_seen. Qed.

Lemma CreateOrUpdate_ok (w : W) obj f w' :
  CreateOrUpdate obj f w = (w', Ok tt) ->
  exists sent got, f (default obj (stored w !! keyOf obj)) = Ok sent /\
    stored w' !! keyOf obj = Some got /\ (object_stored sent got \/ (stored w !! keyOf obj = Some sent /\ got = sent)).
Proof.
  intros E. destruct (CreateOrUpdate_done w obj f w' E) as (sent & Hf & Hs). rewrite viewed_stored in Hf, Hs.
  destruct Hs as [(got & Hg & Ho)|Hs]; [by exists sent, got; auto|]. exists sent, sent. split; [done|].
  rewrite Hs in Hf. rewrite (CreateOrUpdate_same w obj f w' _ sent E Hs Hf). auto.
Qed.
Lemma CreateOrUpdate_error (w : W) obj f w' e :
  CreateOrUpdate obj f w = (w', Err (ownershipConflict e)) ->
  f (default obj (stored w !! keyOf obj)) = Err (ownershipConflict e).
Proof. rewrite <- viewed_stored. apply CreateOrUpdate_conflict. Qed.
Lemma CreateOrUpdate_panic (w : W) obj f w' :
  CreateOrUpdate obj f w = (w', Panic) -> f (default obj (stored w !! keyOf obj)) = Panic.
Proof. rewrite <- viewed_stored. apply CreateOrUpdate_panics. Qed.
End Fresh.
