(* ===== verification/Gateway.v ===== *)
(** * The gateway objects ([internal/controller/gateway.go])

    The objects the controller generates for the Envoy data plane, the
    comparison [desiredSubset] that decides whether a stored one is replaced,
    and the readiness conditions the controller reads back. *)
From S2P Require Import Prelude GoStrings NetAddr Errors LRU CacheStore Bloom Admission Group Read Directory Protocol Postgres Api Config Operator Kube.

Definition backendPolicyKind : string := "BackendTrafficPolicy".
Definition gatewayController : string := "gateway.envoyproxy.io/gatewayclass-controller".
Definition gatewayKinds : list GroupVersionKind :=
  [mkGVK "gateway.networking.k8s.io" "v1" "Gateway";
   mkGVK "gateway.networking.k8s.io" "v1" "HTTPRoute";
   mkGVK "gateway.envoyproxy.io" "v1alpha1" "EnvoyProxy";
   mkGVK "gateway.envoyproxy.io" "v1alpha1" "Backend";
   mkGVK "gateway.envoyproxy.io" "v1alpha1" backendPolicyKind].

Definition gatewayObject (gvk : GroupVersionKind) (namespace name : string) : Unstructured :=
  mkUnstructured gvk (mkMeta name namespace "" "" 0 None []) [].

(** The loop over the kinds; [None] is the panic after it. *)
Fixpoint gatewayResourceIn (kinds : list GroupVersionKind) (cr : SimpleCache) (kind : string) (spec : fields)
    : option Unstructured :=
  match kinds with
  | [] => None
  | gvk :: kinds' =>
      if String.eqb (gvk_Kind gvk) kind
      then let obj := gatewayObject gvk (cr_Namespace cr) (cr_Name cr) in
           Some (mkUnstructured (u_GVK obj) (u_Meta obj) (setField (u_Object obj) "spec" (JObject spec)))
      else gatewayResourceIn kinds' cr kind spec
  end.
Definition gatewayResource (cr : SimpleCache) (kind : string) (spec : fields) : option Unstructured :=
  gatewayResourceIn gatewayKinds cr kind spec.

(** ** The specifications *)
Definition endpoint (ip : string) : JSON := JObject [("ip", JObject [("address", JString ip); ("port", JInt 9999)])].

(** [cr.Spec.Gateway.Replicas] and [ClassName] dereference the pointer. *)
Definition envoyProxySpec (g : GatewaySpec) : fields :=
  [("provider", JObject [("type", JString "Kubernetes");
     ("kubernetes", JObject [("envoyDeployment", JObject [("replicas", JInt (Replicas g))]);
                             ("envoyService", JObject [("type", JString "ClusterIP")])])])].
Definition backendSpec (ips : list string) : fields := [("endpoints", JArray (endpoint <$> ips))].
Definition gatewaySpec (cr : SimpleCache) (g : GatewaySpec) : fields :=
  [("gatewayClassName", JString (ClassName g));
   ("infrastructure", JObject [("parametersRef", JObject [("group", JString "gateway.envoyproxy.io");
                                                          ("kind", JString "EnvoyProxy"); ("name", JString (cr_Name cr))])]);
   ("listeners", JArray [JObject [("name", JString "http"); ("protocol", JString "HTTP"); ("port", JInt 80);
                                  ("allowedRoutes", JObject [("namespaces", JObject [("from", JString "Same")])])]])].
Definition exactPath (path : string) : JSON :=
  JObject [("path", JObject [("type", JString "Exact"); ("value", JString path)])].
Definition routeSpec (cr : SimpleCache) : fields :=
  [("parentRefs", JArray [JObject [("name", JString (cr_Name cr)); ("sectionName", JString "http")]]);
   ("rules", JArray [JObject [
      ("matches", JArray [exactPath "/api"; exactPath "/invalidate"]);
      ("backendRefs", JArray [JObject [("group", JString "gateway.envoyproxy.io"); ("kind", JString "Backend");
                                       ("name", JString (cr_Name cr))]])]])].
Definition policySpec (cr : SimpleCache) : fields :=
  [("targetRefs", JArray [JObject [("group", JString "gateway.networking.k8s.io"); ("kind", JString "HTTPRoute");
                                   ("name", JString (cr_Name cr))]]);
   ("loadBalancer", JObject [("type", JString "ConsistentHash");
      ("consistentHash", JObject [("type", JString "QueryParams");
                                  ("queryParams", JArray [JObject [("name", JString "key")]]); ("tableSize", JInt 65537)])]);
   ("healthCheck", JObject [("active", JObject [("type", JString "HTTP"); ("interval", JString "2s"); ("timeout", JString "1s");
      ("healthyThreshold", JInt 1); ("unhealthyThreshold", JInt 1);
      ("http", JObject [("path", JString "/readyz"); ("method", JString "GET"); ("expectedStatuses", JArray [JInt 200])])])])].

Definition gatewayResources (cr : SimpleCache) (ips : list string) : option (list Unstructured) :=
  g ← sp_Gateway (cr_Spec cr);
  envoy ← gatewayResource cr "EnvoyProxy" (envoyProxySpec g);
  backend ← gatewayResource cr "Backend" (backendSpec ips);
  gateway ← gatewayResource cr "Gateway" (gatewaySpec cr g);
  route ← gatewayResource cr "HTTPRoute" (routeSpec cr);
  policy ← gatewayResource cr backendPolicyKind (policySpec cr);
  Some [envoy; backend; gateway; route; policy].

(** ** [desiredSubset] *)
Definition scalar_eqb (actual desired : JSON) : bool :=
  match actual, desired with
  | JNull, JNull => true
  | JBool a, JBool d => Bool.eqb a d
  | JInt a, JInt d | JFloat a, JFloat d => a =? d
  | JString a, JString d => String.eqb a d
  | _, _ => false
  end.

Fixpoint desiredSubset (actual desired : JSON) {struct desired} : bool :=
  match desired with
  | JObject d =>
      match actual with
      | JObject a => forallb (fun '(k, v) => desiredSubset (index a k) v) d
      | _ => false
      end
  | JArray d =>
      match actual with
      | JArray a =>
          (length a =? length d)%nat &&
          (fix pairwise (d a : list JSON) {struct d} : bool :=
             match d, a with
             | y :: d', x :: a' => desiredSubset x y && pairwise d' a'
             | _, _ => true
             end) d a
      | _ => false
      end
  | _ => scalar_eqb actual desired
  end.

(** ** Conditions read back *)
Section Conditions.
Context `{Kube W}.

(** [c["type"] == kind && c["status"] == "True" && c["observedGeneration"] == generation] *)
Definition conditionHolds (kind : string) (generation : Z) (raw : JSON) : bool :=
  match raw with
  | JObject c => scalar_eqb (index c "type") (JString kind) && scalar_eqb (index c "status") (JString "True") &&
                 scalar_eqb (index c "observedGeneration") (JInt generation)
  | _ => false
  end.
Definition conditionTrue (obj : fields) (kind : string) (generation : Z) (path : list string) : bool :=
  existsb (conditionHolds kind generation) (NestedSlice obj path).

(** One round of the loop over parents or ancestors. *)
Definition parentHolds (cr : SimpleCache) (generation : Z) (field : string) (resolved : bool) (raw : JSON) : bool :=
  match raw with
  | JObject p =>
      if negb (scalar_eqb (index p "controllerName") (JString gatewayController)) then false
      else let refField := if String.eqb field "ancestors" then "ancestorRef" else "parentRef" in
        match index p refField with
        | JObject ref =>
            if negb (scalar_eqb (index ref "name") (JString (cr_Name cr))) then false
            else if match Kube.field ref "namespace" with
                    | Some ns => negb (scalar_eqb ns (JString (cr_Namespace cr)))
                    | None => false
                    end then false
            else conditionTrue p "Accepted" generation ["conditions"] &&
                 (negb resolved || conditionTrue p "ResolvedRefs" generation ["conditions"])
        | _ => false
        end
  | _ => false
  end.
Definition parentConditionsTrue (obj : Unstructured) (cr : SimpleCache) (field : string) (resolved : bool) : bool :=
  existsb (parentHolds cr (m_Generation (u_Meta obj)) field resolved) (NestedSlice (u_Object obj) ["status"; field]).

(** The switch of [reconcileGateway] over the kind of an object. *)
Definition gatewayReady (cr : SimpleCache) (obj : Unstructured) : bool :=
  let kind := gvk_Kind (u_GVK obj) in
  let current type := conditionTrue (u_Object obj) type (m_Generation (u_Meta obj)) ["status"; "conditions"] in
  if String.eqb kind "Gateway" then current "Accepted" && current "Programmed"
  else if String.eqb kind "Backend" then current "Accepted"
  else if String.eqb kind "HTTPRoute" then parentConditionsTrue obj cr "parents" true
  else if String.eqb kind backendPolicyKind then parentConditionsTrue obj cr "ancestors" false
  else true.

(** ** [checkGatewayClass] *)
Definition gatewayClassGVK : GroupVersionKind := mkGVK "gateway.networking.k8s.io" "v1" "GatewayClass".
Definition checkGatewayClass (enableGateway : bool) (cr : SimpleCache) : KM W unit :=
  if negb enableGateway
  then kfail (kError "enable --enable-gateway after installing Envoy Gateway v1.9.2 and its CRDs")
  else match sp_Gateway (cr_Spec cr) with
  | None => kpanic
  | Some g => fun w =>
      match GetUnstructured gatewayClassGVK "" (ClassName g) w with
      | inl e => (w, Err (kError ("read GatewayClass: " +:+ kmessage e)))
      | inr class =>
          if negb (String.eqb (NestedString (u_Object class) ["spec"; "controllerName"]) gatewayController)
          then (w, Err (kError ("GatewayClass must use " +:+ gatewayController)))
          else if negb (conditionTrue (u_Object class) "Accepted" (m_Generation (u_Meta class)) ["status"; "conditions"])
          then (w, Err (kError "GatewayClass is not accepted yet"))
          else (w, Ok tt)
      end
  end.
End Conditions.

(** ** Proofs *)
Lemma scalar_eqb_true a d : scalar d = true -> scalar_eqb a d = true <-> a = d.
Proof.
  destruct d, a; simpl; intros Hs; try done;
    rewrite ?Z.eqb_eq, ?String.eqb_eq, ?Bool.eqb_true_iff; split; congruence.
Qed.

Lemma desiredSubset_scalar a d : scalar d = true -> desiredSubset a d = scalar_eqb a d.
Proof. by destruct d. Qed.

Lemma pairwise_Forall2 (d a : list JSON) :
  Forall (fun y => forall x, desiredSubset x y = true <-> completed y x) d ->
  desiredSubset (JArray a) (JArray d) = true <-> Forall2 completed d a.
Proof.
  intros Hd. simpl. rewrite andb_true_iff, Nat.eqb_eq. revert a.
  induction Hd as [|y d Hy Hd IH]; intros [|x a]; simpl; split; try done; try (by intros [? _]); try (by inversion 1).
  - intros [Hl [H1 H2]%andb_true_iff]. constructor; [by apply Hy|]. apply IH. split; [lia|done].
  - inversion 1 as [|???? H1 H2]; subst. apply IH in H2 as [Hl H2]. split; [lia|].
    apply andb_true_iff. split; [by apply Hy|done].
Qed.

Lemma desiredSubset_fields a d :
  Forall (fun kv => forall x, desiredSubset x kv.2 = true <-> completed kv.2 x) d ->
  desiredSubset (JObject a) (JObject d) = true <-> Forall (fun kv => completed kv.2 (index a kv.1)) d.
Proof.
  intros Hd. simpl. induction Hd as [|[k v] d Hv Hd IH]; simpl; [split; auto|].
  rewrite andb_true_iff, Forall_cons, IH. simpl in Hv. by rewrite (Hv (index a k)).
Qed.

(** [desiredSubset] accepts a stored value if and only if it is the desired
    one with fields added to its objects. *)
Lemma desiredSubset_iff actual desired :
  desiredSubset actual desired = true <-> completed desired actual.
Proof.
  revert actual. induction desired as [| | | | |d IH|d IH] using JSON_ind; intros actual;
    try (rewrite desiredSubset_scalar, scalar_eqb_true by done; split; [intros ->; by constructor|by inversion 1]).
  - destruct actual as [| | | | |a|]; try (by split; [|inversion 1]).
    rewrite pairwise_Forall2 by done. split; [by constructor|by inversion 1].
  - destruct actual as [| | | | | |a]; try (by split; [|inversion 1]).
    rewrite desiredSubset_fields by done. split; [by constructor|by inversion 1].
Qed.

(** No null anywhere: a null field of a desired object would also accept a
    field the server adds. *)
Fixpoint no_null (j : JSON) : bool :=
  match j with
  | JNull => false
  | JArray l => forallb no_null l
  | JObject m => forallb (fun '(_, v) => no_null v) m
  | _ => true
  end.

Lemma field_elem m k x : field m k = Some x -> (k, x) ∈ m.
Proof.
  induction m as [|[k' v] m IH]; simpl; [done|]. destruct (String.eqb_spec k k') as [->|]; intros Hf.
  - injection Hf as ->. left.
  - right. by apply IH.
Qed.

Lemma completed_null j : completed j JNull -> j = JNull.
Proof. by inversion 1. Qed.

Lemma completed_trans a b c : no_null a = true -> completed a b -> completed b c -> completed a c.
Proof.
  revert b c. induction a as [| | | | |l IH|m IH] using JSON_ind; intros y z Hn Hab Hbc;
    inversion Hab; subst; try done.
  - inversion Hbc as [|? l'' H2 |]; subst; [done|]. constructor. simpl in Hn. rename select (Forall2 completed l _) into H1.
    clear Hbc Hab. revert l'' H2 IH Hn. induction H1 as [|x y l l' Hxy H1 IH1]; intros l'' H2 IH Hn;
      inversion H2; subst; constructor; inversion IH; subst; simpl in Hn; apply andb_true_iff in Hn as [? ?]; eauto.
  - inversion Hbc as [| |? m'' H2]; subst; [done|]. constructor. simpl in Hn.
    rename select (Forall _ m) into H1. rewrite forallb_forall in Hn. rewrite Forall_forall in *.
    intros [k v] Hin. specialize (H1 _ Hin). specialize (IH _ Hin). simpl in *.
    specialize (Hn _ (proj1 (list_elem_of_In _ _) Hin)). simpl in Hn. unfold index in H1.
    destruct (field _ k) as [x|] eqn:Ef; simpl in H1.
    + apply field_elem in Ef. eapply IH; [done|done|]. apply (H2 (k, x) Ef).
    + apply completed_null in H1 as ->. done.
Qed.

Lemma index_elem m k v : distinct (fst <$> m) = true -> (k, v) ∈ m -> index m k = v.
Proof.
  unfold index. induction m as [|[k' v'] m IH]; [by rewrite elem_of_nil|]. rewrite fmap_cons. cbn [distinct field].
  intros [Hni Hd]%andb_true_iff Hin. apply negb_true_iff, bool_decide_eq_false in Hni.
  apply elem_of_cons in Hin as [[= -> ->]|Hin]; [by rewrite String.eqb_refl|].
  destruct (String.eqb_spec k k') as [->|_]; [|by apply IH].
  destruct Hni. by apply (list_elem_of_fmap_2 fst) in Hin.
Qed.
Lemma completed_refl j : json_wf j = true -> completed j j.
Proof.
  induction j as [| | | | |l IH|m IH] using JSON_ind; intros Hw; try by constructor.
  - apply completed_array. simpl in Hw. induction IH as [|x l Hx IH IH2]; [by constructor|]. simpl in Hw.
    apply andb_true_iff in Hw as [? ?]. constructor; auto.
  - apply completed_object. simpl in Hw. apply andb_true_iff in Hw as [Hd Hw]. rewrite forallb_forall in Hw.
    rewrite Forall_forall in *. intros [k v] Hin. simpl. rewrite (index_elem m k v) by done. apply (IH _ Hin).
    by apply (Hw (k, v)), list_elem_of_In.
Qed.

Lemma index_set m k v : index (setField m k v) k = v.
Proof.
  unfold index. induction m as [|[k' v'] m IH]; simpl; [by rewrite String.eqb_refl|].
  destruct (String.eqb_spec k k') as [->|Hne]; simpl; [by rewrite String.eqb_refl|].
  destruct (String.eqb_spec k k'); [done|]. apply IH.
Qed.

Lemma setField_same m k : field m k <> None -> setField m k (index m k) = m.
Proof.
  unfold index. induction m as [|[k' v'] m IH]; simpl; [done|].
  destruct (String.eqb_spec k k') as [->|Hne]; simpl; [done|]. intros Hf. f_equal. by apply IH.
Qed.

(** The five objects, in the order they are applied. *)
Definition gatewayObjects (cr : SimpleCache) (g : GatewaySpec) (ips : list string) : list Unstructured :=
  let obj group version kind spec :=
    mkUnstructured (mkGVK group version kind) (metadata cr (cr_Name cr)) [("spec", JObject spec)] in
  [obj "gateway.envoyproxy.io" "v1alpha1" "EnvoyProxy" (envoyProxySpec g);
   obj "gateway.envoyproxy.io" "v1alpha1" "Backend" (backendSpec ips);
   obj "gateway.networking.k8s.io" "v1" "Gateway" (gatewaySpec cr g);
   obj "gateway.networking.k8s.io" "v1" "HTTPRoute" (routeSpec cr);
   obj "gateway.envoyproxy.io" "v1alpha1" backendPolicyKind (policySpec cr)].

Lemma gatewayResources_eq cr g ips :
  sp_Gateway (cr_Spec cr) = Some g -> gatewayResources cr ips = Some (gatewayObjects cr g ips).
Proof. unfold gatewayResources. intros ->. reflexivity. Qed.

Lemma gatewayObjects_wf cr g ips u :
  u ∈ gatewayObjects cr g ips -> json_wf (index (u_Object u) "spec") = true.
Proof.
  assert (forallb json_wf (endpoint <$> ips) = true) as Hips by (induction ips; simpl; auto).
  unfold gatewayObjects. rewrite !elem_of_cons, elem_of_nil.
  intros [->|[->|[->|[->|[->|[]]]]]]; try reflexivity. unfold index; simpl. by rewrite Hips.
Qed.
Lemma gatewayObjects_no_null cr g ips u :
  u ∈ gatewayObjects cr g ips -> no_null (index (u_Object u) "spec") = true.
Proof.
  assert (forallb no_null (endpoint <$> ips) = true) as Hips by (induction ips; simpl; auto).
  unfold gatewayObjects. rewrite !elem_of_cons, elem_of_nil.
  intros [->|[->|[->|[->|[->|[]]]]]]; try reflexivity. unfold index; simpl. by rewrite Hips.
Qed.
