(* ===== verification/Reconcile.v ===== *)
(** * Reconciliation ([internal/controller/simplecache_controller.go],
      [template.go] and the calls of [gateway.go])

    A pass of the controller over the interface [Kube]: every call of the
    client may fail or panic, and the world decides which. A pass is
    sequential; no other writer of the same objects is interleaved. *)
From S2P Require Import Prelude GoStrings NetAddr Errors LRU CacheStore Bloom Admission Group Read Directory Protocol Postgres Api Config Operator Kube Gateway.

(** ** [mergeTemplate]: [None] is the index panic on an empty container list *)
Definition copyMap (current desired : option (gmap string string)) : option (gmap string string) :=
  Some (default ∅ desired ∪ default ∅ current).

Definition mergeContainer (container wanted : Container) : Container :=
  mkContainer (ct_Name container) (ct_Image wanted) (ct_PullPolicy wanted) (ct_Command wanted) (ct_Args wanted)
    (ct_Ports wanted) (ct_Env wanted) (ct_Resources wanted) (ct_Startup wanted) (ct_Liveness wanted) (ct_Readiness wanted)
    (ct_Other container).
(** The loop over the containers: the first of the wanted name is merged, and
    a missing one is appended. *)
Fixpoint mergeContainers (containers : list Container) (wanted : Container) : list Container :=
  match containers with
  | [] => [wanted]
  | container :: rest =>
      if negb (String.eqb (ct_Name container) (ct_Name wanted)) then container :: mergeContainers rest wanted
      else mergeContainer container wanted :: rest
  end.

Definition mergeTemplate (current desired : PodTemplateSpec) : option PodTemplateSpec :=
  match pt_Containers desired with
  | [] => None
  | wanted :: _ =>
      Some (mkTemplate (copyMap (pt_Labels current) (pt_Labels desired))
              (copyMap (pt_Annotations current) (pt_Annotations desired))
              (pt_ServiceAccountName desired) (pt_ServiceAccountName desired) (pt_Grace desired)
              (mergeContainers (pt_Containers current) wanted) (pt_Other current))
  end.

(** ** [ensure] *)
Section Ensure.
Context `{Kube W}.

Definition RoleRef_eqb (a b : RoleRef) : bool :=
  String.eqb (rr_APIGroup a) (rr_APIGroup b) && String.eqb (rr_Kind a) (rr_Kind b) && String.eqb (rr_Name a) (rr_Name b).

(** The switch over the type of the object; [actual] already has its owner
    references. *)
Definition mutateService (wanted current : Service) : outcome Service :=
  if String.eqb (svc_ClusterIP wanted) "None" && negb (String.eqb (svc_ClusterIP current) "") &&
     negb (String.eqb (svc_ClusterIP current) "None")
  then Err (kError "existing Service is not headless")
  else Ok (mkService (svc_Meta current) (svc_Type wanted)
             (if String.eqb (svc_ClusterIP wanted) "None" then "None" else svc_ClusterIP current)
             (svc_Selector wanted) (svc_Ports wanted) false).

Definition mutateBinding (wanted current : RoleBinding) : outcome RoleBinding :=
  if negb (String.eqb (m_ResourceVersion (rb_Meta current)) "") && negb (RoleRef_eqb (rb_RoleRef current) (rb_RoleRef wanted))
  then Err (kError "RoleBinding roleRef is immutable")
  else Ok (mkBinding (rb_Meta current) (rb_RoleRef wanted) (rb_Subjects wanted)).

Definition mutateStatefulSet (wanted current : StatefulSet) : outcome StatefulSet :=
  let spec := ss_Spec wanted in
  let cur := ss_Spec current in
  if String.eqb (m_ResourceVersion (ss_Meta current)) ""
  then Ok (mkStatefulSet (ss_Meta current) spec (ss_Status current))
  else if negb (String.eqb (ss_ServiceName cur) (ss_ServiceName spec)) || negb (bool_decide (ss_Selector cur = ss_Selector spec))
  then Err (kError "StatefulSet immutable identity does not match")
  else match mergeTemplate (ss_Template cur) (ss_Template spec) with
  | None => Panic
  | Some t => Ok (mkStatefulSet (ss_Meta current)
                    (mkStatefulSetSpec (ss_Replicas spec) (ss_ServiceName cur) (ss_PodManagement cur) (ss_Selector cur) t)
                    (ss_Status current))
  end.

Definition mutateUnstructured (wanted current : Unstructured) : Unstructured :=
  let spec := index (u_Object wanted) "spec" in
  if negb (desiredSubset (index (u_Object current) "spec") spec)
  then mkUnstructured (u_GVK current) (u_Meta current) (setField (u_Object current) "spec" spec)
  else current.

Definition omap_ok {A B} (f : A -> B) (r : outcome A) : outcome B :=
  match r with Ok a => Ok (f a) | Err e => Err e | Panic => Panic end.

(** The stored object has the type of the wanted one (it was read into a copy
    of it); the last case cannot occur. *)
Definition mutateKind (wanted actual : Object) : outcome Object :=
  match actual, wanted with
  | OUnstructured current, OUnstructured u => Ok (OUnstructured (mutateUnstructured u current))
  | OService current, OService s => omap_ok OService (mutateService s current)
  | OServiceAccount current, OServiceAccount _ => Ok actual
  | ORole current, ORole r => Ok (ORole (mkRole (ro_Meta current) (ro_Rules r)))
  | ORoleBinding current, ORoleBinding b => omap_ok ORoleBinding (mutateBinding b current)
  | OStatefulSet current, OStatefulSet s => omap_ok OStatefulSet (mutateStatefulSet s current)
  | _, _ => Panic
  end.

Definition setMeta (o : Object) (m : ObjectMeta) : Object :=
  match o with
  | OService s => OService (mkService m (svc_Type s) (svc_ClusterIP s) (svc_Selector s) (svc_Ports s) (svc_PublishNotReady s))
  | OServiceAccount _ => OServiceAccount (mkAccount m)
  | ORole r => ORole (mkRole m (ro_Rules r))
  | ORoleBinding b => ORoleBinding (mkBinding m (rb_RoleRef b) (rb_Subjects b))
  | OStatefulSet s => OStatefulSet (mkStatefulSet m (ss_Spec s) (ss_Status s))
  | OUnstructured u => OUnstructured (mkUnstructured (u_GVK u) m (u_Object u))
  end.

(** The function handed to [CreateOrUpdate]. *)
Definition mutateFn (owner : SimpleCache) (wanted actual : Object) : outcome Object :=
  let m := objMeta actual in
  if negb (String.eqb (m_ResourceVersion m) "") && negb (IsControlledBy m (ownerID owner))
  then Err (ownershipConflict (typeName actual +:+ " " +:+ m_Name m +:+ " is not owned by this SimpleCache"))
  else match SetControllerReference (ownerID owner) (m_OwnerReferences m) with
  | inl e => Err (kError e)
  | inr refs => mutateKind wanted (setMeta actual (with_owners m refs))
  end.

Definition ensure (owner : SimpleCache) (wanted : Object) : KM W unit :=
  CreateOrUpdate wanted (mutateFn owner wanted).

Fixpoint ensureAll (owner : SimpleCache) (objects : list Object) : KM W unit :=
  match objects with
  | [] => kret tt
  | wanted :: rest => ensure owner wanted ;; ensureAll owner rest
  end.
End Ensure.

(** ** The gateway *)
Section GatewayCalls.
Context `{Kube W}.

(** [client.IgnoreNotFound(err) != nil] returns, anything else goes on. *)
Definition ignoreNotFound (m : KM W unit) : KM W unit :=
  fun w => match m w with
           | (w', Err (apiNotFound _)) => (w', Ok tt)
           | r => r
           end.

Definition obsoleteShard (cr : SimpleCache) (keep : Z) (svc : Service) : bool :=
  if negb (IsControlledBy (svc_Meta svc) (ownerID cr)) || negb (HasPrefix (m_Name (svc_Meta svc)) (cr_Name cr +:+ "-shard-"))
  then false
  else match ParseInt (TrimPrefix (m_Name (svc_Meta svc)) (cr_Name cr +:+ "-shard-")) with
       | Some ordinal => keep <=? ordinal
       | None => false
       end.

Fixpoint removeEach (cr : SimpleCache) (keep : Z) (items : list Service) : KM W unit :=
  match items with
  | [] => kret tt
  | svc :: rest =>
      if obsoleteShard cr keep svc
      then ignoreNotFound (kwrite (Delete (keyOf (OService svc)))) ;; removeEach cr keep rest
      else removeEach cr keep rest
  end.
Definition removeShardServices (cr : SimpleCache) (keep : Z) : KM W unit :=
  let! items := kread (ListServices (cr_Namespace cr)) in
  removeEach cr keep items.

Fixpoint removeKinds (cr : SimpleCache) (kinds : list GroupVersionKind) : KM W unit :=
  match kinds with
  | [] => kret tt
  | gvk :: rest => fun w =>
      match GetUnstructured gvk (cr_Namespace cr) (cr_Name cr) w with
      | inl (apiNotFound _) => removeKinds cr rest w
      | inl e => (w, Err e)
      | inr obj =>
          if IsControlledBy (u_Meta obj) (ownerID cr)
          then (ignoreNotFound (kwrite (Delete (keyOf (OUnstructured obj)))) ;; removeKinds cr rest) w
          else removeKinds cr rest w
      end
  end.
Definition removeGateway (enableGateway : bool) (cr : SimpleCache) : KM W unit :=
  if negb enableGateway then kret tt
  else removeKinds cr gatewayKinds ;; removeShardServices cr 0.

(** The loop over the ordinals: the addresses so far, or the message of the
    early return. *)
Fixpoint shardAddresses (cr : SimpleCache) (ordinals : list Z) (ips : list string) : KM W (string + list string) :=
  match ordinals with
  | [] => kret (inr ips)
  | i :: rest =>
      let svc := shardService cr i in
      ensure cr (OService svc) ;;
      let! svc := kread (GetService (m_Namespace (svc_Meta svc)) (m_Name (svc_Meta svc))) in
      if String.eqb (svc_ClusterIP svc) "" then kret (inl "Waiting for shard Service addresses")
      else shardAddresses cr rest (ips ++ [svc_ClusterIP svc])
  end.

Fixpoint awaitReady (cr : SimpleCache) (objects : list Unstructured) : KM W string :=
  match objects with
  | [] => kret ""
  | obj :: rest =>
      let! obj := kread (GetUnstructured (u_GVK obj) (m_Namespace (u_Meta obj)) (m_Name (u_Meta obj))) in
      if negb (gatewayReady cr obj)
      then kret ("Waiting for " +:+ gvk_Kind (u_GVK obj) +:+ " acceptance/programming")
      else awaitReady cr rest
  end.

Definition reconcileGateway (cr : SimpleCache) : KM W string :=
  let! addresses := shardAddresses cr (seqZ 0 (sp_Size (cr_Spec cr))) [] in
  match addresses with
  | inl message => kret message
  | inr ips =>
      match gatewayResources cr ips with
      | None => kpanic
      | Some objects =>
          ensureAll cr (OUnstructured <$> objects) ;;
          removeShardServices cr (sp_Size (cr_Spec cr)) ;;
          awaitReady cr objects
      end
  end.
End GatewayCalls.

(** ** [setStatus] and [Reconcile] *)
#[export] Instance Condition_eq_dec : EqDecision Condition.
Proof. solve_decision. Defined.
#[export] Instance Status_eq_dec : EqDecision SimpleCacheStatus.
Proof. solve_decision. Defined.

Section Reconcile.
Context `{Kube W}.
Variables IsDNS1035Label IsDNS1123Label IsDNS1123Subdomain : string -> bool.
Variable range : ResourceList -> list (string * Z).
Notation validateSpec := (validateSpec IsDNS1035Label IsDNS1123Label IsDNS1123Subdomain range).
(** [SimpleCacheReconciler.EnableGateway] *)
Variable EnableGateway : bool.

Definition newStatus (w : W) (cr : SimpleCache) (ready : Z) (status reason message : string) : SimpleCacheStatus :=
  mkStatus (cr_Generation cr) ready
    (SetStatusCondition w (st_Conditions (cr_Status cr))
       (mkCondition "Ready" status reason message (cr_Generation cr) 0)).
Definition setStatus (cr : SimpleCache) (ready : Z) (status reason message : string) : KM W unit :=
  fun w =>
    let after := newStatus w cr ready status reason message in
    if negb (bool_decide (cr_Status cr = after))
    then kwrite (PatchStatus (mkSimpleCache (cr_Meta cr) (cr_Spec cr) after)) w
    else (w, Ok tt).

(** [ctrl.Result{RequeueAfter: d}] and the error of the pass. *)
Definition Result : Type := Duration * option kerror.
Definition requeue : Duration := 5 * Second.
(** [return ctrl.Result{...}, r.setStatus(...)] *)
Definition andStatus (after : Duration) (m : KM W unit) : KM W Result :=
  fun w => match m w with
           | (w', Ok _) => (w', Ok (after, None))
           | (w', Err e) => (w', Ok (after, Some e))
           | (w', Panic) => (w', Panic)
           end.
(** [if statusErr := m; statusErr != nil { return statusErr }; return err] *)
Definition failWith (m : KM W unit) (err : option kerror) : KM W Result :=
  fun w => match m w with
           | (w', Ok _) => (w', Ok (0, err))
           | (w', Err e) => (w', Ok (0, Some e))
           | (w', Panic) => (w', Panic)
           end.
(** A step whose error is handled by the caller. *)
Definition onError {A} (m : KM W A) (handle : kerror -> KM W Result) (k : A -> KM W Result) : KM W Result :=
  fun w => match m w with
           | (w', Ok a) => k a w'
           | (w', Err e) => handle e w'
           | (w', Panic) => (w', Panic)
           end.

Definition isDeleting (cr : SimpleCache) : bool :=
  match m_DeletionTimestamp (cr_Meta cr) with Some t => negb (IsZero t) | None => false end.

Definition ownedObjects (desired : SimpleCache) : list Object :=
  [OServiceAccount (account desired); ORole (discoveryRole desired); ORoleBinding (discoveryBinding desired);
   OService (clusterService desired); OService (apiService desired); OStatefulSet (statefulSet desired)].

Definition rolledOut (sts : StatefulSet) (size : Z) : bool :=
  (m_Generation (ss_Meta sts) <=? sst_ObservedGeneration (ss_Status sts)) &&
  (sst_ReadyReplicas (ss_Status sts) =? size) && (sst_UpdatedReplicas (ss_Status sts) =? size) &&
  String.eqb (sst_CurrentRevision (ss_Status sts)) (sst_UpdateRevision (ss_Status sts)).

(** Status, reason and message of the condition of a completed pass. *)
Definition readyCondition (sts : StatefulSet) (size : Z) (gatewayMessage : string) : string * string * string :=
  if negb (String.eqb gatewayMessage "") then ("False", "GatewayPending", gatewayMessage)
  else if rolledOut sts size then ("True", "Ready", "All desired cache replicas are ready")
  else ("False", "Reconciling", "Waiting for StatefulSet rollout").

Definition conflictReason (err : kerror) : string :=
  match err with ownershipConflict _ => "ResourceConflict" | _ => "ReconcileFailed" end.

(** From the read of the StatefulSet on. *)
Definition reportRollout (cr desired : SimpleCache) (namespace name gatewayMessage : string) : KM W Result :=
  onError (kread (GetStatefulSet namespace name)) (fun err => kret (0, Some err)) (fun sts =>
    let '(status, reason, message) := readyCondition sts (sp_Size (cr_Spec desired)) gatewayMessage in
    andStatus (if sp_Gateway (cr_Spec desired) then requeue else 0)
      (setStatus cr (sst_ReadyReplicas (ss_Status sts)) status reason message)).

(** From the gateway on. *)
Definition reconcileRoute (cr desired : SimpleCache) (namespace name : string) : KM W Result :=
  match sp_Gateway (cr_Spec desired) with
  | Some _ =>
      onError (reconcileGateway desired)
        (fun err => failWith (setStatus cr 0 "False" "GatewayReconcileFailed" (kmessage err)) (Some err))
        (reportRollout cr desired namespace name)
  | None =>
      onError (removeGateway EnableGateway desired) (fun err => kret (0, Some err))
        (fun _ => reportRollout cr desired namespace name "")
  end.

Definition reconcileObjects (cr desired : SimpleCache) (namespace name : string) : KM W Result :=
  onError (ensureAll cr (ownedObjects desired))
    (fun err => failWith (setStatus cr 0 "False" (conflictReason err) (kmessage err)) (Some err))
    (fun _ => reconcileRoute cr desired namespace name).

Definition Reconcile (namespace name : string) : KM W Result :=
  fun w =>
    match GetCache namespace name w with
    | inl (apiNotFound _) => (w, Ok (0, None))
    | inl err => (w, Ok (0, Some err))
    | inr cr =>
        if isDeleting cr then (w, Ok (0, None))
        else let desired := defaults cr in
        match validateSpec desired with
        | Some err => failWith (setStatus cr 0 "False" "InvalidSpec" (Error err)) None w
        | None =>
            match sp_Gateway (cr_Spec desired) with
            | Some _ =>
                onError (checkGatewayClass EnableGateway desired)
                  (fun err => andStatus requeue (setStatus cr 0 "False" "GatewayUnavailable" (kmessage err)))
                  (fun _ => reconcileObjects cr desired namespace name) w
            | None => reconcileObjects cr desired namespace name w
            end
        end
    end.
End Reconcile.

(** ** [SetupWithManager]: the kinds whose changes start a pass *)
Definition watchedKinds : list (string * string) :=
  [("apps", "StatefulSet"); ("", "Service"); ("", "ServiceAccount");
   ("rbac.authorization.k8s.io", "Role"); ("rbac.authorization.k8s.io", "RoleBinding")].
Section Setup.
(** [manager.GetRESTMapper().RESTMapping]: an error for a kind that is not installed. *)
Variable RESTMapping : GroupVersionKind -> option string.
Fixpoint ownKinds (kinds : list GroupVersionKind) (owned : list (string * string)) : string + list (string * string) :=
  match kinds with
  | [] => inr owned
  | gvk :: rest =>
      match RESTMapping gvk with
      | Some err => inl ("install gateway CRDs before --enable-gateway: " +:+ err)
      | None => ownKinds rest (owned ++ [objKind (OUnstructured (gatewayObject gvk "" ""))])
      end
  end.
Definition SetupWithManager (EnableGateway : bool) : string + list (string * string) :=
  if EnableGateway then ownKinds gatewayKinds watchedKinds else inr watchedKinds.
End Setup.
