(* ===== verification/MemKube.v ===== *)
(** * An API server in memory

    A concrete instance of [Kube] that meets [KubeLaws] and [FreshReads]: objects in a map,
    written as they are sent with a resource version, an address for a Service
    that has none, the defaults of a Pod template, and no other change. It
    shows that the laws can hold together, and it runs the controller on
    concrete clusters. *)
From S2P Require Import Prelude GoStrings NetAddr Errors LRU CacheStore Bloom Admission Group Read Directory Protocol Postgres Api Config Operator Kube Gateway Reconcile.

(** ** Equality of objects *)
#[export] Instance JSON_eq_dec : EqDecision JSON.
Proof.
  refine (fix go (x y : JSON) : Decision (x = y) :=
    match x, y with
    | JNull, JNull => left eq_refl
    | JBool a, JBool b => cast_if (decide (a = b))
    | JInt a, JInt b => cast_if (decide (a = b))
    | JFloat a, JFloat b => cast_if (decide (a = b))
    | JString a, JString b => cast_if (decide (a = b))
    | JArray a, JArray b => cast_if (@list_eq_dec _ go a b)
    | JObject a, JObject b => cast_if (@list_eq_dec _ (@prod_eq_dec _ _ _ go) a b)
    | _, _ => right _
    end); clear go; abstract congruence.
Defined.
#[export] Instance OwnerReference_eq_dec : EqDecision OwnerReference.
Proof. solve_decision. Defined.
#[export] Instance ObjectMeta_eq_dec : EqDecision ObjectMeta.
Proof. solve_decision. Defined.
#[export] Instance ServicePort_eq_dec : EqDecision ServicePort.
Proof. solve_decision. Defined.
#[export] Instance Service_eq_dec : EqDecision Service.
Proof. solve_decision. Defined.
#[export] Instance ServiceAccount_eq_dec : EqDecision ServiceAccount.
Proof. solve_decision. Defined.
#[export] Instance PolicyRule_eq_dec : EqDecision PolicyRule.
Proof. solve_decision. Defined.
#[export] Instance Role_eq_dec : EqDecision Role.
Proof. solve_decision. Defined.
#[export] Instance RoleRef_eq_dec : EqDecision RoleRef.
Proof. solve_decision. Defined.
#[export] Instance Subject_eq_dec : EqDecision Subject.
Proof. solve_decision. Defined.
#[export] Instance RoleBinding_eq_dec : EqDecision RoleBinding.
Proof. solve_decision. Defined.
#[export] Instance EnvSource_eq_dec : EqDecision EnvSource.
Proof. solve_decision. Defined.
#[export] Instance Probe_eq_dec : EqDecision Probe.
Proof. solve_decision. Defined.
#[export] Instance ResourceRequirements_eq_dec : EqDecision ResourceRequirements.
Proof. solve_decision. Defined.
#[export] Instance Container_eq_dec : EqDecision Container.
Proof. solve_decision. Defined.
#[export] Instance PodTemplateSpec_eq_dec : EqDecision PodTemplateSpec.
Proof. solve_decision. Defined.
#[export] Instance StatefulSetSpec_eq_dec : EqDecision StatefulSetSpec.
Proof. solve_decision. Defined.
#[export] Instance StatefulSetStatus_eq_dec : EqDecision StatefulSetStatus.
Proof. solve_decision. Defined.
#[export] Instance StatefulSet_eq_dec : EqDecision StatefulSet.
Proof. solve_decision. Defined.
#[export] Instance Unstructured_eq_dec : EqDecision Unstructured.
Proof. solve_decision. Defined.
#[export] Instance Object_eq_dec : EqDecision Object.
Proof. solve_decision. Defined.
#[export] Instance typed_dec o : Decision (typed o).
Proof. destruct o; apply _. Defined.

(** ** The world *)
Record MemWorld := mkMem { mw_objects : gmap Key Object; mw_caches : gmap (string * string) SimpleCache }.

Definition valid (kv : Key * Object) : Prop :=
  keyOf kv.2 = kv.1 /\ typed kv.2 /\ m_ResourceVersion (objMeta kv.2) <> "".
#[export] Instance valid_dec kv : Decision (valid kv).
Proof. unfold valid. apply _. Defined.
Definition mem_stored (w : MemWorld) : gmap Key Object := filter valid (mw_objects w).
Definition named (kv : (string * string) * SimpleCache) : Prop := objName (cr_Meta kv.2) = kv.1.
#[export] Instance named_dec kv : Decision (named kv).
Proof. unfold named. apply _. Defined.
Definition mem_caches (w : MemWorld) : gmap (string * string) SimpleCache := filter named (mw_caches w).

(** What the server completes. *)
Definition complete_resources (r : ResourceRequirements) : ResourceRequirements :=
  mkResources (Some (rl (Requests r) ∪ rl (Limits r))) (Limits r).
Definition complete_container (c : Container) : Container :=
  mkContainer (ct_Name c) (ct_Image c) (ct_PullPolicy c) (ct_Command c) (ct_Args c) (ct_Ports c) (ct_Env c)
    (complete_resources (ct_Resources c)) (ct_Startup c) (ct_Liveness c) (ct_Readiness c) (ct_Other c).
Definition complete_template (t : PodTemplateSpec) : PodTemplateSpec :=
  mkTemplate (pt_Labels t) (pt_Annotations t) (pt_ServiceAccountName t)
    (if String.eqb (pt_DeprecatedServiceAccount t) "" then pt_ServiceAccountName t else pt_DeprecatedServiceAccount t)
    (pt_Grace t) (complete_container <$> pt_Containers t) (pt_Other t).
(** Every write of a StatefulSet is a new generation. *)
Definition stamp (o : Object) : ObjectMeta :=
  let m := objMeta o in
  mkMeta (m_Name m) (m_Namespace m) (m_UID m) "1"
    (match o with OStatefulSet _ => m_Generation m + 1 | _ => m_Generation m end) (m_DeletionTimestamp m) (m_OwnerReferences m).
Definition complete (o : Object) : Object :=
  let o := setMeta o (stamp o) in
  match o with
  | OService s => OService (mkService (svc_Meta s) (svc_Type s)
      (if String.eqb (svc_ClusterIP s) "" then "ip-of-" +:+ m_Name (svc_Meta s) else svc_ClusterIP s)
      (svc_Selector s) (svc_Ports s) (svc_PublishNotReady s))
  | OStatefulSet s => OStatefulSet (mkStatefulSet (ss_Meta s)
      (mkStatefulSetSpec (ss_Replicas (ss_Spec s)) (ss_ServiceName (ss_Spec s)) (ss_PodManagement (ss_Spec s))
         (ss_Selector (ss_Spec s)) (complete_template (ss_Template (ss_Spec s)))) (ss_Status s))
  | o => o
  end.
Definition spec_wf (o : Object) : bool :=
  match o with OUnstructured u => json_wf (index (u_Object u) "spec") | _ => true end.

Definition mem_get {A} (select : Object -> option A) (k : Key) (w : MemWorld) : kerror + A :=
  match mem_stored w !! k with
  | None => inl (apiNotFound "not found")
  | Some o => match select o with Some a => inr a | None => inl (kError "unexpected type") end
  end.
Definition as_service (o : Object) : option Service := match o with OService s => Some s | _ => None end.
Definition as_statefulset (o : Object) : option StatefulSet := match o with OStatefulSet s => Some s | _ => None end.
Definition as_unstructured (o : Object) : option Unstructured := match o with OUnstructured u => Some u | _ => None end.

Definition mem_createOrUpdate (obj : Object) (f : Object -> outcome Object) : KM MemWorld unit :=
  fun w =>
    match f (default obj (mem_stored w !! keyOf obj)) with
    | Ok sent =>
        if decide (mem_stored w !! keyOf obj = Some sent) then (w, Ok tt)
        else if decide (valid (keyOf obj, complete sent)) then
          if spec_wf sent then (mkMem (<[keyOf obj := complete sent]> (mw_objects w)) (mw_caches w), Ok tt)
          else (w, Err (kError "invalid"))
        else (w, Err (kError "invalid"))
    | Err e => (w, Err e)
    | Panic => (w, Panic)
    end.

Definition mem_delete (k : Key) (w : MemWorld) : MemWorld * option kerror :=
  match mem_stored w !! k with
  | None => (w, Some (apiNotFound "not found"))
  | Some _ => (mkMem (delete k (mw_objects w)) (mw_caches w), None)
  end.

Definition mem_patch (cr : SimpleCache) (w : MemWorld) : MemWorld * option kerror :=
  match mem_caches w !! objName (cr_Meta cr) with
  | None => (w, Some (apiNotFound "not found"))
  | Some old =>
      (mkMem (mw_objects w)
         (<[objName (cr_Meta cr) := mkSimpleCache (with_version (cr_Meta old) "2") (cr_Spec old) (cr_Status cr)]> (mw_caches w)), None)
  end.

(** Owner references and conditions. *)
Definition mem_isControlledBy (m : ObjectMeta) (owner : Identity) : bool :=
  existsb (fun r => or_Controller r && String.eqb (or_UID r) owner.2) (m_OwnerReferences m).
Definition mem_setController (owner : Identity) (refs : list OwnerReference) : string + list OwnerReference :=
  if existsb (fun r => or_Controller r && negb (String.eqb (or_UID r) owner.2)) refs then inl "already owned"
  else inr (filter (fun r => or_UID r <> owner.2) refs ++ [mkOwnerRef owner.2 true]).
Fixpoint mem_setCondition (cs : list Condition) (c : Condition) : list Condition :=
  match cs with
  | [] => [c]
  | x :: cs' => if String.eqb (c_Type x) (c_Type c) then c :: cs' else x :: mem_setCondition cs' c
  end.
Fixpoint nested (j : JSON) (path : list string) : JSON :=
  match path with
  | [] => j
  | k :: path' => match j with JObject m => nested (index m k) path' | _ => JNull end
  end.

#[export] Instance MemKube : Kube MemWorld := {
  stored := mem_stored;
  caches := mem_caches;
  seen := mem_stored;
  seenCaches := mem_caches;
  GetCache ns name w := match mem_caches w !! (ns, name) with Some cr => inr cr | None => inl (apiNotFound "not found") end;
  GetService ns name := mem_get as_service (serviceKey ns name);
  GetStatefulSet ns name := mem_get as_statefulset (statefulSetKey ns name);
  GetUnstructured gvk ns name := mem_get as_unstructured (gvkKey gvk ns name);
  ListServices ns w :=
    inr (filter (fun s => m_Namespace (svc_Meta s) = ns) (omap (fun kv => as_service kv.2) (map_to_list (mem_stored w))));
  Delete := mem_delete;
  PatchStatus := mem_patch;
  CreateOrUpdate := mem_createOrUpdate;
  IsControlledBy := mem_isControlledBy;
  SetControllerReference := mem_setController;
  SetStatusCondition _ := mem_setCondition;
  NestedSlice obj path := match nested (JObject obj) path with JArray l => l | _ => [] end;
  NestedString obj path := match nested (JObject obj) path with JString s => s | _ => "" end;
}.

(** ** The laws *)
Lemma mem_stored_valid w k o : mem_stored w !! k = Some o -> valid (k, o).
Proof. by intros [_ ?]%map_lookup_filter_Some. Qed.
Lemma mem_caches_named w k cr : mem_caches w !! k = Some cr -> objName (cr_Meta cr) = k.
Proof. by intros [_ ?]%map_lookup_filter_Some. Qed.

Lemma mem_get_ok {A} (select : Object -> option A) (inject : A -> Object) k w a :
  (forall o a', select o = Some a' -> o = inject a') ->
  mem_get select k w = inr a -> mem_stored w !! k = Some (inject a).
Proof.
  intros Hs. unfold mem_get. destruct (mem_stored w !! k) as [o|]; [|done].
  destruct (select o) eqn:E; [|done]. intros [= <-]. by rewrite <- (Hs o a0).
Qed.

Lemma complete_stored sent : spec_wf sent = true -> object_stored sent (complete sent).
Proof.
  intros Hw. split; [|by destruct sent].
  destruct sent as [s|s|s|s|s|s]; simpl; try done.
  - split_and!; try done. intros Hne. by destruct (String.eqb_spec (svc_ClusterIP s) "").
  - split_and!; try done. split; simpl; try done.
    induction (pt_Containers _) as [|c cs IH]; simpl; constructor; [|done]. split; simpl; try done.
  - split; [done|]. by apply completed_refl.
Qed.
Lemma complete_key sent : keyOf (complete sent) = keyOf sent.
Proof. by destruct sent. Qed.

Lemma mem_insert w k o cs :
  valid (k, o) -> mem_stored (mkMem (<[k := o]> (mw_objects w)) cs) = <[k := o]> (mem_stored w).
Proof. intros Hv. unfold mem_stored. simpl. by apply map_filter_insert_True. Qed.

Lemma mem_createOrUpdate_cases obj f w w' r :
  mem_createOrUpdate obj f w = (w', r) ->
  mem_caches w' = mem_caches w /\
  match r with
  | Ok _ => exists sent, f (default obj (mem_stored w !! keyOf obj)) = Ok sent /\
      ((w' = w /\ mem_stored w !! keyOf obj = Some sent) \/
       (object_stored sent (complete sent) /\ mem_stored w' = <[keyOf obj := complete sent]> (mem_stored w) /\
        mem_stored w !! keyOf obj <> Some sent))
  | Err e => w' = w /\ (f (default obj (mem_stored w !! keyOf obj)) = Err e \/ e = kError "invalid")
  | Panic => w' = w /\ f (default obj (mem_stored w !! keyOf obj)) = Panic
  end.
Proof.
  unfold mem_createOrUpdate. intros E. destruct (f _) as [sent|e|] eqn:Ef; [|injection E as <- <-; auto..].
  destruct (decide (mem_stored w !! keyOf obj = Some sent)) as [Es|Es]; [injection E as <- <-; eauto 6|].
  destruct (decide (valid _)) as [Hv|]; [|injection E as <- <-; auto].
  destruct (spec_wf sent) eqn:Ew; [|injection E as <- <-; auto]. injection E as <- <-. split; [done|].
  exists sent. split; [done|]. right. split_and!; [by apply complete_stored|by apply mem_insert|done].
Qed.

Lemma mem_setController_ok owner m refs :
  mem_setController owner (m_OwnerReferences m) = inr refs -> mem_isControlledBy (with_owners m refs) owner = true.
Proof.
  unfold mem_setController, mem_isControlledBy. destruct (existsb _ _); [done|]. intros [= <-]. simpl.
  rewrite existsb_app. simpl. by rewrite String.eqb_refl, orb_true_r.
Qed.
Lemma mem_setController_same owner refs refs' :
  mem_setController owner refs = inr refs' -> mem_setController owner refs' = inr refs'.
Proof.
  unfold mem_setController. destruct (existsb _ refs) eqn:E; [done|]. intros [= <-].
  rewrite existsb_app. simpl. rewrite String.eqb_refl. simpl. rewrite !orb_false_r.
  destruct (existsb _ (filter _ refs)) eqn:E2.
  { apply existsb_exists in E2 as (x & Hin & Hx). apply list_elem_of_In, list_elem_of_filter in Hin as [_ Hin].
    assert (existsb (fun r => or_Controller r && negb (String.eqb (or_UID r) owner.2)) refs = true) as E3; [|congruence].
    apply existsb_exists. exists x. by rewrite <- list_elem_of_In. }
  f_equal. rewrite filter_app, filter_cons_False, filter_nil, app_nil_r by (simpl; congruence).
  f_equal. apply filter_all_true. intros x. by intros [? _]%list_elem_of_filter.
Qed.

Lemma mem_setCondition_set cs c :
  head (filter (fun c' => c_Type c' = c_Type c) (mem_setCondition cs c)) = Some c.
Proof.
  induction cs as [|x cs IH]; simpl; [by rewrite filter_cons_True|].
  destruct (String.eqb_spec (c_Type x) (c_Type c)); [by rewrite filter_cons_True|by rewrite filter_cons_False].
Qed.

Lemma mem_viewed (w : MemWorld) o : viewed w o = mem_stored w !! keyOf o.
Proof. by destruct o. Qed.

#[export] Instance MemKube_laws : KubeLaws MemWorld.
Proof.
  split; simpl.
  - intros w ns name m. by destruct (mem_caches w !! (ns, name)).
  - intros w ns name cr. destruct (mem_caches w !! (ns, name)); [by intros [= <-]|done].
  - intros w ns name s. apply (mem_get_ok as_service OService). by intros [] ? [= <-].
  - intros w ns name s. apply (mem_get_ok as_statefulset OStatefulSet). by intros [] ? [= <-].
  - intros w gvk ns name u. apply (mem_get_ok as_unstructured OUnstructured). by intros [] ? [= <-].
  - intros w gvk ns name m. unfold mem_get. destruct (mem_stored w !! _) as [o|]; [by destruct (as_unstructured o)|done].
  - intros w ns l s [= <-]. rewrite list_elem_of_filter, list_elem_of_omap. split.
    + intros [Hn ([k o] & Hin & Ho)]. apply elem_of_map_to_list in Hin. simpl in Ho.
      destruct o; simplify_eq/=. split; [done|]. destruct (mem_stored_valid _ _ _ Hin) as [Ek _]. simpl in Ek. by subst.
    + intros [Hn Hs]. split; [done|]. exists (keyOf (OService s), OService s). by rewrite elem_of_map_to_list.
  - intros w k o Ho. by destruct (mem_stored_valid _ _ _ Ho).
  - intros w k o Ho. by destruct (mem_stored_valid _ _ _ Ho) as (_ & ? & _).
  - intros w k o Ho. by destruct (mem_stored_valid _ _ _ Ho) as (_ & _ & ?).
  - intros w ns name cr Hc. apply mem_caches_named in Hc. by injection Hc.
  - intros w obj f w' r [Hc Hr]%mem_createOrUpdate_cases. split; [done|].
    destruct r as [[]|e|]; [|left; by destruct Hr as [-> _]..].
    destruct Hr as (sent & Hf & [[-> _]|(Hs & Hw & _)]); [by left|right]. by exists sent, (complete sent).
  - intros w obj f w' [_ (sent & Hf & [[-> Hs]|(Hs & Hw & _)])]%mem_createOrUpdate_cases.
    + exists sent. rewrite mem_viewed. auto.
    + exists sent. rewrite mem_viewed, Hw, lookup_insert_eq. eauto.
  - intros w obj f w' r o [_ Hr]%mem_createOrUpdate_cases Ho Hf. rewrite Ho in Hr. simpl in Hr.
    destruct r as [[]|e|]; [|by destruct Hr as [-> _]..]. destruct Hr as (sent & Hf' & [[-> _]|(_ & _ & Hne)]); [done|congruence].
  - intros w obj f w' e [_ [_ [Hf|?]]]%mem_createOrUpdate_cases; [by rewrite mem_viewed|congruence].
  - intros w obj f w' [_ [_ Hf]]%mem_createOrUpdate_cases. by rewrite mem_viewed.
  - intros w k w' r. unfold mem_delete. destruct (mem_stored w !! k); intros [= <- <-]; [|by auto].
    split; [done|right]. unfold mem_stored. simpl. apply map_filter_delete.
  - intros w k w'. unfold mem_delete. destruct (mem_stored w !! k); intros [= <-].
    unfold mem_stored. simpl. apply map_filter_delete.
  - intros w k w' m. unfold mem_delete. destruct (mem_stored w !! k) eqn:E; intros [=]; by subst.
  - intros w cr w' r. unfold mem_patch. destruct (mem_caches w !! _) as [old|] eqn:E; intros [= <- <-]; [|by auto].
    split; [done|right]. exists old, "2". split; [done|]. unfold mem_caches. simpl. apply map_filter_insert_True.
    apply mem_caches_named in E. unfold named. simpl. rewrite <- E. done.
  - intros w cr w' old. unfold mem_patch. intros E Hold. rewrite Hold in E. injection E as <-.
    exists "2". unfold mem_caches. simpl. apply map_filter_insert_True.
    apply mem_caches_named in Hold. unfold named. simpl. rewrite <- Hold. done.
  - apply mem_setController_ok.
  - apply mem_setController_same.
  - intros m m' owner E. unfold mem_isControlledBy. by rewrite E.
  - intros w cs c. exists (c_LastTransitionTime c). rewrite mem_setCondition_set. by destruct c.
Qed.

#[export] Instance MemKube_fresh : FreshReads MemWorld.
Proof. by split. Qed.

(** ** Concrete clusters *)
Definition sample_objects (l : list Object) : gmap Key Object := list_to_map ((fun o => (keyOf o, o)) <$> l).
Definition sample_world (cr : SimpleCache) (l : list Object) : MemWorld :=
  mkMem (sample_objects l) {[ objName (cr_Meta cr) := cr ]}.

(** The sample resource with a gateway of two shards, and the class it needs. *)
Definition gateway_cr : SimpleCache :=
  mkSimpleCache (cr_Meta sample_cr)
    (mkSpec (Some (mkGateway "" 0)) 2 "registry/cache:1" "" 0 0 0 None 0 small_resources) (mkStatus 0 0 []).
Definition accepted (generation : Z) (type : string) : JSON :=
  JObject [("type", JString type); ("status", JString "True"); ("observedGeneration", JInt generation)].
Definition gateway_class : Object :=
  OUnstructured (mkUnstructured gatewayClassGVK (mkMeta "eg" "" "c1" "9" 1 None [])
    [("spec", JObject [("controllerName", JString gatewayController)]);
     ("status", JObject [("conditions", JArray [accepted 1 "Accepted"])])]).

(** A shard Service left over from a larger size, controlled by the resource,
    and a Service of the same prefix that is not. *)
Definition old_shard : Service :=
  mkService (mkMeta "shop-shard-2" "prod" "u3" "7" 1 None [mkOwnerRef "7c1e" true]) "ClusterIP" "10.9.9.9" ∅ [] false.
Definition foreign_service : Service :=
  mkService (mkMeta "shop-shard-7" "prod" "u4" "8" 1 None [mkOwnerRef "other" true]) "ClusterIP" "10.9.9.8" ∅ [] false.
Definition foreign_statefulset : Object :=
  OStatefulSet (mkStatefulSet (mkMeta "shop" "prod" "u5" "8" 1 None []) (ss_Spec (statefulSet (defaults sample_cr)))
    (mkStatefulSetStatus 1 3 3 "r" "r")).

Definition run (enable : bool) (w : MemWorld) : MemWorld * outcome Result :=
  Reconcile dns_label dns_label dns_label map_to_list enable "prod" "shop" w.

(** The workload controllers report a finished rollout of [n] replicas, and the
    gateway controller accepts every object of the resource. *)
Definition roll_out (n : Z) (w : MemWorld) : MemWorld :=
  mkMem ((fun o => match o with
                   | OStatefulSet s => OStatefulSet (mkStatefulSet (ss_Meta s) (ss_Spec s) (mkStatefulSetStatus 1 n n "r" "r"))
                   | o => o
                   end) <$> mw_objects w) (mw_caches w).
Definition parent_status (ref : string) (generation : Z) : JSON :=
  JArray [JObject [("controllerName", JString gatewayController); (ref, JObject [("name", JString "shop")]);
                   ("conditions", JArray [accepted generation "Accepted"; accepted generation "ResolvedRefs"])]].
Definition accept_gateway (w : MemWorld) : MemWorld :=
  mkMem ((fun o => match o with
                   | OUnstructured u =>
                       if String.eqb (m_Name (u_Meta u)) "shop" then
                         let g := m_Generation (u_Meta u) in
                         OUnstructured (mkUnstructured (u_GVK u) (u_Meta u) (setField (u_Object u) "status"
                           (JObject [("conditions", JArray [accepted g "Accepted"; accepted g "Programmed"]);
                                     ("parents", parent_status "parentRef" g); ("ancestors", parent_status "ancestorRef" g)])))
                       else o
                   | o => o
                   end) <$> mw_objects w) (mw_caches w).

Definition gateway_world : MemWorld := sample_world gateway_cr [gateway_class; OService old_shard; OService foreign_service].
Definition plain_world : MemWorld := sample_world sample_cr [].
Definition conflict_world : MemWorld := sample_world sample_cr [foreign_statefulset].
