(* ===== verification/ReconcileSafety.v ===== *)
(** * What a pass may touch

    Effects of a pass are followed through the calls by relations between the
    worlds before and after ([steps]). *)
From S2P Require Import Prelude GoStrings NetAddr Errors LRU CacheStore Bloom Admission Group Read Directory Protocol Postgres Api Config Operator Kube Gateway Reconcile MemKube.

Section Steps.
Context {W : Type} (R : W -> W -> Prop) `{!PreOrder R}.

Definition steps {A} (m : KM W A) : Prop := forall w w' r, m w = (w', r) -> R w w'.

Lemma steps_ret {A} (a : A) : steps (kret a).
Proof. intros w w' r [= -> _]. done. Qed.
Lemma steps_read {A} (get : W -> kerror + A) : steps (kread get).
Proof. intros w w' r [= -> _]. done. Qed.
Lemma steps_bind {A B} (m : KM W A) (k : A -> KM W B) : steps m -> (forall a, steps (k a)) -> steps (kbind m k).
Proof.
  intros Hm Hk w w' r E. unfold kbind in E. destruct (m w) as [w1 [a|e|]] eqn:E1; simplify_eq; [|eauto..].
  transitivity w1; [by eapply Hm|by eapply Hk].
Qed.
Lemma steps_onError {A} (m : KM W A) handle k :
  steps m -> (forall e, steps (handle e)) -> (forall a, steps (k a)) -> steps (onError m handle k).
Proof.
  intros Hm Hh Hk w w' r E. unfold onError in E. destruct (m w) as [w1 [a|e|]] eqn:E1; simplify_eq; [| |eauto].
  - transitivity w1; [by eapply Hm|by eapply Hk].
  - transitivity w1; [by eapply Hm|by eapply Hh].
Qed.
Lemma steps_failWith m err : steps m -> steps (failWith m err).
Proof. intros Hm w w' r E. unfold failWith in E. destruct (m w) as [w1 []] eqn:E1; simplify_eq; eauto. Qed.
Lemma steps_andStatus d m : steps m -> steps (andStatus d m).
Proof. intros Hm w w' r E. unfold andStatus in E. destruct (m w) as [w1 []] eqn:E1; simplify_eq; eauto. Qed.
Lemma steps_write put : (forall w w' e, put w = (w', e) -> R w w') -> steps (kwrite put).
Proof. intros Hp w w' r E. unfold kwrite in E. destruct (put w) eqn:E1. simplify_eq. eauto. Qed.
Lemma steps_ignore m : steps m -> steps (ignoreNotFound m).
Proof. intros Hm w w' r E. unfold ignoreNotFound in E. destruct (m w) as [w1 [|[]|]] eqn:E1; simplify_eq; eauto. Qed.
End Steps.

Create HintDb kube.
#[export] Hint Resolve steps_ret steps_read steps_bind steps_onError steps_failWith steps_andStatus steps_write steps_ignore : kube.

Section Safety.
Context `{KubeLaws W, !FreshReads W}.

(** ** What a pass for [cr] may touch

    Objects in the namespace of the resource whose name starts with its name;
    of those, an existing object only when the resource controls it. *)
Definition within (cr : SimpleCache) (k : Key) : Prop :=
  k.2.1 = cr_Namespace cr /\ HasPrefix k.2.2 (cr_Name cr) = true.
Record confined (cr : SimpleCache) (w w' : W) : Prop := {
  cf_foreign k o : stored w !! k = Some o -> IsControlledBy (objMeta o) (ownerID cr) = false -> stored w' !! k = Some o;
  cf_outside k : ~ within cr k -> stored w' !! k = stored w !! k;
}.

#[export] Instance confined_preorder cr : PreOrder (confined cr).
Proof.
  split; [by split|]. intros w1 w2 w3 [F1 O1] [F2 O2]. split; [by eauto|].
  intros k Hk. by rewrite O2, O1.
Qed.

Lemma mutateFn_ok owner wanted actual sent :
  mutateFn owner wanted actual = Ok sent ->
  m_ResourceVersion (objMeta actual) = "" \/ IsControlledBy (objMeta actual) (ownerID owner) = true.
Proof.
  unfold mutateFn. destruct (String.eqb_spec (m_ResourceVersion (objMeta actual)) ""); [by left|].
  destruct (IsControlledBy _ _); [by right|done].
Qed.

Lemma ensure_confined cr owner wanted :
  ownerID owner = ownerID cr -> within cr (keyOf wanted) -> steps (confined cr) (ensure owner wanted).
Proof.
  intros Ho Hw w w' r E. apply CreateOrUpdate_step in E as [Hc [Hs|(sent & got & Hf & Hgot & Hs)]].
  { split; congruence. }
  split.
  - intros k o Hk Hown. rewrite Hs. destruct (decide (k = keyOf wanted)) as [->|Hne];
      [|by rewrite lookup_insert_ne]. rewrite Hk in Hf. simpl in Hf.
    apply mutateFn_ok in Hf as [Hv|Hf]; [by apply stored_version in Hk|congruence].
  - intros k Hk. rewrite Hs. apply lookup_insert_ne. congruence.
Qed.

Lemma ensureAll_confined cr owner l :
  ownerID owner = ownerID cr -> (forall o, o ∈ l -> within cr (keyOf o)) -> steps (confined cr) (ensureAll owner l).
Proof.
  intros Ho. induction l as [|o l IH]; intros Hl; simpl; [apply steps_ret, _|].
  apply steps_bind; [apply _|apply ensure_confined; [done|apply Hl; by left]|].
  intros _. apply IH. intros o' Ho'. apply Hl. by right.
Qed.

(** The resources themselves are changed by the status only. *)
Definition same_caches (w w' : W) : Prop := caches w' = caches w.
#[export] Instance same_caches_preorder : PreOrder same_caches.
Proof. split; [done|]. intros w1 w2 w3. unfold same_caches. congruence. Qed.
Definition same_stored (w w' : W) : Prop := stored w' = stored w.
#[export] Instance same_stored_preorder : PreOrder same_stored.
Proof. split; [done|]. intros w1 w2 w3. unfold same_stored. congruence. Qed.
Lemma ensure_caches owner wanted : steps same_caches (ensure owner wanted).
Proof. intros w w' r E. by apply CreateOrUpdate_step in E as [Hc _]. Qed.
Lemma ensureAll_caches owner l : steps same_caches (ensureAll owner l).
Proof.
  induction l as [|o l IH]; simpl; [apply steps_ret, _|].
  apply steps_bind; [apply _|apply ensure_caches|done].
Qed.

(** ** Deletions *)
Lemma prefix_trans p q s : HasPrefix s (p +:+ q) = true -> HasPrefix s p = true.
Proof.
  unfold HasPrefix. revert s. induction p as [|c p IH]; intros [|d s]; simpl; try done.
  destruct (ascii_dec c d); [apply IH|done].
Qed.

Lemma obsoleteShard_inv cr keep svc :
  obsoleteShard cr keep svc = true ->
  IsControlledBy (svc_Meta svc) (ownerID cr) = true /\ HasPrefix (m_Name (svc_Meta svc)) (cr_Name cr +:+ "-shard-") = true.
Proof. unfold obsoleteShard. destruct (IsControlledBy _ _), (HasPrefix _ _); done. Qed.

(** Removing objects: nothing appears, only chosen ones disappear. *)
Record removes (chosen : Key -> Object -> Prop) (w w' : W) : Prop := {
  rm_caches : caches w' = caches w;
  rm_no_new k o : stored w' !! k = Some o -> stored w !! k = Some o;
  rm_chosen k o : stored w !! k = Some o -> stored w' !! k = Some o \/ (stored w' !! k = None /\ chosen k o);
}.

#[export] Instance removes_preorder chosen : PreOrder (removes chosen).
Proof.
  split; [split; by auto|]. intros w1 w2 w3 [C1 N1 K1] [C2 N2 K2]. split; [congruence|by auto|].
  intros k o Hk. destruct (K1 k o Hk) as [H2|[H2 Hch]].
  - destruct (K2 k o H2) as [?|[? ?]]; auto.
  - right. split; [|done]. destruct (stored w3 !! k) eqn:E3; [|done]. apply N2 in E3. congruence.
Qed.

Lemma delete_removes chosen k w w' r :
  Delete k w = (w', r) -> (forall o, stored w !! k = Some o -> chosen k o) -> removes chosen w w'.
Proof.
  intros [Hc [Hs|Hs]]%Delete_step Hch; split; try done; rewrite Hs; [by auto..| |].
  - intros k' o [? ?]%lookup_delete_Some. done.
  - intros k' o Hk. destruct (decide (k' = k)) as [->|Hne]; [rewrite lookup_delete_eq; eauto|].
    left. by rewrite lookup_delete_ne.
Qed.

Lemma ignore_delete k w w' r :
  ignoreNotFound (kwrite (Delete k)) w = (w', r) ->
  r <> Panic /\ (exists e, Delete k w = (w', e)) /\ (r = Ok tt -> stored w' !! k = None).
Proof.
  unfold ignoreNotFound, kwrite. destruct (Delete k w) as [w1 [[m|m|m]|]] eqn:E; intros [= <- <-];
    split_and!; try done; try (by eexists); intros _.
  - by eapply Delete_missing.
  - apply Delete_ok in E. rewrite E. apply lookup_delete_eq.
Qed.

Definition chosenShard (cr : SimpleCache) (keep : Z) (k : Key) (o : Object) : Prop :=
  exists svc, o = OService svc /\ k = keyOf o /\ m_Namespace (svc_Meta svc) = cr_Namespace cr /\ obsoleteShard cr keep svc = true.

Lemma removeEach_spec cr keep items w w' r :
  (forall svc, svc ∈ items -> m_Namespace (svc_Meta svc) = cr_Namespace cr /\
     forall o, stored w !! keyOf (OService svc) = Some o -> o = OService svc) ->
  removeEach cr keep items w = (w', r) ->
  r <> Panic /\ removes (chosenShard cr keep) w w' /\
  (r = Ok tt -> forall svc, svc ∈ items -> obsoleteShard cr keep svc = true -> stored w' !! keyOf (OService svc) = None).
Proof.
  revert w. induction items as [|svc items IH]; intros w Hit E; cbn [removeEach] in E.
  { injection E as <- <-. split_and!; [done|done|]. intros _ svc. by rewrite elem_of_nil. }
  assert (forall s, s ∈ items -> m_Namespace (svc_Meta s) = cr_Namespace cr /\
    forall o, stored w !! keyOf (OService s) = Some o -> o = OService s) as Hit' by (intros s Hs; apply Hit; by right).
  destruct (obsoleteShard cr keep svc) eqn:Eo.
  2:{ destruct (IH w Hit' E) as (H1 & H2 & H3). split_and!; [done|done|].
      intros Hr s [->|Hs]%elem_of_cons Ho; [congruence|by apply H3]. }
  unfold kbind in E. destruct (ignoreNotFound _ w) as [w1 r1] eqn:E1.
  apply ignore_delete in E1 as (Hp & [e Hd] & Hgone).
  assert (removes (chosenShard cr keep) w w1) as Hrm.
  { eapply delete_removes; [done|]. intros o Ho. destruct (Hit svc) as [Hn Hs]; [by left|].
    rewrite (Hs o Ho). by exists svc. }
  destruct r1 as [[]|e1|]; [|injection E as <- <-; by split_and!|done].
  assert (forall s, s ∈ items -> m_Namespace (svc_Meta s) = cr_Namespace cr /\
    forall o, stored w1 !! keyOf (OService s) = Some o -> o = OService s) as Hit1.
  { intros s Hs. split; [by apply Hit'|]. intros o Ho. eapply Hit'; [done|]. by apply (rm_no_new _ _ _ Hrm). }
  destruct (IH w1 Hit1 E) as (H1 & H2 & H3). split_and!; [done|by etrans|].
  intros Hr s [->|Hs]%elem_of_cons Ho; [|by apply H3].
  destruct (stored w' !! keyOf (OService svc)) eqn:E2; [|done]. apply (rm_no_new _ _ _ H2) in E2.
  rewrite Hgone in E2 by done. done.
Qed.

Lemma removeShardServices_spec cr keep w w' r :
  removeShardServices cr keep w = (w', r) ->
  r <> Panic /\ removes (chosenShard cr keep) w w' /\
  (r = Ok tt -> forall k o, stored w' !! k = Some o -> ~ chosenShard cr keep k o).
Proof.
  unfold removeShardServices, kbind, kread. destruct (ListServices _ w) as [e|items] eqn:El.
  { intros [= <- <-]. by split_and!. }
  intros E. apply removeEach_spec in E as (H1 & H2 & H3).
  - split_and!; [done|done|]. intros Hr k o Hk (svc & -> & -> & Hn & Ho).
    rewrite H3 in Hk; [done|done| |done]. eapply ListServices_ok; [done|].
    split; [done|]. by apply (rm_no_new _ _ _ H2).
  - intros svc [Hn Hs]%(ListServices_ok _ _ _ _ El). split; [done|]. intros o Ho. simpl in *. congruence.
Qed.

Definition chosenKind (cr : SimpleCache) (kinds : list GroupVersionKind) (k : Key) (o : Object) : Prop :=
  exists gvk, gvk ∈ kinds /\ k = gvkKey gvk (cr_Namespace cr) (cr_Name cr) /\ IsControlledBy (objMeta o) (ownerID cr) = true.

Lemma removes_weaken (P Q : Key -> Object -> Prop) w w' :
  (forall k o, P k o -> Q k o) -> removes P w w' -> removes Q w w'.
Proof. intros HPQ [H1 H2 H3]. split; [done|done|]. intros k o Hk. destruct (H3 k o Hk) as [?|[? ?]]; auto. Qed.

Lemma removeKinds_spec cr kinds w w' r :
  removeKinds cr kinds w = (w', r) ->
  r <> Panic /\ removes (chosenKind cr kinds) w w' /\
  (r = Ok tt -> forall k o, stored w' !! k = Some o -> ~ chosenKind cr kinds k o).
Proof.
  revert w. induction kinds as [|gvk kinds IH]; intros w E; cbn [removeKinds] in E.
  { injection E as <- <-. split_and!; [done|done|]. intros _ k o _ (gvk & Hin & _). by rewrite elem_of_nil in Hin. }
  assert (forall w1 w2, removes (chosenKind cr kinds) w1 w2 -> removes (chosenKind cr (gvk :: kinds)) w1 w2) as Hweak.
  { intros w1 w2. apply removes_weaken. intros k o (g & Hg & ? & ?). exists g. split_and!; [by right|done|done]. }
  assert (forall w1, removeKinds cr kinds w1 = (w', r) ->
    (forall o, stored w1 !! gvkKey gvk (cr_Namespace cr) (cr_Name cr) = Some o -> IsControlledBy (objMeta o) (ownerID cr) = false) ->
    r <> Panic /\ removes (chosenKind cr (gvk :: kinds)) w1 w' /\
    (r = Ok tt -> forall k o, stored w' !! k = Some o -> ~ chosenKind cr (gvk :: kinds) k o)) as Hrest.
  { intros w1 E1 Hno. destruct (IH w1 E1) as (H1 & H2 & H3). split_and!; [done|by apply Hweak|].
    intros Hr k o Hk (g & [->|Hg]%elem_of_cons & -> & Hc); [|by eapply H3; [..|exists g]].
    apply (rm_no_new _ _ _ H2) in Hk. apply Hno in Hk. congruence. }
  destruct (GetUnstructured gvk _ _ w) as [e|obj] eqn:Eg.
  - destruct e as [m|m|m]; [injection E as <- <-; by split_and!| |injection E as <- <-; by split_and!].
    apply Hrest; [done|]. apply GetUnstructured_missing in Eg. by rewrite Eg.
  - apply GetUnstructured_ok in Eg. destruct (IsControlledBy (u_Meta obj) (ownerID cr)) eqn:Ec.
    2:{ apply Hrest; [done|]. rewrite Eg. by intros o [= <-]. }
    unfold kbind in E. destruct (ignoreNotFound _ w) as [w1 r1] eqn:E1.
    rewrite (stored_key _ _ _ Eg) in E1.
    apply ignore_delete in E1 as (Hp & [e Hd] & Hgone).
    assert (removes (chosenKind cr (gvk :: kinds)) w w1) as Hrm.
    { eapply delete_removes; [done|]. rewrite Eg. intros o [= <-]. exists gvk. split_and!; [by left|done|done]. }
    destruct r1 as [[]|e1|]; [|injection E as <- <-; by split_and!|done].
    destruct (Hrest w1 E) as (H1 & H2 & H3); [by rewrite Hgone|]. split_and!; [done|by etrans|done].
Qed.

Lemma removes_confined cr (chosen : Key -> Object -> Prop) w w' :
  (forall k o, chosen k o -> within cr k /\ IsControlledBy (objMeta o) (ownerID cr) = true) ->
  removes chosen w w' -> confined cr w w'.
Proof.
  intros Hch [_ N K]. split.
  - intros k o Hk Hc. destruct (K k o Hk) as [?|[_ Hx]]; [done|]. apply Hch in Hx as [_ ?]. congruence.
  - intros k Hk. destruct (stored w !! k) as [o|] eqn:E.
    + destruct (K k o E) as [?|[_ Hx]]; [done|]. by apply Hch in Hx as [? _].
    + destruct (stored w' !! k) as [o|] eqn:E'; [|done]. apply N in E'. congruence.
Qed.

Lemma chosenShard_within cr keep k o :
  chosenShard cr keep k o -> within cr k /\ IsControlledBy (objMeta o) (ownerID cr) = true.
Proof.
  intros (svc & -> & -> & Hn & [Hc Hp]%obsoleteShard_inv). split; [|done]. split; [done|]. by apply prefix_trans in Hp.
Qed.
Lemma prefix_refl s : HasPrefix s s = true.
Proof. unfold HasPrefix. induction s as [|c s IH]; simpl; [done|]. by destruct (ascii_dec c c). Qed.
Lemma chosenKind_within cr kinds k o :
  chosenKind cr kinds k o -> within cr k /\ IsControlledBy (objMeta o) (ownerID cr) = true.
Proof. intros (gvk & _ & -> & ?). split; [|done]. split; [done|apply prefix_refl]. Qed.

Lemma removeShardServices_confined cr keep : steps (confined cr) (removeShardServices cr keep).
Proof.
  intros w w' r (_ & Hr & _)%removeShardServices_spec.
  eapply removes_confined; [apply chosenShard_within|done].
Qed.
Lemma removeGateway_confined enable cr : steps (confined cr) (removeGateway enable cr).
Proof.
  unfold removeGateway. destruct enable; cbn [negb]; [|apply steps_ret, _].
  apply steps_bind; [apply _| |intros _; apply removeShardServices_confined].
  intros w w' r (_ & Hr & _)%removeKinds_spec. eapply removes_confined; [apply chosenKind_within|done].
Qed.

Lemma within_app cr kind name : within cr (kind, (cr_Namespace cr, cr_Name cr +:+ name)).
Proof. split; [done|apply prefix_app]. Qed.
Lemma shardAddresses_confined cr ords ips : steps (confined cr) (shardAddresses cr ords ips).
Proof.
  revert ips. induction ords as [|i ords IH]; intros ips; cbn [shardAddresses]; [apply steps_ret, _|].
  apply steps_bind; [apply _|apply ensure_confined; [done|apply within_app]|]. intros _.
  apply steps_bind; [apply _|apply steps_read, _|]. intros svc.
  destruct (String.eqb _ _); [apply steps_ret, _|apply IH].
Qed.
Lemma awaitReady_same cr objs (R : W -> W -> Prop) `{!PreOrder R} : steps R (awaitReady cr objs).
Proof.
  induction objs as [|obj objs IH]; cbn [awaitReady]; [apply steps_ret, _|].
  apply steps_bind; [apply _|apply steps_read, _|]. intros u. destruct (negb _); [apply steps_ret, _|done].
Qed.
Lemma gatewayObjects_key cr g ips u :
  u ∈ gatewayObjects cr g ips ->
  u_Meta u = metadata cr (cr_Name cr) /\ typed (OUnstructured u).
Proof.
  unfold gatewayObjects. rewrite !elem_of_cons, elem_of_nil.
  intros [->|[->|[->|[->|[->|[]]]]]]; (split; [done|]); unfold typed, builtinGroups; simpl;
    rewrite !elem_of_cons, elem_of_nil; intros [?|[?|[?|[]]]]; done.
Qed.
Lemma reconcileGateway_confined cr : steps (confined cr) (reconcileGateway cr).
Proof.
  unfold reconcileGateway. apply steps_bind; [apply _|apply shardAddresses_confined|].
  intros [m|ips]; [apply steps_ret, _|]. destruct (sp_Gateway (cr_Spec cr)) as [g|] eqn:Eg.
  - rewrite (gatewayResources_eq _ _ _ Eg).
    apply steps_bind; [apply _| |intros _; apply steps_bind; [apply _|apply removeShardServices_confined|]].
    + apply ensureAll_confined; [done|]. intros o (u & -> & Hu)%list_elem_of_fmap.
      apply gatewayObjects_key in Hu as [Hm _]. unfold keyOf, objName. simpl. rewrite Hm. split; [done|apply prefix_refl].
    + intros _. apply awaitReady_same, _.
  - unfold gatewayResources. rewrite Eg. intros w w' r [= -> _]. done.
Qed.

Lemma setStatus_stored cr ready status reason message :
  steps same_stored (setStatus cr ready status reason message).
Proof.
  intros w w' r. unfold setStatus. cbv zeta. destruct (negb _); [|by intros [= <- _]].
  unfold kwrite. destruct (PatchStatus _ w) as [w1 e] eqn:E. intros [= <- _].
  by apply PatchStatus_step in E as [? _].
Qed.
Lemma setStatus_confined cr0 cr ready status reason message :
  steps (confined cr0) (setStatus cr ready status reason message).
Proof. intros w w' r E%setStatus_stored. unfold same_stored in E. split; congruence. Qed.

Lemma steps_defaults {A} cr (m : KM W A) : steps (confined (defaults cr)) m -> steps (confined cr) m.
Proof. intros Hm w w' r E%Hm. destruct E as [HF HO]. by split. Qed.

Section Pass.
Variables IsDNS1035Label IsDNS1123Label IsDNS1123Subdomain : string -> bool.
Variable range : ResourceList -> list (string * Z).
Variable EnableGateway : bool.
Notation validateSpec := (validateSpec IsDNS1035Label IsDNS1123Label IsDNS1123Subdomain range).
Notation Reconcile := (Reconcile IsDNS1035Label IsDNS1123Label IsDNS1123Subdomain range EnableGateway).

Lemma ownedObjects_within cr o : o ∈ ownedObjects cr -> within cr (keyOf o).
Proof.
  unfold ownedObjects. rewrite !elem_of_cons, elem_of_nil.
  intros [->|[->|[->|[->|[->|[->|[]]]]]]]; try apply within_app. split; [done|apply prefix_refl].
Qed.

Lemma reportRollout_confined cr desired ns name msg : steps (confined cr) (reportRollout cr desired ns name msg).
Proof.
  apply steps_onError; [apply _|apply steps_read, _|intros e; apply steps_ret, _|].
  intros sts. destruct (readyCondition _ _ _) as [[? ?] ?]. apply steps_andStatus, setStatus_confined.
Qed.

Lemma reconcileObjects_confined cr ns name :
  steps (confined cr) (reconcileObjects EnableGateway cr (defaults cr) ns name).
Proof.
  apply steps_onError; [apply _| |intros e; apply steps_failWith, setStatus_confined|intros _].
  { apply ensureAll_confined; [done|]. intros o Ho%ownedObjects_within. exact Ho. }
  unfold reconcileRoute. destruct (sp_Gateway _).
  - apply steps_onError; [apply _|apply steps_defaults, reconcileGateway_confined
      |intros e; apply steps_failWith, setStatus_confined|intros m; apply reportRollout_confined].
  - apply steps_onError; [apply _|apply steps_defaults, removeGateway_confined
      |intros e; apply steps_ret, _|intros _; apply reportRollout_confined].
Qed.

End Pass.
End Safety.

