(* ===== verification/ReconcileStable.v ===== *)
(** * A pass settles

    After a pass that went through, every object is a fixed point of the
    function the controller applies to it, so that the next pass writes
    nothing; and what is stored is exactly what the resource asks for. *)
From S2P Require Import Prelude GoStrings NetAddr Errors LRU CacheStore Bloom Admission Group Read Directory Protocol Postgres Api Config Operator Kube Gateway Reconcile MemKube ReconcileSafety.

Section Settle.
Context `{KubeLaws W, !FreshReads W}.

(** ** Fixed points of [mutateFn] *)
Definition settled (owner : SimpleCache) (wanted : Object) (s : gmap Key Object) : Prop :=
  exists o, s !! keyOf wanted = Some o /\ mutateFn owner wanted o = Ok o.

(** What makes a generated object settle: no null in a desired specification;
    a template with maps and a first container whose limits all have requests. *)
Definition requests_cover (r : ResourceRequirements) : Prop :=
  exists requests, Requests r = Some requests /\ forall name, is_Some (rl (Limits r) !! name) -> is_Some (requests !! name).
Definition good (wanted : Object) : Prop :=
  m_ResourceVersion (objMeta wanted) = "" /\
  match wanted with
  | OUnstructured u => no_null (index (u_Object u) "spec") = true
  | OStatefulSet s =>
      let t := ss_Template (ss_Spec s) in
      is_Some (pt_Labels t) /\ is_Some (pt_Annotations t) /\ pt_DeprecatedServiceAccount t = "" /\
      exists c, pt_Containers t = [c] /\ requests_cover (ct_Resources c)
  | _ => True
  end.

Lemma resources_settle sent got : requests_cover sent -> resources_stored sent got -> got = sent.
Proof.
  intros (req & Hreq & Hcov) (Hl & Hr & Hn). destruct sent as [sr sl], got as [gr gl]. simpl in *. subst.
  destruct gr as [gr|]; [|by destruct Hn]. simpl in Hr. f_equal. f_equal. rewrite Hr. apply map_eq. intros name.
  destruct (req !! name) as [q|] eqn:E; [by apply lookup_union_Some_l|].
  rewrite lookup_union_r by done. destruct (rl sl !! name) eqn:E2; [|done].
  destruct (Hcov name) as [x Hx]; [by eauto|]. congruence.
Qed.

Lemma container_settle g sent wanted :
  container_stored sent g -> (sent = wanted \/ exists c, sent = mergeContainer c wanted /\ ct_Name c = ct_Name wanted) ->
  requests_cover (ct_Resources wanted) -> ct_Name g = ct_Name wanted /\ mergeContainer g wanted = g.
Proof.
  intros [] Hs Hcov.
  assert (ct_Resources sent = ct_Resources wanted) as Hres by (by destruct Hs as [->|(c & -> & _)]).
  rewrite Hres in cs_Resources. apply resources_settle in cs_Resources; [|done].
  destruct Hs as [->|(c & -> & Hc)]; destruct g, wanted; simpl in *; subst; by split.
Qed.

Lemma containers_settle cs wanted gs :
  Forall2 container_stored (mergeContainers cs wanted) gs -> requests_cover (ct_Resources wanted) ->
  mergeContainers gs wanted = gs.
Proof.
  intros HF Hcov. revert gs HF. induction cs as [|c cs IH]; simpl; intros gs HF.
  - inversion HF as [|? g ? gs' Hg Hgs]; subst. inversion Hgs; subst. simpl.
    destruct (container_settle g wanted wanted) as [En Em]; [done|by left|done|].
    rewrite En, String.eqb_refl. simpl. by rewrite Em.
  - destruct (String.eqb_spec (ct_Name c) (ct_Name wanted)) as [E|E]; simpl in HF;
      inversion HF as [|? g ? gs' Hg Hgs]; subst; simpl.
    + destruct (container_settle g (mergeContainer c wanted) wanted) as [En Em]; [done|right; eauto|done|].
      rewrite En, String.eqb_refl. simpl. by rewrite Em.
    + rewrite (cs_Name _ _ Hg). destruct (String.eqb_spec (ct_Name c) (ct_Name wanted)); [done|]. simpl. by rewrite IH.
Qed.

Lemma copyMap_settle (cur des : option (gmap string string)) :
  copyMap (copyMap cur des) des = copyMap cur des.
Proof. unfold copyMap. simpl. f_equal. by rewrite (assoc_L (∪)), (idemp_L (∪)). Qed.
Lemma copyMap_self (d : option (gmap string string)) : is_Some d -> copyMap d d = d.
Proof. intros [m ->]. unfold copyMap. simpl. f_equal. apply (idemp_L (∪)). Qed.

(** A template that was stored settles, whether it was sent as it is wanted
    or merged into an older one. *)
Lemma template_settle (des sent got : PodTemplateSpec) c :
  is_Some (pt_Labels des) -> is_Some (pt_Annotations des) -> pt_DeprecatedServiceAccount des = "" ->
  pt_Containers des = [c] -> requests_cover (ct_Resources c) ->
  sent = des \/ (exists cur, mergeTemplate cur des = Some sent) ->
  template_stored sent got -> mergeTemplate got des = Some got.
Proof.
  intros Hl Ha Hd Hc Hcov Hs []. unfold mergeTemplate in *. rewrite Hc in *. f_equal.
  destruct Hs as [->|(cur & [= <-])]; simpl in *.
  - rewrite Hc in ts_Containers. rewrite Hd in ts_Deprecated. destruct got; simpl in *; subst.
    rewrite !copyMap_self, (containers_settle [] c) by done. done.
  - apply containers_settle in ts_Containers; [|done]. destruct got as [gl ga gs gd gg gc go]; simpl in *; subst.
    rewrite !copyMap_settle, ts_Containers. f_equal. by destruct (String.eqb_spec (pt_ServiceAccountName des) "").
Qed.

(** [mutateKind] keeps the metadata it is given. *)
Lemma mutateKind_meta wanted actual sent : mutateKind wanted actual = Ok sent -> objMeta sent = objMeta actual.
Proof.
  destruct actual, wanted; simpl; try done.
  - unfold mutateService. destruct (_ && _ && _); simpl; [done|]. by intros [= <-].
  - by intros [= <-].
  - by intros [= <-].
  - unfold mutateBinding. destruct (_ && _); simpl; [done|]. by intros [= <-].
  - unfold mutateStatefulSet. destruct (String.eqb _ ""); [by intros [= <-]|].
    destruct (_ || _); [done|]. destruct (mergeTemplate _ _); simpl; [|done]. by intros [= <-].
  - intros [= <-]. unfold mutateUnstructured. destruct (negb _); done.
Qed.
Lemma setMeta_meta o m : objMeta (setMeta o m) = m.
Proof. by destruct o. Qed.
Lemma setMeta_same o : setMeta o (objMeta o) = o.
Proof. destruct o as [[]|[]|[]|[]|[]|[]]; done. Qed.
Lemma with_owners_same m : with_owners m (m_OwnerReferences m) = m.
Proof. by destruct m. Qed.

Lemma RoleRef_eqb_refl r : RoleRef_eqb r r = true.
Proof. unfold RoleRef_eqb. by rewrite !String.eqb_refl. Qed.

(** The per-kind part: what is stored of what was sent is a fixed point. *)
Lemma mutateStatefulSet_settles s cur sent got :
  good (OStatefulSet s) -> mutateStatefulSet s cur = Ok sent -> object_stored (OStatefulSet sent) (OStatefulSet got) ->
  mutateStatefulSet s got = Ok got.
Proof.
  intros [_ (Hl & Ha & Hd & c & Hc & Hcov)] Hm [(Er & Es & Ep & Esel & Ht) (_ & _ & Hv)].
  assert (ss_Replicas (ss_Spec sent) = ss_Replicas (ss_Spec s) /\ ss_ServiceName (ss_Spec sent) = ss_ServiceName (ss_Spec s) /\
    ss_Selector (ss_Spec sent) = ss_Selector (ss_Spec s) /\
    (ss_Template (ss_Spec sent) = ss_Template (ss_Spec s) \/
     exists t, mergeTemplate t (ss_Template (ss_Spec s)) = Some (ss_Template (ss_Spec sent)))) as (F1 & F2 & F3 & F4).
  { unfold mutateStatefulSet in Hm. destruct (String.eqb _ ""); [injection Hm as <-; by split_and!; auto|].
    destruct (negb _ || _) eqn:E; [done|]. destruct (mergeTemplate _ _) eqn:Et; [|done]. injection Hm as <-. simpl.
    reflect_bool. split_and!; [done| | |by right; eauto].
    - by destruct (String.eqb_spec (ss_ServiceName (ss_Spec cur)) (ss_ServiceName (ss_Spec s))).
    - by destruct (bool_decide_reflect (ss_Selector (ss_Spec cur) = ss_Selector (ss_Spec s))). }
  unfold mutateStatefulSet. simpl in Hv. destruct (String.eqb_spec (m_ResourceVersion (ss_Meta got)) ""); [done|].
  rewrite Es, F2, String.eqb_refl, Esel, F3. rewrite bool_decide_true by done. simpl.
  rewrite (template_settle _ _ (ss_Template (ss_Spec got)) c Hl Ha Hd Hc Hcov F4 Ht).
  destruct got as [gm [? ? ? ? ?] gs]. simpl in *. congruence.
Qed.

Lemma mutateKind_settles wanted cur sent got :
  good wanted -> mutateKind wanted cur = Ok sent -> object_stored sent got -> mutateKind wanted got = Ok got.
Proof.
  intros Hg Hm Hs.
  destruct cur as [cur|cur|cur|cur|cur|cur], wanted as [s|a|r|b|s|u]; simpl in Hm; try done.
  - unfold mutateService in Hm. destruct (_ && _ && _) eqn:E1; [done|]. injection Hm as <-.
    destruct Hs as [Hs _]. destruct got as [g| | | | |]; simpl in Hs; try done.
    destruct Hs as (T & S & P & N & C). simpl. unfold mutateService.
    destruct (String.eqb_spec (svc_ClusterIP s) "None") as [E|E].
    + rewrite C by done. simpl. destruct g; simpl in *; subst. f_equal. f_equal. f_equal. symmetry. by apply C.
    + simpl. destruct g; simpl in *; congruence.
  - injection Hm as <-. destruct Hs as [Hs _]. by destruct got.
  - injection Hm as <-. destruct Hs as [Hs _]. destruct got as [| |g| | |]; simpl in *; try done.
    destruct g; simpl in *; congruence.
  - unfold mutateBinding in Hm. destruct (_ && _); [done|]. injection Hm as <-. destruct Hs as [Hs _].
    destruct got as [| | |g| |]; simpl in *; try done. destruct Hs as [R S]. unfold mutateBinding. rewrite R, RoleRef_eqb_refl.
    rewrite andb_false_r. destruct g; simpl in *; congruence.
  - destruct (mutateStatefulSet s cur) as [sent'| |] eqn:E; simpl in Hm; try done. injection Hm as <-.
    destruct got as [| | | |g|]; try (by destruct Hs). simpl. by rewrite (mutateStatefulSet_settles s cur sent' g).
  - injection Hm as <-. destruct Hs as [Hs _]. destruct got as [| | | | |g]; simpl in *; try done.
    destruct Hs as [_ Hs], Hg as [_ Hn]. do 2 f_equal. unfold mutateUnstructured.
    assert (desiredSubset (index (u_Object g) "spec") (index (u_Object u) "spec") = true) as ->; [|done].
    apply desiredSubset_iff. unfold mutateUnstructured in Hs.
    destruct (desiredSubset (index (u_Object cur) "spec") _) eqn:E; simpl in Hs; [|by rewrite index_set in Hs].
    apply desiredSubset_iff in E. by eapply completed_trans.
Qed.

Lemma mutateFn_settles owner wanted cur sent got :
  good wanted -> mutateFn owner wanted cur = Ok sent -> object_stored sent got -> mutateFn owner wanted got = Ok got.
Proof.
  intros Hg Hm Hs. unfold mutateFn in Hm. destruct (_ && _); [done|].
  destruct (SetControllerReference _ _) as [e|refs] eqn:Es; [done|].
  assert (m_OwnerReferences (objMeta got) = refs) as Hrefs.
  { destruct Hs as (_ & _ & Ho & _). rewrite Ho. apply mutateKind_meta in Hm. by rewrite Hm, setMeta_meta. }
  assert (IsControlledBy (objMeta got) (ownerID owner) = true) as Hc.
  { rewrite <- (SetControllerReference_ok _ _ _ Es). by apply IsControlledBy_owners. }
  unfold mutateFn. rewrite Hc, andb_false_r, Hrefs. rewrite (SetControllerReference_same _ _ _ Es).
  rewrite <- Hrefs, with_owners_same, setMeta_same. by eapply mutateKind_settles.
Qed.

(** ** [ensure] settles its object and touches no other *)
Lemma ensure_settled owner wanted w w' :
  good wanted -> ensure owner wanted w = (w', Ok tt) -> settled owner wanted (stored w').
Proof.
  intros Hg E. apply CreateOrUpdate_ok in E as (sent & got & Hf & Hgot & [Hs|[Hcur ->]]).
  - exists got. split; [done|]. by eapply mutateFn_settles.
  - exists sent. split; [done|]. rewrite Hcur in Hf. done.
Qed.
Lemma ensure_other owner wanted w w' r k :
  ensure owner wanted w = (w', r) -> k <> keyOf wanted -> stored w' !! k = stored w !! k.
Proof.
  intros [_ [->|(sent & got & _ & _ & ->)]]%CreateOrUpdate_step Hk; [done|]. by rewrite lookup_insert_ne.
Qed.
Lemma ensure_idle owner wanted w w' r :
  settled owner wanted (stored w) -> ensure owner wanted w = (w', r) -> stored w' = stored w.
Proof. intros (o & Ho & Hf) E. by eapply CreateOrUpdate_same. Qed.

Lemma settled_frame (owner : SimpleCache) (wanted : Object) (s s' : gmap Key Object) :
  s' !! keyOf wanted = s !! keyOf wanted -> settled owner wanted s -> settled owner wanted s'.
Proof. intros E (o & Ho & Hf). exists o. by rewrite E. Qed.

Lemma ensureAll_other owner l w w' r k :
  ensureAll owner l w = (w', r) -> k ∉ keyOf <$> l -> stored w' !! k = stored w !! k.
Proof.
  revert w. induction l as [|o l IH]; intros w E Hk; cbn [ensureAll] in E; [by injection E as <- _|].
  rewrite fmap_cons, not_elem_of_cons in Hk. destruct Hk as [Hk1 Hk2]. unfold kbind in E.
  destruct (ensure owner o w) as [w1 r1] eqn:E1. pose proof (ensure_other _ _ _ _ _ _ E1 Hk1) as Ho.
  destruct r1 as [[]| |]; [|injection E as <- _; done..]. by rewrite (IH w1 E Hk2).
Qed.
Lemma ensureAll_settled owner l w w' :
  NoDup (keyOf <$> l) -> (forall o, o ∈ l -> good o) -> ensureAll owner l w = (w', Ok tt) ->
  forall o, o ∈ l -> settled owner o (stored w').
Proof.
  revert w. induction l as [|o l IH]; intros w Hnd Hg E o' Ho'; [by rewrite elem_of_nil in Ho'|].
  cbn [ensureAll] in E. unfold kbind in E. destruct (ensure owner o w) as [w1 [[]| |]] eqn:E1; try done.
  rewrite fmap_cons, NoDup_cons in Hnd. destruct Hnd as [Hni Hnd].
  apply elem_of_cons in Ho' as [->|Ho'].
  - eapply settled_frame; [by eapply ensureAll_other|]. eapply ensure_settled; [apply Hg; by left|done].
  - eapply IH; [done| |done|done]. intros o2 Ho2. apply Hg. by right.
Qed.
Lemma ensureAll_idle owner l w w' r :
  (forall o, o ∈ l -> settled owner o (stored w)) -> ensureAll owner l w = (w', r) -> stored w' = stored w.
Proof.
  revert w. induction l as [|o l IH]; intros w Hs E; cbn [ensureAll] in E; [by injection E as <- _|].
  unfold kbind in E. destruct (ensure owner o w) as [w1 r1] eqn:E1.
  assert (stored w1 = stored w) as Hw by (eapply ensure_idle; [apply Hs; by left|done]).
  destruct r1 as [[]| |]; [|injection E as <- _; done..]. rewrite <- Hw. eapply IH; [|done].
  rewrite Hw. intros o2 Ho2. apply Hs. by right.
Qed.

(** ** Shard Services *)
Definition shardKey (cr : SimpleCache) (i : Z) : Key := keyOf (OService (shardService cr i)).
Definition small (i : Z) : Prop := 0 <= i < two63.

Lemma shardKey_inj cr i j : small i -> small j -> shardKey cr i = shardKey cr j -> i = j.
Proof.
  intros Hi Hj [= E]. apply (inj (String.append (cr_Name cr))) in E.
  apply (inj (String.append "-shard-")) in E. unfold small in *. by apply FormatInt_inj in E; [|lia..].
Qed.

Lemma HasPrefix_cancel p a b : HasPrefix (p +:+ a) (p +:+ b) = HasPrefix a b.
Proof. unfold HasPrefix. induction p as [|c p IH]; simpl; [done|]. by destruct (ascii_dec c c). Qed.

Lemma shard_not_obsolete cr keep i k o :
  small i -> i < keep -> k = shardKey cr i -> ~ chosenShard cr keep k o.
Proof.
  intros Hi Hk -> (svc & -> & Ek & _ & Ho). injection Ek as _ En.
  unfold obsoleteShard in Ho. rewrite <- En in Ho.
  destruct (negb _ || _); [done|].
  rewrite <- app_String_assoc in Ho. rewrite TrimPrefix_app, ParseInt_FormatInt in Ho by (unfold small in Hi; lia).
  reflect_bool. lia.
Qed.

(** What the loop over the ordinals leaves behind. *)
Fixpoint shards_at (cr : SimpleCache) (s : gmap Key Object) (ords : list Z) (ips : list string)
    (res : string + list string) : Prop :=
  match ords with
  | [] => res = inr ips
  | i :: rest =>
      settled cr (OService (shardService cr i)) s /\
      exists svc, s !! shardKey cr i = Some (OService svc) /\
        if String.eqb (svc_ClusterIP svc) "" then res = inl "Waiting for shard Service addresses"
        else shards_at cr s rest (ips ++ [svc_ClusterIP svc]) res
  end.

Lemma shards_frame (cr : SimpleCache) (s s' : gmap Key Object) ords ips res :
  (forall i, i ∈ ords -> s' !! shardKey cr i = s !! shardKey cr i) ->
  shards_at cr s ords ips res -> shards_at cr s' ords ips res.
Proof.
  revert ips. induction ords as [|i ords IH]; intros ips Hf; [done|].
  intros [Hs (svc & Hl & Hr)]. assert (s' !! shardKey cr i = s !! shardKey cr i) as E by (apply Hf; by left).
  split; [by eapply settled_frame|]. exists svc. split; [congruence|].
  destruct (String.eqb _ _); [done|]. apply IH; [|done]. intros j Hj. apply Hf. by right.
Qed.

Lemma shardAddresses_other cr ords ips w w' r k :
  shardAddresses cr ords ips w = (w', r) -> k ∉ shardKey cr <$> ords -> stored w' !! k = stored w !! k.
Proof.
  revert w ips. induction ords as [|i ords IH]; intros w ips E Hk; cbn [shardAddresses] in E; [by injection E as <- _|].
  rewrite fmap_cons, not_elem_of_cons in Hk. destruct Hk as [Hk1 Hk2]. unfold kbind at 1 in E.
  destruct (ensure cr _ w) as [w1 r1] eqn:E1. pose proof (ensure_other _ _ _ _ _ _ E1 Hk1) as Ho.
  destruct r1 as [[]| |]; [|injection E as <- _; done..]. unfold kbind, kread in E.
  destruct (GetService _ _ w1) as [e|svc]; [by injection E as <- _|].
  destruct (String.eqb _ _); [by injection E as <- _|]. by rewrite (IH _ _ E Hk2).
Qed.

Lemma shardAddresses_settled cr ords ips w w' res :
  NoDup ords -> (forall i, i ∈ ords -> small i) -> shardAddresses cr ords ips w = (w', Ok res) ->
  shards_at cr (stored w') ords ips res.
Proof.
  revert w ips. induction ords as [|i ords IH]; intros w ips Hnd Hsm E; cbn [shardAddresses] in E.
  { by injection E as <- <-. }
  apply NoDup_cons in Hnd as [Hni Hnd]. unfold kbind at 1 in E.
  destruct (ensure cr _ w) as [w1 [[]| |]] eqn:E1; try done. unfold kbind, kread in E.
  destruct (GetService _ _ w1) as [e|svc] eqn:Eg; [done|]. apply GetService_ok in Eg.
  assert (settled cr (OService (shardService cr i)) (stored w1)) as Hs by (by eapply ensure_settled).
  destruct (String.eqb (svc_ClusterIP svc) "") eqn:Ec.
  { injection E as <- <-. split; [done|]. exists svc. by rewrite Ec. }
  assert (stored w' !! shardKey cr i = stored w1 !! shardKey cr i) as Hk.
  { eapply shardAddresses_other; [done|]. intros (j & Ej & Hj)%list_elem_of_fmap.
    apply shardKey_inj in Ej as ->; [done|apply Hsm; by left|apply Hsm; by right]. }
  split; [by eapply settled_frame|]. exists svc. rewrite Ec. split; [rewrite Hk; exact Eg|].
  eapply IH; [done| |done]. intros j Hj. apply Hsm. by right.
Qed.

Lemma shardAddresses_idle cr ords ips res w w' r :
  shards_at cr (stored w) ords ips res -> shardAddresses cr ords ips w = (w', r) ->
  stored w' = stored w /\ (forall res', r = Ok res' -> res' = res).
Proof.
  revert w ips. induction ords as [|i ords IH]; intros w ips Hsh E; cbn [shardAddresses] in E.
  { injection E as <- <-. simpl in Hsh. split; [done|]. intros ? [= <-]. done. }
  destruct Hsh as [Hs (svc & Hl & Hr)]. unfold kbind at 1 in E.
  destruct (ensure cr _ w) as [w1 r1] eqn:E1.
  assert (stored w1 = stored w) as Hw by (by eapply ensure_idle).
  destruct r1 as [[]| |]; [|by injection E as <- <-..]. unfold kbind, kread in E.
  destruct (GetService _ _ w1) as [e|svc'] eqn:Eg; [by injection E as <- <-|]. apply GetService_ok in Eg.
  change (stored w1 !! shardKey cr i = Some (OService svc')) in Eg. rewrite Hw, Hl in Eg. injection Eg as <-.
  destruct (String.eqb (svc_ClusterIP svc) "").
  { injection E as <- <-. split; [done|]. intros ? [= <-]. done. }
  rewrite <- Hw. eapply IH; [|done]. by rewrite Hw.
Qed.

(** ** Removals that find nothing *)
Lemma removes_none (chosen : Key -> Object -> Prop) w w' :
  removes chosen w w' -> (forall k o, stored w !! k = Some o -> ~ chosen k o) -> stored w' = stored w.
Proof.
  intros [_ N K] Hno. apply map_eq. intros k. destruct (stored w !! k) as [o|] eqn:E.
  - destruct (K k o E) as [?|[_ ?]]; [done|]. by destruct (Hno k o).
  - destruct (stored w' !! k) eqn:E'; [|done]. apply N in E'. congruence.
Qed.
Lemma removes_keeps (chosen : Key -> Object -> Prop) w w' k :
  removes chosen w w' -> (forall o, ~ chosen k o) -> stored w' !! k = stored w !! k.
Proof.
  intros [_ N K] Hno. destruct (stored w !! k) as [o|] eqn:E.
  - destruct (K k o E) as [?|[_ ?]]; [done|]. by destruct (Hno o).
  - destruct (stored w' !! k) eqn:E'; [|done]. apply N in E'. congruence.
Qed.

(** ** The objects of a resource have keys of their own *)
Lemma ownedObjects_keys cr : NoDup (keyOf <$> ownedObjects cr).
Proof.
  unfold ownedObjects. rewrite !fmap_cons, fmap_nil. unfold keyOf, objName; simpl.
  repeat (apply NoDup_cons; split; [rewrite ?elem_of_cons, elem_of_nil; intros Hin; repeat destruct Hin as [Hin|Hin];
    try done; injection Hin as E; by apply (inj (String.append (cr_Name cr))) in E|]).
  apply NoDup_nil_2.
Qed.
Lemma gatewayObjects_keys cr g ips : NoDup (keyOf <$> (OUnstructured <$> gatewayObjects cr g ips)).
Proof.
  unfold gatewayObjects. rewrite !fmap_cons, !fmap_nil. unfold keyOf; simpl.
  repeat (apply NoDup_cons; split; [rewrite ?elem_of_cons, elem_of_nil; intros Hin; repeat destruct Hin as [Hin|Hin]; done|]).
  apply NoDup_nil_2.
Qed.
Lemma owned_not_shard cr o i : o ∈ ownedObjects cr -> keyOf o <> shardKey cr i.
Proof.
  unfold ownedObjects. rewrite !elem_of_cons, elem_of_nil.
  intros [->|[->|[->|[->|[->|[->|[]]]]]]]; try done; intros [= E]; by apply (inj (String.append (cr_Name cr))) in E.
Qed.
Lemma owned_not_chosen cr o keep o' : o ∈ ownedObjects cr -> ~ chosenShard cr keep (keyOf o) o'.
Proof.
  unfold ownedObjects. rewrite !elem_of_cons, elem_of_nil.
  intros Ho (svc & -> & Ek & _ & [_ Hp]%obsoleteShard_inv).
  destruct Ho as [->|[->|[->|[->|[->|[->|[]]]]]]]; try done; injection Ek as _ En; rewrite <- En, HasPrefix_cancel in Hp; done.
Qed.
Lemma gateway_group cr g ips k :
  k ∈ keyOf <$> (OUnstructured <$> gatewayObjects cr g ips) -> k.1.1 ∉ builtinGroups.
Proof.
  intros (o & -> & (u & -> & Hu)%list_elem_of_fmap)%list_elem_of_fmap.
  apply gatewayObjects_key in Hu as [_ Ht]. exact Ht.
Qed.
Lemma kinds_group gvk : gvk ∈ gatewayKinds -> gvk_Group gvk ∉ builtinGroups.
Proof.
  unfold gatewayKinds, builtinGroups. rewrite !elem_of_cons, !elem_of_nil.
  intros [->|[->|[->|[->|[->|[]]]]]] [?|[?|[?|[]]]]; done.
Qed.
Lemma owned_builtin cr o : o ∈ ownedObjects cr -> (keyOf o).1.1 ∈ builtinGroups.
Proof.
  unfold ownedObjects, builtinGroups. rewrite !elem_of_cons, elem_of_nil.
  intros [->|[->|[->|[->|[->|[->|[]]]]]]]; simpl; auto.
Qed.
Lemma shard_builtin cr i : (shardKey cr i).1.1 ∈ builtinGroups.
Proof. by left. Qed.
Lemma chosenShard_builtin cr keep k o : chosenShard cr keep k o -> k.1.1 ∈ builtinGroups.
Proof. intros (svc & -> & -> & _). by left. Qed.
Lemma chosenKind_group cr k o : chosenKind cr gatewayKinds k o -> k.1.1 ∉ builtinGroups.
Proof. intros (gvk & Hg & -> & _). by apply kinds_group. Qed.

(** ** Nothing left to do

    The store on which a pass for [cr] has nothing to change. *)
Definition idle (enable : bool) (cr : SimpleCache) (s : gmap Key Object) : Prop :=
  let desired := defaults cr in
  (forall o, o ∈ ownedObjects desired -> settled cr o s) /\
  match sp_Gateway (cr_Spec desired) with
  | Some g => exists res, shards_at desired s (seqZ 0 (sp_Size (cr_Spec desired))) [] res /\
      forall ips, res = inr ips ->
        (forall u, u ∈ gatewayObjects desired g ips -> settled desired (OUnstructured u) s) /\
        (forall k o, s !! k = Some o -> ~ chosenShard desired (sp_Size (cr_Spec desired)) k o)
  | None => enable = true -> forall k o, s !! k = Some o -> ~ chosenKind desired gatewayKinds k o /\ ~ chosenShard desired 0 k o
  end.

Lemma reportRollout_stored cr desired ns name msg :
  steps same_stored (reportRollout cr desired ns name msg).
Proof.
  intros w w' r. unfold reportRollout, onError, kread. destruct (GetStatefulSet _ _ w) as [e|sts]; [by intros [= <- _]|].
  destruct (readyCondition _ _ _) as [[? ?] ?]. unfold andStatus.
  destruct (setStatus _ _ _ _ _ w) as [w1 r1] eqn:E. apply setStatus_stored in E.
  destruct r1; intros [= <- _]; done.
Qed.

Lemma reconcileGateway_idle cr g res w w' r :
  sp_Gateway (cr_Spec cr) = Some g ->
  shards_at cr (stored w) (seqZ 0 (sp_Size (cr_Spec cr))) [] res ->
  (forall ips, res = inr ips ->
    (forall u, u ∈ gatewayObjects cr g ips -> settled cr (OUnstructured u) (stored w)) /\
    (forall k o, stored w !! k = Some o -> ~ chosenShard cr (sp_Size (cr_Spec cr)) k o)) ->
  reconcileGateway cr w = (w', r) -> stored w' = stored w.
Proof.
  intros Hg Hsh Hres E. unfold reconcileGateway in E. unfold kbind at 1 in E.
  destruct (shardAddresses _ _ _ w) as [w1 r1] eqn:E1.
  destruct (shardAddresses_idle _ _ _ _ _ _ _ Hsh E1) as [Hw1 Hr1].
  destruct r1 as [[m|ips]| |]; [by injection E as <- _| |by injection E as <- _..].
  rewrite (gatewayResources_eq _ _ _ Hg) in E.
  destruct (Hres ips) as [Hset Hno]; [symmetry; by apply Hr1|]. unfold kbind at 1 in E.
  destruct (ensureAll _ _ w1) as [w2 r2] eqn:E2.
  assert (stored w2 = stored w) as Hw2.
  { rewrite <- Hw1. eapply ensureAll_idle; [|done]. rewrite Hw1. intros o (u & -> & Hu)%list_elem_of_fmap. by apply Hset. }
  destruct r2 as [[]| |]; [|by injection E as <- _..]. unfold kbind at 1 in E.
  destruct (removeShardServices _ _ w2) as [w3 r3] eqn:E3. apply removeShardServices_spec in E3 as (_ & Hrm & _).
  apply removes_none in Hrm; [|by rewrite Hw2]. rewrite <- Hw2, <- Hrm.
  destruct r3 as [[]| |]; [|by injection E as <- _..].
  by apply (awaitReady_same cr _ same_stored) in E.
Qed.

Lemma removeGateway_idle enable cr w w' r :
  (enable = true -> forall k o, stored w !! k = Some o -> ~ chosenKind cr gatewayKinds k o /\ ~ chosenShard cr 0 k o) ->
  removeGateway enable cr w = (w', r) -> stored w' = stored w.
Proof.
  intros Hno E. unfold removeGateway in E. destruct enable; cbn [negb] in E; [|by injection E as <- _].
  unfold kbind in E. destruct (removeKinds _ _ w) as [w1 r1] eqn:E1. apply removeKinds_spec in E1 as (_ & Hrm & _).
  apply removes_none in Hrm; [|by intros k o Hk; apply Hno].
  destruct r1 as [[]| |]; [|by injection E as <- _..].
  apply removeShardServices_spec in E as (_ & Hrm2 & _). rewrite <- Hrm.
  apply removes_none in Hrm2; [done|]. rewrite Hrm. intros k o Hk. by apply Hno.
Qed.

(** ** A pass that goes through leaves nothing to do *)
Definition limits_requested (r : ResourceRequirements) : Prop :=
  forall name, is_Some (rl (Limits r) !! name) -> name = "cpu" \/ name = "memory" \/ is_Some (rl (Requests r) !! name).

Lemma defaultRequest_grows limits requests name q n :
  is_Some (defaultRequest limits requests (name, q) !! n) <-> n = name \/ is_Some (requests !! n).
Proof.
  unfold defaultRequest. destruct (requests !! name) as [r|] eqn:E.
  - split; [by right|]. intros [->|?]; [by rewrite E; eauto|done].
  - rewrite lookup_insert_is_Some. split; [intros [->|[_ ?]]; auto|].
    intros [->|?]; [by left|]. destruct (decide (name = n)) as [->|]; [by left|by right].
Qed.

Lemma resourceDefaults_cover r : limits_requested r -> requests_cover (resourceDefaults r).
Proof.
  intros Hl. unfold requests_cover, resourceDefaults. cbn [Requests]. eexists. split; [reflexivity|].
  intros name Hn. unfold defaultRequests. cbn [foldl]. apply defaultRequest_grows.
  rewrite defaultRequest_grows. cbn [Limits] in Hn. unfold rl at 1, default in Hn. cbn [from_option id] in Hn.
  destruct (rl (Limits r) !! "memory") eqn:E; [by destruct (Hl name Hn) as [->|[->|?]]; auto|].
  apply lookup_insert_is_Some in Hn as [<-|[_ Hn]]; [by left|]. by destruct (Hl name Hn) as [->|[->|?]]; auto.
Qed.

Lemma ownedObjects_good cr o :
  limits_requested (sp_Resources (cr_Spec cr)) -> o ∈ ownedObjects cr -> good o.
Proof.
  intros Hl. unfold ownedObjects. rewrite !elem_of_cons, elem_of_nil.
  intros [->|[->|[->|[->|[->|[->|[]]]]]]]; try done. split; [done|].
  cbn [statefulSet ss_Spec ss_Template pt_Labels pt_Annotations pt_DeprecatedServiceAccount pt_Containers].
  split_and!; [by eexists|by eexists|done|]. eexists. split; [reflexivity|]. by apply resourceDefaults_cover.
Qed.
Lemma gatewayObjects_good cr g ips u : u ∈ gatewayObjects cr g ips -> good (OUnstructured u).
Proof.
  intros Hu. split; [|by eapply gatewayObjects_no_null]. apply gatewayObjects_key in Hu as [Hm _].
  simpl. by rewrite Hm.
Qed.

Lemma ordinals_small n i : n <= 10 -> i ∈ seqZ 0 n -> small i /\ i < n.
Proof. intros Hn Hi%elem_of_seqZ. unfold small, two63. lia. Qed.

(** What a gateway pass leaves, and that it keeps the other objects. *)
Lemma reconcileGateway_settled cr g w w' msg :
  sp_Gateway (cr_Spec cr) = Some g -> sp_Size (cr_Spec cr) <= 10 -> reconcileGateway cr w = (w', Ok msg) ->
  (forall o, o ∈ ownedObjects cr -> stored w' !! keyOf o = stored w !! keyOf o) /\
  exists res, shards_at cr (stored w') (seqZ 0 (sp_Size (cr_Spec cr))) [] res /\
    (forall ips, res = inr ips ->
      (forall u, u ∈ gatewayObjects cr g ips -> settled cr (OUnstructured u) (stored w')) /\
      (forall k o, stored w' !! k = Some o -> ~ chosenShard cr (sp_Size (cr_Spec cr)) k o) /\
      awaitReady cr (gatewayObjects cr g ips) w' = (w', Ok msg)) /\
    (forall m, res = inl m -> msg = m).
Proof.
  intros Hg Hsz E. unfold reconcileGateway in E. unfold kbind at 1 in E.
  destruct (shardAddresses _ _ _ w) as [w1 [res| |]] eqn:E1; [|done..].
  assert (shards_at cr (stored w1) (seqZ 0 (sp_Size (cr_Spec cr))) [] res) as Hsh.
  { eapply shardAddresses_settled; [apply NoDup_seqZ|intros i Hi; by apply (ordinals_small _ _ Hsz) in Hi as [? _]|done]. }
  assert (forall o, o ∈ ownedObjects cr -> stored w1 !! keyOf o = stored w !! keyOf o) as Ho1.
  { intros o Ho. eapply shardAddresses_other; [done|]. intros (i & Ei & _)%list_elem_of_fmap.
    by apply (owned_not_shard cr o i). }
  destruct res as [m|ips].
  { injection E as <- <-. split; [done|]. exists (inl m). split_and!; [done|done|congruence]. }
  rewrite (gatewayResources_eq _ _ _ Hg) in E. unfold kbind at 1 in E.
  destruct (ensureAll _ _ w1) as [w2 [[]| |]] eqn:E2; [|done..]. unfold kbind in E.
  destruct (removeShardServices _ _ w2) as [w3 [[]| |]] eqn:E3; [|done..].
  assert (w3 = w') as -> by (by apply (awaitReady_same cr _ (fun a b => a = b)) in E).
  apply removeShardServices_spec in E3 as (_ & Hrm & Hgone). specialize (Hgone eq_refl).
  assert (forall k, k.1.1 ∈ builtinGroups -> stored w2 !! k = stored w1 !! k) as H2.
  { intros k Hk. eapply ensureAll_other; [done|]. by intros ?%gateway_group. }
  split.
  - intros o Ho. rewrite <- (Ho1 o Ho), <- H2 by by eapply owned_builtin.
    eapply removes_keeps; [done|]. intros o'. by apply owned_not_chosen.
  - exists (inr ips). split_and!; [| |done].
    + eapply shards_frame; [|done]. intros i Hi. apply (ordinals_small _ _ Hsz) in Hi as [Hi1 Hi2]. rewrite <- H2 by apply shard_builtin.
      eapply removes_keeps; [done|]. intros o. by eapply shard_not_obsolete.
    + intros ips' [= <-]. split_and!; [|done|done]. intros u Hu. eapply settled_frame.
      * eapply removes_keeps; [done|]. intros o' Hch%chosenShard_builtin.
        eapply (gateway_group cr g ips); [|done]. by do 2 apply list_elem_of_fmap_2.
      * eapply ensureAll_settled; [apply (gatewayObjects_keys cr g ips)| |done|by apply list_elem_of_fmap_2].
        intros o (u' & -> & Hu')%list_elem_of_fmap. by eapply gatewayObjects_good.
Qed.

Lemma removeGateway_settled enable cr w w' :
  removeGateway enable cr w = (w', Ok tt) ->
  (forall o, o ∈ ownedObjects cr -> stored w' !! keyOf o = stored w !! keyOf o) /\
  (enable = true -> forall k o, stored w' !! k = Some o -> ~ chosenKind cr gatewayKinds k o /\ ~ chosenShard cr 0 k o).
Proof.
  unfold removeGateway. destruct enable; cbn [negb]; [|by intros [= <-]].
  unfold kbind. intros E. destruct (removeKinds _ _ w) as [w1 [[]| |]] eqn:E1; [|done..].
  apply removeKinds_spec in E1 as (_ & R1 & G1). apply removeShardServices_spec in E as (_ & R2 & G2). split.
  - intros o Ho. rewrite (removes_keeps _ _ _ _ R2), (removes_keeps _ _ _ _ R1); [done| |].
    + intros o' Hch%chosenKind_group. by apply Hch, (owned_builtin cr).
    + intros o'. by apply owned_not_chosen.
  - intros _ k o Hk. split; [|by apply G2]. apply G1; [done|]. by apply (rm_no_new _ _ _ R2).
Qed.

(** ** What settled objects look like *)
Lemma settled_service (owner : SimpleCache) (s svc : Service) (st : gmap Key Object) :
  settled owner (OService s) st -> st !! keyOf (OService s) = Some (OService svc) ->
  svc_Type svc = svc_Type s /\ svc_Selector svc = svc_Selector s /\ svc_Ports svc = svc_Ports s.
Proof.
  intros (o & Ho & Hf) Hs. simplify_eq. unfold mutateFn in Hf. destruct (_ && _); [done|].
  destruct (SetControllerReference _ _); [done|]. simpl in Hf. unfold mutateService in Hf. simpl in Hf.
  destruct (_ && _ && _); [done|]. injection Hf as Hf. rewrite <- Hf. by split_and!.
Qed.
Lemma settled_replicas (owner : SimpleCache) (s sts : StatefulSet) (st : gmap Key Object) :
  settled owner (OStatefulSet s) st -> st !! keyOf (OStatefulSet s) = Some (OStatefulSet sts) ->
  ss_Replicas (ss_Spec sts) = ss_Replicas (ss_Spec s).
Proof.
  intros (o & Ho & Hf) Hs. simplify_eq. unfold mutateFn in Hf. destruct (_ && _); [done|].
  destruct (SetControllerReference _ _); [done|]. cbn [setMeta mutateKind] in Hf. unfold mutateStatefulSet in Hf.
  destruct (String.eqb _ ""); [injection Hf as Hf; by rewrite <- Hf|].
  destruct (_ || _); [done|]. destruct (mergeTemplate _ _); [|done]. injection Hf as Hf. by rewrite <- Hf.
Qed.
Lemma settled_unstructured (owner : SimpleCache) (u : Unstructured) (st : gmap Key Object) :
  json_wf (index (u_Object u) "spec") = true -> settled owner (OUnstructured u) st ->
  exists u', st !! keyOf (OUnstructured u) = Some (OUnstructured u') /\
    completed (index (u_Object u) "spec") (index (u_Object u') "spec").
Proof.
  intros Hw (o & Ho & Hf). unfold mutateFn in Hf. destruct (_ && _); [done|].
  destruct (SetControllerReference _ _); [done|].
  destruct o as [| | | | |u']; try done. exists u'. split; [done|]. simpl in Hf. injection Hf as Hf.
  unfold mutateUnstructured in Hf. simpl in Hf.
  destruct (desiredSubset (index (u_Object u') "spec") _) eqn:E; [by apply desiredSubset_iff|].
  simpl in Hf. assert (index (u_Object u') "spec" = index (u_Object u) "spec") as ->; [|by apply completed_refl].
  rewrite <- Hf at 1. simpl. apply index_set.
Qed.

Lemma shards_at_ips (cr : SimpleCache) (s : gmap Key Object) ords ips0 ips :
  shards_at cr s ords ips0 (inr ips) ->
  exists l, ips = ips0 ++ l /\ Forall2 (fun i ip => ip <> "" /\ settled cr (OService (shardService cr i)) s /\
    exists svc, s !! shardKey cr i = Some (OService svc) /\ svc_ClusterIP svc = ip) ords l.
Proof.
  revert ips0. induction ords as [|i ords IH]; intros ips0 Hs; cbn [shards_at] in Hs.
  { injection Hs as ->. exists []. by rewrite app_nil_r. }
  destruct Hs as [Hset (svc & Hl & Hr)]. destruct (String.eqb_spec (svc_ClusterIP svc) "") as [|Hne]; [done|].
  destruct (IH _ Hr) as (l & -> & HF). exists (svc_ClusterIP svc :: l). split; [by rewrite <- app_assoc|].
  constructor; [|done]. split_and!; [done|done|]. by exists svc.
Qed.
Lemma shards_at_wait (cr : SimpleCache) (s : gmap Key Object) ords ips0 m :
  shards_at cr s ords ips0 (inl m) ->
  m = "Waiting for shard Service addresses" /\
  exists i svc, i ∈ ords /\ s !! shardKey cr i = Some (OService svc) /\ svc_ClusterIP svc = "".
Proof.
  revert ips0. induction ords as [|i ords IH]; intros ips0 Hs; cbn [shards_at] in Hs; [done|].
  destruct Hs as [Hset (svc & Hl & Hr)]. destruct (String.eqb_spec (svc_ClusterIP svc) "") as [E|Hne].
  - injection Hr as ->. split; [done|]. exists i, svc. by split_and!; [left| |].
  - destruct (IH _ Hr) as (-> & j & svc' & Hj & ? & ?). split; [done|]. exists j, svc'. by split_and!; [right| |].
Qed.

Lemma awaitReady_ready cr objs w w' :
  awaitReady cr objs w = (w', Ok "") ->
  forall u, u ∈ objs -> exists u', stored w !! keyOf (OUnstructured u) = Some (OUnstructured u') /\ gatewayReady cr u' = true.
Proof.
  induction objs as [|obj objs IH]; intros E u Hu; [by rewrite elem_of_nil in Hu|]. cbn [awaitReady] in E.
  unfold kbind, kread in E. destruct (GetUnstructured _ _ _ w) as [e|u'] eqn:Eg; [done|].
  apply GetUnstructured_ok in Eg. destruct (gatewayReady cr u') eqn:Er; simpl in E; [|done].
  apply elem_of_cons in Hu as [->|Hu]; [by exists u'|by apply IH].
Qed.
End Settle.
