(* ===== verification/ReconcilePass.v ===== *)
(** * Theorems about a whole pass

    A pass that proceeds settles everything; what it reports is what it
    found; it fails on an object of somebody else. *)
From S2P Require Import Prelude GoStrings NetAddr Errors LRU CacheStore Bloom Admission Group Read Directory Protocol Postgres Api Config Operator Kube Gateway Reconcile MemKube ReconcileSafety ReconcileStable.

Section Pass.
Context `{KubeLaws W, !FreshReads W}.
Variables IsDNS1035Label IsDNS1123Label IsDNS1123Subdomain : string -> bool.
Variable range : ResourceList -> list (string * Z).
Hypothesis range_perm : forall m, range m ≡ₚ map_to_list m.
Variable EnableGateway : bool.
Notation validateSpec := (validateSpec IsDNS1035Label IsDNS1123Label IsDNS1123Subdomain range).
Notation Reconcile := (Reconcile IsDNS1035Label IsDNS1123Label IsDNS1123Subdomain range EnableGateway).

(** The resource gets past the guards: it is not being deleted, its
    specification is valid, and its gateway class (if it has one) is usable. *)
Definition proceeds (cr : SimpleCache) (w : W) : Prop :=
  isDeleting cr = false /\ validateSpec (defaults cr) = None /\
  (sp_Gateway (cr_Spec (defaults cr)) <> None -> checkGatewayClass EnableGateway (defaults cr) w = (w, Ok tt)).

Lemma proceeds_size cr w : proceeds cr w -> sp_Size (cr_Spec (defaults cr)) <= 10.
Proof. intros (_ & Hv & _). by apply (validateSpec_ok _ _ _ _ range_perm) in Hv as [[_ ?] _ _ _ _ _ _]. Qed.

(** The stages of a pass that ends without an error. *)
Lemma reconcileObjects_inv cr desired ns name w w' d :
  reconcileObjects EnableGateway cr desired ns name w = (w', Ok (d, None)) ->
  exists w1 w2 msg sts,
    ensureAll cr (ownedObjects desired) w = (w1, Ok tt) /\
    match sp_Gateway (cr_Spec desired) with
    | Some _ => reconcileGateway desired w1 = (w2, Ok msg)
    | None => removeGateway EnableGateway desired w1 = (w2, Ok tt) /\ msg = ""
    end /\
    GetStatefulSet ns name w2 = inr sts /\
    let '(status, reason, message) := readyCondition sts (sp_Size (cr_Spec desired)) msg in
    setStatus cr (sst_ReadyReplicas (ss_Status sts)) status reason message w2 = (w', Ok tt).
Proof.
  unfold reconcileObjects, onError. destruct (ensureAll _ _ w) as [w1 [[]|e|]] eqn:E1; [| |done].
  2:{ unfold failWith. destruct (setStatus _ _ _ _ _ w1) as [? []]; by intros [=]. }
  unfold reconcileRoute. intros E. exists w1.
  assert (exists w2 msg, match sp_Gateway (cr_Spec desired) with
    | Some _ => reconcileGateway desired w1 = (w2, Ok msg)
    | None => removeGateway EnableGateway desired w1 = (w2, Ok tt) /\ msg = "" end /\
    reportRollout cr desired ns name msg w2 = (w', Ok (d, None))) as (w2 & msg & Hm & Hr).
  { unfold onError in E. destruct (sp_Gateway (cr_Spec desired)).
    - destruct (reconcileGateway desired w1) as [w2 [msg|e|]] eqn:E2; [by exists w2, msg| |done].
      unfold failWith in E. destruct (setStatus _ _ _ _ _ w2) as [? []]; simplify_eq.
    - destruct (removeGateway _ desired w1) as [w2 [[]|e|]] eqn:E2; [by exists w2, ""|by injection E|done]. }
  exists w2, msg. unfold reportRollout, onError, kread in Hr.
  destruct (GetStatefulSet ns name w2) as [e|sts]; [by injection Hr|]. exists sts. split_and!; [done|done|done|].
  destruct (readyCondition _ _ _) as [[status reason] message]. unfold andStatus in Hr.
  destruct (setStatus _ _ _ _ _ w2) as [w3 [[]| |]]; by simplify_eq.
Qed.

Lemma checkGatewayClass_pure enable cr w w' r : checkGatewayClass enable cr w = (w', r) -> w' = w.
Proof. unfold checkGatewayClass, kfail, kpanic. repeat case_match; inversion 1; by subst. Qed.

(** A pass of a resource that proceeds and ends without an error went through
    its stages. *)
Lemma Reconcile_proceeds ns name cr w w' d :
  caches w !! (ns, name) = Some cr -> proceeds cr w -> Reconcile ns name w = (w', Ok (d, None)) ->
  reconcileObjects EnableGateway cr (defaults cr) ns name w = (w', Ok (d, None)).
Proof.
  intros Hcr (Hd & Hv & Hg) E. unfold Reconcile.Reconcile in E.
  destruct (GetCache ns name w) as [e|cr'] eqn:Eg.
  { destruct e as [m|m|m]; [by injection E| |by injection E]. apply GetCache_missing in Eg. congruence. }
  apply GetCache_ok in Eg. simplify_eq. rewrite Hd, Hv in E.
  destruct (sp_Gateway _); [|done]. unfold onError in E. by rewrite Hg in E.
Qed.

Lemma pass_idle ns name cr w w' d :
  proceeds cr w -> limits_requested (sp_Resources (cr_Spec cr)) ->
  reconcileObjects EnableGateway cr (defaults cr) ns name w = (w', Ok (d, None)) -> idle EnableGateway cr (stored w').
Proof.
  intros Hp Hl E. pose proof (proceeds_size _ _ Hp) as Hsz.
  apply reconcileObjects_inv in E as (w1 & w2 & msg & sts & E1 & E2 & _ & E3).
  assert (stored w' = stored w2) as ->.
  { destruct (readyCondition _ _ _) as [[? ?] ?]. by apply setStatus_stored in E3. }
  assert (forall o, o ∈ ownedObjects (defaults cr) -> settled cr o (stored w1)) as Hbase.
  { eapply ensureAll_settled; [apply ownedObjects_keys| |done]. intros o. by apply ownedObjects_good. }
  unfold idle. destruct (sp_Gateway (cr_Spec (defaults cr))) as [g|] eqn:Eg.
  - destruct (reconcileGateway_settled _ _ _ _ _ Eg Hsz E2) as (Hk & res & Hsh & Hips & _). split.
    + intros o Ho. eapply settled_frame; [by apply Hk|by apply Hbase].
    + exists res. split; [done|]. intros ips Hr. by destruct (Hips ips Hr) as (? & ? & _).
  - destruct E2 as [E2 _]. destruct (removeGateway_settled _ _ _ _ E2) as [Hk Hno]. split; [|done].
    intros o Ho. eapply settled_frame; [by apply Hk|by apply Hbase].
Qed.

Lemma idle_run ns name cr w w' r :
  idle EnableGateway cr (stored w) -> reconcileObjects EnableGateway cr (defaults cr) ns name w = (w', r) ->
  stored w' = stored w.
Proof.
  intros [Hb Hg] E. unfold reconcileObjects, onError in E. destruct (ensureAll _ _ w) as [w1 r1] eqn:E1.
  assert (stored w1 = stored w) as Hw1 by (by eapply ensureAll_idle).
  destruct r1 as [[]|e|]; [| |by injection E as <- _].
  2:{ apply (steps_failWith same_stored) in E; [|apply setStatus_stored]. unfold same_stored in E. congruence. }
  rewrite <- Hw1 in Hg |- *. unfold reconcileRoute in E. destruct (sp_Gateway _) as [g|] eqn:Eg.
  - destruct Hg as (res & Hsh & Hips).
    unfold onError in E. destruct (reconcileGateway _ w1) as [w2 r2] eqn:E2.
    assert (stored w2 = stored w1) as <- by (by eapply reconcileGateway_idle).
    destruct r2 as [msg|e|]; [by apply reportRollout_stored in E| |by injection E as <- _].
    by apply (steps_failWith same_stored) in E; [|apply setStatus_stored].
  - unfold onError in E. destruct (removeGateway _ _ w1) as [w2 r2] eqn:E2.
    assert (stored w2 = stored w1) as <- by (by eapply removeGateway_idle).
    destruct r2 as [msg|e|]; [by apply reportRollout_stored in E|by injection E as <- _..].
Qed.

(** ** The resource after a pass *)
Lemma removeShardServices_caches cr keep : steps same_caches (removeShardServices cr keep).
Proof. intros w w' r (_ & [Hc _ _] & _)%removeShardServices_spec. exact Hc. Qed.
Lemma reconcileGateway_caches cr : steps same_caches (reconcileGateway cr).
Proof.
  unfold reconcileGateway. apply steps_bind; [apply _| |].
  - generalize (@nil string) as ips. induction (seqZ 0 _) as [|i ords IH]; intros ips; cbn [shardAddresses]; [apply steps_ret, _|].
    apply steps_bind; [apply _|apply ensure_caches|]. intros _. apply steps_bind; [apply _|apply steps_read, _|].
    intros svc. destruct (String.eqb _ _); [apply steps_ret, _|apply IH].
  - intros [m|ips]; [apply steps_ret, _|]. destruct (gatewayResources _ _) as [l|]; [|by intros w w' r [= -> _]].
    apply steps_bind; [apply _|apply ensureAll_caches|]. intros _.
    apply steps_bind; [apply _|apply removeShardServices_caches|]. intros _. apply awaitReady_same, _.
Qed.
Lemma removeGateway_caches enable cr : steps same_caches (removeGateway enable cr).
Proof.
  unfold removeGateway. destruct enable; cbn [negb]; [|apply steps_ret, _].
  apply steps_bind; [apply _| |intros _; apply removeShardServices_caches].
  intros w w' r (_ & [Hc _ _] & _)%removeKinds_spec. exact Hc.
Qed.

Definition with_status (cr : SimpleCache) (version : string) (st : SimpleCacheStatus) : SimpleCache :=
  mkSimpleCache (with_version (cr_Meta cr) version) (cr_Spec cr) st.

Lemma setStatus_caches cr ready status reason message w w' :
  caches w !! objName (cr_Meta cr) = Some cr -> setStatus cr ready status reason message w = (w', Ok tt) ->
  exists v, caches w' !! objName (cr_Meta cr) = Some (with_status cr v (newStatus w cr ready status reason message)).
Proof.
  intros Hcr. unfold setStatus. cbv zeta. destruct (bool_decide_reflect (cr_Status cr = newStatus w cr ready status reason message)) as [E|E]; cbn [negb].
  - intros [= <-]. exists (m_ResourceVersion (cr_Meta cr)). rewrite Hcr, <- E. by destruct cr as [[] ? ?].
  - unfold kwrite. destruct (PatchStatus _ w) as [w1 [e|]] eqn:Ep; intros [= <-].
    destruct (PatchStatus_ok _ _ _ cr Ep Hcr) as [v Hv]. exists v. rewrite Hv. apply lookup_insert_eq.
Qed.

Lemma pass_status ns name cr w w' d :
  caches w !! (ns, name) = Some cr -> reconcileObjects EnableGateway cr (defaults cr) ns name w = (w', Ok (d, None)) ->
  exists w2 msg sts v,
    match sp_Gateway (cr_Spec (defaults cr)) with
    | Some _ => exists w1, reconcileGateway (defaults cr) w1 = (w2, Ok msg)
    | None => msg = ""
    end /\
    stored w' = stored w2 /\ stored w' !! statefulSetKey ns name = Some (OStatefulSet sts) /\
    let '(status, reason, message) := readyCondition sts (sp_Size (cr_Spec (defaults cr))) msg in
    caches w' !! (ns, name) = Some (with_status cr v (newStatus w2 cr (sst_ReadyReplicas (ss_Status sts)) status reason message)).
Proof.
  intros Hcr E. apply reconcileObjects_inv in E as (w1 & w2 & msg & sts & E1 & E2 & E3 & E4).
  assert (caches w2 = caches w) as Hc.
  { apply ensureAll_caches in E1. rewrite <- E1. destruct (sp_Gateway _).
    - by apply reconcileGateway_caches in E2.
    - destruct E2 as [E2 _]. by apply removeGateway_caches in E2. }
  destruct (caches_key _ _ _ _ Hcr) as [<- <-]. apply GetStatefulSet_ok in E3.
  destruct (readyCondition _ _ _) as [[status reason] message] eqn:Er.
  destruct (setStatus_caches cr (sst_ReadyReplicas (ss_Status sts)) status reason message w2 w') as [v Hv];
    [by rewrite Hc|done|].
  apply setStatus_stored in E4. exists w2, msg, sts, v. rewrite Er. split_and!; [|done|by rewrite E4|done].
  destruct (sp_Gateway _); [by exists w1|by destruct E2].
Qed.

(** Neither status nor resource version matters for what there is to do. *)
Lemma shards_at_status (cr : SimpleCache) (v : string) (st : SimpleCacheStatus) (s : gmap Key Object) ords ips res :
  shards_at (defaults cr) s ords ips res -> shards_at (defaults (with_status cr v st)) s ords ips res.
Proof.
  revert ips. induction ords as [|i ords IH]; intros ips; [done|]. intros [Hs (svc & Hl & Hr)].
  split; [exact Hs|]. exists svc. split; [exact Hl|]. destruct (String.eqb _ _); [done|by apply IH].
Qed.
Lemma idle_status (cr : SimpleCache) (v : string) (st : SimpleCacheStatus) (s : gmap Key Object) :
  idle EnableGateway cr s -> idle EnableGateway (with_status cr v st) s.
Proof.
  intros [Hb Hg]. split; [exact Hb|].
  change (sp_Gateway (cr_Spec (defaults (with_status cr v st)))) with (sp_Gateway (cr_Spec (defaults cr))).
  destruct (sp_Gateway _) as [g|]; [|exact Hg]. destruct Hg as (res & Hsh & Hips).
  exists res. split; [by apply shards_at_status|exact Hips].
Qed.


(** ** What a pass reports *)
Definition readyOf (cr : SimpleCache) : option Condition :=
  head (filter (fun c => c_Type c = "Ready") (st_Conditions (cr_Status cr))).

Lemma readyOf_new cr v w2 ready status reason message :
  exists t, readyOf (with_status cr v (newStatus w2 cr ready status reason message)) =
    Some (mkCondition "Ready" status reason message (cr_Generation cr) t).
Proof.
  destruct (SetStatusCondition_set w2 (st_Conditions (cr_Status cr))
    (mkCondition "Ready" status reason message (cr_Generation cr) 0)) as [t Ht]. by exists t.
Qed.

Lemma readyCondition_true sts size msg status reason message :
  readyCondition sts size msg = (status, reason, message) -> status = "True" -> msg = "" /\ rolledOut sts size = true.
Proof.
  unfold readyCondition. destruct (String.eqb_spec msg "") as [->|]; simpl; [|by intros [= <- _ _]].
  destruct (rolledOut sts size); [done|]. by intros [= <- _ _].
Qed.

(** C9: Ready is the truth, for a client whose reads are up to date
    ([FreshReads]; [StaleReads] shows that with a cache that lags behind the
    pass's own update it is not): after a pass that ends without an error, of a
    resource that gets past the guards (not being deleted, a valid
    specification, and a usable class if it has a gateway: [proceeds]) and that
    names a request beside every limit other than cpu and memory, the resource carries a Ready condition
    for its generation. That condition is True only if the stored StatefulSet
    has the requested size and is completely rolled out at the current
    revision, every object the resource asks for is stored as it wants it, and
    (with a gateway) the stored Service of every shard has an address and every
    gateway object, for exactly these addresses, is stored and reports the
    needed conditions for its current generation. *)
Theorem Reconcile_ready_truthful ns name cr w w' d :
  caches w !! (ns, name) = Some cr -> proceeds cr w -> limits_requested (sp_Resources (cr_Spec cr)) ->
  Reconcile ns name w = (w', Ok (d, None)) ->
  exists cr' c, caches w' !! (ns, name) = Some cr' /\ readyOf cr' = Some c /\
    c_ObservedGeneration c = cr_Generation cr /\ cr_Spec cr' = cr_Spec cr /\
    (c_Status c = "True" ->
      (exists sts, stored w' !! statefulSetKey ns name = Some (OStatefulSet sts) /\
         rolledOut sts (sp_Size (cr_Spec (defaults cr))) = true /\
         ss_Replicas (ss_Spec sts) = sp_Size (cr_Spec (defaults cr))) /\
      (forall o, o ∈ ownedObjects (defaults cr) -> settled cr o (stored w')) /\
      (forall g, sp_Gateway (cr_Spec (defaults cr)) = Some g ->
         exists ips,
           Forall2 (fun i ip => ip <> "" /\ exists svc,
               stored w' !! shardKey (defaults cr) i = Some (OService svc) /\ svc_ClusterIP svc = ip)
             (seqZ 0 (sp_Size (cr_Spec (defaults cr)))) ips /\
           forall u, u ∈ gatewayObjects (defaults cr) g ips ->
             exists u', stored w' !! keyOf (OUnstructured u) = Some (OUnstructured u') /\ gatewayReady (defaults cr) u' = true)).
Proof.
  intros Hcr Hp Hl E. apply (Reconcile_proceeds _ _ _ _ _ _ Hcr Hp) in E.
  pose proof (pass_idle _ _ _ _ _ _ Hp Hl E) as [Hb _].
  destruct (pass_status _ _ _ _ _ _ Hcr E) as (w2 & msg & sts & v & Hgw & Hs & Hsts & Hc).
  destruct (readyCondition sts _ msg) as [[status reason] message] eqn:Er.
  destruct (readyOf_new cr v w2 (sst_ReadyReplicas (ss_Status sts)) status reason message) as [t Ht].
  eexists _, _. split_and!; [exact Hc|exact Ht|done|done|]. cbn [c_Status]. intros Htrue.
  destruct (readyCondition_true _ _ _ _ _ _ Er Htrue) as [-> Hro]. split_and!; [|exact Hb|].
  - exists sts. split_and!; [done|done|]. destruct (caches_key _ _ _ _ Hcr) as [<- <-].
    eapply (settled_replicas cr (statefulSet (defaults cr))); [|exact Hsts]. apply Hb. unfold ownedObjects. set_solver.
  - intros g Hg. rewrite Hg in Hgw. destruct Hgw as [w1 Hgw].
    destruct (reconcileGateway_settled _ _ _ _ _ Hg (proceeds_size _ _ Hp) Hgw) as (_ & res & Hsh & Hips & Hm).
    destruct res as [m|ips]; [apply shards_at_wait in Hsh as [-> _]; by specialize (Hm _ eq_refl)|].
    apply shards_at_ips in Hsh as (l & -> & HF). simpl in *. exists l. split.
    + eapply Forall2_impl; [exact HF|]. intros i ip (Hne & _ & Hsvc). rewrite Hs. by split.
    + destruct (Hips l eq_refl) as (_ & _ & Haw). rewrite Hs. by eapply awaitReady_ready.
Qed.

(** C33: traffic goes to the current shards only, for a client whose reads are
    up to date ([FreshReads]): after a pass that ends without an error, of a
    resource with a gateway that gets past the guards (not being deleted, a
    valid specification, a usable GatewayClass: [proceeds]) and that names a
    request beside every limit other than cpu and memory, either some shard Service still has no address,
    or the stored Backend lists exactly the addresses of the shards
    0..size-1, one per shard and in their order, each shard Service selects the
    Pod of its ordinal, and no shard Service of a higher ordinal controlled by
    the resource is left. (A class that is not accepted stops the pass before
    it writes: then the old Backend stays, [guards_change_nothing].) *)
Theorem backend_exact ns name cr g w w' d :
  caches w !! (ns, name) = Some cr -> proceeds cr w -> limits_requested (sp_Resources (cr_Spec cr)) ->
  sp_Gateway (cr_Spec (defaults cr)) = Some g -> Reconcile ns name w = (w', Ok (d, None)) ->
  (exists i svc, i ∈ seqZ 0 (sp_Size (cr_Spec (defaults cr))) /\
     stored w' !! shardKey (defaults cr) i = Some (OService svc) /\ svc_ClusterIP svc = "") \/
  exists ips u es,
    Forall2 (fun i ip => ip <> "" /\ exists svc, stored w' !! shardKey (defaults cr) i = Some (OService svc) /\
               svc_ClusterIP svc = ip /\ svc_Selector svc !! podNameLabel = Some (name +:+ "-" +:+ FormatInt i))
      (seqZ 0 (sp_Size (cr_Spec (defaults cr)))) ips /\
    stored w' !! gvkKey (mkGVK "gateway.envoyproxy.io" "v1alpha1" "Backend") ns name = Some (OUnstructured u) /\
    (exists spec, index (u_Object u) "spec" = JObject spec /\ index spec "endpoints" = JArray es) /\
    Forall2 (fun ip e => completed (endpoint ip) e) ips es /\
    forall svc, m_Namespace (svc_Meta svc) = ns -> stored w' !! keyOf (OService svc) = Some (OService svc) ->
      obsoleteShard (defaults cr) (sp_Size (cr_Spec (defaults cr))) svc = false.
Proof.
  intros Hcr Hp Hl Hg E. apply (Reconcile_proceeds _ _ _ _ _ _ Hcr Hp) in E.
  pose proof (pass_idle _ _ _ _ _ _ Hp Hl E) as [_ Hi]. rewrite Hg in Hi. destruct Hi as ([m|ips] & Hsh & Hips).
  { left. by apply shards_at_wait in Hsh as [_ ?]. }
  right. destruct (Hips ips eq_refl) as [Hset Hno]. clear Hips. destruct (caches_key _ _ _ _ Hcr) as [<- <-].
  apply shards_at_ips in Hsh as (l & -> & HF). simpl in Hset.
  set (backend := mkUnstructured (mkGVK "gateway.envoyproxy.io" "v1alpha1" "Backend") (metadata (defaults cr) (cr_Name cr))
                    [("spec", JObject (backendSpec l))]).
  assert (backend ∈ gatewayObjects (defaults cr) g l) as Hback by (right; left).
  destruct (settled_unstructured (defaults cr) backend (stored w')) as (u & Hu & Hcomp);
    [by eapply gatewayObjects_wf|by apply Hset|].
  unfold index in Hcomp at 1. simpl in Hcomp. inversion Hcomp as [| |? spec Hspec Heq1 Heq2]; subst; [done|].
  apply Forall_cons in Hspec as [Hend _]. simpl in Hend. inversion Hend as [|? es Hes Heq3 Heq4|]; subst; [done|].
  exists l, u, es. split_and!; [|exact Hu|by exists spec; rewrite Heq2, Heq4|exact (proj1 (Forall2_fmap_l _ _ _ _) Hes)|].
  - eapply Forall2_impl; [exact HF|]. intros i ip (Hne & Hs & svc & Hsvc & Hip). split; [done|].
    exists svc. split_and!; [done|done|]. destruct (settled_service _ _ _ _ Hs Hsvc) as (_ & -> & _).
    simpl. apply lookup_insert_eq.
  - intros svc Hn Hk. apply not_true_is_false. intros Ho. by apply (Hno _ _ Hk); exists svc.
Qed.

(** ** No panic *)
Definition unpanicking {A} (m : KM W A) : Prop := forall w w', m w <> (w', Panic).

Lemma unpanicking_bind {A B} (m : KM W A) (k : A -> KM W B) :
  unpanicking m -> (forall a, unpanicking (k a)) -> unpanicking (kbind m k).
Proof. intros Hm Hk w w' E. unfold kbind in E. destruct (m w) as [w1 [a|e|]] eqn:E1; [by apply Hk in E|done|by apply Hm in E1]. Qed.
Lemma unpanicking_read {A} (get : W -> kerror + A) : unpanicking (kread get).
Proof. intros w w'. unfold kread. by destruct (get w). Qed.
Lemma unpanicking_ret {A} (a : A) : unpanicking (kret a).
Proof. by intros w w'. Qed.

(** A wanted object on which the function cannot panic. *)
Definition sound (wanted : Object) : Prop :=
  typed wanted /\ match wanted with OStatefulSet s => pt_Containers (ss_Template (ss_Spec s)) <> [] | _ => True end.

Lemma mutateKind_unpanicking wanted actual :
  sound wanted -> typed actual -> objKind actual = objKind wanted -> mutateKind wanted actual <> Panic.
Proof.
  intros [Ht Hs] Ha Hk.
  destruct actual as [a|a|a|a|a|a], wanted as [s|s|s|s|s|s]; simpl in *; try done;
    try (exfalso; injection Hk as Eg _; first [apply Ht; rewrite <- Eg|apply Ha; rewrite Eg]; unfold builtinGroups;
         rewrite !elem_of_cons; tauto).
  - unfold mutateService. by destruct (_ && _ && _).
  - unfold mutateBinding. by destruct (_ && _).
  - unfold mutateStatefulSet. destruct (String.eqb _ ""); [done|]. destruct (_ || _); [done|].
    unfold mergeTemplate. by destruct (pt_Containers _).
Qed.

Lemma ensure_unpanicking owner wanted : sound wanted -> unpanicking (ensure owner wanted).
Proof.
  intros Hs w w' E. apply CreateOrUpdate_panic in E. unfold mutateFn in E.
  destruct (_ && _); [done|]. destruct (SetControllerReference _ _); [done|].
  revert E. apply mutateKind_unpanicking; [done| |].
  - destruct (stored w !! keyOf wanted) as [o|] eqn:Eo; simpl.
    + apply stored_typed in Eo. by destruct o.
    + destruct Hs as [Ht _]. by destruct wanted.
  - destruct (stored w !! keyOf wanted) as [o|] eqn:Eo; simpl; [|by destruct wanted].
    apply stored_key in Eo. injection Eo as Ek _. by rewrite <- Ek; destruct o.
Qed.
Lemma ensureAll_unpanicking owner l : (forall o, o ∈ l -> sound o) -> unpanicking (ensureAll owner l).
Proof.
  induction l as [|o l IH]; intros Hs; cbn [ensureAll]; [apply unpanicking_ret|].
  apply unpanicking_bind; [apply ensure_unpanicking, Hs; by left|]. intros _. apply IH. intros o' Ho'. apply Hs. by right.
Qed.
Lemma ownedObjects_sound cr o : o ∈ ownedObjects cr -> sound o.
Proof. unfold ownedObjects. rewrite !elem_of_cons, elem_of_nil. by intros [->|[->|[->|[->|[->|[->|[]]]]]]]. Qed.

Lemma reconcileGateway_unpanicking cr g : sp_Gateway (cr_Spec cr) = Some g -> unpanicking (reconcileGateway cr).
Proof.
  intros Hg. unfold reconcileGateway. apply unpanicking_bind.
  - generalize (@nil string) as ips. induction (seqZ 0 _) as [|i ords IH]; intros ips; cbn [shardAddresses]; [apply unpanicking_ret|].
    apply unpanicking_bind; [by apply ensure_unpanicking|]. intros _. apply unpanicking_bind; [apply unpanicking_read|].
    intros svc. destruct (String.eqb _ _); [apply unpanicking_ret|apply IH].
  - intros [m|ips]; [apply unpanicking_ret|]. rewrite (gatewayResources_eq _ _ _ Hg).
    apply unpanicking_bind; [apply ensureAll_unpanicking|intros _; apply unpanicking_bind].
    + intros o (u & -> & Hu)%list_elem_of_fmap. apply gatewayObjects_key in Hu as [_ Ht]. by split.
    + intros w w' (Hp & _)%removeShardServices_spec. done.
    + intros _. generalize (gatewayObjects cr g ips) as objs. induction objs as [|u objs IH]; cbn [awaitReady]; [apply unpanicking_ret|].
      apply unpanicking_bind; [apply unpanicking_read|]. intros u'. destruct (negb _); [apply unpanicking_ret|done].
Qed.
Lemma removeGateway_unpanicking enable cr : unpanicking (removeGateway enable cr).
Proof.
  unfold removeGateway. destruct enable; cbn [negb]; [|apply unpanicking_ret]. apply unpanicking_bind.
  - intros w w' (Hp & _)%removeKinds_spec. done.
  - intros _ w w' (Hp & _)%removeShardServices_spec. done.
Qed.

Lemma setStatus_unpanicking cr ready status reason message : unpanicking (setStatus cr ready status reason message).
Proof.
  intros w w'. unfold setStatus. cbv zeta. destruct (negb _); [|done]. unfold kwrite. by destruct (PatchStatus _ w) as [? []].
Qed.
Lemma andStatus_unpanicking d m : unpanicking m -> unpanicking (andStatus d m).
Proof. intros Hm w w' E. unfold andStatus in E. destruct (m w) as [? []] eqn:E1; try done. by apply Hm in E1. Qed.
Lemma failWith_unpanicking m e : unpanicking m -> unpanicking (failWith m e).
Proof. intros Hm w w' E. unfold failWith in E. destruct (m w) as [? []] eqn:E1; try done. by apply Hm in E1. Qed.
Lemma onError_unpanicking {A} (m : KM W A) h k :
  unpanicking m -> (forall e, unpanicking (h e)) -> (forall a, unpanicking (k a)) -> unpanicking (onError m h k).
Proof.
  intros Hm Hh Hk w w' E. unfold onError in E.
  destruct (m w) as [w1 [a|e|]] eqn:E1; [by apply Hk in E|by apply Hh in E|by apply Hm in E1].
Qed.
Lemma reportRollout_unpanicking cr desired ns name msg : unpanicking (reportRollout cr desired ns name msg).
Proof.
  apply onError_unpanicking; [apply unpanicking_read|intros e; apply unpanicking_ret|]. intros sts.
  destruct (readyCondition _ _ _) as [[? ?] ?]. apply andStatus_unpanicking, setStatus_unpanicking.
Qed.

(** The controller survives: no pass panics, whatever is stored and
    whatever the calls answer. The index of the first container, the pointer
    to the gateway specification, the lookup of a gateway kind and the type
    switch are always safe. *)
Theorem Reconcile_never_panics ns name w : (Reconcile ns name w).2 <> Panic.
Proof.
  assert (forall cr, unpanicking (reconcileObjects EnableGateway cr (defaults cr) ns name)) as Hobj.
  { intros cr. apply onError_unpanicking.
    - apply ensureAll_unpanicking. intros o. apply ownedObjects_sound.
    - intros e. apply failWith_unpanicking, setStatus_unpanicking.
    - intros u. unfold reconcileRoute. destruct (sp_Gateway _) as [g|] eqn:Eg; apply onError_unpanicking.
      + by eapply reconcileGateway_unpanicking.
      + intros e. apply failWith_unpanicking, setStatus_unpanicking.
      + intros m. apply reportRollout_unpanicking.
      + apply removeGateway_unpanicking.
      + intros e. apply unpanicking_ret.
      + intros u'. apply reportRollout_unpanicking. }
  enough (unpanicking (Reconcile ns name)) as Hr.
  { intros E. destruct (Reconcile ns name w) as [w' r] eqn:Er. simpl in E. subst. by apply Hr in Er. }
  intros w0 w' E. unfold Reconcile.Reconcile in E. destruct (GetCache ns name w0) as [[]|cr]; try done.
  destruct (isDeleting cr); [done|]. destruct (validateSpec _).
  { revert E. apply failWith_unpanicking, setStatus_unpanicking. }
  destruct (sp_Gateway (cr_Spec (defaults cr))) as [g|] eqn:Eg; [|by apply Hobj in E]. revert E. apply onError_unpanicking.
  - intros w1 w2. unfold checkGatewayClass. rewrite Eg. repeat case_match; done.
  - intros e. apply andStatus_unpanicking, setStatus_unpanicking.
  - intros u. apply Hobj.
Qed.

(** ** Objects of somebody else *)
Lemma ensureAll_conflict owner l o x w w' r :
  NoDup (keyOf <$> l) -> o ∈ l -> stored w !! keyOf o = Some x -> IsControlledBy (objMeta x) (ownerID owner) = false ->
  ensureAll owner l w = (w', r) -> r <> Ok tt.
Proof.
  intros Hnd Ho Hx Hc. revert w Hx. induction l as [|o' l IH]; intros w Hx E; [by apply elem_of_nil in Ho|].
  rewrite fmap_cons, NoDup_cons in Hnd. destruct Hnd as [Hni Hnd]. cbn [ensureAll] in E. unfold kbind in E.
  destruct (ensure owner o' w) as [w1 r1] eqn:E1. apply elem_of_cons in Ho as [->|Ho].
  - destruct r1 as [[]|e|]; [|by injection E as _ <-..].
    apply CreateOrUpdate_ok in E1 as (sent & got & Hf & _). rewrite Hx in Hf. simpl in Hf.
    apply mutateFn_ok in Hf as [Hv|Hf]; [by apply stored_version in Hx|congruence].
  - destruct r1 as [[]|e|]; [|by injection E as _ <-..]. eapply IH; [done|done| |done].
    rewrite (ensure_other _ _ _ _ _ _ E1); [done|]. intros Ek. apply Hni. rewrite <- Ek. by apply list_elem_of_fmap_2.
Qed.


(** An invalid specification, a resource that is being deleted or a
    gateway that is not usable stops the pass before it writes any object, and
    an invalid specification is not retried. *)
Theorem guards_change_nothing ns name cr w w' r :
  caches w !! (ns, name) = Some cr ->
  (isDeleting cr = true \/ validateSpec (defaults cr) <> None \/
   (sp_Gateway (cr_Spec cr) <> None /\ forall w1, checkGatewayClass EnableGateway (defaults cr) w <> (w1, Ok tt))) ->
  Reconcile ns name w = (w', r) ->
  stored w' = stored w /\
  (isDeleting cr = false -> validateSpec (defaults cr) <> None -> forall d, r = Ok (d, None) ->
     d = 0 /\ exists cr' c, caches w' !! (ns, name) = Some cr' /\ readyOf cr' = Some c /\
       c_Status c = "False" /\ c_Reason c = "InvalidSpec").
Proof.
  intros Hcr Hguard E. unfold Reconcile.Reconcile in E. destruct (GetCache ns name w) as [e|cr'] eqn:Eg.
  { destruct e as [m|m|m]; [| apply GetCache_missing in Eg; congruence|]; by injection E as <- <-. }
  apply GetCache_ok in Eg. rewrite Hcr in Eg. injection Eg as <-.
  destruct (isDeleting cr) eqn:Ed; [by injection E as <- <-|].
  destruct (validateSpec (defaults cr)) as [err|] eqn:Ev.
  - split; [by apply (steps_failWith same_stored) in E; [|apply setStatus_stored]|].
    intros _ _ d ->. unfold failWith in E. destruct (setStatus _ _ _ _ _ w) as [w1 [[]|e|]] eqn:E1; simplify_eq.
    destruct (caches_key _ _ _ _ Hcr) as [<- <-].
    apply setStatus_caches in E1 as [v Hv]; [|done]. split; [done|]. eexists.
    destruct (readyOf_new cr v w 0 "False" "InvalidSpec" (Error err)) as [t Ht].
    eexists. split_and!; [exact Hv|exact Ht|done|done].
  - split; [|by intros _ ?]. destruct Hguard as [?|[?|[Hg Hcheck]]]; [done|done|].
    destruct (sp_Gateway (cr_Spec (defaults cr))) as [g|] eqn:Eg2.
    2:{ simpl in Eg2. by destruct (sp_Gateway (cr_Spec cr)). }
    unfold onError in E. destruct (checkGatewayClass _ _ w) as [w1 r1] eqn:E1.
    pose proof (checkGatewayClass_pure _ _ _ _ _ E1) as ->.
    destruct r1 as [[]|e|]; [by destruct (Hcheck w)| |by injection E as <- _].
    by apply (steps_andStatus same_stored) in E; [|apply setStatus_stored].
Qed.
End Pass.

(** ** Watches *)

(** Every kind of object a pass maintains starts a new pass when it
    changes: with the gateway kinds installed, the set-up succeeds and owns
    the kinds of all objects of a resource, of its shard Services, and of its
    gateway objects. *)
Theorem watches_cover RESTMapping EnableGateway cr g ips owned :
  SetupWithManager RESTMapping EnableGateway = inr owned ->
  (forall o, o ∈ ownedObjects cr -> objKind o ∈ owned) /\
  (forall i, objKind (OService (shardService cr i)) ∈ owned) /\
  (EnableGateway = true -> forall u, u ∈ gatewayObjects cr g ips -> objKind (OUnstructured u) ∈ owned).
Proof.
  unfold SetupWithManager. intros E.
  assert (watchedKinds ⊆ owned /\ (EnableGateway = true -> (fun gvk => (gvk_Group gvk, gvk_Kind gvk)) <$> gatewayKinds ⊆ owned)) as [Hw Hg].
  { destruct EnableGateway; [|injection E as <-; by split].
    unfold gatewayKinds in E. cbn [ownKinds] in E.
    repeat match type of E with context [RESTMapping ?g] => destruct (RESTMapping g); [done|] end.
    injection E as <-. unfold watchedKinds, gatewayKinds, backendPolicyKind.
    split; [|intros _]; intros x; simpl; rewrite !elem_of_cons; tauto. }
  split_and!.
  - intros o. unfold ownedObjects. rewrite !elem_of_cons, elem_of_nil.
    intros [->|[->|[->|[->|[->|[->|[]]]]]]]; apply Hw; repeat first [by left|right].
  - intros i. apply Hw. repeat first [by left|right].
  - intros He u. unfold gatewayObjects. rewrite !elem_of_cons, elem_of_nil.
    intros [->|[->|[->|[->|[->|[]]]]]]; apply (Hg He); repeat first [by left|right].
Qed.

Lemma watches_cover_witness :
  exists owned, SetupWithManager (fun _ => None) true = inr owned /\
    forall u, u ∈ gatewayObjects gateway_cr (mkGateway "eg" 2) ["10.0.0.1"] -> objKind (OUnstructured u) ∈ owned.
Proof.
  eexists. split; [reflexivity|].
  by apply (watches_cover (fun _ => None) true gateway_cr (mkGateway "eg" 2) ["10.0.0.1"] _ eq_refl).
Defined.

(** ** Concrete passes *)
Lemma perm_to_list (m : ResourceList) : map_to_list m ≡ₚ map_to_list m.
Proof. reflexivity. Qed.
Lemma small_limits_requested : limits_requested small_resources.
Proof. intros name [q Hq]. unfold small_resources, rl in Hq. simpl in Hq. apply lookup_singleton_Some in Hq as [<- _]. auto. Qed.

Notation mem_proceeds enable := (proceeds dns_label dns_label dns_label map_to_list enable).
Lemma plain_proceeds st : mem_proceeds false (mkSimpleCache (cr_Meta sample_cr) (cr_Spec sample_cr) st) plain_world.
Proof. split_and!; [done|vm_compute; reflexivity|by intros []]. Qed.
Lemma gateway_proceeds : mem_proceeds true gateway_cr gateway_world.
Proof. split_and!; [done|vm_compute; reflexivity|]. intros _. vm_compute. reflexivity. Qed.

Lemma run_result enable w r : (run enable w).2 = r -> run enable w = ((run enable w).1, r).
Proof. intros <-. apply surjective_pairing. Qed.

Lemma run_finish enable w r : (run enable w).2 = r -> exists w1, run enable w = (w1, r) /\ w1 = (run enable w).1.
Proof. intros <-. eexists. split; [apply surjective_pairing|done]. Qed.


(** The sample with a gateway after the rollout, its objects accepted: a pass
    reports Ready. *)
Definition served_world : MemWorld := accept_gateway (roll_out 2 (run true gateway_world).1).
Definition served_cr : SimpleCache := default gateway_cr (mem_caches served_world !! ("prod", "shop")).

Lemma Reconcile_ready_truthful_witness :
  exists w1 cr' c sts ips, run true served_world = (w1, Ok (5 * Second, None)) /\
    mem_caches w1 !! ("prod", "shop") = Some cr' /\ readyOf cr' = Some c /\ c_Status c = "True" /\
    mem_stored w1 !! statefulSetKey "prod" "shop" = Some (OStatefulSet sts) /\ ss_Replicas (ss_Spec sts) = 2 /\
    length ips = 2%nat /\ Forall (fun ip => ip <> "") ips.
Proof.
  destruct (run_finish true served_world (Ok (5 * Second, None)) ltac:(vm_compute; reflexivity)) as (w1 & E & Hw). exists w1.
  destruct (Reconcile_ready_truthful dns_label dns_label dns_label map_to_list perm_to_list true "prod" "shop" served_cr
    served_world w1 (5 * Second)) as (cr' & c & Hcr & Hc & _ & _ & Htrue).
  - vm_compute. reflexivity.
  - split_and!; [vm_compute; reflexivity..|]. intros _. vm_compute. reflexivity.
  - exact small_limits_requested.
  - exact E.
  - assert (c_Status c = "True") as Hs.
    { change (mem_caches w1 !! ("prod", "shop") = Some cr') in Hcr. rewrite Hw in Hcr.
      assert ((readyOf <$> mem_caches (run true served_world).1 !! ("prod", "shop")) ≫= id = Some c) as Hx by (rewrite Hcr; exact Hc).
      vm_compute in Hx. by injection Hx as <-. }
    destruct (Htrue Hs) as [(sts & Hsts & _ & Hrep) [_ Hgw]]. destruct (Hgw (mkGateway "eg" 2) eq_refl) as (ips & HF & _).
    exists cr', c, sts, ips. split; [exact E|]. split; [exact Hcr|]. split; [exact Hc|]. split; [exact Hs|].
    split; [exact Hsts|]. split; [exact Hrep|]. split; [by apply Forall2_length in HF|].
    eapply Forall2_Forall_r; [exact HF|]. apply Forall_true. by intros i ip [Hne _].
Defined.

Lemma backend_exact_witness :
  exists w1 u es spec, run true gateway_world = (w1, Ok (5 * Second, None)) /\
    mem_stored w1 !! gvkKey (mkGVK "gateway.envoyproxy.io" "v1alpha1" "Backend") "prod" "shop" =
      Some (OUnstructured u) /\ index (u_Object u) "spec" = JObject spec /\ index spec "endpoints" = JArray es /\ length es = 2%nat.
Proof.
  destruct (run_finish true gateway_world (Ok (5 * Second, None)) ltac:(vm_compute; reflexivity)) as (w1 & E & Hw). exists w1.
  destruct (backend_exact dns_label dns_label dns_label map_to_list perm_to_list true "prod" "shop" gateway_cr
    (mkGateway "eg" 2) gateway_world w1 (5 * Second)) as [(i & svc & Hi & Hs & Hip)|Hb].
  - vm_compute. reflexivity.
  - apply gateway_proceeds.
  - apply small_limits_requested.
  - reflexivity.
  - exact E.
  - exfalso. apply elem_of_seqZ in Hi. assert (i = 0 \/ i = 1) as Hi2 by (change (0 <= i < 0 + 2) in Hi; lia).
    change (mem_stored w1 !! shardKey (defaults gateway_cr) i = Some (OService svc)) in Hs. rewrite Hw in Hs.
    assert ((fun o => svc_ClusterIP <$> as_service o) <$> mem_stored (run true gateway_world).1 !! shardKey (defaults gateway_cr) i =
            Some (Some "")) as Hx by (rewrite Hs; simpl; by rewrite Hip).
    destruct Hi2 as [->| ->]; vm_compute in Hx; discriminate.
  - destruct Hb as (ips & u & es & HF & Hu & (spec & E1 & E2) & HE & _). exists u, es, spec. split_and!; [exact E|exact Hu|done|done|].
    apply Forall2_length in HF, HE. rewrite <- HE, <- HF. reflexivity.
Defined.


Definition invalid_cr : SimpleCache :=
  mkSimpleCache (cr_Meta sample_cr) (mkSpec None 11 "registry/cache:1" "" 0 0 0 None 0 small_resources) (mkStatus 0 0 []).
Lemma guards_change_nothing_witness :
  mem_stored (run false (sample_world invalid_cr [foreign_statefulset])).1 = mem_stored (sample_world invalid_cr [foreign_statefulset]) /\
  exists cr' c, mem_caches (run false (sample_world invalid_cr [foreign_statefulset])).1 !! ("prod", "shop") = Some cr' /\
    readyOf cr' = Some c /\ c_Reason c = "InvalidSpec".
Proof.
  set (w := sample_world invalid_cr [foreign_statefulset]).
  destruct (guards_change_nothing dns_label dns_label dns_label map_to_list false "prod" "shop" invalid_cr w
    (run false w).1 (run false w).2) as [H1 H2].
  - vm_compute. reflexivity.
  - right. left. vm_compute. discriminate.
  - apply surjective_pairing.
  - split; [exact H1|]. destruct (H2 eq_refl) with (d := 0) as (_ & cr' & c & Hcr & Hc & _ & Hr).
    + vm_compute. discriminate.
    + vm_compute. reflexivity.
    + exists cr', c. by split_and!.
Defined.

Lemma Reconcile_never_panics_witness : (run true gateway_world).2 <> Panic.
Proof.
  apply (Reconcile_never_panics dns_label dns_label dns_label map_to_list true "prod" "shop" gateway_world).
Defined.
