(* ===== verification/StaleReads.v ===== *)
(** * A client cache that lags behind the server

    The manager's client reads typed objects from a cache that is filled by
    watches, so a pass that has just updated an object may read it back as it
    was. [LagKube] is an API server ([MemKube]) seen through such a cache, which
    stands still during a pass; it meets [KubeLaws] but not [FreshReads]. On it
    a pass reports Ready for a rollout that has not begun ([stale_ready]). *)
From S2P Require Import Prelude GoStrings NetAddr Errors LRU CacheStore Bloom Admission Group Read Directory Protocol Postgres Api Config Operator Kube Gateway Reconcile MemKube ReconcileSafety ReconcileStable ReconcilePass.

Record LagWorld := mkLag { lg_server : MemWorld; lg_cache : MemWorld }.

Definition on_server {A} (call : MemWorld -> MemWorld * A) (w : LagWorld) : LagWorld * A :=
  let '(s, r) := call (lg_server w) in (mkLag s (lg_cache w), r).

(** [CreateOrUpdate] gets the object from the cache; the server takes a write
    only over the version it has. *)
Definition lag_createOrUpdate (obj : Object) (f : Object -> outcome Object) : KM LagWorld unit := fun w =>
  let shown := match obj with
               | OUnstructured _ => mem_stored (lg_server w) !! keyOf obj
               | _ => mem_stored (lg_cache w) !! keyOf obj
               end in
  if decide (shown = mem_stored (lg_server w) !! keyOf obj) then on_server (mem_createOrUpdate obj f) w
  else match f (default obj shown) with
       | Ok sent => (w, if decide (shown = Some sent) then Ok tt else Err (kError "the object has been modified"))
       | Err e => (w, Err e)
       | Panic => (w, Panic)
       end.

#[export] Instance LagKube : Kube LagWorld := {
  stored w := mem_stored (lg_server w);
  caches w := mem_caches (lg_server w);
  seen w := mem_stored (lg_cache w);
  seenCaches w := mem_caches (lg_cache w);
  GetCache ns name w := GetCache ns name (lg_cache w);
  GetService ns name w := GetService ns name (lg_cache w);
  GetStatefulSet ns name w := GetStatefulSet ns name (lg_cache w);
  GetUnstructured gvk ns name w := GetUnstructured gvk ns name (lg_server w);
  ListServices ns w := ListServices ns (lg_cache w);
  Delete k := on_server (mem_delete k);
  PatchStatus cr := on_server (mem_patch cr);
  CreateOrUpdate := lag_createOrUpdate;
  IsControlledBy := mem_isControlledBy;
  SetControllerReference := mem_setController;
  SetStatusCondition _ := mem_setCondition;
  NestedSlice := NestedSlice (W := MemWorld);
  NestedString := NestedString (W := MemWorld);
}.

(** ** The laws *)
Lemma on_server_inv {A} (call : MemWorld -> MemWorld * A) w w' r :
  on_server call w = (w', r) -> call (lg_server w) = (lg_server w', r).
Proof. unfold on_server. destruct (call _) as [s r']. by intros [= <- <-]. Qed.

(** A call that goes through is one on the server, which the cache agreed
    with; the others write nothing. *)
Lemma lag_createOrUpdate_cases obj f w w' r :
  CreateOrUpdate obj f w = (w', r) ->
  (viewed w obj = mem_stored (lg_server w) !! keyOf obj /\ mem_createOrUpdate obj f (lg_server w) = (lg_server w', r)) \/
  (w' = w /\ viewed w obj <> mem_stored (lg_server w) !! keyOf obj /\
   match r with
   | Ok _ => exists sent, f (default obj (viewed w obj)) = Ok sent /\ viewed w obj = Some sent
   | Err e => f (default obj (viewed w obj)) = Err e \/ e = kError "the object has been modified"
   | Panic => f (default obj (viewed w obj)) = Panic
   end).
Proof.
  simpl. unfold lag_createOrUpdate. cbv zeta. fold (viewed w obj).
  change (match obj with OUnstructured _ => _ | _ => _ end) with (viewed w obj).
  destruct (decide _) as [E|E]; [intros Hs%on_server_inv; auto|]. intros Hr. right.
  destruct (f _) as [sent|e|] eqn:Ef; [|injection Hr as <- <-; auto..].
  destruct (decide (viewed w obj = Some sent)); injection Hr as <- <-; eauto.
Qed.

#[export] Instance LagKube_laws : KubeLaws LagWorld.
Proof.
  split.
  - intros w. exact (GetCache_unseen (lg_cache w)).
  - intros w. exact (GetCache_seen (lg_cache w)).
  - intros w. exact (GetService_seen (lg_cache w)).
  - intros w. exact (GetStatefulSet_seen (lg_cache w)).
  - intros w. exact (GetUnstructured_ok (lg_server w)).
  - intros w. exact (GetUnstructured_missing (lg_server w)).
  - intros w. exact (ListServices_seen (lg_cache w)).
  - intros w. exact (stored_key (lg_server w)).
  - intros w. exact (stored_typed (lg_server w)).
  - intros w. exact (stored_version (lg_server w)).
  - intros w. exact (caches_key (lg_server w)).
  - intros w obj f w' r [[_ E]|(-> & _)]%lag_createOrUpdate_cases; [|by auto].
    exact (CreateOrUpdate_step (lg_server w) obj f (lg_server w') r E).
  - intros w obj f w' [[-> E]|(-> & _ & sent & Hf & Hs)]%lag_createOrUpdate_cases; [|by eauto].
    rewrite <- mem_viewed. exact (CreateOrUpdate_done (lg_server w) obj f (lg_server w') E).
  - intros w obj f w' r o [[_ E]|(-> & _)]%lag_createOrUpdate_cases; [|done].
    exact (CreateOrUpdate_same (lg_server w) obj f (lg_server w') r o E).
  - intros w obj f w' e [[-> E]|(_ & _ & [Hf|?])]%lag_createOrUpdate_cases; [|done|done].
    rewrite <- mem_viewed. exact (CreateOrUpdate_conflict (lg_server w) obj f (lg_server w') e E).
  - intros w obj f w' [[-> E]|(_ & _ & Hf)]%lag_createOrUpdate_cases; [|done].
    rewrite <- mem_viewed. exact (CreateOrUpdate_panics (lg_server w) obj f (lg_server w') E).
  - intros w k w' r E%on_server_inv. exact (Delete_step (lg_server w) k (lg_server w') r E).
  - intros w k w' E%on_server_inv. exact (Delete_ok (lg_server w) k (lg_server w') E).
  - intros w k w' m E%on_server_inv. exact (Delete_missing (lg_server w) k (lg_server w') m E).
  - intros w cr w' r E%on_server_inv. exact (PatchStatus_step (lg_server w) cr (lg_server w') r E).
  - intros w cr w' old E%on_server_inv. exact (PatchStatus_ok (lg_server w) cr (lg_server w') old E).
  - exact (SetControllerReference_ok (W := MemWorld)).
  - exact (SetControllerReference_same (W := MemWorld)).
  - exact (IsControlledBy_owners (W := MemWorld)).
  - intros w. exact (SetStatusCondition_set (lg_server w)).
Qed.

(** ** The flaw *)
Definition lag_run (w : LagWorld) : LagWorld * outcome Result :=
  Reconcile dns_label dns_label dns_label map_to_list false "prod" "shop" w.

(** After the rollout a pass of the plain sample reports Ready. *)
Definition rolled_world : MemWorld := roll_out 3 (run false plain_world).1.
Definition rolled_cr : SimpleCache := default sample_cr (mem_caches rolled_world !! ("prod", "shop")).

(** The resource of [rolled_world] asks for another image, as its generation
    2; the cache has everything that is stored when the pass begins. *)
Definition next_image : SimpleCache :=
  let m := cr_Meta rolled_cr in let s := cr_Spec rolled_cr in
  mkSimpleCache (mkMeta (m_Name m) (m_Namespace m) (m_UID m) (m_ResourceVersion m) 2 (m_DeletionTimestamp m) (m_OwnerReferences m))
    (mkSpec (sp_Gateway s) (sp_Size s) "registry/cache:2" (sp_SourceSecret s) (sp_CacheBytes s) (sp_TTLSeconds s)
       (sp_MaxMissWaiters s) (sp_SourceMaxPending s) (sp_MaxConcurrentWrites s) (sp_Resources s))
    (cr_Status rolled_cr).
Definition caught_up : LagWorld :=
  let w := mkMem (mw_objects rolled_world) {[ ("prod", "shop") := next_image ]} in mkLag w w.

(** A pass that begins with an up-to-date cache updates the StatefulSet, reads
    it back as it was, and reports Ready for the new generation of the
    resource, although the StatefulSet that is stored is not rolled out: its
    new generation has not even been observed. *)
Theorem stale_ready :
  seen caught_up = stored caught_up /\ seenCaches caught_up = caches caught_up /\
  (lag_run caught_up).2 = Ok (0, None) /\
  (exists cr' c, caches (lag_run caught_up).1 !! ("prod", "shop") = Some cr' /\ readyOf cr' = Some c /\
     c_Status c = "True" /\ c_ObservedGeneration c = 2) /\
  exists sts, stored (lag_run caught_up).1 !! statefulSetKey "prod" "shop" = Some (OStatefulSet sts) /\
    rolledOut sts 3 = false /\ (ct_Image <$> pt_Containers (ss_Template (ss_Spec sts))) = ["registry/cache:2"].
Proof.
  split_and!; [done|done|vm_compute; reflexivity| |].
  - eexists _, _. split_and!; [vm_compute; reflexivity..].
  - eexists. split_and!; [vm_compute; reflexivity..].
Qed.

(** With an up-to-date client the same pass says that the rollout is awaited. *)
Example fresh_waits :
  exists cr' c, mem_caches (run false (lg_server caught_up)).1 !! ("prod", "shop") = Some cr' /\
    readyOf cr' = Some c /\ c_Status c = "False" /\ c_Message c = "Waiting for StatefulSet rollout".
Proof. eexists _, _. split_and!; [vm_compute; reflexivity..]. Qed.
