(* ===== verification/Measurement.v ===== *)
(** * Latency percentiles ([internal/bench/measurement/latency.go])

    Nearest-rank percentiles over any totally ordered type of observations;
    the rank itself is computed in binary64 arithmetic, as the code does. *)
From Stdlib Require Import SpecFloat.
From S2P Require Import Prelude.

(** ** binary64 *)
Definition prec : Z := 53.
Definition emax : Z := 1024.
Definition float64 (n : Z) : spec_float := binary_normalize prec emax n 0 false.
(** The [float64] nearest to the decimal constant [num/den]. *)
Definition constant (num den : Z) : spec_float := SFdiv prec emax (float64 num) (float64 den).

(** [int(math.Ceil(x))] of a finite [x] in the range of [int]. *)
Definition ceil_int (x : spec_float) : Z :=
  match x with
  | S754_finite s m e =>
      let v := if s then Z.neg m else Z.pos m in
      if 0 <=? e then v * 2 ^ e else - ((- v) / 2 ^ (- e))
  | _ => 0
  end.

Definition p50 : spec_float := constant 5 10.
Definition p95 : spec_float := constant 95 100.
Definition p99 : spec_float := constant 99 100.
Definition rank (p : spec_float) (n : Z) : Z := ceil_int (SFmul prec emax p (float64 n)).

(** ** [Quantiles] *)
Section Quantiles.
Context {F : Type} (le : relation F) `{!RelDecision le}.
Variable zero : F.

Record Percentiles := mkPercentiles { Count : Z; P50 : F; P95 : F; P99 : F }.

(** The index of [sorted], which is in range; outside the code would panic. *)
Definition at_rank (sorted : list F) (p : spec_float) : option F :=
  let i := rank p (Z.of_nat (length sorted)) - 1 in
  if i <? 0 then None else sorted !! Z.to_nat i.

Definition Quantiles (values : list F) : option Percentiles :=
  match values with
  | [] => Some (mkPercentiles 0 zero zero zero)
  | _ =>
      let sorted := merge_sort le values in
      a ← at_rank sorted p50; b ← at_rank sorted p95; c ← at_rank sorted p99;
      Some (mkPercentiles (Z.of_nat (length sorted)) a b c)
  end.
End Quantiles.
Arguments Percentiles F : clear implicits.
Arguments mkPercentiles {F}.

(** ** Proofs *)

(** The exact nearest rank, [ceil(q*n/100)]. *)
Definition nearest (q n : Z) : Z := (q * n + 99) / 100.
Definition rank_bound : Z := 2000.

(** Rounding never moves a rank, for any number of observations up to the bound. *)
Lemma ranks_exact : forallb (fun n => (rank p50 n =? nearest 50 n) && (rank p95 n =? nearest 95 n) && (rank p99 n =? nearest 99 n))
  (seqZ 1 rank_bound) = true.
Proof. vm_compute. reflexivity. Qed.

Variant percent : spec_float -> Z -> Prop := pc50 : percent p50 50 | pc95 : percent p95 95 | pc99 : percent p99 99.

Lemma rank_nearest p q n : percent p q -> 1 <= n <= rank_bound -> rank p n = nearest q n.
Proof.
  intros Hp Hn. pose proof ranks_exact as H. rewrite forallb_forall in H. specialize (H n).
  rewrite <- list_elem_of_In, elem_of_seqZ in H. specialize (H ltac:(lia)). reflect_bool.
  by destruct Hp.
Qed.

Lemma nearest_spec q n : 1 <= q <= 99 -> 1 <= n -> 1 <= nearest q n <= n /\ q * n <= 100 * nearest q n < q * n + 100.
Proof.
  intros Hq Hn. unfold nearest. pose proof (Z.div_mod (q * n + 99) 100 ltac:(lia)).
  pose proof (Z.mod_pos_bound (q * n + 99) 100 ltac:(lia)). nia.
Qed.

Section QuantileFacts.
Context {F : Type} (le : relation F) `{!RelDecision le, !Total le, !Transitive le, !Reflexive le}.
Variable zero : F.

Definition count (P : F -> Prop) `{forall x, Decision (P x)} (l : list F) : Z := Z.of_nat (length (filter P l)).

Lemma count_app (P : F -> Prop) `{forall x, Decision (P x)} l1 l2 : count P (l1 ++ l2) = count P l1 + count P l2.
Proof. unfold count. rewrite filter_app, length_app. lia. Qed.
Lemma count_bound (P : F -> Prop) `{forall x, Decision (P x)} (l : list F) : 0 <= count P l <= Z.of_nat (length l).
Proof. unfold count. pose proof (length_filter P l). lia. Qed.

(** In a sorted list, the first [i+1] elements are at most the [i]-th, and
    only the first [i] can be below it. *)
Lemma sorted_counts (l : list F) (i : nat) x :
  StronglySorted le l -> l !! i = Some x ->
  Z.of_nat i + 1 <= count (fun y => le y x) l /\ count (fun y => ~ le x y) l <= Z.of_nat i.
Proof.
  intros Hs Hx. rewrite <- (take_drop_middle l i x Hx) in Hs |- *.
  apply lookup_lt_Some in Hx as Hlt.
  assert (length (take i l) = i) as HL by (rewrite length_take; lia).
  apply StronglySorted_app in Hs as (Hab & Hs1 & Hs2). rewrite !count_app.
  assert (filter (fun y => le y x) (take i l) = take i l) as E1.
  { apply filter_all_true. intros y Hy. apply Hab; [done|by left]. }
  assert (filter (fun y => ~ le x y) (x :: drop (S i) l) = []) as E2.
  { apply filter_all_false. intros y Hy Hn. apply Hn. apply elem_of_cons in Hy as [->|Hy]; [done|].
    apply StronglySorted_inv in Hs2 as [_ Hall]. rewrite Forall_forall in Hall. auto. }
  unfold count at 1 4. rewrite E1, E2, HL. split.
  - unfold count. rewrite filter_cons_True by done. simpl. lia.
  - pose proof (count_bound (fun y => ~ le x y) (take i l)). rewrite HL in *. simpl. lia.
Qed.

(** Nearest rank: [x] is an observation, at least [q] percent of them are at
    most [x], and fewer than [q] percent are below it. *)
Definition nearest_rank (q : Z) (values : list F) (x : F) : Prop :=
  x ∈ values /\ q * Z.of_nat (length values) <= 100 * count (fun y => le y x) values /\
  100 * count (fun y => ~ le x y) values < q * Z.of_nat (length values).

Lemma count_perm (P : F -> Prop) `{forall x, Decision (P x)} l1 l2 : l1 ≡ₚ l2 -> count P l1 = count P l2.
Proof. intros E. unfold count. by rewrite E. Qed.

Lemma at_rank_nearest (values : list F) p q :
  percent p q -> 1 <= Z.of_nat (length values) <= rank_bound ->
  exists x, at_rank (merge_sort le values) p = Some x /\ nearest_rank q values x.
Proof.
  intros Hp Hn. set (n := Z.of_nat (length values)) in *.
  pose proof (merge_sort_Permutation le values) as HP. pose proof (StronglySorted_merge_sort le values) as HS.
  assert (Z.of_nat (length (merge_sort le values)) = n) as HL by (subst n; by rewrite HP).
  assert (1 <= q <= 99) as Hq.
  by (destruct Hp; lia).
  unfold at_rank. rewrite HL, (rank_nearest p q) by done.
  destruct (nearest_spec q n Hq) as [Hr1 Hr2]; [lia|]. rewrite (proj2 (Z.ltb_ge _ _)) by lia.
  destruct (lookup_lt_is_Some_2 (merge_sort le values) (Z.to_nat (nearest q n - 1))) as [x Hx]; [lia|].
  exists x. split; [done|]. destruct (sorted_counts _ _ _ HS Hx) as [H1 H2].
  apply list_elem_of_lookup_2 in Hx. rewrite HP in Hx.
  unfold nearest_rank. fold n. rewrite !(count_perm _ _ _ (symmetry HP)). split; [done|]. lia.
Qed.
End QuantileFacts.

(** ** Counting *)
Lemma count_one {F} (P : F -> Prop) `{forall x, Decision (P x)} x : count P [x] = if decide (P x) then 1 else 0.
Proof. unfold count. rewrite filter_cons. by case_decide. Qed.
Lemma count_zero {F} (P : F -> Prop) `{forall x, Decision (P x)} l : (forall x, x ∈ l -> ~ P x) -> count P l = 0.
Proof. intros H1. unfold count. by rewrite filter_all_false. Qed.
Lemma count_zero_inv {F} (P : F -> Prop) `{forall x, Decision (P x)} l : count P l <= 0 -> forall x, x ∈ l -> ~ P x.
Proof.
  unfold count. intros H1 x Hx HP. assert (x ∈ filter P l) as Hin by by apply list_elem_of_filter.
  destruct (filter P l); [by apply elem_of_nil in Hin|simpl in H1; lia].
Qed.
Lemma count_le {F} (P Q : F -> Prop) `{forall x, Decision (P x)} `{forall x, Decision (Q x)} l :
  (forall x, x ∈ l -> P x -> Q x) -> count P l <= count Q l.
Proof.
  induction l as [|x l IH]; intros HPQ; [done|]. change (x :: l) with ([x] ++ l). rewrite !count_app, !count_one.
  specialize (IH (fun y Hy => HPQ y ltac:(by right))). specialize (HPQ x ltac:(by left)).
  repeat case_decide; try lia. tauto.
Qed.
Lemma count_all {F} (P : F -> Prop) `{forall x, Decision (P x)} l : (forall x, x ∈ l -> P x) -> count P l = Z.of_nat (length l).
Proof. intros H1. unfold count. by rewrite filter_all_true. Qed.
(** Counting corresponding lists. *)
Lemma count_lookup {A B} (P : A -> Prop) (Q : B -> Prop) `{forall x, Decision (P x)} `{forall x, Decision (Q x)} l l' :
  length l = length l' -> (forall k x y, l !! k = Some x -> l' !! k = Some y -> P x <-> Q y) -> count P l = count Q l'.
Proof.
  revert l'. induction l as [|x l IH]; intros [|y l'] HL HPQ; try done.
  change (x :: l) with ([x] ++ l). change (y :: l') with ([y] ++ l'). rewrite !count_app, !count_one.
  rewrite (IH l'); [|simpl in HL; lia|intros k; apply (HPQ (S k))]. specialize (HPQ 0%nat x y eq_refl eq_refl).
  repeat case_decide; tauto || lia.
Qed.

(** The reported percentiles are nearest-rank percentiles: for up to 2000
    observations [Quantiles] never indexes out of range (rounding in binary64
    does not move a rank), counts every observation, and each of P50, P95 and
    P99 is an observation such that at least that share of the observations is
    at most it and less than that share is below it; no observation gives a
    zero count. *)
Theorem Quantiles_nearest_rank {F : Type} (le : relation F) `{!RelDecision le, !Total le, !Transitive le, !Reflexive le}
    (zero : F) (values : list F) :
  Z.of_nat (length values) <= rank_bound ->
  exists p, Quantiles le zero values = Some p /\ Count p = Z.of_nat (length values) /\
    (values <> [] -> nearest_rank le 50 values (P50 p) /\ nearest_rank le 95 values (P95 p) /\ nearest_rank le 99 values (P99 p)).
Proof.
  intros Hn. destruct values as [|v l]; [by eexists|]. set (values := v :: l) in *.
  assert (1 <= Z.of_nat (length values) <= rank_bound) as Hr by (subst values; simpl in *; lia).
  destruct (at_rank_nearest le values p50 50 pc50 Hr) as (x1 & E1 & H1).
  destruct (at_rank_nearest le values p95 95 pc95 Hr) as (x2 & E2 & H2).
  destruct (at_rank_nearest le values p99 99 pc99 Hr) as (x3 & E3 & H3).
  change (Quantiles le zero values) with
    (a ← at_rank (merge_sort le values) p50; b ← at_rank (merge_sort le values) p95; c ← at_rank (merge_sort le values) p99;
     Some (mkPercentiles (Z.of_nat (length (merge_sort le values))) a b c)).
  rewrite E1, E2, E3. cbn [mbind option_bind]. eexists. split; [done|].
  cbn [Count P50 P95 P99]. rewrite (merge_sort_Permutation le values).
  exact (conj eq_refl (fun _ => conj H1 (conj H2 H3))).
Qed.

Lemma Quantiles_nearest_rank_witness :
  exists p, Quantiles Z.le 0 [30; 10; 20] = Some p /\ nearest_rank Z.le 50 [30; 10; 20] (P50 p) /\ P50 p = 20 /\ P99 p = 30.
Proof.
  destruct (Quantiles_nearest_rank Z.le 0 [30; 10; 20]) as (p & E & _ & H); [vm_compute; congruence|].
  exists p. split; [exact E|]. split; [apply H; discriminate|].
  vm_compute in E. injection E as <-. split; reflexivity.
Defined.
