(* ===== verification/Dataset.v ===== *)
(** * The load generator's configuration and dataset
      ([config.go], [dataset.go], [products.go] of [internal/bench/gateway])

    The deterministic product set of the gateway workloads: its keys, the size
    of each value and the value itself. Byte slices are strings here. JSON
    encoding is modelled for valid UTF-8 (the keys are validated first);
    SHA-256 is a parameter, of which only the length of its result matters. *)
From S2P Require Import Prelude GoStrings NetAddr Errors Measurement.

Record RateStage := mkStage { rs_Name : string; rs_Rate : Z; rs_Seconds : Z }.
Record BenchConfig := mkBench {
  MaxScheduleLagMillis : Z;
  MaxCatchUp : Z;
  DatasetProfile : string;
  KeyStyle : string;
  Distribution : string;
  MaxPending : Z;
  Stages : list RateStage;
  Endpoint : string;
  Host : string;
  Prefix : string;
  Scenario : string;
  Keys : Z;
  ValueBytes : Z;
  Reads : Z;
  Workers : Z;
  ThinkMillis : Z;
  Seed : Z;
  Windows : Z;
  DurationSeconds : Z;
}.

Definition fails (message : string) : option error := Some (NewError message).

(** ** Formatting *)
Fixpoint RepeatString (s : string) (n : nat) : string :=
  match n with O => "" | S n' => s +:+ RepeatString s n' end.

(** [%04d] of a number that is not negative. *)
Definition pad4 (n : Z) : string := RepeatString "0" (4 - String.length (FormatInt n)) +:+ FormatInt n.

Definition lower_hex (z : Z) : ascii := byte_of (if z <? 10 then 48 + z else 87 + z).
(** [hex.EncodeToString] *)
Fixpoint EncodeToString (s : string) : string :=
  match s with
  | EmptyString => ""
  | String c s' => String (lower_hex (byteval c / 16)) (String (lower_hex (byteval c mod 16)) (EncodeToString s'))
  end.

(** ** [encoding/json] *)
Definition u00 (c : ascii) (s : string) : string :=
  "\u00" +:+ String (lower_hex (byteval c / 16)) (String (lower_hex (byteval c mod 16)) s).
Definition json_escape (c : ascii) (s : string) : string :=
  let b := byteval c in
  if (b =? 34) || (b =? 92) then String "\" (String c s)
  else if b =? 8 then "\b" +:+ s else if b =? 12 then "\f" +:+ s else if b =? 10 then "\n" +:+ s
  else if b =? 13 then "\r" +:+ s else if b =? 9 then "\t" +:+ s
  else if (b <? 32) || (b =? 60) || (b =? 62) || (b =? 38) then u00 c s
  else String c s.
(** The body of a string literal; U+2028 and U+2029 are escaped too. *)
Fixpoint json_body (s : string) : string :=
  match s with
  | EmptyString => ""
  | String c s1 =>
      match s1 with
      | String d (String e s3) =>
          if (byteval c =? 226) && (byteval d =? 128) && ((byteval e =? 168) || (byteval e =? 169))
          then "\u202" +:+ String (lower_hex (byteval e mod 16)) (json_body s3)
          else json_escape c (json_body s1)
      | _ => json_escape c (json_body s1)
      end
  end.
Definition quote : string := String (byte_of 34) "".
Definition json_string (s : string) : string := quote +:+ json_body s +:+ quote.

Fixpoint joined_by (sep : string) (l : list string) : string :=
  match l with [] => "" | [x] => x | x :: l' => x +:+ sep +:+ joined_by sep l' end.
Definition json_strings (l : list string) : string := "[" +:+ joined_by "," (json_string <$> l) +:+ "]".
Definition member (name value : string) : string := json_string name +:+ ":" +:+ value.
Definition json_object (members : list string) : string := "{" +:+ joined_by "," members +:+ "}".
Definition key_le (a b : string * list string) : Prop := String.le a.1 b.1.
#[export] Instance key_le_dec : RelDecision key_le.
Proof. intros a b. unfold key_le. apply _. Defined.
Definition json_map (m : gmap string (list string)) : string :=
  json_object ((fun kv => member kv.1 (json_strings kv.2)) <$> merge_sort key_le (map_to_list m)).

(** ** [dataset.go] *)
Record Payload := mkPayload { pl_Key : string; pl_Version : Z; pl_Padding : string }.
Definition marshalPayload (p : Payload) : string :=
  json_object [member "key" (json_string (pl_Key p)); member "version" (FormatInt (pl_Version p));
               member "padding" (json_string (pl_Padding p))].

Definition Key (prefix : string) (index : Z) : string := prefix +:+ "-" +:+ pad4 index.

Section Values.
(** [sha256.Sum256] *)
Variable sha256 : string -> string.

(** The loop that grows the padding by one digest at a time; [fuel] is the
    number of bytes wanted, each round adds more than one. *)
Fixpoint growPadding (fuel : nat) (key : string) (version i need : Z) (padding : string) : string :=
  if slen padding <? need then
    match fuel with
    | O => padding
    | S fuel' =>
        let sum := sha256 (key +:+ ":" +:+ FormatInt version +:+ ":" +:+ FormatInt i) in
        growPadding fuel' key version (i + 1) need (padding +:+ EncodeToString sum)
    end
  else padding.

Definition Value (key : string) (version size : Z) : string :=
  let base := marshalPayload (mkPayload key version "") in
  let need := size - slen base in
  let padding := growPadding (Z.to_nat need) key version 0 need "" in
  marshalPayload (mkPayload key version
    (if slen base <? size then slice 0 (Z.to_nat need) padding else "")).

(** [draw i] is the [i]-th number of the Zipf generator. *)
Definition readTrace (c : BenchConfig) (draw : Z -> Z) : list Z :=
  (fun i => if bool_decide (Scenario c ∈ ["warm-hot"; "cold-key"]) then 0
            else if bool_decide (Scenario c ∈ ["zipf"; "mixed"]) then draw i
            else i mod Keys c) <$> seqZ 0 (Reads c).

(** ** [products.go] *)
Definition maxDatasetBytes : Z := 536870912.

(** [Repeat] would panic for a prefix that leaves no room; validation bounds
    it first. *)
Definition datasetKey (c : BenchConfig) (index : Z) : string :=
  if negb (String.eqb (KeyStyle c) "mixed") then Key (Prefix c) index
  else if index mod 4 =? 1 then Prefix c +:+ "-商品:" +:+ pad4 index
  else if index mod 4 =? 2 then
    let base := Key (Prefix c) index in base +:+ RepeatString "x" (Z.to_nat (200 - slen base))
  else if index mod 4 =? 3 then Prefix c +:+ "-特殊 a+b/c?&%-" +:+ pad4 index
  else Key (Prefix c) index.

Definition firstByte (s : string) : Z := match s with String c _ => byteval c | EmptyString => 0 end.

Definition sizeClass (c : BenchConfig) (index : Z) : Z * string :=
  if negb (String.eqb (DatasetProfile c) "mixed") then (ValueBytes c, "uniform")
  else
    let sum := sha256 (FormatInt (Seed c) +:+ ":" +:+ FormatInt index) in
    let bucket := (index + (Z.rem (Seed c) 100 + 100) mod 100) mod 100 in
    let '(sizes, class) :=
      if 95 <=? bucket then ([32768; 49152; 65536], "large")
      else if 70 <=? bucket then ([4096; 8192; 16384], "medium")
      else ([512; 1024; 2048], "small") in
    (nth (Z.to_nat (firstByte sum mod 3)) sizes 0, class).

Record Product := mkProductDoc {
  pd_Key : string; pd_Version : Z; pd_Kind : string; pd_Name : string; pd_Price : Z;
  pd_Tags : list string; pd_Specs : gmap string (list string); pd_Description : string; pd_Padding : string }.
Definition with_padding (p : Product) (padding : string) : Product :=
  mkProductDoc (pd_Key p) (pd_Version p) (pd_Kind p) (pd_Name p) (pd_Price p) (pd_Tags p) (pd_Specs p) (pd_Description p) padding.

Definition marshalProduct (p : Product) : string :=
  json_object (
    [member "key" (json_string (pd_Key p)); member "version" (FormatInt (pd_Version p));
     member "kind" (json_string (pd_Kind p)); member "name" (json_string (pd_Name p));
     member "price_cents" (FormatInt (pd_Price p))] ++
    match pd_Tags p with [] => [] | tags => [member "tags" (json_strings tags)] end ++
    (if decide (pd_Specs p = ∅) then [] else [member "specifications" (json_map (pd_Specs p))]) ++
    (if String.eqb (pd_Description p) "" then [] else [member "description" (json_string (pd_Description p))]) ++
    [member "padding" (json_string (pd_Padding p))]).

Definition productDoc (key : string) (version index : Z) (class : string) : Product :=
  mkProductDoc key version class ("商品-" +:+ FormatInt index) (100 + index mod 100000)
    (if String.eqb class "small" then [] else ["可重复数据"; "多规格"])
    (if String.eqb class "small" then ∅ else list_to_map [("颜色", ["红色"; "蓝色"]); ("尺寸", ["S"; "M"; "L"])])
    (if String.eqb class "large" then RepeatString "这是用于验证变长商品详情的描述。" 30 else "") "".

Definition productValue (c : BenchConfig) (index version : Z) : string + error :=
  let key := datasetKey c index in
  let '(size, class) := sizeClass c index in
  if negb (String.eqb (DatasetProfile c) "mixed") then
    let value := Value key version size in
    if negb (slen value =? size) then inr (NewError "value size cannot hold encoded content") else inl value
  else
    let product := productDoc key version index class in
    let base := marshalProduct product in
    let padding := EncodeToString (sha256 (FormatInt (Seed c) +:+ ":" +:+ key +:+ ":" +:+ FormatInt version)) in
    let needed := size - slen base in
    if needed <? 0 then inr (NewError "value size cannot hold encoded content")
    else inl (marshalProduct (with_padding product
           (slice 0 (Z.to_nat needed)
              (RepeatString padding (Z.to_nat ((needed + slen padding - 1) / slen padding)))))).

(** The first error of a loop over the indices. *)
Fixpoint firstError (l : list Z) (f : Z -> option error) : option error :=
  match l with [] => None | i :: l' => match f i with Some e => Some e | None => firstError l' f end end.

Definition validateDataset (c : BenchConfig) : option error :=
  if String.eqb (Prefix c) "" || (80 <? slen (Prefix c)) || (Keys c <? 1) || (50000 <? Keys c) ||
     (ValueBytes c <? 128) || (1048576 <? ValueBytes c)
  then fails "invalid dataset dimensions"
  else if negb (String.eqb (DatasetProfile c) "") && negb (String.eqb (DatasetProfile c) "uniform") &&
          negb (String.eqb (DatasetProfile c) "mixed")
  then fails "invalid dataset profile"
  else if negb (String.eqb (KeyStyle c) "") && negb (String.eqb (KeyStyle c) "plain") && negb (String.eqb (KeyStyle c) "mixed")
  then fails "invalid key style"
  else match firstError (seqZ 0 (Keys c)) (fun i => match ValidateKey (datasetKey c i) with
         | Some err => Some (Wrap ("invalid dataset key: " +:+ Error err) err) | None => None end) with
  | Some e => Some e
  | None =>
      let total := Zsum (fun i => slen (datasetKey c i) + (sizeClass c i).1) (seqZ 0 (Keys c)) in
      if maxDatasetBytes <? total then fails "dataset exceeds 512MiB logical bound"
      else firstError (seqZ 0 (Keys c)) (fun i => match productValue c i 1 with
             | inr err => Some (Wrap ("dataset key " +:+ FormatInt i +:+ ": " +:+ Error err) err)
             | inl _ => None end)
  end.

Definition maxValueSize (c : BenchConfig) : Z :=
  if String.eqb (DatasetProfile c) "mixed" then 65536 else ValueBytes c.

(** *** The manifest *)
Record DatasetManifest := mkManifest {
  dm_Keys : Z; dm_KeyBytes : Z; dm_ValueBytes : Z; dm_LogicalBytes : Z;
  dm_Sizes : option (Percentiles Z); dm_Classes : gmap string Z; dm_SHA256 : string }.

(** [binary.BigEndian.PutUint64] *)
Definition bigEndian (n : Z) : string := str_of ((fun k => (n / 2 ^ (8 * k)) mod 256) <$> [7; 6; 5; 4; 3; 2; 1; 0]).
Definition hashed (part : string) : string := bigEndian (slen part) +:+ part.

(** The loop: sums, sizes, classes and the bytes handed to the hash. *)
Fixpoint describe (c : BenchConfig) (l : list Z) (keyBytes valueBytes : Z) (sizes : list Z) (classes : gmap string Z)
    (written : string) : (Z * Z * list Z * gmap string Z * string) + error :=
  match l with
  | [] => inl (keyBytes, valueBytes, sizes, classes, written)
  | i :: l' =>
      let key := datasetKey c i in
      match productValue c i 1 with
      | inr err => inr err
      | inl value =>
          let class := (sizeClass c i).2 in
          describe c l' (keyBytes + slen key) (valueBytes + slen value) (sizes ++ [slen value])
            (<[class := default 0 (classes !! class) + 1]> classes) (written +:+ hashed key +:+ hashed value)
      end
  end.

Definition DescribeDataset (c : BenchConfig) : DatasetManifest + error :=
  match validateDataset c with
  | Some err => inr err
  | None =>
      match describe c (seqZ 0 (Keys c)) 0 0 [] ∅ "" with
      | inr err => inr err
      | inl (keyBytes, valueBytes, sizes, classes, written) =>
          inl (mkManifest (Keys c) keyBytes valueBytes (keyBytes + valueBytes) (Quantiles Z.le 0 sizes) classes
                 (EncodeToString (sha256 written)))
      end
  end.

(** *** The SQL fixture *)
(** [strings.ReplaceAll(s, "'", "''")] *)
Fixpoint quoteSQL (s : string) : string :=
  match s with
  | EmptyString => ""
  | String c s' => if Ascii.eqb c "'" then String c (String c (quoteSQL s')) else String c (quoteSQL s')
  end.

Definition insertLine (key value : string) : string :=
  "INSERT INTO simplecache_products(key,value,version,deleted) VALUES ('" +:+ quoteSQL key +:+ "',decode('" +:+
  EncodeToString value +:+ "','hex'),1,false) ON CONFLICT(key) DO UPDATE SET value=EXCLUDED.value,version=1,deleted=false;" +:+
  String (byte_of 10) "".

(** What a writer that takes everything has received; a failing writer ends
    the loop with its error. *)
Fixpoint fixtureRows (c : BenchConfig) (l : list Z) (out : string) : string + error :=
  match l with
  | [] => inl out
  | i :: l' =>
      match productValue c i 1 with
      | inr err => inr err
      | inl payload => fixtureRows c l' (out +:+ insertLine (datasetKey c i) payload)
      end
  end.
Definition WriteFixture (c : BenchConfig) : string + error :=
  match validateDataset c with
  | Some err => inr err
  | None =>
      match fixtureRows c (seqZ 0 (Keys c)) ("SET standard_conforming_strings=on; BEGIN;" +:+ String (byte_of 10) "") with
      | inr err => inr err
      | inl out => inl (out +:+ "COMMIT;" +:+ String (byte_of 10) "")
      end
  end.
End Values.

(** ** Proofs: strings *)
#[local] Instance append_inj s : Inj (=) (=) (String.append s).
Proof. induction s as [|c s IH]; intros a b E; [done|]. apply IH. by injection E. Qed.
Lemma append_nil_r s : s +:+ "" = s.
Proof. induction s as [|c s IH]; [done|]. rewrite app_String. by rewrite IH. Qed.
Lemma append_assoc a b c : (a +:+ b) +:+ c = a +:+ (b +:+ c).
Proof. induction a as [|x a IH]; [done|]. rewrite !app_String. by rewrite IH. Qed.
Lemma slen_app a b : slen (a +:+ b) = slen a + slen b.
Proof. unfold slen. rewrite length_app_string. lia. Qed.
Lemma slen_String c s : slen (String c s) = 1 + slen s.
Proof. unfold slen. simpl. lia. Qed.
Lemma slen_empty : slen "" = 0.
Proof. done. Qed.

Lemma RepeatString_length s n : slen (RepeatString s n) = Z.of_nat n * slen s.
Proof. induction n as [|n IH]; [done|]. cbn [RepeatString]. rewrite slen_app, IH. lia. Qed.
Lemma RepeatString_bytes p s n : all_bytes p s = true -> all_bytes p (RepeatString s n) = true.
Proof. intros H. induction n as [|n IH]; [done|]. cbn [RepeatString]. by rewrite all_bytes_app, H, IH. Qed.

Lemma substring_length n s : (n <= String.length s)%nat -> String.length (String.substring 0 n s) = n.
Proof. revert n. induction s as [|c s IH]; intros [|n] H; simpl in *; [done|lia|done|]. rewrite IH by lia. done. Qed.
Lemma substring_bytes p n s : all_bytes p s = true -> all_bytes p (String.substring 0 n s) = true.
Proof.
  revert n. induction s as [|c s IH]; intros [|n]; simpl; try done. intros [Hc Hs]%andb_true_iff. by rewrite Hc, IH.
Qed.
Lemma slice_length n s : 0 <= n <= slen s -> slen (slice 0 (Z.to_nat n) s) = n.
Proof. intros H. unfold slice, slen in *. rewrite substring_length; lia. Qed.

(** ** Proofs: padding *)
Definition hex_byte (c : ascii) : bool := is_digit c || in_range 97 102 c.

Lemma lower_hex_byte z : 0 <= z < 16 -> hex_byte (lower_hex z) = true.
Proof.
  intros H. assert (z ∈ seqZ 0 16) as Hin by (apply elem_of_seqZ; lia). revert Hin. clear.
  assert (forallb (fun z => hex_byte (lower_hex z)) (seqZ 0 16) = true) as HF by (vm_compute; reflexivity).
  rewrite forallb_forall in HF. intros Hin. by apply HF, list_elem_of_In.
Qed.

Lemma EncodeToString_hex s : all_bytes hex_byte (EncodeToString s) = true /\ slen (EncodeToString s) = 2 * slen s.
Proof.
  induction s as [|c s [IH1 IH2]]; [done|]. cbn [EncodeToString]. rewrite !slen_String, IH2. cbn [all_bytes].
  pose proof (byteval_range c). rewrite !lower_hex_byte, IH1; [split; [done|lia]|apply Z.mod_pos_bound; lia|].
  split; [apply Z.div_pos; lia|apply Z.div_lt_upper_bound; lia].
Qed.

Lemma json_escape_hex c s : hex_byte c = true -> json_escape c s = String c s /\ byteval c <> 226.
Proof.
  unfold hex_byte, is_digit, in_range. intros H. assert (48 <= byteval c <= 57 \/ 97 <= byteval c <= 102) as Hb
    by (reflect_bool; lia).
  split; [|lia]. unfold json_escape. cbv zeta.
  repeat match goal with |- context [?a =? ?b] => rewrite (proj2 (Z.eqb_neq a b)) by lia end.
  rewrite (proj2 (Z.ltb_ge _ 32)) by lia. done.
Qed.

Lemma json_body_hex s : all_bytes hex_byte s = true -> json_body s = s.
Proof.
  induction s as [|c s IH]; [done|]. cbn [all_bytes]. intros [Hc Hs]%andb_true_iff. specialize (IH Hs).
  destruct (json_escape_hex c (json_body s) Hc) as [He Hne]. rewrite IH in He.
  destruct s as [|d [|e s3]]; [exact He|..].
  - change (json_body (String c (String d ""))) with (json_escape c (json_body (String d ""))). by rewrite IH.
  - change (json_body (String c (String d (String e s3)))) with
      (if (byteval c =? 226) && (byteval d =? 128) && ((byteval e =? 168) || (byteval e =? 169))
       then "\u202" +:+ String (lower_hex (byteval e mod 16)) (json_body s3)
       else json_escape c (json_body (String d (String e s3)))).
    rewrite (proj2 (Z.eqb_neq _ _) Hne). cbn [andb]. by rewrite IH.
Qed.

Lemma joined_by_snoc sep l x : slen (joined_by sep (l ++ [x])) = slen (joined_by sep (l ++ [""])) + slen x.
Proof.
  induction l as [|a l IH]; [cbn [app joined_by]; change (slen "") with 0; lia|]. cbn [app joined_by].
  destruct (l ++ [x]) as [|b r] eqn:E1; [by destruct l|]. destruct (l ++ [""]) as [|b' r'] eqn:E2; [by destruct l|].
  rewrite !slen_app, IH. lia.
Qed.

Lemma json_object_padding l pad :
  all_bytes hex_byte pad = true ->
  slen (json_object (l ++ [member "padding" (json_string pad)])) =
  slen (json_object (l ++ [member "padding" (json_string "")])) + slen pad.
Proof.
  intros H. unfold json_object. rewrite !slen_app, (joined_by_snoc _ l (member _ (json_string pad))),
    (joined_by_snoc _ l (member _ (json_string ""))).
  unfold member, json_string. rewrite !slen_app, (json_body_hex pad) by done. change (slen (json_body "")) with 0. lia.
Qed.

Lemma marshalPayload_padding key v pad :
  all_bytes hex_byte pad = true ->
  slen (marshalPayload (mkPayload key v pad)) = slen (marshalPayload (mkPayload key v "")) + slen pad.
Proof. apply (json_object_padding [_; _]). Qed.

Lemma marshalProduct_padding p pad :
  all_bytes hex_byte pad = true ->
  slen (marshalProduct (with_padding p pad)) = slen (marshalProduct (with_padding p "")) + slen pad.
Proof. intros H. unfold marshalProduct, with_padding. cbn [pd_Key pd_Version pd_Kind pd_Name pd_Price pd_Tags pd_Specs pd_Description pd_Padding].
  rewrite !(assoc_L (++)). by apply json_object_padding. Qed.

(** ** Proofs: keys *)
Lemma parse_zeros k s : parse_digits (RepeatString "0" k +:+ s) 0 = parse_digits s 0.
Proof. induction k as [|k IH]; [done|]. exact IH. Qed.

Lemma pad4_inj n m : 0 <= n < two63 -> 0 <= m < two63 -> pad4 n = pad4 m -> n = m.
Proof.
  intros Hn Hm E. apply (f_equal (fun s => parse_digits s 0)) in E. unfold pad4 in E. rewrite !parse_zeros in E.
  assert (forall n, 0 <= n < two63 -> parse_digits (FormatInt n) 0 = Some n) as Hp.
  { intros z Hz. pose proof (ParseUint_FormatUint z ltac:(unfold two63, two64 in *; lia)) as H.
    unfold FormatInt. rewrite (proj2 (Z.ltb_ge z 0)) by lia. destruct (FormatUint_cons z) as (c & r & Ec & _).
    rewrite Ec in H |- *. unfold ParseUint in H. destruct (parse_digits (String c r) 0) as [x|]; [|done].
    cbn [mbind option_bind] in H. by case_bool; simplify_eq. }
  rewrite !Hp in E by done. congruence.
Qed.

Lemma pad4_digits n : 0 <= n -> all_bytes is_digit (pad4 n) = true.
Proof.
  intros Hn. unfold pad4, FormatInt. rewrite (proj2 (Z.ltb_ge n 0)) by lia.
  rewrite all_bytes_app, RepeatString_bytes, FormatUint_digits; done.
Qed.

Lemma pad4_cons n : 0 <= n -> exists d r, pad4 n = String d r /\ is_digit d = true.
Proof.
  intros Hn. pose proof (pad4_digits n Hn) as H. destruct (pad4 n) as [|d r] eqn:E.
  - exfalso. unfold pad4, FormatInt in E. rewrite (proj2 (Z.ltb_ge n 0)) in E by lia.
    destruct (FormatUint_cons n) as (c & r & Ec & _). rewrite Ec in E. by destruct (4 - _)%nat.
  - cbn [all_bytes] in H. apply andb_true_iff in H as [H _]. by exists d, r.
Qed.

(** The digits a string starts with. *)
Fixpoint digits_of (s : string) : string :=
  match s with String c s' => if is_digit c then String c (digits_of s') else "" | EmptyString => "" end.
Lemma digits_of_app d k : all_bytes is_digit d = true -> digits_of (d +:+ RepeatString "x" k) = d.
Proof.
  induction d as [|c d IH]; [by destruct k|]. cbn [all_bytes]. intros [Hc Hd]%andb_true_iff.
  change (digits_of (String c d +:+ RepeatString "x" k)) with
    (if is_digit c then String c (digits_of (d +:+ RepeatString "x" k)) else ""). by rewrite Hc, IH.
Qed.

Lemma datasetKey_tail c i :
  (exists k, datasetKey c i = Prefix c +:+ String "-" (pad4 i +:+ RepeatString "x" k)) \/
  datasetKey c i = Prefix c +:+ "-商品:" +:+ pad4 i \/ datasetKey c i = Prefix c +:+ "-特殊 a+b/c?&%-" +:+ pad4 i.
Proof.
  assert (Key (Prefix c) i = Prefix c +:+ String "-" (pad4 i +:+ RepeatString "x" 0)) as E0.
  { unfold Key. cbn [RepeatString]. by rewrite append_nil_r. }
  unfold datasetKey. repeat case_bool; [by left; exists 0%nat|by right; left| |by right; right|by left; exists 0%nat].
  left. eexists. unfold Key. rewrite !append_assoc. reflexivity.
Qed.

(** The byte after the prefix and the dash. *)
Definition secondByte (s : string) : Z := match s with String _ (String d _) => byteval d | _ => 0 end.

Lemma second_digit i x : 0 <= i -> 48 <= secondByte (String "-" (pad4 i +:+ x)) <= 57.
Proof.
  intros Hi. destruct (pad4_cons i Hi) as (d & r & -> & Hd). unfold is_digit in Hd. reflect_bool.
  change (48 <= byteval d <= 57). lia.
Qed.
Lemma second_product x : secondByte ("-商品:" +:+ x) = 229.
Proof. reflexivity. Qed.
Lemma second_special x : secondByte ("-特殊 a+b/c?&%-" +:+ x) = 231.
Proof. reflexivity. Qed.

Lemma datasetKey_inj c i j :
  0 <= i < two63 -> 0 <= j < two63 -> datasetKey c i = datasetKey c j -> i = j.
Proof.
  intros Hi Hj E.
  destruct (datasetKey_tail c i) as [[ki Ti]|[Ti|Ti]], (datasetKey_tail c j) as [[kj Tj]|[Tj|Tj]];
    rewrite Ti, Tj in E; apply (inj (String.append (Prefix c))) in E.
  1: { injection E as E. apply (f_equal digits_of) in E. rewrite !digits_of_app in E by (apply pad4_digits; lia).
       by apply pad4_inj. }
  4: { apply (inj (String.append "-商品:")) in E. by apply pad4_inj. }
  7: { apply (inj (String.append "-特殊 a+b/c?&%-")) in E. by apply pad4_inj. }
  all: exfalso; apply (f_equal secondByte) in E; rewrite ?second_product, ?second_special in E; try done.
  1, 2: pose proof (second_digit i (RepeatString "x" ki) ltac:(lia)); lia.
  all: pose proof (second_digit j (RepeatString "x" kj) ltac:(lia)); lia.
Qed.

(** The key of an expected miss. *)
Definition missingKey (c : BenchConfig) (index : Z) : string := Prefix c +:+ "-missing-" +:+ FormatInt index.

Lemma missingKey_absent c i k : 0 <= i -> datasetKey c i <> missingKey c k.
Proof.
  intros Hi E. destruct (datasetKey_tail c i) as [[ki Ti]|[Ti|Ti]];
    rewrite Ti in E; unfold missingKey in E; apply (inj (String.append (Prefix c))), (f_equal secondByte) in E.
  - pose proof (second_digit i (RepeatString "x" ki) Hi). change (secondByte ("-missing-" +:+ FormatInt k)) with 109 in E. lia.
  - done.
  - done.
Qed.

Lemma firstError_none l f : firstError l f = None <-> forall i, i ∈ l -> f i = None.
Proof.
  induction l as [|x l IH]; cbn [firstError]; [set_solver|]. split.
  - destruct (f x) eqn:E; [done|]. intros H i [->|Hi]%elem_of_cons; [done|by apply IH].
  - intros H. rewrite (H x) by (by left). apply IH. intros i Hi. apply H. by right.
Qed.

(** ** Proofs: values *)
Section ValueFacts.
Variable sha256 : string -> string.
Hypothesis sha256_size : forall s, slen (sha256 s) = 32.
Notation productValue := (productValue sha256).
Notation sizeClass := (sizeClass sha256).
Notation validateDataset := (validateDataset sha256).

Lemma growPadding_ok fuel key v i need padding :
  need - slen padding <= Z.of_nat fuel -> all_bytes hex_byte padding = true ->
  need <= slen (growPadding sha256 fuel key v i need padding) /\
  all_bytes hex_byte (growPadding sha256 fuel key v i need padding) = true.
Proof.
  revert i padding. induction fuel as [|fuel IH]; intros i padding Hf Hp; cbn [growPadding].
  - rewrite (proj2 (Z.ltb_ge _ _)) by lia. split; [lia|done].
  - destruct (slen padding <? need) eqn:E; reflect_bool; [|split; [lia|done]].
    destruct (EncodeToString_hex (sha256 (key +:+ ":" +:+ FormatInt v +:+ ":" +:+ FormatInt i))) as [Hh HL].
    rewrite sha256_size in HL. apply IH; [rewrite slen_app; lia|]. by rewrite all_bytes_app, Hp, Hh.
Qed.

Lemma Value_size key v size :
  slen (Value sha256 key v size) = Z.max size (slen (marshalPayload (mkPayload key v ""))).
Proof.
  unfold Value. set (base := marshalPayload (mkPayload key v "")). cbv zeta.
  destruct (slen base <? size) eqn:E; reflect_bool; [|fold base; lia].
  destruct (growPadding_ok (Z.to_nat (size - slen base)) key v 0 (size - slen base) "") as [HL HB]; [|done|].
  { change (slen "") with 0. lia. }
  rewrite marshalPayload_padding; [|by apply substring_bytes]. fold base. rewrite slice_length by lia. lia.
Qed.

(** The document without padding. *)
Definition emptyValue (c : BenchConfig) (index version : Z) : string :=
  if negb (String.eqb (DatasetProfile c) "mixed") then marshalPayload (mkPayload (datasetKey c index) version "")
  else marshalProduct (productDoc (datasetKey c index) version index (sizeClass c index).2).

Lemma productValue_cases c i v :
  let size := (sizeClass c i).1 in
  (slen (emptyValue c i v) <= size /\ exists s, productValue c i v = inl s /\ slen s = size) \/
  (size < slen (emptyValue c i v) /\ productValue c i v = inr (NewError "value size cannot hold encoded content")).
Proof.
  cbv zeta. unfold Dataset.productValue, emptyValue. destruct (sizeClass c i) as [size class]. cbn [fst snd].
  destruct (negb _) eqn:Em.
  - rewrite Value_size. set (base := marshalPayload _). destruct (Z.max size (slen base) =? size) eqn:E; cbn [negb]; reflect_bool.
    + left. split; [lia|]. eexists. split; [done|]. rewrite Value_size. fold base. lia.
    + right. split; [lia|done].
  - set (p := productDoc _ v i class). destruct (size - slen (marshalProduct p) <? 0) eqn:E; reflect_bool; [right; split; [lia|done]|].
    left. split; [lia|]. eexists. split; [done|].
    set (pad := EncodeToString (sha256 _)). set (needed := size - slen (marshalProduct p)) in *.
    destruct (EncodeToString_hex (sha256 (FormatInt (Seed c) +:+ ":" +:+ datasetKey c i +:+ ":" +:+ FormatInt v))) as [Hh HL].
    fold pad in Hh, HL. rewrite sha256_size in HL. change (2 * 32) with 64 in HL.
    assert (0 <= needed) as Hpos by (subst needed; lia).
    rewrite marshalProduct_padding by (by apply substring_bytes, RepeatString_bytes).
    rewrite slice_length; [|rewrite RepeatString_length, HL].
    + change (with_padding p "") with p. lia.
    + pose proof (Z.div_mod (needed + 64 - 1) 64 ltac:(lia)). pose proof (Z.mod_pos_bound (needed + 64 - 1) 64 ltac:(lia)).
      assert (0 <= (needed + 64 - 1) / 64) by (apply Z.div_pos; lia). lia.
Qed.

Lemma sizeClass_bounds c i :
  128 <= ValueBytes c <= 1048576 -> 128 <= (sizeClass c i).1 <= maxValueSize c /\ maxValueSize c <= MaxValueBytes.
Proof.
  intros Hv. unfold Dataset.sizeClass, maxValueSize, MaxValueBytes. destruct (String.eqb _ "mixed"); cbn [negb]; [|simpl; lia].
  set (r := firstByte _ mod 3). assert (r = 0 \/ r = 1 \/ r = 2) as Hr by (pose proof (Z.mod_pos_bound (firstByte (sha256 (FormatInt (Seed c) +:+ ":" +:+ FormatInt i))) 3 ltac:(lia)); subst r; lia).
  clearbody r. repeat case_bool; cbn [fst]; destruct Hr as [-> | [-> | ->]]; (split; [split|]); apply Z.leb_le; reflexivity.
Qed.

(** A dataset that passes validation is one the cache can hold: every key
    is accepted by the cache, no two indices share a key and none collides
    with the key of an expected miss, every value is exactly as long as its
    size class says, within the reader's and the cache's bound, and the whole
    is at most 512 MiB. A value is refused exactly when its fields alone do
    not fit. *)
Theorem validateDataset_sound c :
  validateDataset c = None ->
  (forall i, 0 <= i < Keys c ->
     ValidateKey (datasetKey c i) = None /\
     (exists s, productValue c i 1 = inl s /\ slen s = (sizeClass c i).1) /\
     (sizeClass c i).1 <= maxValueSize c <= MaxValueBytes /\
     (forall j, 0 <= j < Keys c -> datasetKey c i = datasetKey c j -> i = j) /\
     (forall k, datasetKey c i <> missingKey c k) /\
     (forall v e, productValue c i v = inr e <-> (sizeClass c i).1 < slen (emptyValue c i v) /\
        e = NewError "value size cannot hold encoded content")) /\
  Zsum (fun i => slen (datasetKey c i) + (sizeClass c i).1) (seqZ 0 (Keys c)) <= maxDatasetBytes.
Proof.
  unfold Dataset.validateDataset. case_bool; [done|]. case_bool; [done|]. case_bool; [done|].
  destruct (firstError _ _) eqn:E1; [done|]. rewrite firstError_none in E1. case_bool; [done|].
  intros E2. rewrite firstError_none in E2. reflect_bool. split; [|lia]. intros i Hi.
  assert (i ∈ seqZ 0 (Keys c)) as Hin by (apply elem_of_seqZ; lia). specialize (E1 i Hin). specialize (E2 i Hin).
  destruct (sizeClass_bounds c i) as [Hsz Hmax]; [lia|]. split_and!; try lia.
  - by destruct (ValidateKey _).
  - destruct (productValue_cases c i 1) as [[_ Hp]|[_ Hp]]; [exact Hp|]. by rewrite Hp in E2.
  - intros j Hj. apply datasetKey_inj; unfold two63; lia.
  - intros k. apply missingKey_absent. lia.
  - intros v e. destruct (productValue_cases c i v) as [(Hle & s & -> & _)|[Hlt ->]].
    + split; [done|]. intros [? _]. lia.
    + split; [intros [= <-]; done|]. by intros [_ ->].
Qed.
End ValueFacts.

(** ** A concrete dataset *)
Definition sample_digest (_ : string) : string := RepeatString "z" 32.
Definition mixed_dataset : BenchConfig := mkBench 0 0 "mixed" "mixed" "" 0 [] "" "" "pre" "" 10 256 1 1 0 5 0 0.

Lemma validateDataset_sound_witness :
  validateDataset sample_digest mixed_dataset = None /\
  (datasetKey mixed_dataset 1 = datasetKey mixed_dataset 2 -> 1 = 2) /\
  exists s, productValue sample_digest mixed_dataset 3 1 = inl s /\ slen s = 2048.
Proof.
  assert (validateDataset sample_digest mixed_dataset = None) as Hv by (vm_compute; reflexivity).
  destruct (validateDataset_sound sample_digest (fun _ => eq_refl) mixed_dataset Hv) as [H _].
  split; [exact Hv|]. split.
  - destruct (H 1) as (_ & _ & _ & Hinj & _); [split; reflexivity || discriminate|]. apply Hinj. split; reflexivity || discriminate.
  - destruct (H 3) as (_ & (s & E & L) & _); [split; reflexivity || discriminate|]. exists s. split; [exact E|].
    rewrite L. vm_compute. reflexivity.
Defined.
