(* ===== verification/LoadClient.v ===== *)
(** * The load generator's client ([client.go], [records.go] of
      [internal/bench/gateway])

    One request of a workload and what its record says of the answer. The
    network is a parameter, as are the two readings of [json.Unmarshal]; times
    are kept as durations, which the records hold in milliseconds. *)
From S2P Require Import Prelude GoStrings Errors LRU CacheStore Bloom Admission Group Read Directory Protocol Postgres Api NetAddr Measurement Dataset.

Record BRecord := mkRec {
  r_Dispatched : bool;
  r_DispatchLag : Duration;
  r_Stage : string;
  r_Cohort : string;
  r_Scheduled : Duration;
  r_Queue : Duration;
  r_Total : Duration;
  r_DropReason : string;
  r_Index : Z;
  r_Method : string;
  r_KeyIndex : Z;
  r_Attempted : bool;
  r_Status : Z;
  r_Elapsed : Duration;
  r_Node : string;
  r_Version : Z;
  r_CommittedAtStart : Z;
  r_Error : string;
  r_Incorrect : bool;
  r_StaleAtStart : bool;
}.

(** What a response to a write says. *)
Record WriteAck := mkAck {
  wa_Committed : option bool;
  wa_Version : Z;
  wa_Complete : bool;
  wa_InvalidationVersion : Z;
  wa_Results : list (string * string);
}.

Record runner := mkRunner { rn_c : BenchConfig; rn_token : string; rn_expected : option (list string) }.

(** What [client.Do] and the reading of the body make of a request: the
    transport fails, or a response whose body is read completely or not. *)
Inductive answer := TransportFailed | Responded (response : Response) (readErr : bool).

Section Client.
Variable sha256 : string -> string.
(** [json.Unmarshal] into the key and version of a product, [None] being an
    error, and into the fields of a write's response with whether it failed. *)
Variable decodeValue : string -> option (string * Z).
Variable decodeWrite : string -> WriteAck * bool.

Definition clientETag (v : Z) : string := quote +:+ "v" +:+ FormatInt v +:+ quote.

(** The request for a key; the query follows the endpoint, which has none. *)
Definition buildRequest (r : runner) (method key : string) (expected : Z) (body : string) : Request :=
  let hdr : Header :=
    if String.eqb method "PUT" then
      HeaderSet (HeaderSet (HeaderSet ∅ "Authorization" ("Bearer " +:+ rn_token r)) "If-Match" (clientETag expected))
        "Content-Type" "application/json"
    else ∅ in
  mkRequest method "/api" ("key=" +:+ plus_to_percent20 (QueryEscape key)) hdr (String.list_byte_of_string body).

(** The record of an attempted request. *)
Definition outcome (index keyIndex : Z) (method : string) (min : Z) (elapsed : Duration) (status : Z) (node : string)
    (version : Z) (err : string) (incorrect stale : bool) : BRecord :=
  mkRec false 0 "" "" 0 0 0 "" index method keyIndex true status elapsed node version min err incorrect stale.

(** The loop over the acknowledgements of a write: whether one is not "ok" or
    repeats a node. *)
Fixpoint badAcks (results : list (string * string)) (seen : list string) : bool :=
  match results with
  | [] => false
  | (node, status) :: rest =>
      negb (String.eqb status "ok") || bool_decide (node ∈ seen) || badAcks rest (node :: seen)
  end.

Definition badWrite (expected : Z) (result : WriteAck) (failed : bool) : bool :=
  if failed || negb (match wa_Committed result with Some b => b | None => false end) ||
     negb (wa_Version result =? expected + 1) || negb (wa_InvalidationVersion result =? wa_Version result) ||
     negb (wa_Complete result) || negb (length (wa_Results result) =? 3)%nat
  then true else badAcks (wa_Results result) [].

(** [None]: an index beyond the prepared values. *)
Definition wantedValue (r : runner) (keyIndex version : Z) : option (string + error) :=
  match rn_expected r with
  | Some values =>
      if version =? 1 then
        if keyIndex <? 0 then None else v ← values !! Z.to_nat keyIndex; Some (inl v)
      else Some (productValue sha256 (rn_c r) keyIndex version)
  | None => Some (productValue sha256 (rn_c r) keyIndex version)
  end.

Definition requestExpected (r : runner) (badURL : bool) (Do : Request -> answer) (elapsed : Duration)
    (index keyIndex : Z) (method : string) (expected min max : Z) (missing : bool) : option BRecord :=
  let c := rn_c r in
  let key := if missing then missingKey c keyIndex else datasetKey c keyIndex in
  let out := outcome index keyIndex method min in
  match (if String.eqb method "PUT" then productValue sha256 c keyIndex (expected + 1) else inl "") with
  | inr err => Some (out 0 0 "" 0 (Error err) false false)
  | inl body =>
      if badURL then Some (out 0 0 "" 0 "request construction failed" false false)
      else match Do (buildRequest r method key expected body) with
      | TransportFailed => Some (out elapsed 0 "" 0 "transport or deadline failure" false false)
      | Responded response readErr =>
          let status := StatusCode response in
          let node := HeaderGet (RespHeader response) "X-SimpleCache-Node" in
          let etag := HeaderGet (RespHeader response) "ETag" in
          let data := slice 0 (Z.to_nat (maxValueSize c + 4097)) (RespBody response) in
          let out := out elapsed status node in
          if readErr then Some (out 0 "response read failed" false false)
          else if missing && (status =? 404) then Some (out 0 "" (String.eqb node "" || negb (String.eqb etag "")) false)
          else if missing && (status =? 200) then Some (out 0 "" true false)
          else if negb (status =? 200) then Some (out 0 "non-200 response" (status =? 404) false)
          else if String.eqb method "PUT" then
            let '(result, failed) := decodeWrite data in
            Some (out (wa_Version result) "" (badWrite expected result failed) false)
          else match decodeValue data with
          | None => Some (out 0 "" true false)
          | Some (vkey, version) =>
              if negb (String.eqb vkey key) || (version <? 1) then Some (out 0 "" true false)
              else
                let stale := version <? min in
                let incorrect := String.eqb node "" || negb (String.eqb etag (clientETag version)) || (max <? version) || stale in
                wanted ← wantedValue r keyIndex version;
                match wanted with
                | inr err => Some (out version (Error err) incorrect stale)
                | inl value => Some (out version "" (incorrect || negb (String.eqb data value)) stale)
                end
          end
      end
  end.
End Client.

(** ** Proofs *)
Section Facts.
Variable sha256 : string -> string.
Hypothesis sha256_size : forall s, slen (sha256 s) = 32.
Variable decodeValue : string -> option (string * Z).
Variable decodeWrite : string -> WriteAck * bool.
Notation requestExpected := (requestExpected sha256 decodeValue decodeWrite).
Notation productValue := (productValue sha256).
Notation validateDataset := (validateDataset sha256).

(** Every record is of the request it was made for. *)
Lemma requestExpected_attempted r badURL Do elapsed index keyIndex method expected min max missing rec :
  requestExpected r badURL Do elapsed index keyIndex method expected min max missing = Some rec ->
  r_Attempted rec = true /\ r_Index rec = index /\ r_KeyIndex rec = keyIndex.
Proof.
  unfold LoadClient.requestExpected. cbv zeta. intros H.
  repeat match type of H with
  | Some _ = Some _ => injection H as <-; done
  | context [match ?x with _ => _ end] => destruct x
  | _ => apply bind_Some in H as (? & _ & H)
  end.
Qed.

(** The prepared values are the first versions. *)
Definition runner_ok (r : runner) : Prop :=
  match rn_expected r with
  | None => True
  | Some values => forall i, 0 <= i < Keys (rn_c r) ->
      exists s, values !! Z.to_nat i = Some s /\ productValue (rn_c r) i 1 = inl s
  end.

Lemma wantedValue_ok r i v :
  runner_ok r -> 0 <= i < Keys (rn_c r) -> wantedValue sha256 r i v = Some (productValue (rn_c r) i v).
Proof.
  intros Hr Hi. unfold wantedValue, runner_ok in *. destruct (rn_expected r) as [values|]; [|done].
  destruct (Z.eqb_spec v 1) as [->|Hv]; [|done]. rewrite (proj2 (Z.ltb_ge i 0)) by lia.
  destruct (Hr i Hi) as (s & -> & ->). done.
Qed.

Lemma dataset_value_bound c i v s :
  validateDataset c = None -> 0 <= i < Keys c -> productValue c i v = inl s -> slen s <= maxValueSize c.
Proof.
  intros Hc Hi Hs. destruct (productValue_cases sha256 sha256_size c i v) as [(_ & s' & E & HL)|[_ E]]; [|congruence].
  assert (s' = s) as -> by congruence. rewrite HL. unfold Dataset.validateDataset in Hc. case_bool; [done|].
  apply sizeClass_bounds. reflect_bool. lia.
Qed.

Lemma dataset_keys_valid c i : validateDataset c = None -> 0 <= i < Keys c -> ValidateKey (datasetKey c i) = None.
Proof.
  unfold Dataset.validateDataset. intros H Hi. revert H. case_bool; [done|]. case_bool; [done|]. case_bool; [done|].
  destruct (firstError _ _) eqn:E; [done|]. intros _. rewrite firstError_none in E.
  assert (i ∈ seqZ 0 (Keys c)) as Hin by (apply elem_of_seqZ; lia). specialize (E i Hin). by destruct (ValidateKey _).
Qed.

Lemma substring_short n s : (String.length s <= n)%nat -> String.substring 0 n s = s.
Proof. revert n. induction s as [|c s IH]; intros [|n] H; simpl in *; try done; [lia|]. f_equal. apply IH. lia. Qed.

(** The limited read loses nothing of a body that is a value. *)
Lemma limited_body c body s :
  slen s <= maxValueSize c -> slice 0 (Z.to_nat (maxValueSize c + 4097)) body = s <-> body = s.
Proof.
  intros Hs. unfold slice. set (n := (Z.to_nat (maxValueSize c + 4097) - 0)%nat).
  assert (String.length s < n)%nat as Hn by (unfold slen in Hs; lia).
  split; [|intros ->; by apply substring_short; lia]. intros E.
  destruct (Nat.le_gt_cases (String.length body) n) as [Hb|Hb]; [by rewrite substring_short in E|].
  apply (f_equal String.length) in E. rewrite substring_length in E by lia. lia.
Qed.

(** ** Against a node of the cache *)
Context {C : Type} `{!Store C} {St : Type} `{!MutableSource St}.
Variables (g : Group C) (store : option St) (d : option Directory) (token nodeID : string) (slots : chan).
Variables (re : requestEnv) (we : writeEnv) (se : sendEnv) (metrics ready : bool).
Variable get : string -> Reply.

(** A network that delivers a request to the node and its answer back. *)
Definition nodeDo (req : Request) : answer :=
  match apiRoute g store d token nodeID slots metrics ready req get re we se with
  | Some (_, _, Text resp, _) => Responded resp false
  | _ => TransportFailed
  end.

Definition named (resp : Response) : Response :=
  mkResponse (StatusCode resp) (HeaderSet (RespHeader resp) "X-SimpleCache-Node" nodeID) (RespBody resp).

Lemma nodeDo_get r key expected :
  nodeID <> "" -> ready = true -> ValidateKey key = None ->
  nodeDo (buildRequest r "GET" key expected "") =
    match (readReply (get key)).1 with Text resp => Responded (named resp) false | _ => TransportFailed end.
Proof.
  intros Hn Hr Hk. unfold nodeDo, apiRoute. cbn [buildRequest Method]. rewrite !andb_false_r. cbn [orb negb andb].
  rewrite Hr. cbn [negb]. rewrite (requestKey_wire _ key) by done.
  rewrite (proj2 (String.eqb_neq _ _) Hn). by destruct (readReply (get key)) as [[]].
Qed.

Lemma named_node resp : HeaderGet (RespHeader (named resp)) "X-SimpleCache-Node" = nodeID.
Proof. unfold HeaderGet, Values, named, HeaderSet. simpl. by rewrite lookup_insert_eq. Qed.
Lemma named_etag resp : HeaderGet (RespHeader (named resp)) "ETag" = HeaderGet (RespHeader resp) "ETag".
Proof. unfold HeaderGet, Values, named, HeaderSet. simpl. by rewrite lookup_insert_ne. Qed.

Lemma readReply_error v e :
  exists resp, (readReply (v, Some e)).1 = Text resp /\ StatusCode resp = Status e /\
    StatusCode resp <> 200 /\ HeaderGet (RespHeader resp) "ETag" = "".
Proof.
  eexists. split; [reflexivity|]. split; [reflexivity|]. split; [unfold Status; simpl; by repeat case_bool|].
  unfold http_Error, HeaderGet, Values, HeaderSet. simpl. rewrite !lookup_insert_ne by done.
  rewrite lookup_delete_ne by done. case_bool; [by rewrite lookup_insert_ne|]. by rewrite lookup_empty.
Qed.

Lemma readReply_ok v :
  exists resp, (readReply (v, None)).1 = Text resp /\ StatusCode resp = 200 /\ RespBody resp = ViewString v /\
    HeaderGet (RespHeader resp) "ETag" = if 0 <? Version v then clientETag (Version v) else "".
Proof.
  eexists. split; [reflexivity|]. split; [reflexivity|]. split; [reflexivity|].
  unfold HeaderGet, Values, HeaderSet. simpl. case_bool; [by rewrite lookup_insert_eq|].
  by rewrite lookup_insert_ne, lookup_empty.
Qed.

Lemma clientETag_inj v w : - two63 <= v < two63 -> - two63 <= w < two63 -> clientETag v = clientETag w -> v = w.
Proof.
  intros Hv Hw E. apply FormatInt_inj; [done|done|]. unfold clientETag in E.
  apply (inj (String.append quote)), (inj (String.append "v")) in E.
  apply (f_equal (fun s => cut "034" s)) in E.
  assert (forall n, contains_byte "034" (FormatInt n) = false) as Hq.
  { intros n. unfold FormatInt. pose proof (FormatUint_digits n). pose proof (FormatUint_digits (- n)).
    case_bool; [cbn [contains_byte]; destruct (ascii_dec _ _); [done|]|]; by apply (contains_byte_false is_digit). }
  unfold quote in E. rewrite !cut_app in E by apply Hq. congruence.
Qed.

Definition success (rec : BRecord) : Prop := r_Error rec = "" /\ r_Incorrect rec = false.

(** The record of an answered read that carries the status 200. *)
Lemma verdict_200 r i min max elapsed index resp :
  validateDataset (rn_c r) = None -> runner_ok r -> 0 <= i < Keys (rn_c r) ->
  (forall v s, min <= v <= max -> productValue (rn_c r) i v = inl s -> decodeValue s = Some (datasetKey (rn_c r) i, v)) ->
  StatusCode resp = 200 -> 1 <= min ->
  exists rec, requestExpected r false (fun _ => Responded resp false) elapsed index i "GET" 0 min max false = Some rec /\
    r_Attempted rec = true /\ r_Index rec = index /\
    (success rec <-> exists v, min <= v <= max /\ HeaderGet (RespHeader resp) "X-SimpleCache-Node" <> "" /\
       HeaderGet (RespHeader resp) "ETag" = clientETag v /\ productValue (rn_c r) i v = inl (RespBody resp) /\
       decodeValue (RespBody resp) = Some (datasetKey (rn_c r) i, v)).
Proof.
  intros Hc Hr Hi Hdec H200 Hmin. unfold LoadClient.requestExpected. cbv zeta. rewrite H200.
  change (String.eqb "GET" "PUT") with false. cbv iota. cbn [andb negb Z.eqb Pos.eqb].
  set (data := slice 0 _ _).
  assert (forall v, min <= v <= max -> productValue (rn_c r) i v = inl (RespBody resp) -> data = RespBody resp) as Hfull.
  { intros v Hv Hp. apply limited_body; [|done]. by eapply dataset_value_bound. }
  assert (forall v, min <= v <= max -> productValue (rn_c r) i v = inl data -> data = RespBody resp) as Hback.
  { intros v Hv Hp. symmetry. apply (limited_body (rn_c r)); [|done]. by eapply dataset_value_bound. }
  destruct (decodeValue data) as [[vkey v]|] eqn:Ed.
  2: { eexists. split; [reflexivity|]. split; [done|]. split; [done|]. split; [by intros [_ ?]|].
       intros (v & Hv & _ & _ & Hp & Hd). rewrite (Hfull v) in Ed by done. congruence. }
  destruct (negb (String.eqb vkey (datasetKey (rn_c r) i)) || (v <? 1)) eqn:Ek.
  { eexists. split; [reflexivity|]. split; [done|]. split; [done|]. split; [by intros [_ ?]|].
    intros (v' & Hv & _ & _ & Hp & Hd). rewrite (Hfull v'), Hd in Ed by done. injection Ed as <- <-.
    rewrite String.eqb_refl in Ek. cbn [negb orb] in Ek. reflect_bool. lia. }
  apply orb_false_iff in Ek as [Ek _]. apply negb_false_iff, String.eqb_eq in Ek as ->.
  rewrite wantedValue_ok by done. cbn [mbind option_bind].
  destruct (productValue (rn_c r) i v) as [value|err] eqn:Ep.
  - eexists. split; [reflexivity|]. split; [done|]. split; [done|]. unfold success. cbn [outcome r_Error r_Incorrect]. split.
    + intros [_ Hinc]. apply orb_false_iff in Hinc as [Hinc Heq]. apply orb_false_iff in Hinc as [Hinc Hst].
      apply orb_false_iff in Hinc as [Hinc Hmax]. apply orb_false_iff in Hinc as [Hnode Hetag].
      apply String.eqb_neq in Hnode. apply negb_false_iff, String.eqb_eq in Hetag. apply negb_false_iff, String.eqb_eq in Heq.
      assert (min <= v <= max) as Hv by (reflect_bool; lia).
      rewrite <- Heq in Ep. pose proof (Hback v Hv Ep) as HB. rewrite <- HB. exists v. split_and!; (done || lia).
    + intros (v' & Hv & Hnode & Hetag & Hp & Hd). rewrite (Hfull v'), Hd in Ed by done. injection Ed as <-.
      split; [done|]. rewrite Hp in Ep. injection Ep as <-. rewrite (Hfull v') by done.
      rewrite Hetag, !String.eqb_refl, (proj2 (String.eqb_neq _ _) Hnode), (proj2 (Z.ltb_ge _ _)), (proj2 (Z.ltb_ge _ _)) by lia. done.
  - eexists. split; [reflexivity|]. split; [done|]. split; [done|]. unfold success. cbn [outcome r_Error r_Incorrect]. split.
    + intros [He _]. destruct (productValue_cases sha256 sha256_size (rn_c r) i v) as [(_ & s' & E & _)|[_ E]]; [congruence|].
      assert (err = NewError "value size cannot hold encoded content") as -> by congruence. done.
    + intros (v' & Hv & _ & _ & Hp & Hd). rewrite (Hfull v'), Hd in Ed by done. injection Ed as <-. congruence.
Qed.

Lemma request_answer r Do elapsed index i min max missing :
  requestExpected r false Do elapsed index i "GET" 0 min max missing =
  requestExpected r false (fun _ => Do (buildRequest r "GET"
     (if missing then missingKey (rn_c r) i else datasetKey (rn_c r) i) 0 "")) elapsed index i "GET" 0 min max missing.
Proof. reflexivity. Qed.

(** An answer other than 200 never counts as a success of an expected hit. *)
Lemma verdict_other r i min max elapsed index resp :
  StatusCode resp <> 200 ->
  exists rec, requestExpected r false (fun _ => Responded resp false) elapsed index i "GET" 0 min max false = Some rec /\
    r_Attempted rec = true /\ r_Index rec = index /\ ~ success rec.
Proof.
  intros Hs. unfold LoadClient.requestExpected. cbv zeta. rewrite (proj2 (Z.eqb_neq _ 200) Hs).
  change (String.eqb "GET" "PUT") with false. cbv iota. cbn [andb negb].
  eexists. split; [reflexivity|]. split; [done|]. split; [done|]. by intros [? _].
Qed.

Lemma verdict_missing r i min max elapsed index resp :
  exists rec, requestExpected r false (fun _ => Responded resp false) elapsed index i "GET" 0 min max true = Some rec /\
    r_Attempted rec = true /\ r_Index rec = index /\
    (success rec <-> StatusCode resp = 404 /\ HeaderGet (RespHeader resp) "X-SimpleCache-Node" <> "" /\
       HeaderGet (RespHeader resp) "ETag" = "").
Proof.
  unfold LoadClient.requestExpected. cbv zeta. change (String.eqb "GET" "PUT") with false. cbv iota. cbn [andb].
  destruct (Z.eqb_spec (StatusCode resp) 404) as [H|H]; [|destruct (Z.eqb_spec (StatusCode resp) 200) as [H2|H2]]; cbn [negb];
    (eexists; split; [reflexivity|]; split; [done|]; split; [done|]); unfold success; cbn [outcome r_Error r_Incorrect].
  - rewrite orb_false_iff, negb_false_iff, String.eqb_neq, String.eqb_eq. split; [by intros [_ [? ?]]|by intros (_ & ? & ?)].
  - split; [by intros [_ ?]|by intros [? _]].
  - split; [by intros [? _]|by intros [? _]].
Qed.

(** C13: the load generator tells the truth about a node: over the API of a
    running node, a read of a dataset key is recorded as a success exactly
    when the cache returned the product's exact value at a version within the
    accepted window (so neither a stale, a foreign nor a truncated value can
    pass, and no correct answer is misreported), and a read of a key outside
    the dataset exactly when the cache answered "not found"; every request
    leaves one attempted record. *)
Theorem generator_verdict r index i min max elapsed :
  validateDataset (rn_c r) = None -> runner_ok r -> 0 <= i < Keys (rn_c r) -> 1 <= min ->
  nodeID <> "" -> ready = true -> ValidateKey (missingKey (rn_c r) i) = None ->
  (forall v s, min <= v <= max -> productValue (rn_c r) i v = inl s -> decodeValue s = Some (datasetKey (rn_c r) i, v)) ->
  (forall s k v, decodeValue s = Some (k, v) -> - two63 <= v < two63) ->
  (forall key view, get key = (view, None) -> - two63 <= version view < two63) ->
  (exists rec, requestExpected r false nodeDo elapsed index i "GET" 0 min max false = Some rec /\
     r_Attempted rec = true /\ r_Index rec = index /\
     (success rec <-> exists view, get (datasetKey (rn_c r) i) = (view, None) /\ min <= version view <= max /\
        productValue (rn_c r) i (version view) = inl (ViewString view))) /\
  (exists rec, requestExpected r false nodeDo elapsed index i "GET" 0 min max true = Some rec /\
     r_Attempted rec = true /\ r_Index rec = index /\
     (success rec <-> exists view e, get (missingKey (rn_c r) i) = (view, Some e) /\ Is e ErrNotFound = true)).
Proof.
  intros Hc Hr Hi Hmin Hn Hrd Hmk Hdec Hdr Hgr. split; rewrite request_answer; cbv iota.
  - assert (ValidateKey (datasetKey (rn_c r) i) = None) as Hk by (by apply dataset_keys_valid).
    rewrite nodeDo_get by done. destruct (get (datasetKey (rn_c r) i)) as [view [e|]] eqn:Eg.
    + destruct (readReply_error view e) as (resp & -> & _ & Hs & _).
      destruct (verdict_other r i min max elapsed index (named resp) Hs) as (rec & E & Ha & Hx & Hf).
      exists rec. split; [exact E|]. split; [done|]. split; [done|]. split; [done|]. by intros (v & Hv & _).
    + destruct (readReply_ok view) as (resp & -> & Hs & Hb & He).
      destruct (verdict_200 r i min max elapsed index (named resp) Hc Hr Hi Hdec Hs Hmin) as (rec & E & Ha & Hx & Hf).
      exists rec. split; [exact E|]. split; [done|]. split; [done|]. rewrite Hf, named_node, named_etag, He. simpl RespBody. rewrite Hb. split.
      * intros (v & Hv & _ & Het & Hp & Hd). exists view. split; [done|].
        destruct (0 <? Version view) eqn:Ev; [|discriminate Het].
        apply clientETag_inj in Het; [|by eapply Hgr|by eapply Hdr]. unfold Version in Het. subst v. done.
      * intros (view' & [= <-] & Hv & Hp). exists (version view). split; [done|]. split; [done|].
        unfold Version. rewrite (proj2 (Z.ltb_lt _ _)) by lia. split; [done|]. split; [done|]. by apply Hdec.
  - rewrite nodeDo_get by done. destruct (get (missingKey (rn_c r) i)) as [view [e|]] eqn:Eg.
    + destruct (readReply_error view e) as (resp & -> & Hst & _ & Het).
      destruct (verdict_missing r i min max elapsed index (named resp)) as (rec & E & Ha & Hx & Hf).
      exists rec. split; [exact E|]. split; [done|]. split; [done|]. rewrite Hf, named_node, named_etag, Het. simpl StatusCode. rewrite Hst.
      unfold Status, StatusNotFound, StatusBadRequest, StatusGatewayTimeout, StatusServiceUnavailable. split.
      * intros (H & _). exists view, e. split; [done|]. destruct (Is e ErrNotFound); [done|]. by repeat case_bool.
      * intros (view' & e' & [= <- <-] & ->). done.
    + destruct (readReply_ok view) as (resp & -> & Hs & _ & _).
      destruct (verdict_missing r i min max elapsed index (named resp)) as (rec & E & Ha & Hx & Hf).
      exists rec. split; [exact E|]. split; [done|]. split; [done|]. rewrite Hf. simpl StatusCode. rewrite Hs. split.
      * by intros (? & _).
      * by intros (view' & e & ? & _).
Qed.

End Facts.

(** ** A concrete measurement *)
Definition one_product : BenchConfig := mkBench 0 0 "" "" "hit-miss" 0 [] "http://gw" "gw" "pre" "arrival" 1 128 1 1 0 5 0 0.
Definition sample_runner : runner := mkRunner one_product "" None.
Definition sample_value : string := match productValue sample_digest one_product 0 1 with inl s => s | inr _ => "" end.
Definition sample_decode (s : string) : option (string * Z) :=
  if String.eqb s sample_value then Some (datasetKey one_product 0, 1) else None.
Definition sample_decodeWrite (_ : string) : WriteAck * bool := (mkAck None 0 false 0 [], true).
Definition sample_get (key : string) : Reply :=
  if String.eqb key (datasetKey one_product 0) then (mkView (String.list_byte_of_string sample_value) 0 1, None)
  else (mkView [] 0 0, Some (notFoundKey key)).
Definition sample_request (missing : bool) : option BRecord :=
  requestExpected sample_digest sample_decode sample_decodeWrite sample_runner false
    (nodeDo sample_group (None : option DB) None "" "node-0" (make_chan 1) (mkRequestEnv None false)
       (mkWriteEnv Answered None 0) (mkSendEnv 0 0 (fun _ => None) []) false true sample_get)
    5 0 0 "GET" 0 1 1 missing.

Lemma generator_verdict_witness :
  (exists rec, sample_request false = Some rec /\ success rec) /\ (exists rec, sample_request true = Some rec /\ success rec).
Proof.
  destruct (generator_verdict sample_digest (fun _ => eq_refl) sample_decode sample_decodeWrite sample_group (None : option DB)
    None "" "node-0" (make_chan 1) (mkRequestEnv None false) (mkWriteEnv Answered None 0)
    (mkSendEnv 0 0 (fun _ => None) []) false true sample_get sample_runner 0 0 1 1 5) as [(rec & E & _ & _ & H) (rec' & E' & _ & _ & H')].
  - vm_compute. reflexivity.
  - exact I.
  - split; [discriminate|reflexivity].
  - discriminate.
  - discriminate.
  - reflexivity.
  - vm_compute. reflexivity.
  - intros v s Hv Hs. assert (v = 1) as -> by lia.
    assert (s = sample_value) as -> by (unfold sample_value; cbn [rn_c sample_runner] in Hs; by rewrite Hs).
    unfold sample_decode. by rewrite String.eqb_refl.
  - intros s k v. unfold sample_decode. destruct (String.eqb s sample_value); [|discriminate].
    intros Hs. injection Hs as _ <-. unfold two63. lia.
  - intros key view. unfold sample_get. destruct (String.eqb key _); [|discriminate]. intros Hv. injection Hv as <-.
    unfold two63. simpl. lia.
  - split.
    + exists rec. split; [exact E|]. apply H. eexists. split; [vm_compute; reflexivity|]. split; [split; discriminate|].
      vm_compute. reflexivity.
    + exists rec'. split; [exact E'|]. apply H'. eexists _, _. split; [vm_compute; reflexivity|]. reflexivity.
Defined.
