(* ===== verification/Arrival.v ===== *)
(** * The open-loop workload ([arrival.go], [config.go], the summary of
      [run.go] in [internal/bench/gateway])

    The plan of an arrival experiment is computed before timing starts; then a
    dispatcher hands jobs to a bounded queue and workers make the requests.
    The concurrent part is a step relation over the dispatcher's loop, the
    queue, the busy workers and the records. Clock readings, the context and
    the network are arbitrary. *)
From S2P Require Import Prelude GoStrings NetAddr Errors LRU CacheStore Bloom Admission Group Read Directory Protocol Postgres Api Measurement Dataset LoadClient.

(** ** Validation *)

(** The loop over the stages: the requests and seconds so far. *)
Fixpoint validStages (stages : list RateStage) (names : list string) (total seconds : Z) : option (Z * Z) :=
  match stages with
  | [] => Some (total, seconds)
  | s :: rest =>
      if String.eqb (rs_Name s) "" || (48 <? slen (rs_Name s)) || bool_decide (rs_Name s ∈ names) ||
         (rs_Rate s <? 1) || (10000 <? rs_Rate s) || (rs_Seconds s <? 1) || (120 <? rs_Seconds s)
      then None
      else validStages rest (rs_Name s :: names) (total + rs_Rate s * rs_Seconds s) (seconds + rs_Seconds s)
  end.

Definition distributions : list string := ["hot"; "scan"; "zipf"; "hot-scan"; "hit-miss"; "distinct"].

Definition validateArrival (c : BenchConfig) : option error :=
  if (MaxScheduleLagMillis c <? 0) || (50 <? MaxScheduleLagMillis c) || (MaxCatchUp c <? 0) || (64 <? MaxCatchUp c)
  then fails "arrival scheduler requires 0-50ms lag and 0-64 catch-up slots"
  else if (length (Stages c) =? 0)%nat || (12 <? length (Stages c))%nat || (MaxPending c <? 0) || (4096 <? MaxPending c) ||
          negb (ThinkMillis c =? 0) || negb (Windows c =? 0) || negb (DurationSeconds c =? 0)
  then fails "arrival requires 1-12 stages, 0-4096 pending slots and no closed-loop timing options"
  else match validStages (Stages c) [] 0 0 with
  | None => fails "invalid arrival stage"
  | Some (total, seconds) =>
      if (100000 <? total) || (120 <? seconds) then fails "arrival exceeds 100000 requests or 120s schedule"
      else if negb (bool_decide (Distribution c ∈ distributions)) then fails "invalid arrival distribution"
      else if (String.eqb (Distribution c) "hot-scan" || String.eqb (Distribution c) "hit-miss") && (Keys c <? 2)
      then fails "mixed cohorts require at least two keys"
      else if String.eqb (Distribution c) "distinct" && (Keys c <? total)
      then fails "distinct arrivals require at least one key per planned request"
      else None
  end.

Section Validate.
Variable sha256 : string -> string.
Variable parseIPLiteral : string -> option string.

Definition scenarios : list string := ["warm-hot"; "capacity"; "zipf"; "cold-key"; "mixed"; "ttl"; "arrival"].

Definition Validate (c : BenchConfig) : option error :=
  match url_Parse parseIPLiteral (Endpoint c) with
  | None => fails "invalid endpoint"
  | Some u =>
      if negb (String.eqb (u_Scheme u) "http") || String.eqb (u_Host u) "" || negb (String.eqb (u_RawQuery u) "") ||
         u_User u || negb (String.eqb (u_Path u) "") || negb (String.eqb (u_Fragment u) "")
      then fails "invalid endpoint"
      else if String.eqb (Host c) "" || String.eqb (Prefix c) "" || (80 <? slen (Prefix c)) || (Keys c <? 1) ||
              (50000 <? Keys c) || (Workers c <? 1) || (128 <? Workers c) || (ValueBytes c <? 128) ||
              (1048576 <? ValueBytes c) || (Reads c <? 1) || (1000000 <? Reads c) || (ThinkMillis c <? 0) ||
              (100 <? ThinkMillis c) || (Windows c <? 0) || (10000 <? Windows c) || (DurationSeconds c <? 0) ||
              (120 <? DurationSeconds c)
      then fails "invalid bounded workload options"
      else if negb (bool_decide (Scenario c ∈ scenarios)) then fails "invalid scenario"
      else if String.eqb (Scenario c) "mixed" && (Windows c =? 0) then fails "mixed workload requires windows"
      else if String.eqb (Scenario c) "ttl" && (DurationSeconds c <? 5) then fails "TTL workload requires a duration"
      else match (if String.eqb (Scenario c) "arrival" then validateArrival c
                  else if negb (String.eqb (Distribution c) "") || negb (MaxPending c =? 0) ||
                          negb (MaxScheduleLagMillis c =? 0) || negb (MaxCatchUp c =? 0)
                  then fails "arrival options require arrival scenario" else None) with
      | Some err => Some err
      | None =>
          match validateDataset sha256 c with
          | Some err => Some err
          | None =>
              if negb (String.eqb (Scenario c) "arrival") && negb (length (Stages c) =? 0)%nat
              then fails "stages require arrival scenario" else None
          end
      end
  end.
End Validate.

(** ** The plan *)
Record arrivalJob := mkJob {
  j_index : Z; j_key : Z; j_stage : Z; j_offset : Duration; j_cohort : string; j_missing : bool }.

Section Plan.
(** [draw i]: the Zipf generator's number for request [i]. *)
Variable draw : Z -> Z.

Definition arrivalChoice (c : BenchConfig) (i : Z) : Z * string * bool :=
  let d := Distribution c in
  if String.eqb d "hot" then (0, d, false)
  else if String.eqb d "scan" || String.eqb d "distinct" then (i mod Keys c, d, false)
  else if String.eqb d "zipf" then (draw i, d, false)
  else if String.eqb d "hot-scan" then
    if i mod 2 =? 0 then (0, "hot", false) else (1 + (i / 2) mod (Keys c - 1), "scan", false)
  else if String.eqb d "hit-miss" then
    ((i / 2) mod Keys c, if i mod 2 =? 1 then "missing" else "existing", i mod 2 =? 1)
  else (0, d, false).

Definition planJob (c : BenchConfig) (stage : Z) (s : RateStage) (base : Duration) (first n : Z) : arrivalJob :=
  let '(key, cohort, missing) := arrivalChoice c (first + n) in
  mkJob (first + n) key stage (base + (n * Second) ÷ rs_Rate s) cohort missing.

(** [first]: the jobs planned so far, [base] the start of the stage. *)
Fixpoint planFrom (c : BenchConfig) (stages : list RateStage) (stage first : Z) (base : Duration) : list arrivalJob :=
  match stages with
  | [] => []
  | s :: rest =>
      (planJob c stage s base first <$> seqZ 0 (rs_Rate s * rs_Seconds s)) ++
      planFrom c rest (stage + 1) (first + rs_Rate s * rs_Seconds s) (base + rs_Seconds s * Second)
  end.
Definition arrivalPlan (c : BenchConfig) : list arrivalJob := planFrom c (Stages c) 0 0 0.
End Plan.

(** ** Dropping *)
Definition catchUpLimit (c : BenchConfig) : Z := if MaxCatchUp c =? 0 then 4 else MaxCatchUp c.

Definition arrivalDispatchDrop (lag interval : Duration) (c : BenchConfig) (catchUp : Z) : string :=
  let budget := if 0 <? MaxScheduleLagMillis c then MaxScheduleLagMillis c * Millisecond else interval in
  if budget <=? lag then "scheduler_late"
  else if catchUpLimit c <=? catchUp then "catch_up_limit"
  else "".

(** ** Proofs: the plan *)
Definition requests (s : RateStage) : Z := rs_Rate s * rs_Seconds s.
Definition stage_ok (s : RateStage) : Prop := 1 <= rs_Rate s <= 10000 /\ 1 <= rs_Seconds s <= 120.

Lemma validStages_ok stages names total seconds t n :
  validStages stages names total seconds = Some (t, n) ->
  t = total + Zsum requests stages /\ n = seconds + Zsum rs_Seconds stages /\
  NoDup (rs_Name <$> stages) /\ (forall s, s ∈ stages -> stage_ok s /\ rs_Name s ∉ names).
Proof.
  revert names total seconds. induction stages as [|s l IH]; intros names total seconds; cbn [validStages].
  - intros [= <- <-]. simpl. split_and!; [lia|lia|constructor|]. intros s Hs. by apply elem_of_nil in Hs.
  - destruct (_ || _) eqn:E; [done|]. intros (-> & -> & Hnd & Hall)%IH. reflect_bool. cbn [Zsum fmap list_fmap].
    unfold requests at 2. split_and!; try lia.
    + constructor; [|done]. intros (s' & Es & Hs')%list_elem_of_fmap. destruct (Hall s' Hs') as [_ Hn].
      apply Hn. rewrite <- Es. by left.
    + intros x [->|Hx]%elem_of_cons; [split; [split; lia|done]|]. destruct (Hall x Hx) as [Ha Hb].
      split; [done|]. intros Hin. apply Hb. by right.
Qed.

Record valid_plan (c : BenchConfig) : Prop := {
  vp_stages : forall s, s ∈ Stages c -> stage_ok s;
  vp_names : NoDup (rs_Name <$> Stages c);
  vp_total : Zsum requests (Stages c) <= 100000;
  vp_seconds : Zsum rs_Seconds (Stages c) <= 120;
  vp_mixed : Distribution c ∈ ["hot-scan"; "hit-miss"] -> 2 <= Keys c;
  vp_distinct : Distribution c = "distinct" -> Zsum requests (Stages c) <= Keys c;
  vp_catchup : 0 <= MaxCatchUp c <= 64;
  vp_pending : 0 <= MaxPending c <= 4096;
}.

Ltac passes E := match goal with |- (if ?b then _ else _) = _ -> _ => destruct b eqn:E; [discriminate|] end.

Lemma validateArrival_plan c : validateArrival c = None -> valid_plan c.
Proof.
  unfold validateArrival. passes E1. passes E2.
  destruct (validStages _ _ _ _) as [[total seconds]|] eqn:Ev; [|done]. apply validStages_ok in Ev as (-> & -> & Hnd & Hall).
  passes E3. passes E4. passes E5. passes E6. intros _. apply andb_false_iff in E5, E6. reflect_bool.
  split; try lia; try done.
  - intros s Hs. by apply Hall.
  - intros Hd. rewrite elem_of_cons, list_elem_of_singleton in Hd.
    destruct E5 as [E5|E5]; [|reflect_bool; lia]. by destruct Hd as [Hd|Hd]; rewrite Hd in E5.
  - intros Hd. destruct E6 as [E6|E6]; [by rewrite Hd in E6|reflect_bool; lia].
Qed.

Section PlanFacts.
Variable draw : Z -> Z.
Variable c : BenchConfig.
Notation planJob := (planJob draw c).
Notation planFrom := (planFrom draw c).

Lemma planFrom_length stages st first base :
  (forall s, s ∈ stages -> stage_ok s) -> Z.of_nat (length (planFrom stages st first base)) = Zsum requests stages.
Proof.
  revert st first base. induction stages as [|s l IH]; intros st first base Hs; [done|]. cbn [Arrival.planFrom Zsum].
  rewrite length_app, length_fmap, length_seqZ, Nat2Z.inj_add, IH by (intros; apply Hs; by right).
  destruct (Hs s) as [H1 H2]; [by left|]. unfold requests. lia.
Qed.

(** Where a job of the plan comes from. *)
Lemma planFrom_lookup stages st first base k j :
  (forall s, s ∈ stages -> stage_ok s) -> planFrom stages st first base !! k = Some j ->
  exists m s n, stages !! m = Some s /\ 0 <= n < requests s /\
    j = planJob (st + Z.of_nat m) s (base + Zsum rs_Seconds (take m stages) * Second) (first + Zsum requests (take m stages)) n /\
    Z.of_nat k = Zsum requests (take m stages) + n.
Proof.
  revert st first base k. induction stages as [|s l IH]; intros st first base k Hs Hk; [done|].
  cbn [Arrival.planFrom] in Hk. destruct (Hs s) as [H1 H2]; [by left|].
  assert (0 <= rs_Rate s * rs_Seconds s) as Hpos by nia.
  apply lookup_app_Some in Hk as [Hk|[Hlen Hk]].
  - apply list_lookup_fmap_Some in Hk as (n & -> & Hn). apply lookup_seqZ in Hn as [-> Hn].
    exists 0%nat, s, (Z.of_nat k). unfold requests. split; [done|]. split; [lia|]. split; [|simpl; lia].
    cbn [take Zsum]. f_equal; lia.
  - rewrite length_fmap, length_seqZ in Hlen, Hk. apply IH in Hk as (m & s' & n & Hm & Hn & -> & Ek).
    2: { intros x Hx. apply Hs. by right. }
    exists (S m), s', n. split; [done|]. split; [done|]. cbn [take Zsum]. fold (requests s) in *.
    split; [f_equal; lia|lia].
Qed.

(** Offsets of one stage. *)
Lemma planJob_offset st s base first n :
  stage_ok s -> 0 <= n < requests s ->
  base <= j_offset (planJob st s base first n) < base + rs_Seconds s * Second.
Proof.
  intros [Hr Hsec] Hn. unfold Arrival.planJob. destruct (arrivalChoice draw c (first + n)) as [[key cohort] missing]. cbn [j_offset].
  rewrite Z.quot_div_nonneg by (unfold Second; lia). unfold requests in Hn.
  assert (0 <= n * Second / rs_Rate s < rs_Seconds s * Second); [|lia].
  split; [apply Z.div_pos; unfold Second; lia|]. apply Z.div_lt_upper_bound; [lia|]. unfold Second. nia.
Qed.

Lemma planJob_offset_mono st s base first n n' :
  stage_ok s -> 0 <= n <= n' -> j_offset (planJob st s base first n) <= j_offset (planJob st s base first n').
Proof.
  intros [Hr Hsec] Hn. unfold Arrival.planJob. destruct (arrivalChoice draw c (first + n)) as [[k1 c1] m1].
  destruct (arrivalChoice draw c (first + n')) as [[k2 c2] m2]. cbn [j_offset].
  rewrite !Z.quot_div_nonneg by (unfold Second; lia). apply Z.add_le_mono_l, Z.div_le_mono; unfold Second; lia.
Qed.

Lemma planJob_index st s base first n : j_index (planJob st s base first n) = first + n /\ j_stage (planJob st s base first n) = st.
Proof. unfold Arrival.planJob. by destruct (arrivalChoice draw c (first + n)) as [[k1 c1] m1]. Qed.

Lemma planJob_choice st s base first n :
  (j_key (planJob st s base first n), j_cohort (planJob st s base first n), j_missing (planJob st s base first n))
  = arrivalChoice draw c (first + n).
Proof. unfold Arrival.planJob. by destruct (arrivalChoice draw c (first + n)) as [[k1 c1] m1]. Qed.

Lemma Zsum_take_mono (f : RateStage -> Z) l m m' s :
  (forall x, x ∈ l -> 0 <= f x) -> (m < m')%nat -> l !! m = Some s -> Zsum f (take m l) + f s <= Zsum f (take m' l).
Proof.
  intros Hf. revert m m'. induction l as [|x l IH]; intros m m' Hm Hs; [done|].
  destruct m' as [|m']; [lia|]. destruct m as [|m]; simpl in *.
  - injection Hs as ->. assert (0 <= Zsum f (take m' l)); [|lia].
    clear -Hf. assert (forall x, x ∈ take m' l -> 0 <= f x) as Ht.
    { intros y (i & Hi & _)%elem_of_take. apply Hf. right. by eapply list_elem_of_lookup_2. }
    revert Ht. generalize (take m' l) as t. induction t as [|y t IHt]; intros Ht; simpl; [lia|].
    pose proof (Ht y ltac:(by left)). specialize (IHt (fun z Hz => Ht z ltac:(by right))). lia.
  - specialize (IH (fun y Hy => Hf y ltac:(by right)) m m' ltac:(lia) Hs). lia.
Qed.
End PlanFacts.

(** When stage [m] starts. *)
Definition stageStart (c : BenchConfig) (m : nat) : Duration := Zsum rs_Seconds (take m (Stages c)) * Second.

Lemma plan_lookup draw c k j :
  valid_plan c -> arrivalPlan draw c !! k = Some j ->
  exists m s n, Stages c !! m = Some s /\ stage_ok s /\ 0 <= n < requests s /\
    j = planJob draw c (Z.of_nat m) s (stageStart c m) (Zsum requests (take m (Stages c))) n /\
    Z.of_nat k = Zsum requests (take m (Stages c)) + n.
Proof.
  intros Hc Hk. destruct (planFrom_lookup draw c (Stages c) 0 0 0 k j (vp_stages c Hc) Hk) as (m & s & n & Hm & Hn & -> & Ek).
  exists m, s, n. split; [done|]. split; [apply (vp_stages c Hc); by eapply list_elem_of_lookup_2|]. done.
Qed.

Lemma plan_key draw c i :
  1 <= Keys c -> (Distribution c ∈ ["hot-scan"; "hit-miss"] -> 2 <= Keys c) -> 0 <= i -> (forall i, 0 <= draw i < Keys c) ->
  0 <= (arrivalChoice draw c i).1.1 < Keys c.
Proof.
  intros Hk Hmix Hi Hd. unfold arrivalChoice.
  pose proof (Z.mod_pos_bound i (Keys c) ltac:(lia)). pose proof (Z.mod_pos_bound (i / 2) (Keys c) ltac:(lia)).
  destruct (String.eqb_spec (Distribution c) "hot"); [simpl; lia|].
  destruct (_ || _); [simpl; lia|]. destruct (String.eqb_spec (Distribution c) "zipf"); [simpl; apply Hd|].
  destruct (String.eqb_spec (Distribution c) "hot-scan") as [E|]; [|by repeat case_bool; simpl; lia].
  rewrite E in Hmix. specialize (Hmix ltac:(set_solver)). pose proof (Z.mod_pos_bound (i / 2) (Keys c - 1) ltac:(lia)).
  case_bool; simpl; lia.
Qed.

Lemma choice_hot_scan draw c i key cohort missing :
  (Distribution c ∈ ["hot-scan"; "hit-miss"] -> 2 <= Keys c) -> 0 <= i ->
  (key, cohort, missing) = arrivalChoice draw c i -> Distribution c = "hot-scan" ->
  missing = false /\ (key = 0 <-> Z.even i = true).
Proof.
  intros Hmix Hi E Hd. unfold arrivalChoice in E. rewrite Hd in E, Hmix. specialize (Hmix ltac:(set_solver)). simpl in E.
  rewrite Zeven_mod. destruct (i mod 2 =? 0) eqn:Ee; injection E as -> _ ->; (split; [done|]).
  - done.
  - pose proof (Z.mod_pos_bound (i / 2) (Keys c - 1) ltac:(lia)). split; [lia|done].
Qed.

Lemma choice_hit_miss draw c i key cohort missing :
  (key, cohort, missing) = arrivalChoice draw c i -> Distribution c = "hit-miss" ->
  missing = Z.odd i /\ key = (i / 2) mod Keys c.
Proof.
  intros E Hd. unfold arrivalChoice in E. rewrite Hd in E. simpl in E. injection E as -> _ ->.
  split; [|done]. pose proof (Zmod_odd i) as H. destruct (Z.odd i); rewrite H; reflexivity.
Qed.

Lemma plan_ordered draw c k k' j j' :
  valid_plan c -> (k <= k')%nat -> arrivalPlan draw c !! k = Some j -> arrivalPlan draw c !! k' = Some j' ->
  j_offset j <= j_offset j'.
Proof.
  intros Hc Hkk Hj Hj'. destruct (plan_lookup draw c k j Hc Hj) as (m & s & n & Hm & Hs & Hn & -> & Ek).
  destruct (plan_lookup draw c k' j' Hc Hj') as (m' & s' & n' & Hm' & Hs' & Hn' & -> & Ek').
  assert (forall x, x ∈ Stages c -> 0 <= requests x /\ 0 <= rs_Seconds x) as Hpos.
  { intros x Hx. destruct (vp_stages c Hc x Hx). unfold requests. nia. }
  destruct (Nat.lt_trichotomy m m') as [Hlt|[->|Hlt]].
  - pose proof (planJob_offset draw c (Z.of_nat m) s (stageStart c m) (Zsum requests (take m (Stages c))) n Hs Hn).
    pose proof (planJob_offset draw c (Z.of_nat m') s' (stageStart c m') (Zsum requests (take m' (Stages c))) n' Hs' Hn').
    pose proof (Zsum_take_mono rs_Seconds (Stages c) m m' s (fun x Hx => proj2 (Hpos x Hx)) Hlt Hm).
    unfold stageStart, Second in *. lia.
  - rewrite Hm in Hm'. injection Hm' as <-. apply planJob_offset_mono; [done|]. lia.
  - pose proof (Zsum_take_mono requests (Stages c) m' m s' (fun x Hx => proj1 (Hpos x Hx)) Hlt Hm'). lia.
Qed.

(** The plan of an accepted arrival experiment is what its configuration
    says: exactly rate*seconds requests per stage and at most 100000 in all,
    numbered in order, each within the time of its stage and within two
    minutes, in the order of their due times, with keys of the dataset. A
    "distinct" plan never repeats a key; in a "hot-scan" plan every second
    request is for the hot key and no scanning one is; a "hit-miss" plan
    asks for each key once as existing and once as missing, alternating. *)
Theorem arrivalPlan_contract draw c :
  validateArrival c = None -> 1 <= Keys c -> (forall i, 0 <= draw i < Keys c) ->
  Z.of_nat (length (arrivalPlan draw c)) = Zsum requests (Stages c) /\ Zsum requests (Stages c) <= 100000 /\
  (forall k j, arrivalPlan draw c !! k = Some j ->
     j_index j = Z.of_nat k /\ 0 <= j_key j < Keys c /\
     (exists s, Stages c !! Z.to_nat (j_stage j) = Some s /\
        stageStart c (Z.to_nat (j_stage j)) <= j_offset j < stageStart c (Z.to_nat (j_stage j)) + rs_Seconds s * Second) /\
     (Distribution c = "hot-scan" -> j_missing j = false /\ (j_key j = 0 <-> Z.even (j_index j) = true)) /\
     (Distribution c = "hit-miss" -> j_missing j = Z.odd (j_index j) /\ j_key j = (j_index j / 2) mod Keys c)) /\
  (forall k k' j j', (k <= k')%nat -> arrivalPlan draw c !! k = Some j -> arrivalPlan draw c !! k' = Some j' ->
     j_offset j <= j_offset j' /\ (Distribution c = "distinct" -> j_key j = j_key j' -> k = k')).
Proof.
  intros Hv Hk Hd. pose proof (validateArrival_plan c Hv) as Hc.
  assert (Z.of_nat (length (arrivalPlan draw c)) = Zsum requests (Stages c)) as HL
    by apply planFrom_length, (vp_stages c Hc).
  split; [done|]. split; [apply Hc|]. split.
  - intros k j Hj. destruct (plan_lookup draw c k j Hc Hj) as (m & s & n & Hm & Hs & Hn & -> & Ek).
    destruct (planJob_index draw c (Z.of_nat m) s (stageStart c m) (Zsum requests (take m (Stages c))) n) as [Ei Es].
    pose proof (planJob_choice draw c (Z.of_nat m) s (stageStart c m) (Zsum requests (take m (Stages c))) n) as Ech.
    pose proof (planJob_offset draw c (Z.of_nat m) s (stageStart c m) (Zsum requests (take m (Stages c))) n Hs Hn) as Ho.
    rewrite <- Ek in Ech, Ei. set (j := planJob _ _ _ _ _ _ _) in *. rewrite Es, Ei, Nat2Z.id.
    pose proof (plan_key draw c (Z.of_nat k) Hk (vp_mixed c Hc) ltac:(lia) Hd) as Hkey. rewrite <- Ech in Hkey. simpl in Hkey.
    split_and!; try done; try lia.
    + by exists s.
    + apply (choice_hot_scan draw c (Z.of_nat k) (j_key j) (j_cohort j) (j_missing j) (vp_mixed c Hc)); [lia|done].
    + apply (choice_hit_miss draw c (Z.of_nat k) (j_key j) (j_cohort j) (j_missing j)). done.
  - intros k k' j j' Hkk Hj Hj'. split.
    + apply (plan_ordered draw c k k'); done.
    + intros Hdis E. destruct (plan_lookup draw c k j Hc Hj) as (m & s & n & Hm & Hs & Hn & -> & Ek).
      destruct (plan_lookup draw c k' j' Hc Hj') as (m' & s' & n' & Hm' & Hs' & Hn' & -> & Ek').
      apply lookup_lt_Some in Hj, Hj'. pose proof (vp_distinct c Hc Hdis).
      pose proof (planJob_choice draw c (Z.of_nat m) s (stageStart c m) (Zsum requests (take m (Stages c))) n) as C1.
      pose proof (planJob_choice draw c (Z.of_nat m') s' (stageStart c m') (Zsum requests (take m' (Stages c))) n') as C2.
      rewrite <- Ek in C1. rewrite <- Ek' in C2. apply (f_equal (fun x => x.1.1)) in C1, C2. simpl in C1, C2.
      rewrite E, C2 in C1. unfold arrivalChoice in C1. rewrite Hdis in C1. simpl in C1.
      rewrite !Z.mod_small in C1 by lia. lia.
Qed.

(** ** The run *)
Definition updateAt (i : Z) (f : BRecord -> BRecord) (records : list BRecord) : list BRecord :=
  alter f (Z.to_nat i) records.

Definition set_dispatch (sent : bool) (lag : Duration) (r : BRecord) : BRecord :=
  mkRec sent lag (r_Stage r) (r_Cohort r) (r_Scheduled r) (r_Queue r) (r_Total r) (r_DropReason r) (r_Index r) (r_Method r)
    (r_KeyIndex r) (r_Attempted r) (r_Status r) (r_Elapsed r) (r_Node r) (r_Version r) (r_CommittedAtStart r) (r_Error r)
    (r_Incorrect r) (r_StaleAtStart r).
Definition set_lag (lag : Duration) (r : BRecord) : BRecord := set_dispatch (r_Dispatched r) lag r.
Definition set_drop (reason : string) (r : BRecord) : BRecord :=
  mkRec (r_Dispatched r) (r_DispatchLag r) (r_Stage r) (r_Cohort r) (r_Scheduled r) (r_Queue r) (r_Total r) reason (r_Index r)
    (r_Method r) (r_KeyIndex r) (r_Attempted r) (r_Status r) (r_Elapsed r) (r_Node r) (r_Version r) (r_CommittedAtStart r)
    (r_Error r) (r_Incorrect r) (r_StaleAtStart r).
(** What the worker adds to the record of a request. *)
Definition annotate (stage cohort : string) (offset dispatch queue total : Duration) (r : BRecord) : BRecord :=
  mkRec true dispatch stage cohort offset queue total (r_DropReason r) (r_Index r) (r_Method r) (r_KeyIndex r)
    (r_Attempted r) (r_Status r) (r_Elapsed r) (r_Node r) (r_Version r) (r_CommittedAtStart r) (r_Error r) (r_Incorrect r)
    (r_StaleAtStart r).

Definition stageName (c : BenchConfig) (j : arrivalJob) : string :=
  match Stages c !! Z.to_nat (j_stage j) with Some s => rs_Name s | None => "" end.
Definition stageRate (c : BenchConfig) (j : arrivalJob) : Z :=
  match Stages c !! Z.to_nat (j_stage j) with Some s => rs_Rate s | None => 1 end.

Definition plannedRecord (c : BenchConfig) (j : arrivalJob) : BRecord :=
  mkRec false 0 (stageName c j) (j_cohort j) (j_offset j) 0 0 "canceled" (j_index j) "GET" (j_key j) false 0 0 "" 0 0 "" false false.

(** A job in the queue carries the time of its dispatch. *)
Record arrival := mkArrival {
  a_todo : list arrivalJob;
  a_catchUp : Z;
  a_queue : list (arrivalJob * Time);
  a_busy : list (arrivalJob * Time);
  a_records : list BRecord;
  a_canceled : bool;
}.

(** One round of the dispatcher: [now0] decides whether it waits, [now] is the
    reading after that, [dispatched] the time put on the job, [room] whether
    the channel takes it at once. *)
Definition dispatchOne (c : BenchConfig) (start : Time) (j : arrivalJob) (now0 now dispatched : Time) (room : bool)
    (catchUp : Z) (queue : list (arrivalJob * Time)) (records : list BRecord)
    : Z * list (arrivalJob * Time) * list BRecord :=
  let due := start + j_offset j in
  let catchUp := if 0 <? due - now0 then 0 else catchUp in
  let interval := Second ÷ stageRate c j in
  let lag := now - due in
  let records := updateAt (j_index j) (set_lag lag) records in
  let reason := arrivalDispatchDrop lag interval c catchUp in
  if negb (String.eqb reason "") then (catchUp, queue, updateAt (j_index j) (set_drop reason) records)
  else if room then (catchUp + 1, queue ++ [(j, dispatched)], records)
  else (catchUp + 1, queue, updateAt (j_index j) (set_drop "client_capacity") records).

(** A worker's record of a job it found the context ended for. *)
Definition skipJob (start : Time) (j : arrivalJob) (dispatched : Time) (records : list BRecord) : list BRecord :=
  updateAt (j_index j) (set_dispatch true (dispatched - (start + j_offset j))) records.
(** A worker's record of a request: it began at [began] and was done at [now]. *)
Definition recordJob (c : BenchConfig) (start : Time) (j : arrivalJob) (dispatched began now : Time) (r : BRecord)
    (records : list BRecord) : list BRecord :=
  let due := start + j_offset j in
  updateAt (j_index j) (fun _ => annotate (stageName c j) (j_cohort j) (j_offset j) (dispatched - due) (began - due) (now - due) r)
    records.

Section Run.
Variable sha256 : string -> string.
Variable decodeValue : string -> option (string * Z).
Variable decodeWrite : string -> WriteAck * bool.
Variable c : BenchConfig.
Variable start : Time.

(** An unbuffered or full channel takes a job exactly when a worker waits. *)
Inductive arrival_step : arrival -> arrival -> Prop :=
| as_dispatch j rest catchUp queue busy records canceled now0 now dispatched room :
    (room = true -> Z.of_nat (length queue) < MaxPending c + (Workers c - Z.of_nat (length busy))) ->
    (room = false -> MaxPending c <= Z.of_nat (length queue)) ->
    arrival_step (mkArrival (j :: rest) catchUp queue busy records canceled)
      (let '(catchUp', queue', records') := dispatchOne c start j now0 now dispatched room catchUp queue records in
       mkArrival rest catchUp' queue' busy records' canceled)
| as_break todo catchUp queue busy records :
    arrival_step (mkArrival todo catchUp queue busy records true) (mkArrival [] catchUp queue busy records true)
| as_cancel todo catchUp queue busy records canceled :
    arrival_step (mkArrival todo catchUp queue busy records canceled) (mkArrival todo catchUp queue busy records true)
| as_take todo catchUp q queue busy records canceled :
    Z.of_nat (length busy) < Workers c ->
    arrival_step (mkArrival todo catchUp (q :: queue) busy records canceled)
      (mkArrival todo catchUp queue (busy ++ [q]) records canceled)
| as_skip todo catchUp queue busy records i j dispatched :
    busy !! i = Some (j, dispatched) ->
    arrival_step (mkArrival todo catchUp queue busy records true)
      (mkArrival todo catchUp queue (delete i busy) (skipJob start j dispatched records) true)
| as_request todo catchUp queue busy records canceled i j dispatched began now r badURL Do elapsed token :
    busy !! i = Some (j, dispatched) ->
    requestExpected sha256 decodeValue decodeWrite (mkRunner c token None) badURL Do elapsed (j_index j) (j_key j)
      "GET" 0 1 1 (j_missing j) = Some r ->
    arrival_step (mkArrival todo catchUp queue busy records canceled)
      (mkArrival todo catchUp queue (delete i busy) (recordJob c start j dispatched began now r records) canceled).

Definition arrivalStart (jobs : list arrivalJob) : arrival :=
  mkArrival jobs 0 [] [] (plannedRecord c <$> jobs) false.
(** The queue is closed and drained. *)
Definition arrivalDone (a : arrival) : Prop := a_todo a = [] /\ a_queue a = [] /\ a_busy a = [].
End Run.

(** ** Counting *)
Record ArrivalCounts := mkCounts {
  ac_Dispatched : Z; ac_Dispatch : option (Percentiles Duration);
  ac_Planned : Z; ac_Attempted : Z; ac_Success : Z; ac_Errors : Z; ac_Incorrect : Z; ac_Dropped : Z;
  ac_DropReasons : gmap string Z; ac_Statuses : gmap Z Z;
  ac_Queue : option (Percentiles Duration); ac_Service : option (Percentiles Duration); ac_Total : option (Percentiles Duration);
  ac_SuccessLatency : option (Percentiles Duration); ac_ErrorLatency : option (Percentiles Duration) }.

Record tally := mkTally {
  t_dispatched : Z; t_attempted : Z; t_success : Z; t_errors : Z; t_incorrect : Z; t_dropped : Z;
  t_reasons : gmap string Z; t_statuses : gmap Z Z;
  t_dispatch : list Duration; t_q : list Duration; t_service : list Duration; t_total : list Duration;
  t_good : list Duration; t_bad : list Duration }.
Definition tally0 : tally := mkTally 0 0 0 0 0 0 ∅ ∅ [] [] [] [] [] [].

Definition bump `{Countable K} (k : K) (m : gmap K Z) : gmap K Z := <[k := default 0 (m !! k) + 1]> m.

(** One round of the loop over the records. *)
Definition tallyOne (t : tally) (r : BRecord) : tally :=
  let dispatched := if r_Dispatched r then t_dispatched t + 1 else t_dispatched t in
  let dispatch := if r_Dispatched r then t_dispatch t ++ [r_DispatchLag r] else t_dispatch t in
  if negb (r_Attempted r) then
    mkTally dispatched (t_attempted t) (t_success t) (t_errors t) (t_incorrect t) (t_dropped t + 1)
      (bump (r_DropReason r) (t_reasons t)) (t_statuses t) dispatch (t_q t) (t_service t) (t_total t) (t_good t) (t_bad t)
  else
    let incorrect := if r_Incorrect r then t_incorrect t + 1 else t_incorrect t in
    let errors := if negb (String.eqb (r_Error r) "") then t_errors t + 1 else t_errors t in
    let ok := String.eqb (r_Error r) "" && negb (r_Incorrect r) in
    mkTally dispatched (t_attempted t + 1) (if ok then t_success t + 1 else t_success t) errors incorrect (t_dropped t)
      (t_reasons t) (bump (r_Status r) (t_statuses t)) dispatch (t_q t ++ [r_Queue r]) (t_service t ++ [r_Elapsed r])
      (t_total t ++ [r_Total r]) (if ok then t_good t ++ [r_Elapsed r] else t_good t)
      (if ok then t_bad t else t_bad t ++ [r_Elapsed r]).

Definition arrivalCounts (records : list BRecord) : ArrivalCounts :=
  let t := foldl tallyOne tally0 records in
  let quantiles := Quantiles Z.le 0 in
  mkCounts (t_dispatched t) (quantiles (t_dispatch t)) (Z.of_nat (length records)) (t_attempted t) (t_success t) (t_errors t)
    (t_incorrect t) (t_dropped t) (t_reasons t) (t_statuses t) (quantiles (t_q t)) (quantiles (t_service t))
    (quantiles (t_total t)) (quantiles (t_good t)) (quantiles (t_bad t)).

(** *** The report *)
Record ArrivalStage := mkStageReport {
  st_Name : string; st_Rate : Z; st_Seconds : Z; st_Counts : ArrivalCounts; st_Cohorts : gmap string ArrivalCounts }.

Definition groupRecords (records : list BRecord) : gmap string (list BRecord) :=
  foldl (fun groups r => <[r_Cohort r := default [] (groups !! r_Cohort r) ++ [r]]> groups) ∅ records.

Definition stageReport (records : list BRecord) (s : RateStage) : ArrivalStage :=
  let subset := filter (fun r => r_Stage r = rs_Name s) records in
  mkStageReport (rs_Name s) (rs_Rate s) (rs_Seconds s) (arrivalCounts subset) (arrivalCounts <$> groupRecords subset).

Definition reportStatus (counts : ArrivalCounts) (canceled : bool) : string :=
  if (0 <? ac_Incorrect counts) || canceled then "failed"
  else if 0 <? ac_Dropped counts then "client-limited"
  else if 0 <? ac_Errors counts then "completed-with-errors"
  else "passed".

(** ** Proofs: the records of a run *)
#[export] Instance arrivalJob_eq_dec : EqDecision arrivalJob.
Proof. solve_decision. Defined.

Section RunFacts.
Variable c : BenchConfig.
Variable jobs : list arrivalJob.
Hypothesis jobs_numbered : forall k j, jobs !! k = Some j -> j_index j = Z.of_nat k.

(** The record belongs to the job. *)
Definition planned_as (j : arrivalJob) (r : BRecord) : Prop :=
  r_Index r = j_index j /\ r_KeyIndex r = j_key j /\ r_Stage r = stageName c j /\ r_Cohort r = j_cohort j.

Definition waiting (r : BRecord) : Prop := r_Attempted r = false /\ r_Dispatched r = false /\ r_DropReason r = "canceled".
Definition drop_reasons : list string := ["scheduler_late"; "catch_up_limit"; "client_capacity"].
Definition final (canceled : bool) (r : BRecord) : Prop :=
  (r_Attempted r = true /\ r_Dispatched r = true) \/
  (r_Attempted r = false /\ (r_DropReason r ∈ drop_reasons \/ (r_DropReason r = "canceled" /\ canceled = true))).

(** [P]: the jobs that are still to be dispatched, queued or held by a worker. *)
Record rec_ok (P : list arrivalJob) (R : list BRecord) (canceled : bool) : Prop := {
  ro_length : length R = length jobs;
  ro_nodup : NoDup P;
  ro_pending : forall j, j ∈ P -> exists k, jobs !! k = Some j;
  ro_records : forall k r j, R !! k = Some r -> jobs !! k = Some j ->
    planned_as j r /\ (j ∈ P -> waiting r) /\ (j ∉ P -> final canceled r);
}.

Lemma rec_ok_perm P P' R b : P ≡ₚ P' -> rec_ok P R b -> rec_ok P' R b.
Proof.
  intros E [HL Hnd Hp Hr]. split; [done|by rewrite <- E|intros j; rewrite <- E; apply Hp|].
  intros k r j. rewrite <- E. apply Hr.
Qed.

Lemma updateAt_lookup k j f (R : list BRecord) i r :
  jobs !! k = Some j -> updateAt (j_index j) f R !! i = Some r ->
  (i = k /\ exists r0, R !! k = Some r0 /\ r = f r0) \/ (i <> k /\ R !! i = Some r).
Proof.
  intros Hk. unfold updateAt. rewrite (jobs_numbered k j Hk), Nat2Z.id. destruct (decide (i = k)) as [->|Hne].
  - rewrite list_lookup_alter_eq. intros (r0 & <- & H)%fmap_Some_1 || intros H. left. split; [done|].
    apply fmap_Some in H as (r0 & H & ->). eauto.
  - rewrite list_lookup_alter_ne by done. by right.
Qed.

Lemma jobs_inj k k' j : jobs !! k = Some j -> jobs !! k' = Some j -> k = k'.
Proof. intros H H'. apply jobs_numbered in H, H'. lia. Qed.

(** The record of a pending job is written, and the job stays pending or not. *)
Lemma rec_ok_touch P R b j f :
  rec_ok P R b -> j ∈ P -> (forall r, planned_as j r -> waiting r -> planned_as j (f r) /\ waiting (f r)) ->
  rec_ok P (updateAt (j_index j) f R) b.
Proof.
  intros [HL Hnd Hp Hr] Hj Hf. destruct (Hp j Hj) as [k Hk]. split; [by unfold updateAt; rewrite length_alter|done|done|].
  intros i r j' Hi Hj'. apply (updateAt_lookup k j) in Hi as [[-> (r0 & Hr0 & ->)]|[_ Hi]]; [|by eapply Hr|done].
  rewrite Hk in Hj'. injection Hj' as <-. destruct (Hr _ _ _ Hr0 Hk) as (Ha & Hw & _).
  destruct (Hf r0 Ha (Hw Hj)). split; [done|]. split; [done|]. by intros [].
Qed.

Lemma rec_ok_resolve P R b j f :
  rec_ok (j :: P) R b -> (forall r, planned_as j r -> waiting r -> planned_as j (f r) /\ final b (f r)) ->
  rec_ok P (updateAt (j_index j) f R) b.
Proof.
  intros [HL Hnd Hp Hr] Hf. destruct (Hp j) as [k Hk]; [by left|]. apply NoDup_cons in Hnd as [Hnj Hnd].
  split; [by unfold updateAt; rewrite length_alter|done|intros x Hx; apply Hp; by right|].
  intros i r j' Hi Hj'. apply (updateAt_lookup k j) in Hi as [[-> (r0 & Hr0 & ->)]|[Hne Hi]]; [| |done].
  - rewrite Hk in Hj'. injection Hj' as <-. destruct (Hr _ _ _ Hr0 Hk) as (Ha & Hw & _).
    destruct (Hf r0 Ha (Hw ltac:(by left))). split; [done|]. by split.
  - destruct (Hr _ _ _ Hi Hj') as (Ha & Hw & Hfin). split; [done|]. split; [intros H; apply Hw; by right|].
    intros H. apply Hfin. intros [->|Hin]%elem_of_cons; [|done]. apply Hne. by eapply jobs_inj.
Qed.

Lemma rec_ok_abandon P Q R : rec_ok (P ++ Q) R true -> rec_ok P R true.
Proof.
  intros [HL Hnd Hp Hr]. apply NoDup_app in Hnd as (Hnd & _ & _). split; [done|done|intros j Hj; apply Hp, elem_of_app; by left|].
  intros k r j Hk Hj. destruct (Hr _ _ _ Hk Hj) as (Ha & Hw & Hf). split; [done|]. split.
  - intros H. apply Hw, elem_of_app. by left.
  - intros H. destruct (decide (j ∈ P ++ Q)) as [Hin|Hin]; [|by apply Hf].
    destruct (Hw Hin) as (H1 & H2 & H3). right. auto.
Qed.

Lemma rec_ok_cancel P R b : rec_ok P R b -> rec_ok P R true.
Proof.
  intros [HL Hnd Hp Hr]. split; [done..|]. intros k r j Hk Hj. destruct (Hr _ _ _ Hk Hj) as (Ha & Hw & Hf).
  split; [done|]. split; [done|]. intros H. destruct (Hf H) as [?|[H1 [H2|[H2 _]]]]; [by left|right; auto..].
Qed.

(** ** Proofs: the steps *)
Variable sha256 : string -> string.
Variable decodeValue : string -> option (string * Z).
Variable decodeWrite : string -> WriteAck * bool.
Variable start : Time.
Notation arrival_step := (arrival_step sha256 decodeValue decodeWrite c start).

Definition unresolved (a : arrival) : list arrivalJob := (a_queue a).*1 ++ (a_busy a).*1 ++ a_todo a.

Record arrival_ok (a : arrival) : Prop := {
  ao_records : rec_ok (unresolved a) (a_records a) (a_canceled a);
  ao_catchUp : 0 <= a_catchUp a <= catchUpLimit c;
  ao_busy : Z.of_nat (length (a_busy a)) <= Workers c;
  ao_inflight : Z.of_nat (length (a_queue a)) + Z.of_nat (length (a_busy a)) <= MaxPending c + Workers c;
}.

Lemma drop_cases lag interval catchUp :
  let reason := arrivalDispatchDrop lag interval c catchUp in
  (reason = "" /\ catchUp < catchUpLimit c) \/ reason ∈ drop_reasons.
Proof.
  unfold arrivalDispatchDrop, drop_reasons. cbv zeta. case_bool; [right; set_solver|].
  destruct (catchUpLimit c <=? catchUp) eqn:E; reflect_bool; [right; set_solver|by left].
Qed.

(** Writing the dispatch lag into a pending record changes nothing else. *)
Lemma waiting_lag j lag r : planned_as j r -> waiting r -> planned_as j (set_lag lag r) /\ waiting (set_lag lag r).
Proof. done. Qed.

Lemma dispatch_ok j rest catchUp queue busy records canceled now0 now dispatched room :
  arrival_ok (mkArrival (j :: rest) catchUp queue busy records canceled) -> 1 <= catchUpLimit c ->
  (room = true -> Z.of_nat (length queue) < MaxPending c + (Workers c - Z.of_nat (length busy))) ->
  arrival_ok (let '(catchUp', queue', records') := dispatchOne c start j now0 now dispatched room catchUp queue records in
       mkArrival rest catchUp' queue' busy records' canceled).
Proof.
  intros [HR HC HB HI] Hlim Hroom. simpl in *. unfold dispatchOne. cbv zeta.
  set (cu := if 0 <? _ then 0 else catchUp). assert (0 <= cu <= catchUpLimit c) as Hcu by (subst cu; case_bool; lia).
  set (lag := now - (start + j_offset j)).
  assert (unresolved (mkArrival (j :: rest) catchUp queue busy records canceled) ≡ₚ
          j :: (queue.*1 ++ busy.*1 ++ rest)) as HP by (unfold unresolved; simpl; solve_Permutation).
  apply (rec_ok_perm _ _ _ _ HP) in HR.
  apply (rec_ok_touch _ _ _ j (set_lag lag)) in HR; [|by left|apply waiting_lag].
  assert (forall reason, reason ∈ drop_reasons ->
    rec_ok (queue.*1 ++ busy.*1 ++ rest) (updateAt (j_index j) (set_drop reason) (updateAt (j_index j) (set_lag lag) records)) canceled) as Hdrop.
  { intros reason Hr. eapply rec_ok_resolve; [exact HR|]. intros r Ha (H1 & _). split; [done|]. right. by split; [|left]. }
  destruct (drop_cases lag (Second ÷ stageRate c j) cu) as [[-> Hlt]|Hr].
  - cbn [String.eqb negb]. destruct room; split; simpl; try lia; try done.
    + eapply rec_ok_perm; [|exact HR]. unfold unresolved. simpl. rewrite fmap_app. simpl. solve_Permutation.
    + rewrite length_app. simpl. specialize (Hroom eq_refl). lia.
    + apply Hdrop. unfold drop_reasons. set_solver.
  - assert (String.eqb (arrivalDispatchDrop lag (Second ÷ stageRate c j) c cu) "" = false) as ->.
    { apply String.eqb_neq. intros E. rewrite E in Hr. unfold drop_reasons in Hr. set_solver. }
    cbn [negb]. split; simpl; try lia; try done. by apply Hdrop.
Qed.

Lemma delete_busy (i : nat) (j : arrivalJob) (t : Time) (busy : list (arrivalJob * Time)) :
  busy !! i = Some (j, t) -> busy.*1 ≡ₚ j :: (delete i busy).*1 /\ length (delete i busy) = (length busy - 1)%nat /\ (0 < length busy)%nat.
Proof.
  intros Hi. rewrite (delete_Permutation busy i (j, t) Hi) at 1. split; [done|]. apply lookup_lt_Some in Hi as Hl.
  split; [|lia]. rewrite length_delete by (by exists (j, t)). lia.
Qed.

Lemma resolve_busy todo catchUp queue busy records canceled i j t f :
  arrival_ok (mkArrival todo catchUp queue busy records canceled) -> busy !! i = Some (j, t) ->
  (forall r, planned_as j r -> waiting r -> planned_as j (f r) /\ final canceled (f r)) ->
  arrival_ok (mkArrival todo catchUp queue (delete i busy) (updateAt (j_index j) f records) canceled).
Proof.
  intros [HR HC HB HI] Hi Hf. simpl in *. destruct (delete_busy i j t busy Hi) as (HP & HL & Hpos).
  split; simpl; rewrite ?HL; try lia. eapply rec_ok_resolve; [|exact Hf]. eapply rec_ok_perm; [|exact HR].
  unfold unresolved. simpl. rewrite HP. solve_Permutation.
Qed.

Lemma arrival_step_ok a a' : 0 <= MaxCatchUp c -> arrival_ok a -> arrival_step a a' -> arrival_ok a'.
Proof.
  intros Hmc Ha Hs. assert (1 <= catchUpLimit c) as Hlim by (unfold catchUpLimit; destruct (MaxCatchUp c =? 0) eqn:E; reflect_bool; lia).
  destruct Hs as [j rest catchUp queue busy records canceled now0 now dispatched room H1 H2
    |todo catchUp queue busy records|todo catchUp queue busy records canceled|todo catchUp q queue busy records canceled Hw
    |todo catchUp queue busy records i j dispatched Hi
    |todo catchUp queue busy records canceled i j dispatched began now r badURL Do elapsed token Hi Hr].
  - by apply dispatch_ok.
  - destruct Ha as [HR HC HB HI]. split; try done. unfold unresolved in *. simpl in *. rewrite app_nil_r.
    apply (rec_ok_abandon _ todo). by rewrite <- (assoc_L (++)).
  - destruct Ha as [HR HC HB HI]. split; try done. by eapply rec_ok_cancel.
  - destruct Ha as [HR HC HB HI]. simpl in *. split; simpl; rewrite ?length_app; simpl; try lia.
    eapply rec_ok_perm; [|exact HR]. unfold unresolved. simpl. rewrite fmap_app. simpl. solve_Permutation.
  - eapply resolve_busy; [done|done|]. intros r Hpa (H1 & H2 & H3). split; [done|]. right. auto.
  - apply requestExpected_attempted in Hr as (Hat & Hidx & Hkey). eapply resolve_busy; [done|done|].
    intros r0 (P1 & P2 & P3 & P4) _. split; [by repeat split|]. by left.
Qed.

Lemma arrival_start_ok : 0 <= MaxCatchUp c -> 0 <= MaxPending c -> 0 <= Workers c -> arrival_ok (arrivalStart c jobs).
Proof.
  intros Hm Hp Hw. split; simpl; try lia.
  - unfold unresolved. simpl. split.
    + by rewrite length_fmap.
    + apply NoDup_alt. intros i i' j Hi Hi'. by eapply jobs_inj.
    + intros j [k Hk]%list_elem_of_lookup. by exists k.
    + intros k r j Hk Hj. rewrite list_lookup_fmap, Hj in Hk. injection Hk as <-. split; [done|]. split; [done|].
      intros H. destruct H. by eapply list_elem_of_lookup_2.
  - unfold catchUpLimit. destruct (MaxCatchUp c =? 0); lia.
Qed.

Lemma arrival_steps_ok a a' : 0 <= MaxCatchUp c -> arrival_ok a -> rtc arrival_step a a' -> arrival_ok a'.
Proof. intros Hm Ha Hr. induction Hr; eauto using arrival_step_ok. Qed.
End RunFacts.

(** ** Proofs: the counts *)
Definition attempted (r : BRecord) : Prop := r_Attempted r = true.
Definition succeeded (r : BRecord) : Prop := r_Attempted r = true /\ r_Error r = "" /\ r_Incorrect r = false.
Definition dropped_for (reason : string) (r : BRecord) : Prop := r_Attempted r = false /\ r_DropReason r = reason.
Definition answered_with (status : Z) (r : BRecord) : Prop := r_Attempted r = true /\ r_Status r = status.
#[export] Instance attempted_dec r : Decision (attempted r).
Proof. unfold attempted. apply _. Defined.
#[export] Instance succeeded_dec r : Decision (succeeded r).
Proof. unfold succeeded. apply _. Defined.
#[export] Instance dropped_for_dec reason r : Decision (dropped_for reason r).
Proof. unfold dropped_for. apply _. Defined.
#[export] Instance answered_with_dec status r : Decision (answered_with status r).
Proof. unfold answered_with. apply _. Defined.


Lemma bump_lookup `{Countable K} (k k' : K) (m : gmap K Z) :
  default 0 (bump k m !! k') = default 0 (m !! k') + (if decide (k = k') then 1 else 0).
Proof.
  unfold bump. destruct (decide (k = k')) as [->|Hne]; [by rewrite lookup_insert_eq|].
  rewrite lookup_insert_ne by done. lia.
Qed.

(** What the loop has computed after the records [l]. *)
Record tally_of (l : list BRecord) (t : tally) : Prop := {
  to_dispatched : t_dispatched t = count (fun r => r_Dispatched r = true) l;
  to_attempted : t_attempted t = count attempted l;
  to_dropped : t_dropped t = count (fun r => r_Attempted r = false) l;
  to_success : t_success t = count succeeded l;
  to_errors : t_errors t = count (fun r => attempted r /\ r_Error r <> "") l;
  to_incorrect : t_incorrect t = count (fun r => attempted r /\ r_Incorrect r = true) l;
  to_reasons : forall reason, default 0 (t_reasons t !! reason) = count (dropped_for reason) l;
  to_statuses : forall status, default 0 (t_statuses t !! status) = count (answered_with status) l;
  to_service : t_service t = r_Elapsed <$> filter attempted l;
  to_good : t_good t = r_Elapsed <$> filter succeeded l;
}.

Lemma tally_of_fold l : tally_of l (foldl tallyOne tally0 l).
Proof.
  induction l as [|r l IH] using rev_ind; [by split|]. rewrite foldl_app. cbn [foldl].
  destruct IH as [I1 I2 I3 I4 I5 I6 I7 I8 I9 I10]. set (t := foldl tallyOne tally0 l) in *.
  unfold tallyOne. cbv zeta. destruct (r_Attempted r) eqn:Ea; cbn [negb];
    (split; cbn [t_dispatched t_attempted t_dropped t_success t_errors t_incorrect t_reasons t_statuses t_service t_good];
     [..|intros reason|intros status| |]);
    rewrite ?count_app, ?count_one, ?filter_app, ?fmap_app, ?bump_lookup, <- ?I1, <- ?I2, <- ?I3, <- ?I4, <- ?I5, <- ?I6,
      <- ?I7, <- ?I8, <- ?I9, <- ?I10, ?filter_cons;
    repeat case_decide; unfold attempted, succeeded, dropped_for, answered_with in *;
    destruct (r_Dispatched r) eqn:Ed, (r_Incorrect r) eqn:Ei, (String.eqb_spec (r_Error r) ""); cbn [negb andb];
    try lia; try (exfalso; intuition congruence); try (by rewrite app_nil_r); reflexivity.
Qed.

(** The attempted and the dropped partition the records. *)
Lemma attempted_or_dropped l : count attempted l + count (fun r => r_Attempted r = false) l = Z.of_nat (length l).
Proof.
  induction l as [|r l IH]; [done|]. change (r :: l) with ([r] ++ l). rewrite !count_app, !count_one, length_app, Nat2Z.inj_add, <- IH.
  repeat case_decide; unfold attempted in *; destruct (r_Attempted r); try done; simpl; lia.
Qed.

Section Accounting.
Variable sha256 : string -> string.
Variable decodeValue : string -> option (string * Z).
Variable decodeWrite : string -> WriteAck * bool.
Variable draw : Z -> Z.

Lemma finished_records c jobs a :
  (forall k j, jobs !! k = Some j -> j_index j = Z.of_nat k) -> arrival_ok c jobs a -> arrivalDone a ->
  length (a_records a) = length jobs /\
  forall k r, a_records a !! k = Some r -> exists j, jobs !! k = Some j /\ planned_as c j r /\ final (a_canceled a) r.
Proof.
  intros Hnum [[HL _ _ Hr] _ _ _] (H1 & H2 & H3). split; [done|]. intros k r Hk.
  destruct (lookup_lt_is_Some_2 jobs k) as [j Hj]; [rewrite <- HL; by eapply lookup_lt_Some|].
  destruct (Hr k r j Hk Hj) as (Ha & _ & Hf). exists j. split; [done|]. split; [done|]. apply Hf.
  unfold unresolved. rewrite H1, H2, H3. simpl. by intros ?%elem_of_nil.
Qed.


(** The dropped records, by reason. *)
Lemma dropped_partition l :
  (forall r, r ∈ l -> r_Attempted r = false -> r_DropReason r ∈ drop_reasons ++ ["canceled"]) ->
  count (fun r => r_Attempted r = false) l =
    count (dropped_for "scheduler_late") l + count (dropped_for "catch_up_limit") l +
    count (dropped_for "client_capacity") l + count (dropped_for "canceled") l.
Proof.
  induction l as [|r l IH]; intros Hl; [done|]. change (r :: l) with ([r] ++ l). rewrite !count_app, !count_one.
  rewrite IH by (intros x Hx; apply Hl; by right). specialize (Hl r ltac:(by left)).
  unfold drop_reasons in Hl. rewrite !elem_of_app, !elem_of_cons, elem_of_nil in Hl.
  assert (forall reason, (if decide (dropped_for reason r) then 1 else 0) =
    if decide (r_Attempted r = false) then (if decide (r_DropReason r = reason) then 1 else 0) else 0) as E.
  { intros reason. unfold dropped_for at 1. repeat case_decide; unfold dropped_for in *; tauto. }
  rewrite !E. destruct (decide (r_Attempted r = false)) as [Hf|Hf]; [|lia].
  specialize (Hl Hf). destruct Hl as [[Hl|[Hl|[Hl|[]]]]|[Hl|[]]]; rewrite Hl; simpl; lia.
Qed.


Lemma planFrom_stage_count c pre stages first base name :
  Stages c = pre ++ stages -> (forall s, s ∈ stages -> stage_ok s) ->
  count (fun j => stageName c j = name) (planFrom draw c stages (Z.of_nat (length pre)) first base) =
  Zsum (fun s => if decide (rs_Name s = name) then requests s else 0) stages.
Proof.
  revert pre first base. induction stages as [|s l IH]; intros pre first base E Hs; [done|]. cbn [planFrom Zsum].
  rewrite count_app. specialize (IH (pre ++ [s])).
  replace (Z.of_nat (length pre) + 1) with (Z.of_nat (length (pre ++ [s]))) by (rewrite length_app; simpl; lia).
  rewrite IH; [|by rewrite <- (assoc_L (++))|intros x Hx; apply Hs; by right]. f_equal.
  assert (forall j, j ∈ planJob draw c (Z.of_nat (length pre)) s base first <$> seqZ 0 (rs_Rate s * rs_Seconds s) ->
    stageName c j = rs_Name s) as Hn.
  { intros j (n & -> & _)%list_elem_of_fmap. unfold stageName. rewrite (proj2 (planJob_index _ _ _ _ _ _ _)), Nat2Z.id, E.
    by rewrite lookup_app_r, Nat.sub_diag by lia. }
  destruct (Hs s ltac:(by left)). case_decide as Hd.
  - rewrite count_all by (intros j Hj; by rewrite (Hn j Hj)). rewrite length_fmap, length_seqZ. unfold requests. nia.
  - apply count_zero. intros j Hj. by rewrite (Hn j Hj).
Qed.

Lemma Zsum_single (l : list RateStage) s :
  NoDup (rs_Name <$> l) -> s ∈ l -> Zsum (fun x => if decide (rs_Name x = rs_Name s) then requests x else 0) l = requests s.
Proof.
  induction l as [|x l IH]; intros Hnd Hs; [by apply elem_of_nil in Hs|]. cbn [fmap list_fmap] in Hnd. apply NoDup_cons in Hnd as [Hx Hnd].
  cbn [Zsum]. apply elem_of_cons in Hs as [->|Hs].
  - rewrite decide_True by done. rewrite Zsum_zero; [lia|]. intros y Hy. rewrite decide_False; [done|].
    intros E. apply Hx. rewrite <- E. by apply list_elem_of_fmap_2.
  - rewrite decide_False; [by rewrite IH|]. intros E. apply Hx. rewrite E. by apply list_elem_of_fmap_2.
Qed.

Lemma plan_stage_count c s : valid_plan c -> s ∈ Stages c -> count (fun j => stageName c j = rs_Name s) (arrivalPlan draw c) = requests s.
Proof.
  intros Hc Hs. pose proof (planFrom_stage_count c [] (Stages c) 0 0 (rs_Name s) eq_refl (vp_stages c Hc)) as E.
  etransitivity; [exact E|].
  by apply Zsum_single; [apply Hc|].
Qed.


Lemma plan_numbered c : valid_plan c -> forall k j, arrivalPlan draw c !! k = Some j -> j_index j = Z.of_nat k.
Proof.
  intros Hc k j Hj. destruct (plan_lookup draw c k j Hc Hj) as (m & s & n & _ & _ & _ & -> & Ek).
  rewrite (proj1 (planJob_index _ _ _ _ _ _ _)). lia.
Qed.

(** What is known of a run of the plan, at any time and when the queue is drained. *)
Lemma arrival_run_ok c start a :
  valid_plan c -> 0 <= Workers c ->
  rtc (arrival_step sha256 decodeValue decodeWrite c start) (arrivalStart c (arrivalPlan draw c)) a ->
  arrival_ok c (arrivalPlan draw c) a.
Proof.
  intros Hc Hw Hrun. pose proof (plan_numbered c Hc) as Hnum.
  eapply arrival_steps_ok; [exact Hnum|apply Hc| |exact Hrun]. apply arrival_start_ok; [exact Hnum|apply Hc..|done].
Qed.

Lemma arrival_drained c start a :
  valid_plan c -> 0 <= Workers c ->
  rtc (arrival_step sha256 decodeValue decodeWrite c start) (arrivalStart c (arrivalPlan draw c)) a -> arrivalDone a ->
  Z.of_nat (length (a_records a)) = Zsum requests (Stages c) /\ forall r, r ∈ a_records a -> final (a_canceled a) r.
Proof.
  intros Hc Hw Hrun Hdone. pose proof (arrival_run_ok c start a Hc Hw Hrun) as Hok.
  destruct (finished_records c _ a (plan_numbered c Hc) Hok Hdone) as [HL Hrec]. split.
  - rewrite HL. apply planFrom_length, (vp_stages c Hc).
  - intros r (k & Hr)%list_elem_of_lookup. destruct (Hrec k r Hr) as (j & _ & _ & Hf). exact Hf.
Qed.

(** The status "passed" is that of a run of successes. *)
Lemma passed_succeeded l canceled :
  reportStatus (arrivalCounts l) canceled = "passed" -> canceled = false /\ forall r, r ∈ l -> succeeded r.
Proof.
  destruct (tally_of_fold l) as [_ _ T3 _ T5 T6 _ _ _ _].
  unfold reportStatus, arrivalCounts. cbv zeta. cbn [ac_Incorrect ac_Dropped ac_Errors]. rewrite T3, T5, T6.
  passes E1. passes E2. passes E3.
  intros _. apply orb_false_iff in E1 as [E1 Ec]. reflect_bool. split; [done|]. intros r Hr.
  pose proof (count_zero_inv _ _ E1 r Hr) as N1. pose proof (count_zero_inv _ _ E2 r Hr) as N2.
  pose proof (count_zero_inv _ _ E3 r Hr) as N3. unfold succeeded, attempted in *.
  destruct (r_Attempted r); [|by destruct N2]. split; [done|]. split.
  - destruct (decide (r_Error r = "")); [done|]. by destruct N3.
  - destruct (r_Incorrect r); [by destruct N1|done].
Qed.

(** C17: an arrival run accounts for every planned request, however the
    dispatcher, the queue, the workers, cancellation and the network
    interleave: at no time do more than max_pending + workers jobs wait or run
    and at no time has the dispatcher caught up more than its limit; when the
    queue is drained, every stage reports exactly its planned requests, the
    attempted and the four kinds of drops partition the plan, every attempted
    request was dispatched, nothing is reported canceled unless the context
    ended, and a status "passed" means that every planned request was made and
    succeeded. *)
Theorem arrival_accounting c start a :
  validateArrival c = None -> 1 <= Keys c -> 0 <= Workers c ->
  rtc (arrival_step sha256 decodeValue decodeWrite c start) (arrivalStart c (arrivalPlan draw c)) a ->
  Z.of_nat (length (a_queue a)) + Z.of_nat (length (a_busy a)) <= MaxPending c + Workers c /\
  0 <= a_catchUp a <= catchUpLimit c /\
  (arrivalDone a ->
   let ct := arrivalCounts (a_records a) in
   ac_Planned ct = Zsum requests (Stages c) /\
   (forall s, s ∈ Stages c -> ac_Planned (st_Counts (stageReport (a_records a) s)) = requests s) /\
   ac_Planned ct = ac_Attempted ct + ac_Dropped ct /\
   ac_Dropped ct = default 0 (ac_DropReasons ct !! "scheduler_late") + default 0 (ac_DropReasons ct !! "catch_up_limit") +
     default 0 (ac_DropReasons ct !! "client_capacity") + default 0 (ac_DropReasons ct !! "canceled") /\
   ac_Success ct <= ac_Attempted ct <= ac_Dispatched ct /\
   (a_canceled a = false -> default 0 (ac_DropReasons ct !! "canceled") = 0) /\
   (reportStatus ct (a_canceled a) = "passed" -> ac_Success ct = Zsum requests (Stages c))).
Proof.
  intros Hv Hk Hw Hrun. pose proof (validateArrival_plan c Hv) as Hc. pose proof (plan_numbered c Hc) as Hnum.
  pose proof (arrival_run_ok c start a Hc Hw Hrun) as Hok.
  split; [apply Hok|]. split; [apply Hok|]. intros Hdone.
  destruct (arrival_drained c start a Hc Hw Hrun Hdone) as [Hplan Hfin].
  destruct (finished_records c _ a Hnum Hok Hdone) as [HL Hrec].
  destruct (tally_of_fold (a_records a)) as [T1 T2 T3 T4 T5 T6 T7 T8 _ _].
  pose proof (passed_succeeded (a_records a) (a_canceled a)) as Hpass. revert Hpass.
  unfold arrivalCounts. cbv zeta. cbn [ac_Planned ac_Attempted ac_Dropped ac_DropReasons ac_Success ac_Dispatched ac_Errors ac_Incorrect reportStatus].
  rewrite T1, T2, T3, T4, !T7. intros Hpass. split_and!.
  - exact Hplan.
  - intros s Hs. unfold stageReport, arrivalCounts. cbn [st_Counts ac_Planned]. rewrite <- (plan_stage_count c s Hc Hs).
    apply (count_lookup (fun r => r_Stage r = rs_Name s)); [exact HL|].
    intros k r j Hr Hj. destruct (Hrec k r Hr) as (j' & Hj' & (_ & _ & Hst & _) & _). rewrite Hj in Hj'. injection Hj' as <-. by rewrite Hst.
  - by rewrite attempted_or_dropped.
  - apply dropped_partition. intros r Hr Hf. destruct (Hfin r Hr) as [[? _]|[_ [H1|[H1 _]]]]; [congruence|set_solver|set_solver].
  - apply count_le. by intros r _ (? & _).
  - apply count_le. intros r Hr H1. unfold attempted in H1. destruct (Hfin r Hr) as [[_ ?]|[? _]]; congruence.
  - intros Hcan. apply count_zero. intros r Hr [H1 H2].
    destruct (Hfin r Hr) as [[? _]|[_ [H3|[_ ?]]]]; [congruence| |congruence].
    rewrite H2 in H3. unfold drop_reasons in H3. set_solver.
  - intros Hst. rewrite <- Hplan. apply count_all. by apply Hpass.
Qed.
End Accounting.

(** ** A concrete experiment: one stage, two requests, the queue full once *)
Definition sample_arrival : BenchConfig :=
  mkBench 0 0 "" "" "hit-miss" 0 [mkStage "warm" 2 1] "http://gw" "gw" "pre" "arrival" 2 128 1 1 0 5 0 0.
Definition no_draw (_ : Z) : Z := 0.

Lemma arrivalPlan_contract_witness :
  length (arrivalPlan no_draw sample_arrival) = 2%nat /\
  exists j, arrivalPlan no_draw sample_arrival !! 1%nat = Some j /\ j_missing j = true /\ j_offset j = 500 * Millisecond.
Proof.
  destruct (arrivalPlan_contract no_draw sample_arrival) as (HL & _ & H & _).
  - vm_compute. reflexivity.
  - discriminate.
  - intros i. split; [discriminate|reflexivity].
  - split; [apply Nat2Z.inj; rewrite HL; reflexivity|].
    destruct (arrivalPlan no_draw sample_arrival !! 1%nat) as [j|] eqn:E; [|vm_compute in E; discriminate E].
    exists j. split; [reflexivity|]. destruct (H 1%nat j E) as (Hi & _ & _ & _ & Hm). specialize (Hm eq_refl).
    split; [rewrite (proj1 Hm), Hi; reflexivity|]. vm_compute in E. injection E as <-. reflexivity.
Defined.

(** The first job is requested and answered with the expected value; the
    second comes too late. *)
Definition sample_answer : Request -> answer :=
  fun _ => Responded (mkResponse 200 (HeaderSet (HeaderSet ∅ "X-SimpleCache-Node" "node-0") "ETag" (clientETag 1)) sample_value) false.

Definition sample_run_end : option arrival :=
  match arrivalPlan no_draw sample_arrival with
  | [j0; j1] =>
      let a0 := arrivalStart sample_arrival [j0; j1] in
      let '(cu1, q1, r1) := dispatchOne sample_arrival 0 j0 0 0 0 true 0 [] (a_records a0) in
      r ← requestExpected sample_digest sample_decode sample_decodeWrite (mkRunner sample_arrival "" None) false sample_answer 5
            (j_index j0) (j_key j0) "GET" 0 1 1 (j_missing j0);
      let r2 := recordJob sample_arrival 0 j0 0 1 9 r r1 in
      let '(cu2, q2, r3) := dispatchOne sample_arrival 0 j1 Second Second Second true cu1 [] r2 in
      Some (mkArrival [] cu2 q2 [] r3 false)
  | _ => None
  end.

Lemma sample_arrival_run a :
  sample_run_end = Some a ->
  rtc (arrival_step sample_digest sample_decode sample_decodeWrite sample_arrival 0)
    (arrivalStart sample_arrival (arrivalPlan no_draw sample_arrival)) a.
Proof.
  unfold sample_run_end. destruct (arrivalPlan no_draw sample_arrival) as [|j0 [|j1 [|]]] eqn:Ep; try done.
  assert (j_missing j0 = false /\ j_offset j0 = 0 /\ j_offset j1 = 500 * Millisecond /\ stageRate sample_arrival j0 = 2 /\ stageRate sample_arrival j1 = 2)
    as (Em & Eo & Eo1 & Er & Er1).
  { vm_compute in Ep. injection Ep as <- <-. by split_and!. }
  unfold dispatchOne. cbv zeta. rewrite Eo, Eo1, Er, Er1. simpl. intros (r & Hr & [= <-])%bind_Some.
  eapply rtc_l; [apply (as_dispatch _ _ _ _ _ j0 [j1] 0 [] [] _ false 0 0 0 true); [intros _; reflexivity|done]|].
  unfold dispatchOne. cbv zeta. rewrite Eo, Er. simpl.
  eapply rtc_l; [apply as_take; reflexivity|]. simpl.
  eapply rtc_l; [apply (as_request _ _ _ _ _ _ _ _ _ _ _ 0 j0 0 1 9 r false sample_answer 5 ""); [reflexivity|exact Hr]|]. simpl.
  eapply rtc_l; [apply (as_dispatch _ _ _ _ _ j1 [] 1 [] [] _ false Second Second Second true); [intros _; reflexivity|done]|].
  unfold dispatchOne. cbv zeta. rewrite Eo1, Er1. simpl. apply rtc_refl.
Qed.

Lemma arrival_accounting_witness :
  exists a, sample_run_end = Some a /\ ac_Planned (arrivalCounts (a_records a)) = 2 /\
    ac_Planned (arrivalCounts (a_records a)) = ac_Attempted (arrivalCounts (a_records a)) + ac_Dropped (arrivalCounts (a_records a)) /\
    ac_Attempted (arrivalCounts (a_records a)) = 1.
Proof.
  destruct sample_run_end as [a|] eqn:E; [|vm_compute in E; discriminate E]. exists a. split; [reflexivity|].
  destruct (arrival_accounting sample_digest sample_decode sample_decodeWrite no_draw sample_arrival 0 a) as (_ & _ & H).
  - vm_compute. reflexivity.
  - discriminate.
  - discriminate.
  - exact (sample_arrival_run a E).
  - destruct H as (H1 & _ & H2 & _).
    + vm_compute in E. injection E as <-. repeat split.
    + split; [rewrite H1; reflexivity|]. split; [exact H2|]. vm_compute in E. injection E as <-. vm_compute. reflexivity.
Defined.
