(* ===== verification/LoadRun.v ===== *)
(** * The closed-loop workloads ([run.go] of [internal/bench/gateway])

    The requests a closed-loop run makes and the summary it draws from their
    records. The goroutines of one window share nothing but the counter of the
    committed version; whether a reader sees the store of its window is an
    argument, as are the network and the clock. *)
From S2P Require Import Prelude GoStrings NetAddr Errors LRU CacheStore Bloom Admission Group Read Directory Protocol Postgres Api Measurement Dataset LoadClient Arrival.

(** ** The summary *)
Record Summary := mkSummary {
  sm_Planned : Z; sm_Attempted : Z; sm_Skipped : Z; sm_Success : Z; sm_Errors : Z; sm_Incorrect : Z;
  sm_Rejections : Z; sm_StaleAtStart : Z; sm_Writes : Z; sm_StatusCounts : gmap Z Z;
  sm_Latency : option (Percentiles Duration); sm_ReadLatency : option (Percentiles Duration);
  sm_WriteLatency : option (Percentiles Duration) }.

Record sums := mkSums {
  s_attempted : Z; s_statuses : gmap Z Z; s_all : list Duration; s_reads : list Duration; s_writes : list Duration;
  s_nwrites : Z; s_errors : Z; s_incorrect : Z; s_rejections : Z; s_stale : Z; s_success : Z }.
Definition sums0 : sums := mkSums 0 ∅ [] [] [] 0 0 0 0 0 0.

Definition plus_if (b : bool) (n : Z) : Z := if b then n + 1 else n.

Definition sumOne (s : sums) (r : BRecord) : sums :=
  if negb (r_Attempted r) then s
  else
    let put := String.eqb (r_Method r) "PUT" in
    mkSums (s_attempted s + 1) (bump (r_Status r) (s_statuses s)) (s_all s ++ [r_Elapsed r])
      (if put then s_reads s else s_reads s ++ [r_Elapsed r]) (if put then s_writes s ++ [r_Elapsed r] else s_writes s)
      (plus_if put (s_nwrites s)) (plus_if (negb (String.eqb (r_Error r) "")) (s_errors s))
      (plus_if (r_Incorrect r) (s_incorrect s)) (plus_if (r_Status r =? 503) (s_rejections s))
      (plus_if (r_StaleAtStart r) (s_stale s))
      (plus_if (String.eqb (r_Error r) "" && negb (r_Incorrect r)) (s_success s)).

Definition summarize (planned : Z) (records : list BRecord) : Summary :=
  let s := foldl sumOne sums0 records in
  mkSummary planned (s_attempted s) (planned - s_attempted s) (s_success s) (s_errors s) (s_incorrect s) (s_rejections s)
    (s_stale s) (s_nwrites s) (s_statuses s) (Quantiles Z.le 0 (s_all s)) (Quantiles Z.le 0 (s_reads s))
    (Quantiles Z.le 0 (s_writes s)).

(** The planned number of a scenario. *)
Definition plannedRequests (c : BenchConfig) (trace : list Z) (records : list BRecord) : Z :=
  if String.eqb (Scenario c) "mixed" then Windows c * 20
  else if String.eqb (Scenario c) "ttl" then Z.of_nat (length records)
  else Z.of_nat (length trace).

Definition runError (s : Summary) (ctxErr : option error) : option error :=
  if (sm_Attempted s =? 0) || (0 <? sm_Skipped s) || (0 <? sm_Errors s) || (0 <? sm_Incorrect s)
  then Some (NewError "workload has errors, incorrect values or skipped requests") else ctxErr.

(** ** The mixed workload *)
Definition putOk (r : BRecord) : bool := (r_Status r =? 200) && String.eqb (r_Error r) "" && negb (r_Incorrect r).

Section Mixed.
Variable sha256 : string -> string.
Variable decodeValue : string -> option (string * Z).
Variable decodeWrite : string -> WriteAck * bool.
Variable r : runner.
Variable trace : list Z.
(** By window and slot: the network, the elapsed time, whether the request
    could not be built, and whether a reader's load comes after the store. *)
Variable network : Z -> Z -> Request -> answer.
Variable elapsed : Z -> Z -> Duration.
Variable badURL : Z -> Z -> bool.
Variable late : Z -> Z -> bool.

Definition request (window slot index keyIndex : Z) (method : string) (expected min max : Z) : option BRecord :=
  requestExpected sha256 decodeValue decodeWrite r (badURL window slot) (network window slot) (elapsed window slot)
    index keyIndex method expected min max false.

(** A reader's slot, 1 to 19. *)
Definition mixedRead (window committed : Z) (put : BRecord) (slot : Z) : option BRecord :=
  let proposed := window + 1 + 1 in
  k ← trace !! Z.to_nat ((window * 19 + slot - 1) mod Z.of_nat (length trace));
  let '(lo, hi) := if k =? 0 then ((if late window slot && putOk put then proposed else committed), proposed) else (1, 1) in
  request window slot (window * 20 + slot) k "GET" 0 lo hi.

Definition mixedWindow (window committed : Z) : option (BRecord * list BRecord) :=
  let before := window + 1 in
  put ← request window 0 (window * 20) 0 "PUT" before before (before + 1);
  reads ← mapM (mixedRead window committed put) (seqZ 1 19);
  Some (put, reads).

(** The windows from [window] on, [n] of them; the loop ends after a write
    that did not succeed. [None]: an index out of range. *)
Fixpoint mixedWindows (n : nat) (window committed : Z) : option (list BRecord) :=
  match n with
  | O => Some []
  | S n' =>
      '(put, reads) ← mixedWindow window committed;
      if putOk put then rest ← mixedWindows n' (window + 1) (window + 1 + 1); Some (put :: reads ++ rest)
      else Some (put :: reads)
  end.
Definition mixedRecords : option (list BRecord) := mixedWindows (Z.to_nat (Windows (rn_c r))) 0 1.
End Mixed.

(** ** Proofs: the summary *)
Lemma sums_count l :
  let s := foldl sumOne sums0 l in
  s_attempted s = count attempted l /\ s_success s = count succeeded l /\
  s_errors s = count (fun r => attempted r /\ r_Error r <> "") l /\
  s_incorrect s = count (fun r => attempted r /\ r_Incorrect r = true) l /\
  (forall status, default 0 (s_statuses s !! status) = count (answered_with status) l) /\
  s_rejections s = count (answered_with 503) l.
Proof.
  cbv zeta. induction l as [|r l IH] using rev_ind; [done|]. rewrite foldl_app. cbn [foldl].
  destruct IH as (I1 & I2 & I3 & I4 & I5 & I6). set (s := foldl sumOne sums0 l) in *.
  unfold sumOne, plus_if. cbv zeta. destruct (r_Attempted r) eqn:Ea; cbn [negb];
    split_and!; cbn [s_attempted s_success s_errors s_incorrect s_statuses s_rejections]; try intros status;
    rewrite ?count_app, ?count_one, ?bump_lookup, <- ?I1, <- ?I2, <- ?I3, <- ?I4, <- ?I5, <- ?I6;
    repeat case_decide; unfold attempted, succeeded, answered_with in *;
    destruct (r_Incorrect r) eqn:Ei, (String.eqb_spec (r_Error r) ""), (Z.eqb_spec (r_Status r) 503); cbn [negb andb];
    try lia; try (exfalso; intuition congruence); rewrite I5, <- I6; lia.
Qed.

(** A run without an error made every planned request with success. *)
Lemma run_verdict planned l e :
  runError (summarize planned l) e = None ->
  e = None /\ planned <= count attempted l /\ (forall r, r ∈ l -> attempted r -> succeeded r) /\ 0 < count attempted l.
Proof.
  unfold runError, summarize. cbv zeta. destruct (sums_count l) as (E1 & _ & E3 & E4 & _). cbn [sm_Attempted sm_Skipped sm_Errors sm_Incorrect].
  rewrite E1, E3, E4. passes E. intros ->. reflect_bool.
  pose proof (count_bound attempted l). split_and!; try done; try lia.
  intros r Hr Ha. unfold succeeded. split; [done|].
  match goal with H : count (fun r => attempted r /\ r_Error r <> "") l <= 0 |- _ => pose proof (count_zero_inv _ _ H r Hr) as N1 end.
  match goal with H : count (fun r => attempted r /\ r_Incorrect r = true) l <= 0 |- _ => pose proof (count_zero_inv _ _ H r Hr) as N2 end.
  cbv beta in N1, N2. split; [destruct (decide (r_Error r = "")); [done|]; exfalso; by apply N1|]. destruct (r_Incorrect r); [exfalso; by apply N2|done].
Qed.

(** ** Proofs: the mixed workload *)
Section MixedFacts.
Variable sha256 : string -> string.
Variable decodeValue : string -> option (string * Z).
Variable decodeWrite : string -> WriteAck * bool.
Variable r : runner.
Variable trace : list Z.
Variable network : Z -> Z -> Request -> answer.
Variable elapsed : Z -> Z -> Duration.
Variable badURL : Z -> Z -> bool.
Variable late : Z -> Z -> bool.
Notation request := (request sha256 decodeValue decodeWrite r network elapsed badURL).
Notation mixedWindows := (mixedWindows sha256 decodeValue decodeWrite r trace network elapsed badURL late).
Notation mixedRecords := (mixedRecords sha256 decodeValue decodeWrite r trace network elapsed badURL late).

(** Three different nodes have acknowledged. *)
Definition acknowledged_by_three (ack : WriteAck) : Prop :=
  wa_Complete ack = true /\ length (wa_Results ack) = 3%nat /\ NoDup (wa_Results ack).*1 /\
  forall node status, (node, status) ∈ wa_Results ack -> status = "ok".

Lemma badAcks_false results seen :
  badAcks results seen = false ->
  NoDup results.*1 /\ (forall n, n ∈ results.*1 -> n ∉ seen) /\ forall node status, (node, status) ∈ results -> status = "ok".
Proof.
  revert seen. induction results as [|[node status] l IH]; intros seen; cbn [badAcks].
  - intros _. split; [constructor|]. split; [|intros ? ? H; by apply elem_of_nil in H]. intros n H. cbn in H. by apply elem_of_nil in H.
  - intros H. apply orb_false_iff in H as [H H3]. apply orb_false_iff in H as [H1 H2].
    apply negb_false_iff, String.eqb_eq in H1 as ->. apply bool_decide_eq_false in H2.
    destruct (IH _ H3) as (Hnd & Hseen & Hok). cbn [fmap list_fmap fst]. split; [|split].
    + constructor; [|done]. intros Hin. apply (Hseen _ Hin). by left.
    + intros n [->|Hn]%elem_of_cons; [done|]. intros Hs. apply (Hseen n Hn). by right.
    + intros n st [[= -> ->]|Hn]%elem_of_cons; [done|]. by eapply Hok.
Qed.

Lemma productValue_error c i v e : productValue sha256 c i v = inr e -> Error e <> "".
Proof. unfold productValue. destruct (sizeClass _ _ _) as [size class]. cbv zeta. repeat case_bool; intros [= <-]; done. Qed.

(** A write recorded without error was acknowledged as the next version by
    three nodes. *)
Lemma put_acknowledged window put :
  request window 0 (window * 20) 0 "PUT" (window + 1) (window + 1) (window + 1 + 1) = Some put -> r_Error put = "" -> r_Incorrect put = false ->
  r_Method put = "PUT" /\ r_Version put = window + 2 /\
  exists data ack, decodeWrite data = (ack, false) /\ wa_Committed ack = Some true /\ wa_Version ack = window + 2 /\
    wa_InvalidationVersion ack = window + 2 /\ acknowledged_by_three ack.
Proof.
  unfold LoadRun.request, requestExpected. cbv zeta. change (String.eqb "PUT" "PUT") with true. cbv iota.
  destruct (productValue _ _ _ _) as [body|err] eqn:Ev.
  2: { intros [= <-] He _. exfalso. simpl in He. by destruct (productValue_error _ _ _ _ Ev). }
  destruct (badURL window 0); [by intros [= <-]|]. destruct (network _ _ _) as [|resp readErr]; [by intros [= <-]|].
  destruct readErr; [by intros [= <-]|]. cbn [andb].
  destruct (StatusCode resp =? 200) eqn:Es; cbn [negb]; [|by intros [= <-]].
  destruct (decodeWrite _) as [ack failed] eqn:Ed. intros [= <-]. cbn [outcome r_Status r_Error r_Incorrect r_Method r_Version].
  intros _ Hok. unfold badWrite in Hok.
  destruct (_ || _) eqn:Eb; [done|]. apply badAcks_false in Hok as (Hnd & _ & Hall).
  repeat (apply orb_false_iff in Eb as [Eb ?]). destruct failed; [done|]. reflect_bool.
  split; [done|]. split; [lia|]. eexists _, ack. split; [exact Ed|].
  destruct (wa_Committed ack) as [[]|]; [|done..]. split; [done|]. split; [lia|]. split; [lia|].
  split_and!; try done; by apply Nat.eqb_eq || done.
Qed.

Lemma window_lookup (put : BRecord) (reads rest : list BRecord) (i : nat) :
  19%nat = length reads -> (put :: reads ++ rest) !! (20 * S i)%nat = rest !! (20 * i)%nat.
Proof.
  intros HL. replace (20 * S i)%nat with (length (put :: reads) + 20 * i)%nat by (simpl; lia).
  by rewrite (app_comm_cons reads rest put), lookup_app_r, Nat.add_comm, Nat.add_sub by lia.
Qed.

Lemma mixedWindows_blocks n window committed l :
  mixedWindows n window committed = Some l ->
  exists m, (m <= n)%nat /\ length l = (20 * m)%nat /\
    (forall i, (i < m)%nat -> exists put, l !! (20 * i)%nat = Some put /\
       request (window + Z.of_nat i) 0 ((window + Z.of_nat i) * 20) 0 "PUT" (window + Z.of_nat i + 1)
         (window + Z.of_nat i + 1) (window + Z.of_nat i + 1 + 1) = Some put /\ ((S i < m)%nat -> putOk put = true)) /\
    ((m < n)%nat -> exists put, l !! (20 * (m - 1))%nat = Some put /\ putOk put = false).
Proof.
  revert window committed l. induction n as [|n IH]; intros window committed l; cbn [LoadRun.mixedWindows].
  { intros [= <-]. exists 0%nat. split; [lia|]. split; [done|]. split; lia. }
  intros ([put reads] & Hw & H)%bind_Some. unfold mixedWindow in Hw. apply bind_Some in Hw as (put' & Hput & Hw).
  apply bind_Some in Hw as (reads' & Hreads & [= -> ->]). apply length_mapM in Hreads. rewrite length_seqZ in Hreads.
  change (Z.to_nat 19) with 19%nat in Hreads.
  destruct (putOk put) eqn:Ep.
  - apply bind_Some in H as (rest & Hrest & [= <-]). destruct (IH _ _ _ Hrest) as (m & Hm & HL & Hblocks & Hlast).
    exists (S m). split; [lia|]. split; [simpl; rewrite length_app; lia|]. split.
    + intros [|i] Hi.
      * exists put. rewrite Z.add_0_r. by split_and!.
      * destruct (Hblocks i ltac:(lia)) as (p & Hp & Hr & Hok). exists p. rewrite window_lookup by done.
        replace (window + Z.of_nat (S i)) with (window + 1 + Z.of_nat i) by lia.
        split; [done|]. split; [done|]. intros Hi'. apply Hok. lia.
    + intros Hlt. destruct Hlast as (p & Hp & Hok); [lia|]. exists p. split; [|done].
      destruct m as [|m]; [simpl in HL; destruct rest; [done|simpl in HL; lia]|].
      change (S (S m) - 1)%nat with (S m). rewrite window_lookup by done. by replace m with (S m - 1)%nat by lia.
  - injection H as <-. exists 1%nat. split; [lia|]. split; [simpl; lia|]. split.
    + intros i Hi. assert (i = 0)%nat as -> by lia. exists put. rewrite Z.add_0_r. split; [done|]. split; [done|lia].
    + intros _. by exists put.
Qed.

(** A mixed run without an error made all twenty requests of every window. *)
Lemma mixed_perfect l e :
  mixedRecords = Some l -> 0 <= Windows (rn_c r) -> runError (summarize (Windows (rn_c r) * 20) l) e = None ->
  Z.of_nat (length l) = 20 * Windows (rn_c r) /\ forall rec, rec ∈ l -> succeeded rec.
Proof.
  intros Hl Hwin Hv. unfold LoadRun.mixedRecords in Hl. destruct (mixedWindows_blocks _ _ _ _ Hl) as (m & Hm & HL & _ & _).
  destruct (run_verdict _ _ _ Hv) as (_ & Hpl & Hall & _). pose proof (count_bound attempted l) as Hb.
  assert (Z.of_nat (length l) = 20 * Windows (rn_c r)) as HLz by lia. split; [done|].
  intros rec Hrec. apply Hall; [done|]. pose proof (attempted_or_dropped l) as Hp.
  assert (count (fun r => r_Attempted r = false) l <= 0) as H0 by lia.
  pose proof (count_zero_inv _ _ H0 rec Hrec) as Hn. unfold attempted. destruct (r_Attempted rec) eqn:Er; [done|]. by destruct Hn.
Qed.

(** C28: the mixed workload never writes over an unknown outcome, and passes
    only on a perfect run: the write of a window is attempted only after every
    earlier window's write was acknowledged as the next version by three
    different nodes; and a run that reports no error made all twenty requests
    of every window, each with a correct answer, the writes moving the product
    through the versions 2, 3, and so on without a gap. *)
Theorem mixed_run_passes l e :
  0 <= Windows (rn_c r) -> mixedRecords = Some l ->
  (forall i put, l !! (20 * i)%nat = Some put -> forall k, (k < i)%nat ->
     exists prev, l !! (20 * k)%nat = Some prev /\ r_Method prev = "PUT" /\ r_Version prev = Z.of_nat k + 2 /\
       exists data ack, decodeWrite data = (ack, false) /\ wa_Version ack = Z.of_nat k + 2 /\ acknowledged_by_three ack) /\
  (runError (summarize (Windows (rn_c r) * 20) l) e = None ->
     Z.of_nat (length l) = 20 * Windows (rn_c r) /\ (forall rec, rec ∈ l -> succeeded rec) /\
     forall i, (i < Z.to_nat (Windows (rn_c r)))%nat ->
       exists put, l !! (20 * i)%nat = Some put /\ r_Method put = "PUT" /\ r_Version put = Z.of_nat i + 2).
Proof.
  intros Hwin Hl. destruct (mixedWindows_blocks _ _ _ _ Hl) as (m & Hm & HL & Hblocks & Hlast).
  split.
  - intros i put Hi k Hk. apply lookup_lt_Some in Hi. destruct (Hblocks k ltac:(lia)) as (prev & Hp & Hr & Hok).
    specialize (Hok ltac:(lia)). exists prev. split; [done|].
    apply andb_true_iff in Hok as [Hok Hinc]. apply andb_true_iff in Hok as [_ Herr].
    destruct (put_acknowledged _ _ Hr (proj1 (String.eqb_eq _ _) Herr) (proj1 (negb_true_iff _) Hinc))
      as (H1 & H2 & data & ack & H3 & _ & H4 & _ & H5).
    split; [done|]. split; [lia|]. exists data, ack. split; [done|]. split; [lia|done].
  - intros Hv. destruct (mixed_perfect l e Hl Hwin Hv) as [HLz Hall].
    split; [done|]. split; [done|]. intros i Hi. destruct (Hblocks i ltac:(lia)) as (put & Hp & Hr & _).
    destruct (Hall put) as (_ & Herr & Hinc); [by eapply list_elem_of_lookup_2|].
    destruct (put_acknowledged _ _ Hr Herr Hinc) as (H1 & H2 & _). exists put. split; [done|]. split; [done|lia].
Qed.
End MixedFacts.

(** ** A concrete mixed run of one window *)
Definition mixed_config : BenchConfig := mkBench 0 0 "" "" "" 0 [] "http://gw" "gw" "pre" "mixed" 1 128 20 1 0 5 1 0.
Definition good_ack : WriteAck := mkAck (Some true) 2 true 2 [("a", "ok"); ("b", "ok"); ("c", "ok")].
Definition mixed_records : option (list BRecord) :=
  mixedRecords sample_digest sample_decode (fun _ => (good_ack, false)) (mkRunner mixed_config "token" None) [0]
    (fun _ _ => sample_answer) (fun _ _ => 5) (fun _ _ => false) (fun _ _ => false).

Lemma mixed_run_passes_witness :
  exists l put, mixed_records = Some l /\ runError (summarize 20 l) None = None /\ length l = 20%nat /\
    l !! 0%nat = Some put /\ r_Version put = 2.
Proof.
  destruct mixed_records as [l|] eqn:E; [|vm_compute in E; discriminate E].
  assert (runError (summarize 20 l) None = None) as Hv by (vm_compute in E; injection E as <-; vm_compute; reflexivity).
  destruct (mixed_run_passes sample_digest sample_decode (fun _ => (good_ack, false)) (mkRunner mixed_config "token" None) [0]
    (fun _ _ => sample_answer) (fun _ _ => 5) (fun _ _ => false) (fun _ _ => false) l None) as [_ H].
  - discriminate.
  - exact E.
  - destruct (H Hv) as (HL & _ & Hput). destruct (Hput 0%nat) as (put & Hp & _ & Hver); [apply Nat.ltb_lt; reflexivity|].
    exists l, put. split; [reflexivity|]. split; [exact Hv|]. split; [apply Nat2Z.inj; rewrite HL; reflexivity|].
    split; [exact Hp|exact Hver].
Defined.
