(* ===== verification/Probe.v ===== *)
(** * The continuity probe ([internal/validation/probe/run.go]) and the demo
      client ([internal/bench/democlient/client.go])

    The probe's workers are a step relation over their program points; the
    network, the clock, the end of the context and what is found at the path of
    the stop file are chosen by the environment. How a run ends is in
    [Programs]. [quoted] is [strconv.Quote], whose table of printable characters
    is a parameter. *)
From S2P Require Import Prelude GoStrings NetAddr Errors LRU CacheStore Bloom Admission Group Read Directory Protocol Postgres Api Config Bootstrap Demo Measurement Dataset LoadClient.

(** ** The demo client *)
Definition maxBodyBytes : Z := 1048576.

Record ReadResult := mkRead {
  rr_Failed : bool; rr_Incorrect : bool; rr_Status : Z; rr_Elapsed : Duration; rr_Detail : string }.

(** [ForceQuery] of [url.Parse]: the only question mark ends the URL. *)
Definition ForceQuery (raw : string) : bool :=
  match cut "?" raw with Some (_, q) => String.eqb q "" | None => false end.

(** [%v] of a bool *)
Definition FormatBool (b : bool) : string := if b then "true" else "false".

Section Client.
Variable parseIPLiteral : string -> option string.
Variable quoted : string -> string.

Definition ValidateOrigin (origin : string) : option error :=
  match url_Parse parseIPLiteral origin with
  | None => fails "require an HTTP(S) origin without credentials, path, query or fragment"
  | Some u =>
      if (negb (String.eqb (u_Scheme u) "http") && negb (String.eqb (u_Scheme u) "https")) || String.eqb (u_Host u) "" ||
         u_User u || (negb (String.eqb (u_Path u) "") && negb (String.eqb (u_Path u) "/")) ||
         negb (String.eqb (u_RawQuery u) "") || ForceQuery origin || contains_byte "#" origin
      then fails "require an HTTP(S) origin without credentials, path, query or fragment"
      else None
  end.

(** The request that reaches the node: the origin has no path and no query. *)
Definition readRequest (key : string) : Request :=
  mkRequest "GET" "/api" ("key=" +:+ plus_to_percent20 (QueryEscape key)) ∅ [].

Definition Read (badURL : bool) (Do : Request -> answer) (elapsed : Duration) (origin key : string) (valueBytes : Z)
    : ReadResult :=
  match ValidateOrigin origin with
  | Some err => mkRead true false 0 elapsed (Error err)
  | None =>
      if badURL then mkRead true false 0 elapsed "request construction failed"
      else match Do (readRequest key) with
      | TransportFailed => mkRead true false 0 elapsed "transport or deadline failure"
      | Responded response readErr =>
          let body := slice 0 (Z.to_nat (maxBodyBytes + 1)) (RespBody response) in
          let oversized := maxBodyBytes <? slen body in
          let failed := readErr || negb (StatusCode response =? StatusOK) || oversized in
          let incorrect := negb failed && negb (String.eqb body (Demo.AutoValue key valueBytes)) in
          mkRead failed incorrect (StatusCode response) elapsed
            (if failed || incorrect then
               "key=" +:+ quoted key +:+ " status=" +:+ FormatInt (StatusCode response) +:+
               " body_prefix=" +:+ quoted (if 256 <? slen body then slice 0 256 body else body) +:+
               " read_failed=" +:+ FormatBool readErr +:+ " oversized=" +:+ FormatBool oversized
             else "")
      end
  end.

(** ** The options of the probe *)
Record Options := mkOptions {
  op_Origin : string; op_Dir : string; op_Workers : Z; op_Duration : Duration; op_Interval : Duration }.

Definition normalize (o : Options) : Options * option error :=
  let o := mkOptions (op_Origin o) (op_Dir o) (if op_Workers o =? 0 then 4 else op_Workers o)
             (if op_Duration o =? 0 then 3 * Minute else op_Duration o)
             (if op_Interval o =? 0 then 100 * Millisecond else op_Interval o) in
  match ValidateOrigin (op_Origin o) with
  | Some err => (o, Some err)
  | None =>
      if String.eqb (op_Dir o) "" || (op_Workers o <? 1) || (32 <? op_Workers o) || (op_Duration o <=? 0) ||
         (3 * Minute <? op_Duration o) || (op_Interval o <=? 0) || (Second <? op_Interval o)
      then (o, fails "invalid bounded continuity probe options")
      else (o, None)
  end.

(** ** The run *)

(** Where a worker is in round [i] of its loop. *)
Inductive worker := Top (i : Z) | Looking (i : Z) | Asking (i : Z) | Waiting (i : Z) | Gone.
(** What [os.Stat] says of the stop file. *)
Inductive found := Exists | NotExist | StatError (err : error).

(** [pb_log] is the history of the reads: worker, round, the answer that came
    over the network, and the result. *)
Record probe := mkProbe {
  pb_workers : list worker;
  pb_durations : list Duration;
  pb_errors : Z;
  pb_incorrect : Z;
  pb_examples : list string;
  pb_stopped : bool;
  pb_control : option error;
  pb_ended : bool;
  pb_log : list (nat * Z * answer * ReadResult);
}.

Definition probeStart (workers : Z) : probe :=
  mkProbe (replicate (Z.to_nat workers) (Top 0)) [] 0 0 [] false None false [].

Definition at_point (w : nat) (pc : worker) (p : probe) : probe :=
  mkProbe (<[w := pc]> (pb_workers p)) (pb_durations p) (pb_errors p) (pb_incorrect p) (pb_examples p) (pb_stopped p)
    (pb_control p) (pb_ended p) (pb_log p).
Definition endProbe (p : probe) : probe :=
  mkProbe (pb_workers p) (pb_durations p) (pb_errors p) (pb_incorrect p) (pb_examples p) (pb_stopped p) (pb_control p)
    true (pb_log p).

Definition look (w : nat) (i : Z) (st : found) (p : probe) : probe :=
  match st with
  | Exists =>
      at_point w Gone (mkProbe (pb_workers p) (pb_durations p) (pb_errors p) (pb_incorrect p) (pb_examples p) true
        (pb_control p) (pb_ended p) (pb_log p))
  | NotExist => at_point w (Asking i) p
  | StatError err =>
      at_point w Gone (endProbe (mkProbe (pb_workers p) (pb_durations p) (pb_errors p) (pb_incorrect p) (pb_examples p)
        (pb_stopped p) (Some err) (pb_ended p) (pb_log p)))
  end.

Definition probeKey (w : nat) (i : Z) : string := Demo.autoKey ((Z.of_nat w * 2000 + i) mod AutoKeys).

(** The answer to the request of a read, when it could be made. *)
Definition heard (badURL : bool) (Do : Request -> answer) (key : string) : answer :=
  if badURL then TransportFailed else Do (readRequest key).

(** The critical section after a read. *)
Definition note (w : nat) (i : Z) (heard : answer) (result : ReadResult) (p : probe) : probe :=
  let bad := rr_Failed result || rr_Incorrect result in
  mkProbe (pb_workers p) (pb_durations p ++ [rr_Elapsed result])
    (if rr_Failed result then pb_errors p + 1 else pb_errors p)
    (if rr_Incorrect result then pb_incorrect p + 1 else pb_incorrect p)
    (if bad && (length (pb_examples p) <? 10)%nat then pb_examples p ++ [rr_Detail result] else pb_examples p)
    (pb_stopped p) (pb_control p) (pb_ended p) (pb_log p ++ [(w, i, heard, result)]).

Variable o : Options.

Inductive probe_step : probe -> probe -> Prop :=
| ps_top w i p : pb_workers p !! w = Some (Top i) ->
    probe_step p (at_point w (if pb_ended p then Gone else Looking i) p)
| ps_look w i st p : pb_workers p !! w = Some (Looking i) -> probe_step p (look w i st p)
| ps_read w i badURL Do elapsed p : pb_workers p !! w = Some (Asking i) ->
    probe_step p (at_point w (Waiting i) 
      (note w i (heard badURL Do (probeKey w i)) (Read badURL Do elapsed (op_Origin o) (probeKey w i) 0) p))
| ps_done w i p : pb_workers p !! w = Some (Waiting i) -> pb_ended p = true -> probe_step p (at_point w Gone p)
| ps_timer w i p : pb_workers p !! w = Some (Waiting i) -> probe_step p (at_point w (Top (i + 1)) p)
| ps_end p : probe_step p (endProbe p).
End Client.

(** [wg.Wait] returns. *)
Definition probeDone (p : probe) : Prop := Forall (eq Gone) (pb_workers p).

Record ProbeSummary := mkProbeSummary {
  ps_Requests : Z; ps_Errors : Z; ps_Incorrect : Z; ps_Quantiles : option (Percentiles Duration);
  ps_FailureExamples : list string; ps_StopSeen : bool; ps_Status : string }.

Definition probeSummary (p : probe) : ProbeSummary :=
  let requests := Z.of_nat (length (pb_durations p)) in
  mkProbeSummary requests (pb_errors p) (pb_incorrect p) (Quantiles Z.le 0 (pb_durations p)) (pb_examples p) (pb_stopped p)
    (if (requests =? 0) || negb (pb_errors p =? 0) || negb (pb_incorrect p =? 0) || negb (pb_stopped p) || pb_ended p ||
        match pb_control p with Some _ => true | None => false end
     then "failed" else "passed").

(** ** Proofs: one read *)
Definition good (r : ReadResult) : Prop := rr_Failed r = false /\ rr_Incorrect r = false.
Definition answered_exactly (key value : string) (Do : Request -> answer) : Prop :=
  exists resp, Do (readRequest key) = Responded resp false /\ StatusCode resp = 200 /\ RespBody resp = value.

Lemma limited_read n body : (String.length (slice 0 n body) < n)%nat -> slice 0 n body = body.
Proof.
  unfold slice. rewrite Nat.sub_0_r. intros H. destruct (Nat.le_gt_cases (String.length body) n) as [Hb|Hb].
  - by apply substring_short.
  - rewrite substring_length in H by lia. lia.
Qed.

Section ClientFacts.
Variable parseIPLiteral : string -> option string.
Variable quoted : string -> string.
Notation ValidateOrigin := (ValidateOrigin parseIPLiteral).
Notation Read := (Read parseIPLiteral quoted).

(** A read is good exactly when a complete answer 200 with the generated value
    arrived for it. *)
Lemma Read_good badURL Do elapsed origin key vb :
  ValidateOrigin origin = None -> 0 <= vb <= MaxDiagnosticValueBytes -> slen key <= 100 ->
  good (Read badURL Do elapsed origin key vb) <-> badURL = false /\ answered_exactly key (Demo.AutoValue key vb) Do.
Proof.
  intros Ho Hvb Hk. unfold Probe.Read. rewrite Ho. destruct badURL; [split; [by intros [? _]|by intros [? _]]|].
  unfold answered_exactly. destruct (Do (readRequest key)) as [|resp readErr]; [split; [by intros [? _]|by intros (_ & ? & ? & _)]|].
  cbv zeta. unfold good. cbn [rr_Failed rr_Incorrect].
  remember (Z.to_nat (maxBodyBytes + 1)) as n eqn:En.
  assert (Z.of_nat n = maxBodyBytes + 1) as Hn by (subst n; unfold maxBodyBytes; lia). clear En.
  assert (slen (Demo.AutoValue key vb) <= maxBodyBytes) as Hshort
    by (rewrite AutoValue_length; unfold MaxDiagnosticValueBytes, maxBodyBytes in *; lia).
  split.
  - intros [Hf Hi]. split; [done|]. rewrite Hf in Hi. cbn [negb andb] in Hi. apply orb_false_iff in Hf as [Hf Hl].
    apply orb_false_iff in Hf as [-> Hs]. apply negb_false_iff in Hs, Hi. apply Z.eqb_eq in Hs. apply String.eqb_eq in Hi.
    rewrite limited_read in Hi; [by exists resp|]. rewrite Hi. unfold slen in Hshort. lia.
  - intros (_ & resp' & [= -> ->] & Hs & Hb). rewrite Hs, Hb.
    assert (slice 0 n (Demo.AutoValue key vb) = Demo.AutoValue key vb) as ->.
    { unfold slice. rewrite Nat.sub_0_r. apply substring_short. unfold slen in Hshort. lia. }
    rewrite (proj2 (Z.ltb_ge maxBodyBytes _) Hshort), String.eqb_refl. done.
Qed.

Lemma Read_exclusive badURL Do elapsed origin key vb :
  rr_Failed (Read badURL Do elapsed origin key vb) = true -> rr_Incorrect (Read badURL Do elapsed origin key vb) = false.
Proof.
  unfold Probe.Read. destruct (ValidateOrigin origin); [done|]. destruct badURL; [done|].
  destruct (Do (readRequest key)) as [|resp readErr]; [done|]. cbv zeta. cbn [rr_Failed rr_Incorrect]. by intros ->.
Qed.
End ClientFacts.

Lemma probeKey_short w i : slen (probeKey w i) <= 100 /\ ValidateKey (probeKey w i) = None.
Proof.
  assert (0 <= (Z.of_nat w * 2000 + i) mod AutoKeys < AutoKeys) as Hi by (apply Z.mod_pos_bound; unfold AutoKeys; lia).
  destruct (key_valid 0 (probeKey w i)) as [H1 H2]; [|done]. unfold probeKey. rewrite allValues_auto by done. by eexists.
Qed.

(** ** Proofs: the run *)
Definition failed_read (e : nat * Z * answer * ReadResult) : Prop := rr_Failed e.2 = true.
Definition incorrect_read (e : nat * Z * answer * ReadResult) : Prop := rr_Incorrect e.2 = true.
Definition bad_read (e : nat * Z * answer * ReadResult) : Prop := failed_read e \/ incorrect_read e.
Definition of_worker (w : nat) (e : nat * Z * answer * ReadResult) : Prop := e.1.1.1 = w.
#[export] Instance failed_read_dec e : Decision (failed_read e).
Proof. unfold failed_read. apply _. Defined.
#[export] Instance incorrect_read_dec e : Decision (incorrect_read e).
Proof. unfold incorrect_read. apply _. Defined.
#[export] Instance bad_read_dec e : Decision (bad_read e).
Proof. unfold bad_read. apply _. Defined.
#[export] Instance of_worker_dec w e : Decision (of_worker w e).
Proof. unfold of_worker. apply _. Defined.

(** The rounds a worker has read in, in the order of the reads. *)
Definition rounds (w : nat) (log : list (nat * Z * answer * ReadResult)) : list Z := (fun e => e.1.1.2) <$> filter (of_worker w) log.

(** The number of reads a worker at a program point has made. *)
Definition reads_made (pc : worker) (n : Z) : Prop :=
  match pc with Top i | Looking i | Asking i => n = i | Waiting i => n = i + 1 | Gone => True end.

Section RunFacts.
Variable parseIPLiteral : string -> option string.
Variable quoted : string -> string.
Variable o : Options.
Notation Read := (Read parseIPLiteral quoted).
Notation probe_step := (probe_step parseIPLiteral quoted o).

Record probe_ok (p : probe) : Prop := {
  po_durations : pb_durations p = (fun e => rr_Elapsed e.2) <$> pb_log p;
  po_errors : pb_errors p = count failed_read (pb_log p);
  po_incorrect : pb_incorrect p = count incorrect_read (pb_log p);
  po_examples : pb_examples p = take 10 ((fun e => rr_Detail e.2) <$> filter bad_read (pb_log p));
  po_reads : forall w i a r, (w, i, a, r) ∈ pb_log p ->
    (w < length (pb_workers p))%nat /\
    exists badURL Do elapsed, a = heard badURL Do (probeKey w i) /\ r = Read badURL Do elapsed (op_Origin o) (probeKey w i) 0;
  po_rounds : forall w pc, pb_workers p !! w = Some pc ->
    exists n, 0 <= n /\ reads_made pc n /\ rounds w (pb_log p) = seqZ 0 n;
  po_control : pb_control p <> None -> pb_ended p = true;
  po_gone : Gone ∈ pb_workers p -> pb_stopped p = true \/ pb_ended p = true;
}.

Lemma probeStart_ok workers : probe_ok (probeStart workers).
Proof.
  split; try done.
  - intros w i a r Hin. by apply elem_of_nil in Hin.
  - intros w pc [-> _]%lookup_replicate. by exists 0.
  - intros Hin. by apply elem_of_replicate in Hin as [? _].
Qed.

Lemma rounds_app w l1 l2 : rounds w (l1 ++ l2) = rounds w l1 ++ rounds w l2.
Proof. unfold rounds. by rewrite filter_app, fmap_app. Qed.

(** Moving one worker to another program point. *)
Lemma at_point_ok p w pc pc' :
  probe_ok p -> pb_workers p !! w = Some pc ->
  (forall n, reads_made pc n -> reads_made pc' n) -> (pc' = Gone -> pb_stopped p = true \/ pb_ended p = true) ->
  probe_ok (at_point w pc' p).
Proof.
  intros [] Hw Hn Hg. split; cbn [at_point pb_durations pb_errors pb_incorrect pb_examples pb_log pb_workers pb_stopped pb_ended pb_control]; try done.
  - intros w' i a r Hin. rewrite length_insert. by eapply po_reads0.
  - intros w' x Hx. apply list_lookup_insert_Some in Hx as [(-> & <- & _)|[_ Hx]]; [|by apply po_rounds0].
    destruct (po_rounds0 w' pc Hw) as (n & H0 & Hr & E). exists n. auto.
  - intros [j Hj]%list_elem_of_lookup. apply list_lookup_insert_Some in Hj as [(<- & E & _)|[_ Hj]]; [by apply Hg|].
    apply po_gone0. by eapply list_elem_of_lookup_2.
Qed.

Lemma take_snoc {A} n (l : list A) x :
  take n (l ++ [x]) = take n l ++ (if (length (take n l) <? n)%nat then [x] else []).
Proof.
  rewrite take_app, length_take. destruct (Nat.ltb_spec (n `min` length l) n) as [H|H].
  - destruct (n - length l)%nat as [|k] eqn:E; [lia|]. simpl. by rewrite take_nil.
  - replace (n - length l)%nat with 0%nat by lia. done.
Qed.

(** The critical section after a read keeps everything but the rounds of the
    reader, which the move to [Waiting] restores. *)
Lemma probe_read_ok p w i a r :
  probe_ok p -> pb_workers p !! w = Some (Asking i) ->
  (exists badURL Do elapsed, a = heard badURL Do (probeKey w i) /\ r = Read badURL Do elapsed (op_Origin o) (probeKey w i) 0) ->
  probe_ok (at_point w (Waiting i) (note w i a r p)).
Proof.
  intros [] Hw Hr. split; cbn [at_point note pb_durations pb_errors pb_incorrect pb_examples pb_log pb_workers pb_stopped pb_ended pb_control]; cbv zeta; try done.
  - by rewrite fmap_app, <- po_durations0.
  - rewrite count_app, count_one, <- po_errors0. unfold failed_read. cbn [snd]. case_decide; destruct (rr_Failed r); done || lia.
  - rewrite count_app, count_one, <- po_incorrect0. unfold incorrect_read. cbn [snd]. case_decide; destruct (rr_Incorrect r); done || lia.
  - rewrite filter_app, fmap_app, filter_cons, filter_nil.
    destruct (decide (bad_read (w, i, a, r))) as [Hb|Hb]; unfold bad_read, failed_read, incorrect_read in Hb; cbn [snd] in Hb.
    + rewrite (proj2 (orb_true_iff _ _) Hb). cbn [andb fmap list_fmap snd]. rewrite take_snoc, <- po_examples0.
      case_match; [done|by rewrite app_nil_r].
    + destruct (rr_Failed r); [destruct Hb; by left|]. destruct (rr_Incorrect r); [destruct Hb; by right|]. simpl.
      by rewrite app_nil_r.
  - intros w' i' a' r' [Hin|Hin]%elem_of_app; rewrite length_insert; [by eapply po_reads0|].
    apply list_elem_of_singleton in Hin as [= -> -> -> ->]. split; [by eapply lookup_lt_Some|done].
  - intros w' x Hx. rewrite rounds_app. apply list_lookup_insert_Some in Hx as [(-> & <- & _)|[Hne Hx]].
    + destruct (po_rounds0 w' (Asking i) Hw) as (n & H0 & Hn & E). cbn [reads_made] in Hn. subst n. exists (i + 1).
      split; [lia|]. split; [done|]. rewrite E. unfold rounds. rewrite filter_cons_True by done. simpl.
      rewrite seqZ_app by lia. f_equal.
    + destruct (po_rounds0 w' x Hx) as (n & H0 & Hn & E). exists n. split; [done|]. split; [done|]. rewrite E.
      unfold rounds. rewrite filter_cons_False by (unfold of_worker; simpl; congruence). simpl. by rewrite app_nil_r.
  - intros [j Hj]%list_elem_of_lookup. apply list_lookup_insert_Some in Hj as [(_ & [=] & _)|[_ Hj]].
    apply po_gone0. by eapply list_elem_of_lookup_2.
Qed.

Lemma endProbe_ok p : probe_ok p -> probe_ok (endProbe p).
Proof. intros []. split; try done. intros _. by right. Qed.

Lemma probe_step_ok p p' : probe_step p p' -> probe_ok p -> probe_ok p'.
Proof.
  intros Hs Hp. destruct Hs as [w i p Hw|w i st p Hw|w i badURL Do elapsed p Hw|w i p Hw He|w i p Hw|p].
  - eapply at_point_ok; [done|done| |]; destruct (pb_ended p) eqn:E; cbn [reads_made]; auto. done.
  - destruct st as [| |err]; unfold look.
    + eapply at_point_ok; [|exact Hw|done|by left]. destruct Hp. split; try done. intros _. by left.
    + eapply at_point_ok; eauto. done.
    + eapply at_point_ok; [|exact Hw|done|by right]. destruct Hp. split; try done. intros _. by right.
  - apply probe_read_ok; [done|done|]. by exists badURL, Do, elapsed.
  - eapply at_point_ok; [done|done|done|auto].
  - eapply at_point_ok; [done|done|done|done].
  - by apply endProbe_ok.
Qed.

Lemma probe_steps_ok p p' : rtc probe_step p p' -> probe_ok p -> probe_ok p'.
Proof. induction 1; eauto using probe_step_ok. Qed.

Lemma all_good_counts (log : list (nat * Z * answer * ReadResult)) :
  count failed_read log = 0 /\ count incorrect_read log = 0 <-> forall w i a r, (w, i, a, r) ∈ log -> good r.
Proof.
  split.
  - intros [E1 E2] w i a r Hin. pose proof (count_zero_inv failed_read log (Z.eq_le_incl _ _ E1) _ Hin) as N1.
    pose proof (count_zero_inv incorrect_read log (Z.eq_le_incl _ _ E2) _ Hin) as N2. unfold failed_read, incorrect_read, good in *.
    cbn [snd] in *. by split; apply not_true_is_false.
  - intros H. split; apply count_zero; intros [[[w i] a] r] Hin; destruct (H w i a r Hin) as [H1 H2];
      unfold failed_read, incorrect_read; cbn [snd]; congruence.
Qed.

Lemma passed_iff p :
  probe_ok p ->
  ps_Status (probeSummary p) = "passed" <->
  pb_log p <> [] /\ (forall w i a r, (w, i, a, r) ∈ pb_log p -> good r) /\ pb_stopped p = true /\ pb_ended p = false.
Proof.
  intros Hp. unfold probeSummary. cbn [ps_Status]. cbv zeta. rewrite (po_durations p Hp), length_fmap, (po_errors p Hp), (po_incorrect p Hp).
  rewrite <- all_good_counts. pose proof (count_bound failed_read (pb_log p)). pose proof (count_bound incorrect_read (pb_log p)).
  destruct ((_ =? 0) || _ || _ || _ || _ || _) eqn:E.
  - split; [done|]. intros (Hne & [E1 E2] & Hs & He). exfalso. rewrite E1, E2, Hs, He in E. cbn [negb orb Z.eqb] in E.
    rewrite !orb_false_r in E. pose proof (po_control p Hp) as Hc. destruct (pb_control p); [by rewrite Hc in He|].
    rewrite orb_false_r in E. apply Z.eqb_eq in E. destruct (pb_log p); [done|simpl in E; lia].
  - split; [intros _|done]. repeat (apply orb_false_iff in E as [E ?]). apply Z.eqb_neq in E. rewrite !negb_false_iff in *.
    destruct (pb_log p) as [|e l]; [done|]. reflect_bool. split_and!; done.
Qed.

(** C30: the continuity probe tells the truth. Whatever the network, the clock
    and the stop file do, the summary of a finished run counts every read once
    and keeps the details of the first ten bad ones; and it says "passed"
    exactly when the context did not end, the stop file was seen, and at least
    one read was made and to every read the network gave a complete answer 200
    with exactly the generated value of its key. Every worker has read without a gap from
    its first key on, each time a key the demo source has. *)
Theorem probe_truthful workers p :
  ValidateOrigin parseIPLiteral (op_Origin o) = None -> rtc probe_step (probeStart workers) p -> probeDone p ->
  let s := probeSummary p in
  ps_Requests s = Z.of_nat (length (pb_log p)) /\
  ps_Errors s + ps_Incorrect s = count bad_read (pb_log p) /\
  ps_FailureExamples s = take 10 ((fun e => rr_Detail e.2) <$> filter bad_read (pb_log p)) /\
  (ps_Status s = "passed" <->
     pb_log p <> [] /\ pb_stopped p = true /\ pb_ended p = false /\
     forall w i a r, (w, i, a, r) ∈ pb_log p ->
       exists resp, a = Responded resp false /\ StatusCode resp = 200 /\
         RespBody resp = Demo.AutoValue (probeKey w i) 0) /\
  (forall w, (w < Z.to_nat workers)%nat -> exists n, 0 <= n /\ rounds w (pb_log p) = seqZ 0 n) /\
  (forall w i, ValidateKey (probeKey w i) = None).
Proof.
  intros Ho Hr Hdone s. pose proof (probe_steps_ok _ _ Hr (probeStart_ok workers)) as Hp. split_and!.
  - unfold s, probeSummary. cbn [ps_Requests]. cbv zeta. by rewrite (po_durations p Hp), length_fmap.
  - unfold s, probeSummary. cbn [ps_Errors ps_Incorrect]. rewrite (po_errors p Hp), (po_incorrect p Hp).
    pose proof (po_reads p Hp) as Hreads. revert Hreads. clear. induction (pb_log p) as [|[[[w i] a] r] l IH]; [done|].
    intros Hreads. change ((w, i, a, r) :: l) with ([(w, i, a, r)] ++ l). rewrite !count_app, !count_one.
    assert (rr_Failed r = true -> rr_Incorrect r = false) as Hx.
    { destruct (Hreads w i a r ltac:(by left)) as (_ & badURL & Do & elapsed & _ & ->). apply Read_exclusive. }
    specialize (IH (fun w' i' a' r' Hin => Hreads w' i' a' r' (list_elem_of_further _ _ _ Hin))).
    unfold bad_read, failed_read, incorrect_read in *. cbn [snd].
    repeat case_decide; try lia; intuition congruence.
  - apply (po_examples p Hp).
  - unfold s. rewrite (passed_iff p Hp). split; intros (H1 & H2 & H3 & H4); split_and!; try done.
    + intros w i a r Hin. destruct (po_reads p Hp w i a r Hin) as (_ & badURL & Do & elapsed & -> & ->).
      pose proof (H2 w i _ _ Hin) as Hg. apply Read_good in Hg as [-> Ha]; [|done|unfold MaxDiagnosticValueBytes; lia|apply probeKey_short].
      exact Ha.
    + intros w i a r Hin. destruct (H4 w i a r Hin) as (resp & Ea & Hst & Hb).
      destruct (po_reads p Hp w i a r Hin) as (_ & badURL & Do & elapsed & -> & ->).
      unfold heard in Ea. destruct badURL; [done|].
      apply Read_good; [done|unfold MaxDiagnosticValueBytes; lia|apply probeKey_short|]. split; [done|]. by exists resp.
  - intros w Hw. assert (length (pb_workers p) = Z.to_nat workers) as HL.
    { clear -Hr. remember (probeStart workers) as p0 eqn:E0. assert (length (pb_workers p0) = Z.to_nat workers) as H0
        by (subst p0; cbn [probeStart pb_workers]; by rewrite length_replicate). clear E0.
      induction Hr as [|p1 p2 p3 Hs _ IH]; [done|]. apply IH.
      destruct Hs as [| w i [| |] p | | | |]; cbn [look at_point note endProbe pb_workers]; rewrite ?length_insert; done. }
    destruct (lookup_lt_is_Some_2 (pb_workers p) w) as [pc Hpc]; [lia|].
    destruct (po_rounds p Hp w pc Hpc) as (n & H0 & _ & E). by exists n.
  - intros w i. apply probeKey_short.
Qed.
End RunFacts.

(** ** Against a node on the demo source *)

(** Over the API of a running node a read is good exactly when the cache
    returned the generated value. *)
Lemma Read_over_node {C : Type} `{!Store C} {St : Type} `{!MutableSource St} parseIPLiteral quoted
    (g : Group C) (store : option St) d token nodeID slots re we se metrics (get : string -> Reply) elapsed origin key vb :
  ValidateOrigin parseIPLiteral origin = None -> 0 <= vb <= MaxDiagnosticValueBytes -> slen key <= 100 ->
  nodeID <> "" -> ValidateKey key = None ->
  good (Read parseIPLiteral quoted false (nodeDo g store d token nodeID slots re we se metrics true get) elapsed origin key vb)
  <-> exists view, get key = (view, None) /\ ViewString view = Demo.AutoValue key vb.
Proof.
  intros Ho Hvb Hl Hn Hk. rewrite Read_good by done. unfold answered_exactly.
  change (readRequest key) with (buildRequest sample_runner "GET" key 0 "").
  rewrite nodeDo_get by done. destruct (get key) as [view [e|]] eqn:Eg.
  - destruct (readReply_error view e) as (resp & -> & _ & Hs & _). split.
    + intros (_ & r & [= <-] & H200 & _). by simpl in H200.
    + by intros (? & [=] & _).
  - destruct (readReply_ok view) as (resp & -> & Hs & Hb & _). split.
    + intros (_ & r & [= <-] & _ & HB). exists view. split; [done|]. simpl in HB. congruence.
    + intros (view' & [= <-] & HB). split; [done|]. eexists. split; [reflexivity|]. split; [done|]. simpl. congruence.
Qed.

(** ** A concrete run: one worker reads once and then sees the stop file. *)
Definition sample_probe : Options := mkOptions "http://node:8080" "out" 1 Minute Second.
Definition sample_demo_answer (req : Request) : answer :=
  Responded (mkResponse 200 ∅ (Demo.AutoValue "Auto-0" 0)) false.
Definition sample_read : ReadResult :=
  Read (fun _ => None) (fun s => s) false sample_demo_answer 3 (op_Origin sample_probe) (probeKey 0 0) 0.
Definition sample_probe_end : probe :=
  look 0 1 Exists (at_point 0 (Looking 1) (at_point 0 (Top 1) (at_point 0 (Waiting 0) (note 0 0 (sample_demo_answer (readRequest (probeKey 0 0))) sample_read
    (look 0 0 NotExist (at_point 0 (Looking 0) (probeStart 1))))))).

Lemma sample_probe_run : rtc (probe_step (fun _ => None) (fun s => s) sample_probe) (probeStart 1) sample_probe_end.
Proof.
  eapply rtc_l; [by apply (ps_top _ _ _ 0 0)|]. eapply rtc_l; [by apply (ps_look _ _ _ 0 0 NotExist)|].
  eapply rtc_l; [by apply (ps_read _ _ _ 0 0 false sample_demo_answer 3)|]. eapply rtc_l; [by apply (ps_timer _ _ _ 0 0)|].
  eapply rtc_l; [by apply (ps_top _ _ _ 0 1)|]. eapply rtc_l; [by apply (ps_look _ _ _ 0 1 Exists)|]. apply rtc_refl.
Qed.

Lemma probe_truthful_witness :
  ps_Requests (probeSummary sample_probe_end) = 1 /\ ps_Status (probeSummary sample_probe_end) = "passed" /\
  exists n, rounds 0 (pb_log sample_probe_end) = seqZ 0 n.
Proof.
  destruct (probe_truthful (fun _ => None) (fun s => s) sample_probe 1 sample_probe_end) as (H1 & _ & _ & H2 & H3 & _).
  - reflexivity.
  - exact sample_probe_run.
  - repeat constructor.
  - split; [exact H1|]. split.
    + apply H2. split; [discriminate|]. split; [reflexivity|]. split; [reflexivity|].
      intros w i a r [= -> -> -> ->]%list_elem_of_singleton. eexists. split; [reflexivity|]. split; reflexivity.
    + destruct (H3 0%nat) as (n & _ & E); [constructor|]. exists n. exact E.
Defined.
