(* ===== verification/LoadLoop.v ===== *)
(** * The workers of the closed-loop workloads ([run.go] of
      [internal/bench/gateway])

    The prepared values, the shared counter from which every worker takes the
    next request of the trace, the TTL loop, and what a run without an error
    means for every scenario. One atomic addition, one look at the context
    and one request are one step each; the environment ends the context and
    answers the requests. *)
From S2P Require Import Prelude GoStrings NetAddr Errors LRU CacheStore Bloom Admission Group Read Directory Protocol Postgres Api Measurement Dataset LoadClient Arrival LoadRun.

(** Where a worker is: before the addition, holding an index, past its check
    with a request to make, or gone. *)
Inductive loader := Free | Holding (index : Z) | Requesting (index : Z) | Left.

Record loop := mkLoop { lp_next : Z; lp_loaders : list loader; lp_records : list BRecord; lp_ended : bool }.

(** The zero [Record]. *)
Definition blank : BRecord := mkRec false 0 "" "" 0 0 0 "" 0 "" 0 false 0 0 "" 0 0 "" false false.

Section Loop.
Variable sha256 : string -> string.
Variable decodeValue : string -> option (string * Z).
Variable decodeWrite : string -> WriteAck * bool.

(** The values of version 1, prepared before the run. *)
Fixpoint prepare (c : BenchConfig) (l : list Z) : list string + error :=
  match l with
  | [] => inl []
  | i :: l' =>
      match productValue sha256 c i 1 with
      | inr err => inr err
      | inl value => match prepare c l' with inl values => inl (value :: values) | inr err => inr err end
      end
  end.
Definition expectedValues (c : BenchConfig) : list string + error := prepare c (seqZ 0 (Keys c)).

Variable r : runner.
Variable trace : list Z.

(** A read of version 1. *)
Definition readOne (badURL : bool) (Do : Request -> answer) (elapsed : Duration) (index keyIndex : Z) : option BRecord :=
  requestExpected sha256 decodeValue decodeWrite r badURL Do elapsed index keyIndex "GET" 0 1 1 false.

Definition loopStart : loop := mkLoop 0 (replicate (Z.to_nat (Workers (rn_c r))) Free) (replicate (length trace) blank) false.

Definition at_load (w : nat) (pc : loader) (s : loop) : loop :=
  mkLoop (lp_next s) (<[w := pc]> (lp_loaders s)) (lp_records s) (lp_ended s).

Inductive loop_step : loop -> loop -> Prop :=
| ls_claim w s : lp_loaders s !! w = Some Free ->
    loop_step s (at_load w (Holding (lp_next s)) (mkLoop (lp_next s + 1) (lp_loaders s) (lp_records s) (lp_ended s)))
| ls_check w i s : lp_loaders s !! w = Some (Holding i) ->
    loop_step s (at_load w (if (Z.of_nat (length trace) <=? i) || lp_ended s then Left else Requesting i) s)
| ls_request w i k badURL Do elapsed rec s : lp_loaders s !! w = Some (Requesting i) -> trace !! Z.to_nat i = Some k ->
    readOne badURL Do elapsed i k = Some rec ->
    loop_step s (at_load w Free (mkLoop (lp_next s) (lp_loaders s) (<[Z.to_nat i := rec]> (lp_records s)) (lp_ended s)))
| ls_end s : loop_step s (mkLoop (lp_next s) (lp_loaders s) (lp_records s) true).

(** [wg.Wait] returns. *)
Definition loopDone (s : loop) : Prop := Forall (eq Left) (lp_loaders s).

(** The TTL loop: one round per element, for as long as the deadline has not
    passed and the context has not ended. *)
Fixpoint ttlRecords (i : Z) (rounds : list (bool * (Request -> answer) * Duration)) : option (list BRecord) :=
  match rounds with
  | [] => Some []
  | (badURL, Do, elapsed) :: rest =>
      rec ← readOne badURL Do elapsed i 0; l ← ttlRecords (i + 1) rest; Some (rec :: l)
  end.
End Loop.

(** ** Proofs: the workers *)
Section LoopFacts.
Variable sha256 : string -> string.
Variable decodeValue : string -> option (string * Z).
Variable decodeWrite : string -> WriteAck * bool.
Variable r : runner.
Variable trace : list Z.
Notation readOne := (readOne sha256 decodeValue decodeWrite r).
Notation loop_step := (loop_step sha256 decodeValue decodeWrite r trace).
Notation n := (Z.of_nat (length trace)).

Definition holds_index (pc : loader) (i : Z) : Prop := pc = Holding i \/ pc = Requesting i.
(** The record of the request [i] of the trace. *)
Definition made (i : Z) (rec : BRecord) : Prop :=
  exists k badURL Do elapsed, trace !! Z.to_nat i = Some k /\ readOne badURL Do elapsed i k = Some rec.

Record loop_ok (s : loop) : Prop := {
  lo_next : 0 <= lp_next s;
  lo_length : length (lp_records s) = length trace;
  lo_held : forall w pc i, lp_loaders s !! w = Some pc -> holds_index pc i ->
    0 <= i < lp_next s /\ (pc = Requesting i -> i < n) /\ (i < n -> lp_records s !! Z.to_nat i = Some blank);
  lo_single : forall w w' pc pc' i, lp_loaders s !! w = Some pc -> lp_loaders s !! w' = Some pc' ->
    holds_index pc i -> holds_index pc' i -> w = w';
  lo_record : forall i rec, 0 <= i -> lp_records s !! Z.to_nat i = Some rec -> rec = blank \/ made i rec;
  lo_blank : forall i, 0 <= i -> lp_records s !! Z.to_nat i = Some blank ->
    lp_next s <= i \/ lp_ended s = true \/ exists w pc, lp_loaders s !! w = Some pc /\ holds_index pc i;
  lo_fresh : forall i, lp_next s <= i < n -> lp_records s !! Z.to_nat i = Some blank;
  lo_left : Left ∈ lp_loaders s -> lp_ended s = true \/ n < lp_next s;
}.

Lemma made_attempted i rec : made i rec -> r_Attempted rec = true /\ r_Index rec = i /\ trace !! Z.to_nat i = Some (r_KeyIndex rec).
Proof. intros (k & badURL & Do & elapsed & Hk & H). apply requestExpected_attempted in H as (Ha & Hi & ->). auto. Qed.

Lemma loopStart_ok : loop_ok (loopStart r trace).
Proof.
  split; cbn [loopStart lp_next lp_loaders lp_records lp_ended]; try lia.
  - apply length_replicate.
  - intros w pc i [-> _]%lookup_replicate [H|H]; done.
  - intros w w' pc pc' i [-> _]%lookup_replicate _ [H|H]; done.
  - intros i rec Hi [-> _]%lookup_replicate. by left.
  - intros i Hi. apply lookup_replicate. split; [done|lia].
  - intros H. by apply elem_of_replicate in H as [? _].
Qed.

Lemma holds_index_inj pc i j : holds_index pc i -> holds_index pc j -> i = j.
Proof. intros [->| ->] [[=]|[=]]; done. Qed.
Lemma holds_free i : ~ holds_index Free i.
Proof. by intros [?|?]. Qed.
Lemma holds_left i : ~ holds_index Left i.
Proof. by intros [?|?]. Qed.


Lemma dataset_values_fit c i : validateDataset sha256 c = None -> 0 <= i < Keys c -> exists s, productValue sha256 c i 1 = inl s.
Proof.
  unfold validateDataset. case_bool; [done|]. case_bool; [done|]. case_bool; [done|]. destruct (firstError _ _); [done|].
  case_bool; [done|]. intros E Hi. rewrite firstError_none in E. assert (i ∈ seqZ 0 (Keys c)) as Hin by (apply elem_of_seqZ; lia).
  specialize (E i Hin). cbv beta in E. destruct (productValue sha256 c i 1) as [s|err]; [by exists s|done].
Qed.

(** A worker moves: what its new program point must satisfy. *)
Lemma at_load_ok w pc pc' s :
  loop_ok s -> lp_loaders s !! w = Some pc ->
  (forall i, holds_index pc' i -> holds_index pc i /\ (pc' = Requesting i -> i < n)) ->
  (forall i, holds_index pc i -> i < n -> holds_index pc' i \/ lp_ended s = true) ->
  (pc' = Left -> lp_ended s = true \/ n < lp_next s) ->
  loop_ok (at_load w pc' s).
Proof.
  intros [] Hw Hp Hq Hl. split; cbn [at_load lp_next lp_loaders lp_records lp_ended]; try done.
  - intros w' x i Hx Hi. apply list_lookup_insert_Some in Hx as [(-> & <- & _)|[_ Hx]]; [|by eapply lo_held0].
    destruct (Hp i Hi) as [Hi' Hreq]. destruct (lo_held0 w' pc i Hw Hi') as (H1 & _ & H2). split; [done|by split].
  - intros w1 w2 x y i Hx Hy Hxi Hyi.
    apply list_lookup_insert_Some in Hx as [(<- & <- & _)|[Hn1 Hx]];
      apply list_lookup_insert_Some in Hy as [(<- & <- & _)|[Hn2 Hy]]; try done.
    + apply Hp in Hxi as [Hxi _]. by apply (lo_single0 w w2 pc y i).
    + apply Hp in Hyi as [Hyi _]. by apply (lo_single0 w1 w x pc i).
    + by apply (lo_single0 w1 w2 x y i).
  - intros i Hi Hb. destruct (lo_blank0 i Hi Hb) as [?|[?|(w' & x & Hx & Hxi)]]; [by left|by right; left|].
    destruct (decide (w' = w)) as [->|Hne].
    + replace x with pc in Hxi by congruence. assert (i < n) as Hin by (apply lookup_lt_Some in Hb; lia).
      destruct (Hq i Hxi Hin) as [H|H]; [|by right; left]. right; right. exists w, pc'. split; [|done].
      apply list_lookup_insert_eq. by eapply lookup_lt_Some.
    + right; right. exists w', x. by rewrite list_lookup_insert_ne.
  - intros [j Hj]%list_elem_of_lookup. apply list_lookup_insert_Some in Hj as [(_ & E & _)|[_ Hj]]; [by apply Hl|].
    apply lo_left0. by eapply list_elem_of_lookup_2.
Qed.

Lemma load_claim_ok w s :
  loop_ok s -> lp_loaders s !! w = Some Free ->
  loop_ok (at_load w (Holding (lp_next s)) (mkLoop (lp_next s + 1) (lp_loaders s) (lp_records s) (lp_ended s))).
Proof.
  intros [] Hw. split; cbn [at_load lp_next lp_loaders lp_records lp_ended]; try done; try lia.
  - intros w' x i Hx Hi. apply list_lookup_insert_Some in Hx as [(-> & <- & _)|[_ Hx]].
    + destruct Hi as [[= <-]|[=]]. split; [lia|]. split; [done|]. intros Hi. apply lo_fresh0. lia.
    + destruct (lo_held0 w' x i Hx Hi) as (H1 & H2 & H3). split; [lia|]. by split.
  - intros w1 w2 x y i Hx Hy Hxi Hyi.
    apply list_lookup_insert_Some in Hx as [(<- & <- & _)|[Hn1 Hx]];
      apply list_lookup_insert_Some in Hy as [(<- & <- & _)|[Hn2 Hy]]; try done.
    + destruct Hxi as [[= <-]|[=]]. destruct (lo_held0 w2 y _ Hy Hyi) as [? _]. lia.
    + destruct Hyi as [[= <-]|[=]]. destruct (lo_held0 w1 x _ Hx Hxi) as [? _]. lia.
    + by apply (lo_single0 w1 w2 x y i).
  - intros i Hi Hb. destruct (decide (i = lp_next s)) as [->|Hne].
    + right; right. exists w, (Holding (lp_next s)). split; [|by left]. apply list_lookup_insert_eq. by eapply lookup_lt_Some.
    + destruct (lo_blank0 i Hi Hb) as [?|[?|(w' & x & Hx & Hxi)]]; [left; lia|by right; left|].
      right; right. exists w', x. split; [|done]. destruct (decide (w' = w)) as [->|]; [|by rewrite list_lookup_insert_ne].
      replace x with Free in Hxi by congruence. by apply holds_free in Hxi.
  - intros i Hi. apply lo_fresh0. lia.
  - intros [j Hj]%list_elem_of_lookup. apply list_lookup_insert_Some in Hj as [(_ & [=] & _)|[_ Hj]].
    destruct lo_left0 as [?|?]; [by eapply list_elem_of_lookup_2|by left|right; lia].
Qed.

Lemma load_request_ok w i rec s :
  loop_ok s -> lp_loaders s !! w = Some (Requesting i) -> made i rec ->
  loop_ok (at_load w Free (mkLoop (lp_next s) (lp_loaders s) (<[Z.to_nat i := rec]> (lp_records s)) (lp_ended s))).
Proof.
  intros Hs Hw Hm. destruct (lo_held s Hs w _ i Hw (or_intror eq_refl)) as (Hi & Hlt & Hb). specialize (Hlt eq_refl). specialize (Hb Hlt).
  pose proof (lo_single s Hs) as Hone. destruct Hs. split; cbn [at_load lp_next lp_loaders lp_records lp_ended]; try done.
  - by rewrite length_insert.
  - intros w' x j Hx Hj. apply list_lookup_insert_Some in Hx as [(-> & <- & _)|[Hne Hx]]; [by apply holds_free in Hj|].
    destruct (lo_held0 w' x j Hx Hj) as (H1 & H2 & H3). split; [done|]. split; [done|]. intros Hjn.
    rewrite list_lookup_insert_ne; [by apply H3|]. intros E. apply Hne.
    apply (Hone w w' _ x i Hw Hx (or_intror eq_refl)). by replace i with j by lia.
  - intros w1 w2 x y j Hx Hy Hxj Hyj.
    apply list_lookup_insert_Some in Hx as [(<- & <- & _)|[_ Hx]]; [by apply holds_free in Hxj|].
    apply list_lookup_insert_Some in Hy as [(<- & <- & _)|[_ Hy]]; [by apply holds_free in Hyj|].
    by apply (Hone w1 w2 x y j).
  - intros j rec' Hj Hr. apply list_lookup_insert_Some in Hr as [(E & <- & _)|[_ Hr]]; [|by apply lo_record0].
    right. by replace j with i by lia.
  - intros j Hj Hr. apply list_lookup_insert_Some in Hr as [(E & -> & _)|[Hne Hr]].
    + apply made_attempted in Hm as [? _]. done.
    + destruct (lo_blank0 j Hj Hr) as [?|[?|(w' & x & Hx & Hxj)]]; [by left|by right; left|].
      right; right. exists w', x. split; [|done]. destruct (decide (w' = w)) as [->|]; [|by rewrite list_lookup_insert_ne].
      exfalso. replace x with (Requesting i) in Hxj by congruence. destruct Hxj as [[=]|[= ->]]. done.
  - intros j Hj. rewrite list_lookup_insert_ne by lia. by apply lo_fresh0.
  - intros [j Hj]%list_elem_of_lookup. apply list_lookup_insert_Some in Hj as [(_ & [=] & _)|[_ Hj]].
    apply lo_left0. by eapply list_elem_of_lookup_2.
Qed.

Lemma loop_step_ok s s' : loop_step s s' -> loop_ok s -> loop_ok s'.
Proof.
  intros Hst Hs. destruct Hst as [w s Hw|w i s Hw|w i k badURL Do elapsed rec s Hw Hk Hr|s].
  - by apply load_claim_ok.
  - destruct (lo_held s Hs w _ i Hw (or_introl eq_refl)) as (Hi & _).
    destruct (_ || _) eqn:E; eapply at_load_ok; try done.
    + intros j Hj. by apply holds_left in Hj.
    + intros j [[= ->]|[=]] Hj. right. apply orb_true_iff in E as [E|E]; [reflect_bool; lia|done].
    + intros _. apply orb_true_iff in E as [E|E]; [right; reflect_bool; lia|by left].
    + intros j [[=]|[= ->]]. split; [by left|]. intros _. apply orb_false_iff in E as [E _]. reflect_bool. lia.
    + intros j [[= ->]|[=]] Hj. left. by right.
  - apply load_request_ok; [done|done|]. by exists k, badURL, Do, elapsed.
  - destruct Hs. split; try done.
    + intros i Hi Hb. by right; left.
    + by left.
Qed.

Lemma loop_steps_ok s : rtc loop_step (loopStart r trace) s -> loop_ok s.
Proof.
  intros H. cut (loop_ok (loopStart r trace) -> loop_ok s); [intros Hc; apply Hc, loopStart_ok|].
  induction H; eauto using loop_step_ok.
Qed.

(** A worker never writes a record another request has made. *)
Lemma loop_step_keeps s s' i rec :
  loop_ok s -> loop_step s s' -> lp_records s !! i = Some rec -> rec <> blank -> lp_records s' !! i = Some rec.
Proof.
  intros Hs Hst Hr Hn. destruct Hst as [w s Hw|w j s Hw|w j k badURL Do elapsed rec' s Hw Hk Hrec|s]; try done.
  cbn [at_load lp_records]. destruct (lo_held s Hs w _ j Hw (or_intror eq_refl)) as (Hj & Hlt & Hb).
  specialize (Hb (Hlt eq_refl)). rewrite list_lookup_insert_ne; [done|]. intros <-. congruence.
Qed.

(** A finished run that was not interrupted has made every request. *)
Lemma loop_complete s :
  loop_ok s -> 1 <= Workers (rn_c r) -> (length (lp_loaders s) = Z.to_nat (Workers (rn_c r)))%nat -> loopDone s -> lp_ended s = false ->
  forall i, (i < length trace)%nat -> exists rec, lp_records s !! i = Some rec /\ made (Z.of_nat i) rec.
Proof.
  intros Hs Hw HL Hd He i Hi. unfold loopDone in Hd. rewrite Forall_forall in Hd.
  destruct (lookup_lt_is_Some_2 (lp_records s) i) as [rec Hr]; [by rewrite (lo_length s Hs)|]. exists rec. split; [done|].
  rewrite <- (Nat2Z.id i) in Hr.
  destruct (lo_record s Hs (Z.of_nat i) rec ltac:(lia) Hr) as [->|Hm]; [exfalso|done].
  destruct (lo_blank s Hs (Z.of_nat i) ltac:(lia) Hr) as [H|[H|(w & pc & Hpc & Hh)]]; [|congruence|].
  - destruct (lookup_lt_is_Some_2 (lp_loaders s) 0) as [pc Hpc]; [lia|]. apply list_elem_of_lookup_2 in Hpc.
    destruct (lo_left s Hs) as [?|?]; [by rewrite (Hd pc Hpc)|congruence|lia].
  - apply list_elem_of_lookup_2, Hd in Hpc as <-. by apply holds_left in Hh.
Qed.

Lemma loop_loaders s : rtc loop_step (loopStart r trace) s -> length (lp_loaders s) = Z.to_nat (Workers (rn_c r)).
Proof.
  intros H. cut (length (lp_loaders (loopStart r trace)) = Z.to_nat (Workers (rn_c r)));
    [|cbn [loopStart lp_loaders]; apply length_replicate].
  induction H as [|s1 s2 s3 Hst _ IH]; [done|]. intros HL. apply IH.
  destruct Hst; cbn [at_load lp_loaders]; rewrite ?length_insert; done.
Qed.

(** A summary of as many requests as were planned carries no error exactly for
    a run of successes. *)
Lemma verdict_iff (l : list BRecord) (e : option error) :
  runError (summarize (Z.of_nat (length l)) l) e = None <-> e = None /\ l <> [] /\ forall rec, rec ∈ l -> succeeded rec.
Proof.
  split.
  - intros Hv. destruct (run_verdict _ _ _ Hv) as (-> & Hpl & Hall & Hpos). split; [done|].
    pose proof (count_bound attempted l) as Hb. split; [by intros ->|]. intros rec Hrec. apply Hall; [done|].
    pose proof (attempted_or_dropped l) as Hp.
    assert (count (fun r => r_Attempted r = false) l <= 0) as H0 by lia.
    pose proof (count_zero_inv _ _ H0 rec Hrec) as Hn. unfold attempted. destruct (r_Attempted rec) eqn:Er; [done|]. by destruct Hn.
  - intros (-> & Hne & Hall). unfold runError, summarize. cbv zeta.
    destruct (sums_count l) as (E1 & _ & E3 & E4 & _). cbn [sm_Attempted sm_Skipped sm_Errors sm_Incorrect]. rewrite E1, E3, E4.
    rewrite (count_all attempted l) by (intros rec Hrec; by destruct (Hall rec Hrec)).
    rewrite !count_zero by (intros rec Hrec; destruct (Hall rec Hrec) as (_ & He & Hi); intuition congruence).
    destruct l as [|x l]; [done|]. rewrite Z.sub_diag. reflexivity.
Qed.

(** The closed-loop workers make the trace and nothing else: however the
    workers interleave, every record of a finished run is either the zero
    record or that of the one request the trace has at its place; a record
    once made is never written again; without an interruption none is missing;
    and the run reports no error exactly when it was not interrupted, the
    trace is not empty and every request of it succeeded. *)
Theorem closed_loop_truthful s interrupted :
  1 <= Workers (rn_c r) -> rtc loop_step (loopStart r trace) s ->
  (forall s' i rec, loop_step s s' -> lp_records s !! i = Some rec -> rec <> blank -> lp_records s' !! i = Some rec) /\
  (loopDone s ->
    (forall i rec, lp_records s !! i = Some rec -> rec = blank \/ made (Z.of_nat i) rec) /\
    (lp_ended s = false -> forall i, (i < length trace)%nat ->
       exists rec, lp_records s !! i = Some rec /\ made (Z.of_nat i) rec) /\
    (runError (summarize n (lp_records s)) (if lp_ended s then Some interrupted else None) = None <->
       lp_ended s = false /\ trace <> [] /\ forall i, (i < length trace)%nat ->
         exists rec, lp_records s !! i = Some rec /\ made (Z.of_nat i) rec /\ succeeded rec)).
Proof.
  intros Hw Hr. pose proof (loop_steps_ok s Hr) as Hs. split; [intros s' i rec; by apply loop_step_keeps|].
  intros Hd. pose proof (loop_complete s Hs Hw (loop_loaders s Hr) Hd) as Hall. pose proof (lo_length s Hs) as HL. split; [|split].
  - intros i rec Hi. rewrite <- (Nat2Z.id i) in Hi. by apply (lo_record s Hs) in Hi; [|lia].
  - exact Hall.
  - rewrite <- HL. rewrite verdict_iff. split.
    + intros (He & Hne & Hsucc). destruct (lp_ended s); [done|]. split; [done|]. split.
      * intros ->. by destruct (lp_records s).
      * intros i Hi. rewrite HL in Hi. destruct (Hall eq_refl i Hi) as (rec & Hrec & Hm). exists rec. split; [done|]. split; [done|].
        apply Hsucc. by eapply list_elem_of_lookup_2.
    + intros (-> & Hne & Hsucc). split; [done|]. split; [intros E; rewrite E in HL; by destruct trace|].
      intros rec [i Hi]%list_elem_of_lookup. apply lookup_lt_Some in Hi as Hlt. destruct (Hsucc i Hlt) as (rec' & Hrec & _ & ?).
      congruence.
Qed.

(** ** Proofs: the TTL loop and the prepared values *)
Lemma ttl_records i rounds l :
  ttlRecords sha256 decodeValue decodeWrite r i rounds = Some l ->
  length l = length rounds /\ forall k rec, l !! k = Some rec -> r_Attempted rec = true /\ r_Index rec = i + Z.of_nat k /\ r_KeyIndex rec = 0.
Proof.
  revert i l. induction rounds as [|[[badURL Do] elapsed] rest IH]; intros i l; cbn [ttlRecords].
  - intros [= <-]. done.
  - intros (rec & Hrec & (l' & Hl' & [= <-])%bind_Some)%bind_Some. apply requestExpected_attempted in Hrec as (H1 & H2 & H3).
    destruct (IH _ _ Hl') as [HL Hall]. split; [simpl; lia|]. intros [|k] x Hx.
    + injection Hx as <-. split_and!; try done. lia.
    + apply Hall in Hx as (? & ? & ?). split_and!; try done. lia.
Qed.

Lemma prepare_ok c l values :
  prepare sha256 c l = inl values ->
  length values = length l /\ forall k i, l !! k = Some i -> exists s, values !! k = Some s /\ productValue sha256 c i 1 = inl s.
Proof.
  revert values. induction l as [|i l IH]; intros values; cbn [prepare].
  - intros [= <-]. done.
  - destruct (productValue sha256 c i 1) as [value|err] eqn:E; [|done]. destruct (prepare sha256 c l) as [vs|err]; [|done].
    intros [= <-]. destruct (IH vs eq_refl) as [HL Hall]. split; [simpl; lia|]. intros [|k] j Hj; [|by apply Hall].
    injection Hj as <-. by exists value.
Qed.

(** A configuration that passes validation has all its values prepared, and
    they are what the requests are compared with. *)
Lemma expectedValues_ok c token :
  validateDataset sha256 c = None ->
  exists values, expectedValues sha256 c = inl values /\ runner_ok sha256 (mkRunner c token (Some values)).
Proof.
  intros Hc.
  assert (forall l, (forall i, i ∈ l -> 0 <= i < Keys c) -> exists values, prepare sha256 c l = inl values) as Hp.
  { induction l as [|i l IH]; intros Hl; cbn [prepare]; [by eexists|].
    destruct (dataset_values_fit c i Hc ltac:(apply Hl; by left)) as [s ->].
    destruct IH as [vs ->]; [intros j Hj; apply Hl; by right|by eexists]. }
  destruct (Hp (seqZ 0 (Keys c))) as [values Hv]; [intros i Hi%elem_of_seqZ; lia|].
  exists values. split; [exact Hv|]. apply prepare_ok in Hv as [_ Hall]. intros i Hi.
  apply Hall. apply lookup_seqZ. cbn [rn_c] in Hi. split; lia.
Qed.
End LoopFacts.

(** ** A concrete run: one worker, one request. *)
Definition sample_loop_runner : runner := mkRunner one_product "" None.
Definition sample_loop_record : option BRecord :=
  readOne sample_digest sample_decode sample_decodeWrite sample_loop_runner false sample_answer 5 0 0.
Definition sample_loop_end (rec : BRecord) : loop := mkLoop 2 [Left] [rec] false.

Lemma sample_loop_run rec :
  sample_loop_record = Some rec ->
  rtc (loop_step sample_digest sample_decode sample_decodeWrite sample_loop_runner [0]) (loopStart sample_loop_runner [0]) (sample_loop_end rec).
Proof.
  intros Hrec. eapply rtc_l; [by apply (ls_claim _ _ _ _ _ 0)|]. eapply rtc_l; [by apply (ls_check _ _ _ _ _ 0 0)|].
  eapply rtc_l; [by apply (ls_request _ _ _ _ _ 0 0 0 false sample_answer 5 rec)|].
  eapply rtc_l; [by apply (ls_claim _ _ _ _ _ 0)|]. eapply rtc_l; [by apply (ls_check _ _ _ _ _ 0 1)|]. apply rtc_refl.
Qed.

Lemma closed_loop_truthful_witness :
  exists rec, sample_loop_record = Some rec /\ runError (summarize 1 [rec]) None = None.
Proof.
  destruct sample_loop_record as [rec|] eqn:E; [|vm_compute in E; discriminate E]. exists rec. split; [reflexivity|].
  destruct (closed_loop_truthful sample_digest sample_decode sample_decodeWrite sample_loop_runner [0] (sample_loop_end rec) Canceled)
    as [_ H].
  - discriminate.
  - exact (sample_loop_run rec E).
  - destruct H as (_ & H1 & H2); [repeat constructor|]. apply H2. split; [reflexivity|]. split; [discriminate|].
    intros i Hi. destruct (H1 eq_refl i Hi) as (rec' & Hr & Hm). exists rec'. split; [exact Hr|]. split; [exact Hm|].
    destruct i as [|i]; [|discriminate Hr]. injection Hr as <-. vm_compute in E. injection E as <-. repeat split.
Defined.
