(* ===== verification/GatewayRun.v ===== *)
(** * A whole run of the load generator ([Run] and [runArrival] of
      [internal/bench/gateway], [cmd/gateway-bench])

    The parts of [Arrival], [LoadRun] and [LoadLoop] put together: validation,
    preparation, the workload of the scenario, the summary, the files and the
    error the run returns, and the exit status of the command. The file system
    is a record of answers; the network, the clocks and the context stay
    arguments of the workloads. *)
From S2P Require Import Prelude GoStrings NetAddr Errors LRU CacheStore Bloom Admission Group Read Directory Protocol Postgres Api Measurement Dataset LoadClient Arrival LoadRun LoadLoop.

(** What the file system answers: the directory, the creation of the request
    log, the encoding of its [i]-th record, its closing, the summary and the
    Markdown report. *)
Record RunFiles := mkFiles {
  fl_mkdir : option error;
  fl_create : option error;
  fl_encode : nat -> option error;
  fl_close : option error;
  fl_summary : option error;
  fl_report : option error;
}.

Definition orElse (a b : option error) : option error := match a with Some e => Some e | None => b end.

(** The loop over the records: from the [i]-th on, [n] of them. *)
Fixpoint encodeRecords (f : RunFiles) (i n : nat) : option error :=
  match n with
  | O => None
  | S n' => orElse (fl_encode f i) (encodeRecords f (S i) n')
  end.

(** [requests.jsonl] and [summary.json]. *)
Definition writeRequests (f : RunFiles) (n : nat) : option error :=
  orElse (fl_create f) (orElse (encodeRecords f 0 n) (fl_close f)).
Definition writeFiles (f : RunFiles) (n : nat) : option error := orElse (writeRequests f n) (fl_summary f).
Definition writeArrival (f : RunFiles) (n : nat) : option error := orElse (writeFiles f n) (fl_report f).

Definition zeroPercentiles : option (Percentiles Duration) := Some (mkPercentiles 0 0 0 0).
Definition emptySummary : Summary := mkSummary 0 0 0 0 0 0 0 0 0 ∅ zeroPercentiles zeroPercentiles zeroPercentiles.

(** The end of [runArrival]. *)
Definition arrivalSummary (counts : ArrivalCounts) : Summary :=
  mkSummary (ac_Planned counts) (ac_Attempted counts) (ac_Dropped counts) (ac_Success counts) (ac_Errors counts)
    (ac_Incorrect counts) (default 0 (ac_Statuses counts !! 503)) 0 0 (ac_Statuses counts)
    (ac_Service counts) (ac_Service counts) zeroPercentiles.

Definition arrivalOutcome (f : RunFiles) (a : arrival) : Summary * option error :=
  let counts := arrivalCounts (a_records a) in
  let status := reportStatus counts (a_canceled a) in
  (arrivalSummary counts,
   orElse (writeArrival f (length (a_records a)))
     (if String.eqb status "passed" then None
      else Some (NewError ("arrival outcome: " +:+ status +:+ "; raw evidence retained")))).

(** The end of [Run]; [ctxErr] is what [ctx.Err()] says there. *)
Definition closedOutcome (c : BenchConfig) (f : RunFiles) (trace : list Z) (records : list BRecord) (ctxErr : option error)
    : Summary * option error :=
  let summary := summarize (plannedRequests c trace records) records in
  (summary, orElse (writeFiles f (length records)) (runError summary ctxErr)).

Definition token_required : error := NewError "mixed workload requires a token".

Section Run.
Variable sha256 : string -> string.
Variable parseIPLiteral : string -> option string.
Variable decodeValue : string -> option (string * Z).
Variable decodeWrite : string -> WriteAck * bool.
(** The Zipf generators of the trace and of the plan. *)
Variable draw : Z -> Z.
Notation mixedRecords := (mixedRecords sha256 decodeValue decodeWrite).
Notation ttlRecords := (ttlRecords sha256 decodeValue decodeWrite).
Notation loop_step := (loop_step sha256 decodeValue decodeWrite).
Notation arrival_step := (arrival_step sha256 decodeValue decodeWrite).

(** The records of a closed-loop workload, and [ctx.Err()] after it: an ended
    context stays ended. *)
Inductive workload (r : runner) (trace : list Z) : list BRecord -> option error -> Prop :=
| wl_mixed network elapsed badURL late records ctxErr :
    Scenario (rn_c r) = "mixed" -> mixedRecords r trace network elapsed badURL late = Some records ->
    workload r trace records ctxErr
| wl_ttl rounds records ctxErr :
    Scenario (rn_c r) = "ttl" -> ttlRecords r 0 rounds = Some records -> workload r trace records ctxErr
| wl_workers s ctxErr :
    Scenario (rn_c r) <> "mixed" -> Scenario (rn_c r) <> "ttl" ->
    rtc (loop_step r trace) (loopStart r trace) s -> loopDone s -> (lp_ended s = true -> is_Some ctxErr) ->
    workload r trace (lp_records s) ctxErr.

(** [Run]: the records made, what [ctx.Err()] says when the workload is over,
    the summary and the error. *)
Inductive gatewayRun (c : BenchConfig) (token : string) (f : RunFiles)
    : list BRecord -> option error -> Summary * option error -> Prop :=
| gr_invalid e ended :
    Validate sha256 parseIPLiteral c = Some e -> gatewayRun c token f [] ended (emptySummary, Some e)
| gr_mkdir e ended :
    Validate sha256 parseIPLiteral c = None -> fl_mkdir f = Some e -> gatewayRun c token f [] ended (emptySummary, Some e)
| gr_arrival start a ended :
    Validate sha256 parseIPLiteral c = None -> Scenario c = "arrival" -> fl_mkdir f = None ->
    rtc (arrival_step c start) (arrivalStart c (arrivalPlan draw c)) a -> arrivalDone a ->
    (a_canceled a = true <-> is_Some ended) ->
    gatewayRun c token f (a_records a) ended (arrivalOutcome f a)
| gr_values e ended :
    Validate sha256 parseIPLiteral c = None -> Scenario c <> "arrival" -> fl_mkdir f = None ->
    expectedValues sha256 c = inr e -> gatewayRun c token f [] ended (emptySummary, Some e)
| gr_token values ended :
    Validate sha256 parseIPLiteral c = None -> fl_mkdir f = None -> expectedValues sha256 c = inl values ->
    Scenario c = "mixed" -> token = "" -> gatewayRun c token f [] ended (emptySummary, Some token_required)
| gr_closed values records ctxErr :
    Validate sha256 parseIPLiteral c = None -> Scenario c <> "arrival" -> fl_mkdir f = None ->
    expectedValues sha256 c = inl values -> (Scenario c = "mixed" -> token <> "") ->
    workload (mkRunner c token (Some values)) (readTrace c draw) records ctxErr ->
    gatewayRun c token f records ctxErr (closedOutcome c f (readTrace c draw) records ctxErr).

(** ** [cmd/gateway-bench] *)

(** The flags decide between writing the fixture and running the workload;
    [opened] and [decoded] are the configuration file's answers, [create],
    [write] and [close] those of the fixture file. *)
Definition fixtureExit (c : BenchConfig) (create write close : option error) : Z :=
  match Validate sha256 parseIPLiteral c with
  | Some _ => 1
  | None =>
      match create with
      | Some _ => 1
      | None =>
          match orElse (match WriteFixture sha256 c with inl _ => write | inr e => Some e end) close with
          | Some _ => 1
          | None => 0
          end
      end
  end.

Definition benchExit (opened decoded : option error) (c : BenchConfig) (fixture : string) (create write close : option error)
    (result : Summary * option error) : Z :=
  match opened, decoded with
  | Some _, _ | None, Some _ => 1
  | None, None =>
      if negb (String.eqb fixture "") then fixtureExit c create write close
      else match result.2 with Some _ => 1 | None => 0 end
  end.
End Run.

(** ** Proofs: no request panics, and every workload comes to its end *)
Section Progress.
Variable sha256 : string -> string.
Variable decodeValue : string -> option (string * Z).
Variable decodeWrite : string -> WriteAck * bool.
Notation requestExpected := (requestExpected sha256 decodeValue decodeWrite).
Notation readOne := (readOne sha256 decodeValue decodeWrite).
Notation loop_step := (loop_step sha256 decodeValue decodeWrite).
Notation arrival_step := (arrival_step sha256 decodeValue decodeWrite).

Lemma requestExpected_total r badURL Do elapsed index k method expected min max missing :
  runner_ok sha256 r -> 0 <= k < Keys (rn_c r) ->
  is_Some (requestExpected r badURL Do elapsed index k method expected min max missing).
Proof.
  intros Hr Hk. unfold LoadClient.requestExpected. cbv zeta.
  destruct (if String.eqb method "PUT" then _ else _) as [body|err]; [|by eexists].
  destruct badURL; [by eexists|]. destruct (Do _) as [|response readErr]; [by eexists|].
  destruct readErr; [by eexists|]. destruct (missing && (StatusCode response =? 404)); [by eexists|].
  destruct (missing && (StatusCode response =? 200)); [by eexists|]. destruct (negb (StatusCode response =? 200)); [by eexists|].
  destruct (String.eqb method "PUT").
  - destruct (decodeWrite _) as [result failed]. by eexists.
  - destruct (decodeValue _) as [[vkey v]|]; [|by eexists]. destruct (_ || _); [by eexists|].
    rewrite (wantedValue_ok sha256 r k v Hr Hk). cbn [mbind option_bind].
    destruct (productValue sha256 (rn_c r) k v); by eexists.
Qed.

(** *** The workers of a closed loop *)
#[local] Instance loader_eq_dec : EqDecision loader.
Proof. solve_decision. Defined.

Section Workers.
Variable r : runner.
Variable trace : list Z.
Hypothesis Hr : runner_ok sha256 r.
Hypothesis Htrace : forall k, k ∈ trace -> 0 <= k < Keys (rn_c r).
Notation n := (Z.of_nat (length trace)).

(** How many steps a worker can take before it claims another index. *)
Definition loader_weight (pc : loader) : Z :=
  match pc with Free => 2 | Holding i => if i <? n then 4 else 1 | Requesting _ => 3 | Left => 0 end.
Definition loop_measure (s : loop) : Z := 3 * Z.max 0 (n - lp_next s) + Zsum loader_weight (lp_loaders s).

Lemma loop_measure_nonneg s : 0 <= loop_measure s.
Proof.
  unfold loop_measure. pose proof (Zsum_nonneg loader_weight (lp_loaders s)) as H.
  assert (forall pc, 0 <= loader_weight pc) as Hpc by (intros []; simpl; try case_bool; lia). specialize (H Hpc). lia.
Qed.

(** A step of a worker, not of the context. *)
Definition loop_work (s s' : loop) : Prop := loop_step r trace s s' /\ lp_loaders s' <> lp_loaders s.

Lemma loop_work_measure s s' :
  loop_ok sha256 decodeValue decodeWrite r trace s -> loop_work s s' ->
  loop_measure s' < loop_measure s /\ lp_ended s' = lp_ended s.
Proof.
  intros Hs [Hst Hne]. unfold loop_measure.
  destruct Hst as [w s Hw|w i s Hw|w i k badURL Do elapsed rec s Hw Hk Hrec|s]; cbn [at_load lp_next lp_loaders lp_ended] in *;
    [..|done]; (split; [|done]); rewrite (Zsum_insert _ _ _ _ _ Hw); cbn [loader_weight].
  - destruct (lp_next s <? n) eqn:E; reflect_bool; lia.
  - destruct (n <=? i) eqn:E1, (lp_ended s) eqn:E2, (i <? n) eqn:E3; cbn [orb loader_weight]; reflect_bool; lia.
  - lia.
Qed.

Lemma loop_progress s :
  loop_ok sha256 decodeValue decodeWrite r trace s -> ~ loopDone s -> exists s', loop_work s s'.
Proof.
  intros Hs Hd. assert (exists w pc, lp_loaders s !! w = Some pc /\ pc <> Left) as (w & pc & Hw & Hpc).
  { apply not_Forall_Exists in Hd; [|intros [| | |]; (by left) || (by right)].
    apply Exists_exists in Hd as (pc & [w Hw]%list_elem_of_lookup & Hne). exists w, pc. split; [done|]. by intros ->. }
  assert (forall pc' s1, pc' <> pc -> lp_loaders s1 = lp_loaders s -> lp_loaders (at_load w pc' s1) <> lp_loaders s) as Hdiff.
  { intros pc' s1 Hne E H. cbn in H. rewrite E in H. apply Hne.
    assert (<[w := pc']> (lp_loaders s) !! w = Some pc') as H1 by (apply list_lookup_insert_eq; by eapply lookup_lt_Some).
    congruence. }
  destruct pc as [|i|i|].
  - eexists. split; [by apply (ls_claim _ _ _ _ _ w)|]. by apply Hdiff.
  - eexists. split; [by apply (ls_check _ _ _ _ _ w i)|]. apply Hdiff; [by destruct (_ || _)|done].
  - destruct (lo_held _ _ _ _ _ s Hs w _ i Hw (or_intror eq_refl)) as (Hi & Hlt & _). specialize (Hlt eq_refl).
    destruct (lookup_lt_is_Some_2 trace (Z.to_nat i)) as [k Hk]; [lia|].
    destruct (requestExpected_total r false (fun _ => TransportFailed) 0 i k "GET" 0 1 1 false Hr) as [rec Hrec].
    { apply Htrace. by eapply list_elem_of_lookup_2. }
    eexists. split; [by eapply (ls_request _ _ _ _ _ w i k)|]. by apply Hdiff.
  - done.
Qed.

(** From wherever the workers are, they come to an end without the context's help. *)
Lemma loop_completes s :
  loop_ok sha256 decodeValue decodeWrite r trace s ->
  exists s', rtc (loop_step r trace) s s' /\ loopDone s' /\ lp_ended s' = lp_ended s.
Proof.
  remember (Z.to_nat (loop_measure s)) as m eqn:Em. revert s Em.
  induction (lt_wf m) as [m _ IH]. intros s -> Hs.
  destruct (decide (Forall (eq Left) (lp_loaders s))) as [Hd|Hd]; [exists s; split; [apply rtc_refl|done]|].
  destruct (loop_progress s Hs Hd) as [s1 Hw]. destruct (loop_work_measure s s1 Hs Hw) as [Hm He].
  pose proof (loop_measure_nonneg s1). destruct Hw as [Hst _].
  destruct (IH (Z.to_nat (loop_measure s1)) ltac:(lia) s1 eq_refl) as (s' & Hr' & Hd' & He').
  { by eapply loop_step_ok. }
  exists s'. split; [by eapply rtc_l|]. split; [done|congruence].
Qed.

Lemma loop_measure_bound s :
  loop_ok sha256 decodeValue decodeWrite r trace s -> length (lp_loaders s) = Z.to_nat (Workers (rn_c r)) -> 1 <= Workers (rn_c r) ->
  loop_measure s <= 3 * n + 4 * Workers (rn_c r).
Proof.
  intros Hs HL Hw. pose proof (lo_next _ _ _ _ _ s Hs). unfold loop_measure.
  assert (Zsum loader_weight (lp_loaders s) <= 4 * Z.of_nat (length (lp_loaders s))); [|lia].
  clear. induction (lp_loaders s) as [|pc l IH]; simpl; [lia|]. assert (loader_weight pc <= 4) by (destruct pc; simpl; try case_bool; lia). lia.
Qed.

(** However they are scheduled, they take a bounded number of steps. *)
Lemma loop_bounded s s' k :
  loop_ok sha256 decodeValue decodeWrite r trace s -> nsteps loop_work k s s' -> Z.of_nat k <= loop_measure s.
Proof.
  intros Hs Hn. revert Hs. induction Hn as [s|k s s1 s2 Hw _ IH]; intros Hs; [apply loop_measure_nonneg|].
  destruct (loop_work_measure s s1 Hs Hw) as [Hm _]. destruct Hw as [Hst _].
  specialize (IH (loop_step_ok _ _ _ _ _ _ _ Hst Hs)). lia.
Qed.
End Workers.

(** *** The loops of a mixed and of a TTL run *)
Section Loops.
Variable r : runner.
Variable trace : list Z.
Hypothesis Hr : runner_ok sha256 r.
Hypothesis Hkeys : 1 <= Keys (rn_c r).
Hypothesis Htrace : forall k, k ∈ trace -> 0 <= k < Keys (rn_c r).

Lemma ttl_total i rounds : is_Some (ttlRecords sha256 decodeValue decodeWrite r i rounds).
Proof.
  revert i. induction rounds as [|[[badURL Do] elapsed] rest IH]; intros i; cbn [ttlRecords]; [by eexists|].
  destruct (requestExpected_total r badURL Do elapsed i 0 "GET" 0 1 1 false Hr ltac:(lia)) as [rec Hrec].
  unfold LoadLoop.readOne. rewrite Hrec. destruct (IH (i + 1)) as [l Hl]. cbn [mbind option_bind]. rewrite Hl. by eexists.
Qed.

Variable network : Z -> Z -> Request -> answer.
Variable elapsed : Z -> Z -> Duration.
Variable badURL : Z -> Z -> bool.
Variable late : Z -> Z -> bool.
Hypothesis Hne : trace <> [].
Notation mixedWindow := (mixedWindow sha256 decodeValue decodeWrite r trace network elapsed badURL late).
Notation mixedWindows := (mixedWindows sha256 decodeValue decodeWrite r trace network elapsed badURL late).

Lemma mixedWindow_total window committed : 0 <= window -> is_Some (mixedWindow window committed).
Proof using All.
  intros Hwin. unfold LoadRun.mixedWindow, LoadRun.request. cbv zeta.
  destruct (requestExpected_total r (badURL window 0) (network window 0) (elapsed window 0) (window * 20) 0 "PUT" (window + 1)
    (window + 1) (window + 1 + 1) false Hr ltac:(lia)) as [put Hput].
  rewrite Hput. cbn [mbind option_bind].
  destruct (proj2 (mapM_is_Some (LoadRun.mixedRead sha256 decodeValue decodeWrite r trace network elapsed badURL late window committed put)
    (seqZ 1 19))) as [reads Hreads]; [|rewrite Hreads; by eexists].
  apply Forall_forall. intros slot Hslot. unfold compose, LoadRun.mixedRead, LoadRun.request. cbv zeta.
  assert (0 < Z.of_nat (length trace)) as Hlen by (destruct trace; [done|simpl; lia]).
  pose proof (Z.mod_pos_bound (window * 19 + slot - 1) (Z.of_nat (length trace)) Hlen) as Hmod.
  destruct (lookup_lt_is_Some_2 trace (Z.to_nat ((window * 19 + slot - 1) mod Z.of_nat (length trace)))) as [k Hk]; [lia|].
  rewrite Hk. cbn [mbind option_bind]. apply list_elem_of_lookup_2, Htrace in Hk.
  destruct (if k =? 0 then _ else _) as [lo hi]. by apply requestExpected_total.
Qed.

Lemma mixedWindows_total n window committed : 0 <= window -> is_Some (mixedWindows n window committed).
Proof using All.
  revert window committed. induction n as [|n IH]; intros window committed Hwin; cbn [LoadRun.mixedWindows]; [by eexists|].
  destruct (mixedWindow_total window committed Hwin) as [[put reads] Hw]. rewrite Hw. cbn [mbind option_bind].
  destruct (putOk put); [|by eexists]. destruct (IH (window + 1) (window + 1 + 1) ltac:(lia)) as [rest Hrest].
  rewrite Hrest. by eexists.
Qed.
End Loops.

(** *** The dispatcher and the workers of an arrival run *)
Section Open.
Variable c : BenchConfig.
Variable draw : Z -> Z.
Variable start : Time.
Hypothesis Hc : valid_plan c.
Hypothesis Hk : 1 <= Keys c.
Hypothesis Hdraw : forall i, 0 <= draw i < Keys c.
Hypothesis Hw : 1 <= Workers c.
Notation plan := (arrivalPlan draw c).

Definition arrival_measure (a : arrival) : Z :=
  3 * Z.of_nat (length (a_todo a)) + 2 * Z.of_nat (length (a_queue a)) + Z.of_nat (length (a_busy a)).

(** A step of the dispatcher or of a worker that gets something done. *)
Definition arrival_work (a a' : arrival) : Prop :=
  arrival_step c start a a' /\ (a_todo a', a_queue a', a_busy a') <> (a_todo a, a_queue a, a_busy a).

Lemma arrival_work_measure a a' : arrival_work a a' -> arrival_measure a' < arrival_measure a.
Proof.
  intros [Hs Hne]. unfold arrival_measure.
  destruct Hs as [j rest catchUp queue busy records canceled now0 now dispatched room H1 H2
    |todo catchUp queue busy records|todo catchUp queue busy records canceled|todo catchUp q queue busy records canceled Hb
    |todo catchUp queue busy records i j dispatched Hi
    |todo catchUp queue busy records canceled i j dispatched began now r badURL Do elapsed token Hi Hr];
    cbn [a_todo a_queue a_busy] in *.
  - unfold dispatchOne. cbv zeta. destruct (negb _); [|destruct room]; cbn [a_todo a_queue a_busy]; rewrite ?length_app; simpl; lia.
  - destruct todo; [done|simpl; lia].
  - done.
  - rewrite length_app. simpl. lia.
  - destruct (delete_busy i j dispatched busy Hi) as (_ & HL & Hpos). lia.
  - destruct (delete_busy i j dispatched busy Hi) as (_ & HL & Hpos). lia.
Qed.

Lemma planned_key j : j ∈ plan -> 0 <= j_key j < Keys c.
Proof.
  intros [k Hj]%list_elem_of_lookup. destruct (plan_lookup draw c k j Hc Hj) as (m & s & x & _ & _ & Hx & -> & Ek).
  pose proof (planJob_choice draw c (Z.of_nat m) s (stageStart c m) (Zsum requests (take m (Stages c))) x) as Ech.
  pose proof (plan_key draw c (Z.of_nat k) Hk (vp_mixed c Hc) ltac:(lia) Hdraw) as Hkey. rewrite Ek in Hkey.
  rewrite <- Ech in Hkey. exact Hkey.
Qed.

Lemma arrival_progress a :
  arrival_ok c plan a -> ~ arrivalDone a ->
  exists a', arrival_work a a' /\ a_canceled a' = a_canceled a.
Proof.
  intros Ha Hd. destruct a as [todo catchUp queue busy records canceled]. unfold arrivalDone in Hd. cbn [a_todo a_queue a_busy] in Hd.
  destruct busy as [|[j t] busy].
  - destruct queue as [|q queue].
    + destruct todo as [|j rest]; [by destruct Hd|].
      set (room := bool_decide (0 < MaxPending c + Workers c)).
      exists (let '(catchUp', queue', records') := dispatchOne c start j 0 0 0 room catchUp [] records in
              mkArrival rest catchUp' queue' [] records' canceled). split; [split|].
      * apply as_dispatch; unfold room; cbn [length]; intros Hx.
        -- apply bool_decide_eq_true in Hx. lia.
        -- apply bool_decide_eq_false in Hx. pose proof (vp_pending c Hc). lia.
      * unfold dispatchOne. cbv zeta. intros E. apply (f_equal (fun x => length x.1.1)) in E. revert E.
        destruct (negb _); [|destruct room]; cbn [a_todo a_queue a_busy length fst]; lia.
      * unfold dispatchOne. cbv zeta. destruct (negb _); [|destruct room]; done.
    + eexists. split; [split; [apply as_take; cbn [length]; lia|]|done].
      intros E. apply (f_equal (fun x => length x.2)) in E. discriminate E.
  - assert (j ∈ plan) as Hj.
    { destruct (ro_pending _ _ _ _ _ (ao_records _ _ _ Ha) j) as [k Hj]; [|by eapply list_elem_of_lookup_2].
      unfold unresolved. cbn [a_busy a_queue fmap list_fmap fst]. rewrite !elem_of_app. right. left. by left. }
    destruct (requestExpected_total (mkRunner c "" None) false (fun _ => TransportFailed) 0 (j_index j) (j_key j) "GET" 0 1 1
      (j_missing j) I (planned_key j Hj)) as [rec Hrec].
    eexists. split; [split; [by apply (as_request _ _ _ c start todo catchUp queue _ records canceled 0 j t 0 0 rec false (fun _ => TransportFailed) 0 "")|]|done].
    intros E. apply (f_equal (fun x => length x.2)) in E. cbn [a_busy snd delete list_delete length] in E. lia.
Qed.

Lemma arrival_completes a :
  arrival_ok c plan a ->
  exists a', rtc (arrival_step c start) a a' /\ arrivalDone a' /\ a_canceled a' = a_canceled a.
Proof.
  remember (Z.to_nat (arrival_measure a)) as m eqn:Em. revert a Em.
  induction (lt_wf m) as [m _ IH]. intros a -> Ha.
  destruct (decide (a_todo a = [] /\ length (a_queue a) = 0%nat /\ length (a_busy a) = 0%nat)) as [(E1 & E2 & E3)|Hd].
  { exists a. split; [apply rtc_refl|]. split; [|done]. split; [done|]. by split; apply nil_length_inv. }
  destruct (arrival_progress a Ha) as (a1 & Hwork & Hcan).
  { intros (E1 & E2 & E3). apply Hd. by rewrite E1, E2, E3. }
  pose proof (arrival_work_measure a a1 Hwork) as Hm. destruct Hwork as [Hst _].
  assert (0 <= arrival_measure a1) by (unfold arrival_measure; lia).
  destruct (IH (Z.to_nat (arrival_measure a1)) ltac:(lia) a1 eq_refl) as (a' & Hr & Hd' & Hc').
  { eapply arrival_step_ok; [by apply plan_numbered|apply Hc|exact Ha|exact Hst]. }
  exists a'. split; [by eapply rtc_l|]. split; [done|congruence].
Qed.

Lemma arrival_measure_bound a : arrival_ok c plan a -> arrival_measure a <= 3 * Zsum requests (Stages c).
Proof.
  intros Ha. pose proof (ao_records _ _ _ Ha) as [_ Hnd Hp _].
  assert (length (unresolved a) <= length plan)%nat as HL.
  { apply submseteq_length, NoDup_submseteq; [done|]. intros j Hj. destruct (Hp j Hj) as [k Hk']. by eapply list_elem_of_lookup_2. }
  pose proof (planFrom_length draw c (Stages c) 0 0 0 (vp_stages c Hc)) as HP.
  unfold unresolved in HL. rewrite !length_app, !length_fmap in HL. unfold arrivalPlan in HL. unfold arrival_measure. lia.
Qed.

Lemma arrival_bounded a a' k : nsteps arrival_work k a a' -> Z.of_nat k <= arrival_measure a.
Proof.
  intros Hn. induction Hn as [a|k a a1 a2 Hwork _ IH]; [unfold arrival_measure; lia|].
  pose proof (arrival_work_measure a a1 Hwork). lia.
Qed.
End Open.
End Progress.

(** ** Proofs: the run *)
Section Whole.
Variable sha256 : string -> string.
Variable parseIPLiteral : string -> option string.
Variable decodeValue : string -> option (string * Z).
Variable decodeWrite : string -> WriteAck * bool.
Variable draw : Z -> Z.
Notation Validate := (Validate sha256 parseIPLiteral).
Notation gatewayRun := (gatewayRun sha256 parseIPLiteral decodeValue decodeWrite draw).
Notation workload := (workload sha256 decodeValue decodeWrite).

Record validated (c : BenchConfig) : Prop := {
  va_keys : 1 <= Keys c;
  va_workers : 1 <= Workers c;
  va_reads : 1 <= Reads c;
  va_windows : 0 <= Windows c;
  va_dataset : validateDataset sha256 c = None;
  va_arrival : Scenario c = "arrival" -> valid_plan c;
  va_planned : Scenario c = "arrival" -> 0 < Zsum requests (Stages c);
}.

Lemma planned_positive c : validateArrival c = None -> 0 < Zsum requests (Stages c).
Proof.
  intros Hv. pose proof (vp_stages c (validateArrival_plan c Hv)) as Hok. revert Hv. unfold validateArrival. passes E1. passes E2. intros _.
  destruct (Stages c) as [|s l]; [discriminate E2|]. cbn [Zsum].
  assert (0 <= Zsum requests l) as Hl.
  { assert (forall x, x ∈ l -> 0 <= requests x) as Hx
      by (intros x Hx; destruct (Hok x ltac:(by right)); unfold requests; nia).
    clear -Hx. induction l as [|x l IH]; simpl; [lia|]. pose proof (Hx x ltac:(by left)).
    specialize (IH (fun y Hy => Hx y ltac:(by right))). lia. }
  destruct (Hok s ltac:(by left)) as [H1 H2]. unfold requests in *. nia.
Qed.

Lemma Validate_validated c : Validate c = None -> validated c.
Proof.
  unfold Arrival.Validate. destruct (url_Parse _ _) as [u|]; [|done]. passes E1. passes E2. passes E3. passes E4. passes E5.
  destruct (if String.eqb (Scenario c) "arrival" then _ else _) as [e|] eqn:Ea; [done|].
  destruct (validateDataset sha256 c) as [e|] eqn:Ed; [done|]. passes E6. intros _. reflect_bool.
  split; try lia; try done; intros Hs; rewrite Hs in Ea; [by apply validateArrival_plan|by apply planned_positive].
Qed.

Lemma orElse_none a b : orElse a b = None <-> a = None /\ b = None.
Proof. destruct a; naive_solver. Qed.

(** What a run without an error has done with its files. *)
Definition files_written (f : RunFiles) (n : nat) : Prop :=
  fl_mkdir f = None /\ fl_create f = None /\ (forall i, (i < n)%nat -> fl_encode f i = None) /\ fl_close f = None /\
  fl_summary f = None.

Lemma encodeRecords_none f i n : encodeRecords f i n = None -> forall k, (i <= k < i + n)%nat -> fl_encode f k = None.
Proof.
  revert i. induction n as [|n IH]; intros i; cbn [encodeRecords]; [intros _ k; lia|].
  intros [H1 H2]%orElse_none k Hk. destruct (decide (k = i)) as [->|]; [done|]. apply (IH (S i) H2). lia.
Qed.

Lemma writeFiles_none f n : fl_mkdir f = None -> writeFiles f n = None -> files_written f n.
Proof.
  unfold writeFiles, writeRequests. intros Hm [(H1 & [H2 H3]%orElse_none)%orElse_none H4]%orElse_none.
  split_and!; try done. intros i Hi. apply (encodeRecords_none f 0 n H2). lia.
Qed.

(** The figures of a perfect run of [n] requests. *)
Definition perfect (s : Summary) (n : nat) : Prop :=
  sm_Planned s = Z.of_nat n /\ sm_Attempted s = Z.of_nat n /\ sm_Success s = Z.of_nat n /\ sm_Skipped s = 0 /\
  sm_Errors s = 0 /\ sm_Incorrect s = 0.

Lemma summarize_perfect planned l :
  (forall rec, rec ∈ l -> succeeded rec) -> planned = Z.of_nat (length l) -> perfect (summarize planned l) (length l).
Proof.
  intros Hall ->. unfold summarize. cbv zeta. destruct (sums_count l) as (E1 & E2 & E3 & E4 & _).
  unfold perfect. cbn [sm_Planned sm_Attempted sm_Success sm_Skipped sm_Errors sm_Incorrect]. rewrite E1, E2, E3, E4.
  rewrite (count_all attempted l) by (intros rec Hrec; by destruct (Hall rec Hrec)). rewrite (count_all succeeded l) by done.
  rewrite !count_zero by (intros rec Hrec; destruct (Hall rec Hrec) as (_ & He & Hi); intuition congruence).
  split_and!; lia.
Qed.

Lemma arrivalSummary_perfect l :
  (forall rec, rec ∈ l -> succeeded rec) -> perfect (arrivalSummary (arrivalCounts l)) (length l).
Proof.
  intros Hall. destruct (tally_of_fold l) as [_ T2 T3 T4 T5 T6 _ _ _ _]. unfold arrivalSummary, arrivalCounts, perfect. cbv zeta.
  cbn [sm_Planned sm_Attempted sm_Success sm_Skipped sm_Errors sm_Incorrect ac_Planned ac_Attempted ac_Success ac_Dropped ac_Errors ac_Incorrect].
  rewrite T2, T3, T4, T5, T6. rewrite (count_all attempted l) by (intros rec Hrec; by destruct (Hall rec Hrec)).
  rewrite (count_all succeeded l) by done.
  rewrite !count_zero by (intros rec Hrec; destruct (Hall rec Hrec) as (? & He & Hi); intuition congruence). done.
Qed.

Lemma readTrace_length c : 1 <= Reads c -> Z.of_nat (length (readTrace c draw)) = Reads c.
Proof. intros H. unfold readTrace. rewrite length_fmap, length_seqZ. lia. Qed.

(** How many requests a run is meant to make. *)
Definition planned_number (c : BenchConfig) (n : nat) : Prop :=
  if String.eqb (Scenario c) "mixed" then Z.of_nat n = 20 * Windows c
  else if String.eqb (Scenario c) "ttl" then True
  else if String.eqb (Scenario c) "arrival" then Z.of_nat n = Zsum requests (Stages c)
  else Z.of_nat n = Reads c.

(** The records of a closed-loop workload whose summary carries no error. *)
Lemma workload_passes r trace l e :
  workload r trace l e -> 0 <= Windows (rn_c r) -> Scenario (rn_c r) <> "arrival" -> Z.of_nat (length trace) = Reads (rn_c r) ->
  runError (summarize (plannedRequests (rn_c r) trace l) l) e = None ->
  e = None /\ l <> [] /\ (forall rec, rec ∈ l -> succeeded rec) /\
  plannedRequests (rn_c r) trace l = Z.of_nat (length l) /\ planned_number (rn_c r) (length l).
Proof.
  intros Hwl Hwin Har Htr Hv. pose proof (run_verdict _ _ _ Hv) as (He0 & _ & _ & Hpos). split; [exact He0|].
  split; [by intros ->|]. pose proof (count_bound attempted l).
  unfold plannedRequests, planned_number in *. destruct Hwl as [network elapsed badURL late l ctxErr Hs Hl|rounds l ctxErr Hs Hl|s ctxErr H1 H2 Hrun Hd He].
  - rewrite Hs in *. cbn [String.eqb Ascii.eqb Bool.eqb] in *.
    destruct (mixed_perfect _ _ _ _ _ _ _ _ _ _ _ Hl Hwin Hv) as [HL Hall]. split_and!; [done|lia|lia].
  - rewrite Hs in *. cbn [String.eqb Ascii.eqb Bool.eqb] in *.
    rewrite verdict_iff in Hv. destruct Hv as (_ & _ & Hall). by split_and!.
  - rewrite (proj2 (String.eqb_neq _ _) H1), (proj2 (String.eqb_neq _ _) H2), (proj2 (String.eqb_neq _ _) Har) in *.
    pose proof (loop_steps_ok _ _ _ _ _ s Hrun) as Hs. pose proof (lo_length _ _ _ _ _ s Hs) as HL.
    rewrite <- HL in Hv. rewrite verdict_iff in Hv. destruct Hv as (_ & _ & Hall). split_and!; [done|lia|lia].
Qed.

(** A worker's run without an error made the requests of the trace. *)
Lemma workload_trace r trace l e :
  workload r trace l e -> Scenario (rn_c r) <> "mixed" -> Scenario (rn_c r) <> "ttl" ->
  (forall rec, rec ∈ l -> succeeded rec) -> r_KeyIndex <$> l = trace.
Proof.
  intros Hwl H1 H2 Hall. destruct Hwl as [network elapsed badURL late l ctxErr Hs Hl|rounds l ctxErr Hs Hl|s ctxErr _ _ Hrun Hd He]; [done..|].
  pose proof (loop_steps_ok _ _ _ _ _ s Hrun) as Hs. apply list_eq. intros i. rewrite list_lookup_fmap.
  destruct (lp_records s !! i) as [rec|] eqn:Hi.
  - pose proof Hi as Hi'. rewrite <- (Nat2Z.id i) in Hi'. apply (lo_record _ _ _ _ _ s Hs) in Hi' as [->|Hm]; [| |lia].
    + apply list_elem_of_lookup_2, Hall in Hi as [? _]. done.
    + apply made_attempted in Hm as (_ & _ & Hk). rewrite Nat2Z.id in Hk. by rewrite Hk.
  - symmetry. apply lookup_ge_None. rewrite <- (lo_length _ _ _ _ _ s Hs). by apply lookup_ge_None.
Qed.

(** C27: what "the run passed" means, for every scenario and however its workers
    interleave: when [Run] returns no error, the configuration was valid, a
    mixed run had its token, at least one request was made, every request that
    was planned was made (in a worker scenario, the keys of the trace at their
    places) and answered with the right value, the summary says
    exactly that (nothing skipped, no error, no incorrect value), the context
    had not ended when the workload was over, the request log and the summary are on disk, and the command
    exits with status 0; with any error it exits with status 1. *)
Theorem gateway_run_passes c token f records ended summary err opened decoded :
  gatewayRun c token f records ended (summary, err) ->
  (err = None ->
     ended = None /\ Validate c = None /\ (Scenario c = "mixed" -> token <> "") /\
     records <> [] /\ (forall rec, rec ∈ records -> succeeded rec) /\ planned_number c (length records) /\
     (Scenario c ∉ ["mixed"; "ttl"; "arrival"] -> r_KeyIndex <$> records = readTrace c draw) /\
     perfect summary (length records) /\ files_written f (length records)) /\
  (benchExit sha256 parseIPLiteral opened decoded c "" None None None (summary, err) = 0 <->
     opened = None /\ decoded = None /\ err = None).
Proof.
  intros Hrun. split.
  2: { unfold benchExit. destruct opened, decoded, err; simpl; intuition discriminate. }
  intros ->. remember (summary, None) as res eqn:Eres.
  destruct Hrun as [e ended Hv|e ended Hv Hm|start a ended Hv Hs Hm Hrun Hd Hend|e ended Hv Hs Hm He|values ended Hv Hm He Hs Ht|values records ctxErr Hv Hs Hm He Ht Hwl];
    try discriminate Eres.
  - destruct (Validate_validated c Hv) as [Hk Hw Hr Hwin Hds Hpl Hpos]. specialize (Hpl Hs). specialize (Hpos Hs).
    unfold arrivalOutcome in Eres. injection Eres as <- He. apply orElse_none in He as [Hwr He].
    destruct (String.eqb_spec (reportStatus (arrivalCounts (a_records a)) (a_canceled a)) "passed") as [Hst|]; [|done].
    destruct (passed_succeeded _ _ Hst) as [Hcan Hall].
    destruct (arrival_drained sha256 decodeValue decodeWrite draw c start a Hpl ltac:(lia) Hrun Hd) as [HL _].
    unfold writeArrival in Hwr. apply orElse_none in Hwr as [Hwr _].
    split; [destruct ended as [e|]; [|done]; by rewrite (proj2 Hend) in Hcan|].
    split; [done|]. split; [intros E; congruence|]. split.
    { intros E. rewrite E in HL. simpl in HL. lia. }
    split; [done|]. split; [unfold planned_number; by rewrite Hs|]. split; [rewrite Hs; set_solver|].
    split; [by apply arrivalSummary_perfect|].
    by apply writeFiles_none.
  - destruct (Validate_validated c Hv) as [Hk Hw Hr Hwin Hds _ _].
    unfold closedOutcome in Eres. injection Eres as <- He'. apply orElse_none in He' as [Hwr He'].
    destruct (workload_passes _ _ _ _ Hwl Hwin Hs (readTrace_length c Hr) He') as (Hend & Hne & Hall & Hpn & Hnum).
    split; [exact Hend|]. split; [done|]. split; [done|]. split; [done|]. split; [done|]. split; [done|].
    split; [intros Hsc; eapply workload_trace; [exact Hwl|set_solver..|done]|].
    split; [by apply summarize_perfect|by apply writeFiles_none].
Qed.

(** *** Every run has an end *)
Lemma readTrace_keys c : 1 <= Keys c -> (forall i, 0 <= draw i < Keys c) -> forall k, k ∈ readTrace c draw -> 0 <= k < Keys c.
Proof.
  intros Hk Hd k (i & -> & _)%list_elem_of_fmap. pose proof (Z.mod_pos_bound i (Keys c) ltac:(lia)).
  destruct (bool_decide _); [lia|]. destruct (bool_decide _); [apply Hd|done].
Qed.

Lemma workload_exists c token values :
  validated c -> (forall i, 0 <= draw i < Keys c) -> runner_ok sha256 (mkRunner c token (Some values)) ->
  exists records e, workload (mkRunner c token (Some values)) (readTrace c draw) records e.
Proof.
  intros Hc Hd Hr. set (r := mkRunner c token (Some values)) in *.
  pose proof (readTrace_keys c (va_keys c Hc) Hd) as Hkeys. pose proof (readTrace_length c (va_reads c Hc)) as HL.
  destruct (String.eqb_spec (Scenario c) "mixed") as [Hm|Hm]; [|destruct (String.eqb_spec (Scenario c) "ttl") as [Ht|Ht]].
  - destruct (mixedWindows_total sha256 decodeValue decodeWrite r (readTrace c draw) Hr (va_keys c Hc) Hkeys
      (fun _ _ _ => TransportFailed) (fun _ _ => 0) (fun _ _ => false) (fun _ _ => false)) with (n := Z.to_nat (Windows c)) (window := 0) (committed := 1)
      as [l Hl]; [|done|].
    { intros E. rewrite E in HL. pose proof (va_reads c Hc). simpl in HL. lia. }
    exists l, None. eapply wl_mixed; [exact Hm|exact Hl].
  - exists [], None. by apply (wl_ttl _ _ _ _ _ []).
  - destruct (loop_completes sha256 decodeValue decodeWrite r (readTrace c draw) Hr Hkeys _ (loopStart_ok _ _ _ _ _)) as (s & Hs & Hd' & He).
    exists (lp_records s), None. apply wl_workers; try done. rewrite He. discriminate.
Qed.

Lemma gatewayRun_exists c token f : (forall i, 0 <= draw i < Keys c) -> exists records ended res, gatewayRun c token f records ended res.
Proof.
  intros Hd. destruct (Validate c) as [e|] eqn:Hv; [by eexists _, None, _; apply gr_invalid|].
  destruct (fl_mkdir f) as [e|] eqn:Hm; [by eexists _, None, _; apply gr_mkdir|].
  pose proof (Validate_validated c Hv) as Hc.
  destruct (expectedValues_ok sha256 c token (va_dataset c Hc)) as (values & He & Hr).
  destruct (decide (Scenario c = "arrival")) as [Hs|Hs].
  - pose proof (va_arrival c Hc Hs) as Hp.
    pose proof (arrival_start_ok c (arrivalPlan draw c) (plan_numbered draw c Hp)) as H0.
    pose proof (vp_catchup c Hp). pose proof (vp_pending c Hp). pose proof (va_workers c Hc).
    destruct (arrival_completes sha256 decodeValue decodeWrite c draw 0 Hp (va_keys c Hc) Hd (va_workers c Hc) _
      (H0 ltac:(lia) ltac:(lia) ltac:(lia))) as (a & Hr' & Hdone & _).
    eexists _, (if a_canceled a then Some Canceled else None), _. eapply gr_arrival; try done. by destruct (a_canceled a).
  - destruct (decide (Scenario c = "mixed" /\ token = "")) as [[Hx Ht]|Hx].
    + eexists _, None, _. by eapply gr_token.
    + destruct (workload_exists c token values Hc Hd Hr) as (records & e & Hw). eexists _, _, _.
      eapply gr_closed; try done. intros H1 H2. by apply Hx.
Qed.

(** C29: the load generator comes to an end and never indexes out of range: for
    every configuration, file system and token [Run] has an outcome; wherever a
    run of workers or of the arrival scheduler has got to, it can be completed
    without the context's help, and whatever is scheduled, the workers take at
    most [3*reads + 4*workers] steps and the dispatcher and its workers at most
    three per planned request; and whatever the network answers, every request
    of the mixed and of the TTL loop yields a record. *)
Theorem gateway_run_returns c token f start :
  (forall i, 0 <= draw i < Keys c) ->
  (exists records ended res, gatewayRun c token f records ended res) /\
  (Validate c = None ->
   forall values, expectedValues sha256 c = inl values ->
   let r := mkRunner c token (Some values) in
   let trace := readTrace c draw in
   (forall s, rtc (loop_step sha256 decodeValue decodeWrite r trace) (loopStart r trace) s ->
      (forall k s', nsteps (loop_work sha256 decodeValue decodeWrite r trace) k s s' -> Z.of_nat k <= 3 * Reads c + 4 * Workers c) /\
      exists s', rtc (loop_step sha256 decodeValue decodeWrite r trace) s s' /\ loopDone s' /\ lp_ended s' = lp_ended s) /\
   (Scenario c = "arrival" ->
    forall a, rtc (arrival_step sha256 decodeValue decodeWrite c start) (arrivalStart c (arrivalPlan draw c)) a ->
      (forall k a', nsteps (arrival_work sha256 decodeValue decodeWrite c start) k a a' -> Z.of_nat k <= 3 * Zsum requests (Stages c)) /\
      exists a', rtc (arrival_step sha256 decodeValue decodeWrite c start) a a' /\ arrivalDone a' /\ a_canceled a' = a_canceled a) /\
   (forall network elapsed badURL late, is_Some (mixedRecords sha256 decodeValue decodeWrite r trace network elapsed badURL late)) /\
   (forall rounds, is_Some (ttlRecords sha256 decodeValue decodeWrite r 0 rounds))).
Proof.
  intros Hd. split; [by apply gatewayRun_exists|]. intros Hv values He r trace.
  pose proof (Validate_validated c Hv) as Hc.
  destruct (expectedValues_ok sha256 c token (va_dataset c Hc)) as (values' & He' & Hr). rewrite He in He'. injection He' as <-.
  pose proof (readTrace_keys c (va_keys c Hc) Hd) as Hkeys. pose proof (readTrace_length c (va_reads c Hc)) as HL.
  fold r in Hr. fold trace in Hkeys, HL. split_and!.
  - intros s Hs. pose proof (loop_steps_ok _ _ _ _ _ s Hs) as Hok. split; [|by apply loop_completes].
    intros k s' Hn. pose proof (loop_bounded _ _ _ _ _ s s' k Hok Hn) as Hb.
    pose proof (loop_measure_bound _ _ _ _ _ s Hok (loop_loaders _ _ _ _ _ s Hs) (va_workers c Hc)) as Hb2. cbn [rn_c r] in Hb2. lia.
  - intros Hs a Ha. pose proof (va_arrival c Hc Hs) as Hp. pose proof (va_workers c Hc).
    pose proof (arrival_run_ok _ _ _ draw c start a Hp ltac:(lia) Ha) as Hok. split.
    + intros k a' Hn. pose proof (arrival_bounded _ _ _ _ _ a a' k Hn). pose proof (arrival_measure_bound c draw Hp a Hok). lia.
    + by apply (arrival_completes sha256 decodeValue decodeWrite c draw start Hp (va_keys c Hc) Hd (va_workers c Hc)).
  - intros network elapsed badURL late. unfold LoadRun.mixedRecords.
    apply mixedWindows_total; try done; [apply (va_keys c Hc)|]. intros E. rewrite E in HL. pose proof (va_reads c Hc). simpl in HL. lia.
  - intros rounds. apply ttl_total; [done|apply (va_keys c Hc)].
Qed.
End Whole.

(** ** A concrete run: one worker, one product, one read *)
Definition no_literal (_ : string) : option string := None.
Definition good_files : RunFiles := mkFiles None None (fun _ => None) None None None.
Definition one_read : BenchConfig := mkBench 0 0 "" "" "" 0 [] "http://gw" "gw" "pre" "capacity" 1 128 1 1 0 5 0 0.
Definition one_read_runner : option runner :=
  match expectedValues sample_digest one_read with inl values => Some (mkRunner one_read "" (Some values)) | inr _ => None end.
Definition one_read_record : option BRecord :=
  r ← one_read_runner; readOne sample_digest sample_decode sample_decodeWrite r false sample_answer 5 0 0.

Lemma one_read_run values rec :
  let r := mkRunner one_read "" (Some values) in
  readOne sample_digest sample_decode sample_decodeWrite r false sample_answer 5 0 0 = Some rec ->
  rtc (loop_step sample_digest sample_decode sample_decodeWrite r [0]) (loopStart r [0]) (sample_loop_end rec).
Proof.
  intros r Hrec. eapply rtc_l; [by apply (ls_claim _ _ _ _ _ 0)|]. eapply rtc_l; [by apply (ls_check _ _ _ _ _ 0 0)|].
  eapply rtc_l; [by apply (ls_request _ _ _ _ _ 0 0 0 false sample_answer 5 rec)|].
  eapply rtc_l; [by apply (ls_claim _ _ _ _ _ 0)|]. eapply rtc_l; [by apply (ls_check _ _ _ _ _ 0 1)|]. apply rtc_refl.
Qed.

Lemma gateway_run_passes_witness :
  exists records summary,
    gatewayRun sample_digest no_literal sample_decode sample_decodeWrite no_draw one_read "" good_files records None (summary, None) /\
    length records = 1%nat /\ perfect summary 1 /\
    benchExit sample_digest no_literal None None one_read "" None None None (summary, None) = 0.
Proof.
  destruct (expectedValues sample_digest one_read) as [values|e] eqn:Ev; [|vm_compute in Ev; discriminate Ev].
  set (r := mkRunner one_read "" (Some values)).
  destruct (readOne sample_digest sample_decode sample_decodeWrite r false sample_answer 5 0 0) as [rec|] eqn:Er.
  2: { vm_compute in Ev. injection Ev as <-. vm_compute in Er. discriminate Er. }
  assert (closedOutcome one_read good_files [0] [rec] None = (summarize 1 [rec], None)) as Eo.
  { vm_compute in Ev. injection Ev as <-. vm_compute in Er. injection Er as <-. vm_compute. reflexivity. }
  assert (gatewayRun sample_digest no_literal sample_decode sample_decodeWrite no_draw one_read "" good_files [rec] None (summarize 1 [rec], None)) as Hrun.
  { rewrite <- Eo. eapply (gr_closed _ _ _ _ no_draw one_read "" good_files values [rec] None);
      [vm_compute; reflexivity|discriminate|reflexivity|exact Ev|discriminate|].
    apply (wl_workers _ _ _ r [0] (sample_loop_end rec)); [discriminate|discriminate|by apply one_read_run|repeat constructor|discriminate]. }
  exists [rec], (summarize 1 [rec]). split; [exact Hrun|]. split; [reflexivity|].
  destruct (gateway_run_passes sample_digest no_literal sample_decode sample_decodeWrite no_draw one_read "" good_files [rec] None
    (summarize 1 [rec]) None None None Hrun) as [H1 H2]. split; [by apply H1|]. apply H2. by split.
Defined.

Lemma gateway_run_returns_witness :
  exists records ended res, gatewayRun sample_digest no_literal sample_decode sample_decodeWrite no_draw one_read "" good_files records ended res.
Proof.
  apply (gateway_run_returns sample_digest no_literal sample_decode sample_decodeWrite no_draw one_read "" good_files 0).
  intros i. split; [discriminate|reflexivity].
Defined.
