(* ===== verification/Diagnostics.v ===== *)
(** * The diagnostics benchmark ([load.go], [run.go] of
      [internal/bench/diagnostics])

    Options, the trials of a run and their order, one trial with its checks,
    the keys it reads and the reading of a node's metrics. Everything outside
    the process is an argument: the server, the answers of the requests, the
    profiles and the files. The numbers of the metrics are binary64; how
    [strconv.ParseFloat] rounds is a parameter. Times are kept as durations. *)
From Stdlib Require Import SpecFloat.
From S2P Require Import Prelude GoStrings Errors Config Bootstrap Demo Measurement Dataset.

(** ** Strings *)

(** [strings.Fields]; [cur] is the field being read. *)
Fixpoint fields_go (fuel : nat) (cur s : string) : list string :=
  let emit rest := if String.eqb cur "" then rest else cur :: rest in
  match fuel, s with
  | O, _ | _, EmptyString => emit []
  | S fuel', String c s' =>
      match list_find (fun w => String.prefix w s = true) white_space with
      | Some (_, w) => emit (fields_go fuel' "" (TrimPrefix s w))
      | None => fields_go fuel' (cur +:+ String c "") s'
      end
  end.
Definition Fields (s : string) : list string := fields_go (String.length s) "" s.

(** [errors.Join]; of the joined error only its text is used. *)
Definition Join (errs : list (option error)) : option error :=
  match omap id errs with
  | [] => None
  | es => Some (NewError (joined_by (String "010" "") (Error <$> es)))
  end.

(** ** Metrics *)
Definition metricNames : list (string * string) :=
  [("process_cpu_seconds_total", "cpu"); ("process_resident_memory_bytes", "rss"); ("go_memstats_heap_alloc_bytes", "heap");
   ("simplecache_cache_bytes", "cache_bytes"); ("simplecache_cache_removals_total", "removals")].
Definition sourceMetric : string := "simplecache_source_loads_total".
Definition requiredMetrics : list string := ["cpu"; "rss"; "heap"; "cache_bytes"; "source"; "removals"].

Definition metricAlias (name : string) : option string :=
  if String.eqb name sourceMetric then Some "source" else list_to_map (M := gmap string string) metricNames !! name.

(** The name of a series, without its labels. *)
Definition metricName (series : string) : string := match cut "{" series with Some (name, _) => name | None => series end.

Definition plus (a b : spec_float) : spec_float := SFadd prec emax a b.
Definition minus (a b : spec_float) : spec_float := SFsub prec emax a b.
(** [max] of two numbers, the second of which is no NaN. *)
Definition maximum (a b : spec_float) : spec_float := if SFltb a b then b else a.
Definition zero : spec_float := S754_zero false.
Definition invalidMetric (v : spec_float) : bool :=
  match v with S754_nan | S754_infinity _ => true | _ => SFltb v zero end.

Section Metrics.
(** [strconv.ParseFloat] with 64 bits. *)
Variable ParseFloat : string -> spec_float + error.

(** One line of the text. *)
Definition metricLine (line : string) (out : gmap string spec_float) (seen : list string)
    : (gmap string spec_float * list string) + error :=
  match Fields line with
  | first :: second :: _ =>
      if HasPrefix first "#" then inl (out, seen)
      else
        let name := metricName first in
        match metricAlias name with
        | None => inl (out, seen)
        | Some alias =>
            match ParseFloat second with
            | inr err => inr err
            | inl value =>
                if invalidMetric value then inr (NewError ("invalid metric " +:+ name))
                else if String.eqb alias "source"
                then inl (<[alias := plus (default zero (out !! alias)) value]> out, alias :: seen)
                else inl (<[alias := value]> out, alias :: seen)
            end
        end
  | _ => inl (out, seen)
  end.

Fixpoint metricLines (lines : list string) (out : gmap string spec_float) (seen : list string)
    : (gmap string spec_float * list string) + error :=
  match lines with
  | [] => inl (out, seen)
  | line :: rest => match metricLine line out seen with inl (out, seen) => metricLines rest out seen | inr err => inr err end
  end.

Definition parseMetrics (body : string) : gmap string spec_float + error :=
  match metricLines (split_byte "010" body) (<["source" := zero]> (<["removals" := zero]> ∅)) [] with
  | inr err => inr err
  | inl (out, seen) =>
      match list_find (fun name => name ∉ seen) requiredMetrics with
      | Some (_, name) => inr (NewError ("missing server metric " +:+ name))
      | None => inl out
      end
  end.

(** What came of the request for the metrics: an error, or the status and the
    text, of which 2 MiB are read. *)
Inductive scrape := ScrapeFailed (err : error) | Scraped (status : Z) (body : string) (readErr writeErr : option error).

(** [writeErr]: of writing the text to a file, when a path is given. *)
Definition metrics (s : scrape) (path : bool) : gmap string spec_float + error :=
  match s with
  | ScrapeFailed err => inr err
  | Scraped status body readErr writeErr =>
      match readErr with
      | Some err => inr err
      | None =>
          if negb (status =? 200) then inr (NewError ("metrics HTTP " +:+ FormatInt status))
          else match (if path then writeErr else None) with
               | Some err => inr err
               | None => parseMetrics (slice 0 (Z.to_nat 2097152) body)
               end
      end
  end.

(** ** Options and trials *)
Record DiagOptions := mkDiagOptions {
  do_Server : string; do_Dir : string; do_Seconds : Z; do_Repeats : Z; do_Workers : Z; do_Quick : bool }.

Definition DiagValidate (o : DiagOptions) : option error :=
  let least := if do_Quick o then 1 else 10 in
  if String.eqb (do_Server o) "" || String.eqb (do_Dir o) "" || (do_Seconds o <? least) || (30 <? do_Seconds o) ||
     (do_Repeats o <? 1) || (5 <? do_Repeats o) || (negb (do_Quick o) && (do_Repeats o <? 3)) ||
     (do_Workers o <? 1) || (32 <? do_Workers o)
  then fails "require server/dir, 10-30 seconds, 3-5 repeats and 1-32 workers; quick explicitly permits 1 second/1 repeat"
  else None.

Record ResourceSample := mkSample { rs_At : Duration; rs_RSS : spec_float; rs_Heap : spec_float; rs_CPU : spec_float }.

Record Trial := mkTrial {
  tr_ID : string; tr_Scenario : string; tr_Repeat : Z; tr_Profiled : bool; tr_ServerPID : Z; tr_ClientPID : Z;
  tr_Capacity : Z; tr_ValueBytes : Z; tr_WorkingKeys : Z; tr_WarmupRequests : Z; tr_Requests : Z; tr_Errors : Z;
  tr_Incorrect : Z; tr_Elapsed : Duration; tr_Quantiles : option (Percentiles Duration);
  tr_SourceLoads : spec_float; tr_CPUSeconds : spec_float; tr_MaxObservedRSS : spec_float;
  tr_Before : gmap string spec_float; tr_After : gmap string spec_float; tr_Samples : list ResourceSample;
  tr_Failure : string }.

Definition trialScenarios : list string := ["warm-hot"; "distinct-keys"; "capacity-pressure"].
Definition phaseName (profiled : bool) : string := if profiled then "profile" else "baseline".
Definition trialID (profiled : bool) (scenario : string) (repeat : Z) : string :=
  phaseName profiled +:+ "-" +:+ scenario +:+ "-" +:+ FormatInt repeat.

(** The trial before its server starts. *)
Definition newTrial (clientPID : Z) (scenario : string) (repeat : Z) (profiled : bool) : Trial :=
  let pressure := String.eqb scenario "capacity-pressure" in
  mkTrial (trialID profiled scenario repeat) scenario repeat profiled 0 clientPID
    (if pressure then 1048576 else 67108864) (if pressure then 4096 else 0)
    (if pressure then 512 else if String.eqb scenario "warm-hot" then 1 else 10000)
    0 0 0 0 0 (Quantiles Z.le 0 []) zero zero zero ∅ ∅ [] "".

(** ** Reading *)

(** The index of the key of the [i]-th request of a load, counted from 1. *)
Definition loadIndex (trial : Trial) (i : Z) : Z :=
  if String.eqb (tr_Scenario trial) "distinct-keys" then i
  else if String.eqb (tr_Scenario trial) "capacity-pressure" then Z.rem (i - 1) (tr_WorkingKeys trial) else 0.

(** A read as [load] sees it: its duration, and whether it was bad or wrong. *)
Record loadRead := mkLoadRead { lr_Elapsed : Duration; lr_bad : bool; lr_wrong : bool }.

(** What happened under load, in the order of the critical sections: the reads,
    the scrapes of the sampler, how far the counter got, how the context and
    the sampler ended. *)
Record loadRun := mkLoadRun {
  ld_reads : list loadRead; ld_samples : list ResourceSample; ld_next : Z; ld_elapsed : Duration;
  ld_ctxErr : option error; ld_samplingErr : option error }.

Definition count_if {A} (p : A -> bool) (l : list A) : Z := Z.of_nat (length (filter (fun x => p x = true) l)).

Definition load (trial : Trial) (run : loadRun) : Trial * option error :=
  (mkTrial (tr_ID trial) (tr_Scenario trial) (tr_Repeat trial) (tr_Profiled trial) (tr_ServerPID trial) (tr_ClientPID trial)
     (tr_Capacity trial) (tr_ValueBytes trial) (tr_WorkingKeys trial) (tr_WarmupRequests trial)
     (Z.of_nat (length (ld_reads run))) (tr_Errors trial + count_if lr_bad (ld_reads run))
     (tr_Incorrect trial + count_if lr_wrong (ld_reads run)) (ld_elapsed run) (Quantiles Z.le 0 (lr_Elapsed <$> ld_reads run))
     (tr_SourceLoads trial) (tr_CPUSeconds trial) (foldl maximum (tr_MaxObservedRSS trial) (rs_RSS <$> ld_samples run))
     (tr_Before trial) (tr_After trial) (tr_Samples trial ++ ld_samples run) (tr_Failure trial),
   if String.eqb (tr_Scenario trial) "distinct-keys" && (AutoKeys <=? ld_next run)
   then fails "finite cold dataset exhausted; reduce workers/duration"
   else Join [ld_ctxErr run; ld_samplingErr run]).

(** ** One trial *)
Record trialEnv := mkTrialEnv {
  te_ctx : option error;              (* the context before the trial *)
  te_mkdir : option error;
  te_server : Z + error;              (* the process that [startServer] started *)
  te_ready : option error;            (* [waitReady] *)
  te_warm : list loadRead;            (* the reads of the warm-up *)
  te_warmCtx : option error;
  te_before : scrape;
  te_heapBefore : option error;       (* the profiles *)
  te_profileCtx : option error;
  te_load : loadRun;
  te_after : scrape;
  te_heapAfter : option error;
  te_profiles : option error;
  te_stop : option error }.

Definition warmup (env : trialEnv) : option error :=
  let failures := count_if (fun r => lr_bad r || lr_wrong r) (te_warm env) in
  if negb (failures =? 0) then fails "warmup failed" else te_warmCtx env.

Definition withServer (pid : Z) (t : Trial) : Trial :=
  mkTrial (tr_ID t) (tr_Scenario t) (tr_Repeat t) (tr_Profiled t) pid (tr_ClientPID t) (tr_Capacity t) (tr_ValueBytes t)
    (tr_WorkingKeys t) (tr_WarmupRequests t) (tr_Requests t) (tr_Errors t) (tr_Incorrect t) (tr_Elapsed t) (tr_Quantiles t)
    (tr_SourceLoads t) (tr_CPUSeconds t) (tr_MaxObservedRSS t) (tr_Before t) (tr_After t) (tr_Samples t) (tr_Failure t).
Definition withWarmup (n : Z) (before : gmap string spec_float) (t : Trial) : Trial :=
  mkTrial (tr_ID t) (tr_Scenario t) (tr_Repeat t) (tr_Profiled t) (tr_ServerPID t) (tr_ClientPID t) (tr_Capacity t)
    (tr_ValueBytes t) (tr_WorkingKeys t) n (tr_Requests t) (tr_Errors t) (tr_Incorrect t) (tr_Elapsed t) (tr_Quantiles t)
    (tr_SourceLoads t) (tr_CPUSeconds t) (tr_MaxObservedRSS t) before (tr_After t) (tr_Samples t) (tr_Failure t).
Definition metric (m : gmap string spec_float) (name : string) : spec_float := default zero (m !! name).
Definition withAfter (after : gmap string spec_float) (t : Trial) : Trial :=
  mkTrial (tr_ID t) (tr_Scenario t) (tr_Repeat t) (tr_Profiled t) (tr_ServerPID t) (tr_ClientPID t) (tr_Capacity t)
    (tr_ValueBytes t) (tr_WorkingKeys t) (tr_WarmupRequests t) (tr_Requests t) (tr_Errors t) (tr_Incorrect t) (tr_Elapsed t)
    (tr_Quantiles t) (minus (metric after "source") (metric (tr_Before t) "source"))
    (minus (metric after "cpu") (metric (tr_Before t) "cpu"))
    (maximum (maximum (tr_MaxObservedRSS t) (metric (tr_Before t) "rss")) (metric after "rss"))
    (tr_Before t) after (tr_Samples t) (tr_Failure t).
Definition withFailure (failure : string) (t : Trial) : Trial :=
  mkTrial (tr_ID t) (tr_Scenario t) (tr_Repeat t) (tr_Profiled t) (tr_ServerPID t) (tr_ClientPID t) (tr_Capacity t)
    (tr_ValueBytes t) (tr_WorkingKeys t) (tr_WarmupRequests t) (tr_Requests t) (tr_Errors t) (tr_Incorrect t) (tr_Elapsed t)
    (tr_Quantiles t) (tr_SourceLoads t) (tr_CPUSeconds t) (tr_MaxObservedRSS t) (tr_Before t) (tr_After t) (tr_Samples t) failure.

(** The checks at the end of a trial. *)
Definition checkTrial (t : Trial) : option error :=
  if (tr_Requests t =? 0) || negb (tr_Errors t =? 0) || negb (tr_Incorrect t =? 0) then fails "load failed value/status checks"
  else if SFltb (float64 (tr_Capacity t)) (metric (tr_After t) "cache_bytes") then fails "logical capacity exceeded"
  else if String.eqb (tr_Scenario t) "warm-hot" && negb (SFeqb (tr_SourceLoads t) zero) then fails "warm hot key unexpectedly reloaded"
  else if String.eqb (tr_Scenario t) "distinct-keys" && negb (SFeqb (tr_SourceLoads t) (float64 (tr_Requests t)))
  then fails "distinct-key cold loads did not match requests"
  else if String.eqb (tr_Scenario t) "capacity-pressure" &&
          (SFeqb (tr_SourceLoads t) zero || SFleb (metric (tr_After t) "removals") (metric (tr_Before t) "removals"))
  then fails "capacity run did not exercise eviction/reload"
  else None.

(** The trial once its server runs, up to the deferred stop. *)
Definition runServed (env : trialEnv) (trial : Trial) : Trial * option error :=
  match te_ready env with
  | Some err => (trial, Some err)
  | None =>
  match warmup env with
  | Some err => (trial, Some err)
  | None =>
  let warmCount := if String.eqb (tr_Scenario trial) "capacity-pressure" then 512 else 1 in
  match metrics (te_before env) true with
  | inr err => (withWarmup warmCount ∅ trial, Some err)
  | inl before =>
  let trial := withWarmup warmCount before trial in
  match (if tr_Profiled trial then te_heapBefore env else None) with
  | Some err => (trial, Some err)
  | None =>
  match (if tr_Profiled trial then te_profileCtx env else None) with
  | Some err => (trial, Some err)
  | None =>
  match load trial (te_load env) with
  | (trial, Some err) => (trial, Some err)
  | (trial, None) =>
  match metrics (te_after env) true with
  | inr err => (trial, Some err)
  | inl after =>
  let trial := withAfter after trial in
  match (if tr_Profiled trial then te_heapAfter env else None) with
  | Some err => (trial, Some err)
  | None =>
  match (if tr_Profiled trial then te_profiles env else None) with
  | Some err => (trial, Some err)
  | None => (trial, checkTrial trial)
  end end end end end end end end end.

Definition runTrial (clientPID : Z) (env : trialEnv) (scenario : string) (repeat : Z) (profiled : bool) : Trial * option error :=
  let trial := newTrial clientPID scenario repeat profiled in
  match te_mkdir env with
  | Some err => (trial, Some err)
  | None =>
      match te_server env with
      | inr err => (trial, Some err)
      | inl pid =>
          let '(trial, result) := runServed env (withServer pid trial) in
          match Join [result; te_stop env] with
          | Some err => (withFailure (Error err) trial, Some err)
          | None => (trial, None)
          end
      end
  end.

(** ** The run *)
Record DiagSummary := mkDiagSummary {
  ds_Status : string; ds_Seconds : Z; ds_Repeats : Z; ds_Workers : Z; ds_ThinkMS : Z; ds_SourceDelayMS : Z;
  ds_ServerGOMAXPROCS : Z; ds_Quick : bool; ds_Trials : list Trial; ds_Failure : string; ds_ServerSHA256 : string }.

(** The nested loops: first all repetitions without profiles, then one with. *)
Definition plannedTrials (repeats : Z) : list (bool * Z * string) :=
  '(profiled, n) ← [(false, repeats); (true, 1)];
  repeat ← seqZ 1 n;
  scenario ← trialScenarios;
  [(profiled, repeat, scenario)].

Fixpoint runTrials (clientPID : Z) (envs : list trialEnv) (plan : list (bool * Z * string)) (trials : list Trial) {struct plan}
    : list Trial * option error :=
  match plan, envs with
  | [], _ => (trials, None)
  | (profiled, repeat, scenario) :: plan', env :: envs' =>
      match te_ctx env with
      | Some err => (trials, Some err)
      | None =>
          let '(trial, err) := runTrial clientPID env scenario repeat profiled in
          match err with
          | Some err => (trials ++ [trial], Some (Wrap (tr_ID trial +:+ ": " +:+ Error err) err))
          | None => runTrials clientPID envs' plan' (trials ++ [trial])
          end
      end
  | _ :: _, [] => (trials, Some Canceled)
  end.

(** What surrounds the trials: the directory, the context, the binary with the
    hash of its bytes, and the writing of the summary. *)
Record runEnv := mkRunEnv {
  re_mkdir : option error; re_ctx : option error; re_binary : string + error; re_clientPID : Z;
  re_trials : list trialEnv; re_write : option error }.

Variable sha256 : string -> string.

Definition runBody (o : DiagOptions) (env : runEnv) : string * list Trial * option error :=
  match re_ctx env with
  | Some err => ("", [], Some err)
  | None =>
  match re_binary env with
  | inr err => ("", [], Some err)
  | inl binary =>
      let '(trials, err) := runTrials (re_clientPID env) (re_trials env) (plannedTrials (do_Repeats o)) [] in
      (EncodeToString (sha256 binary), trials, err)
  end end.

Definition RunDiagnostics (o : DiagOptions) (env : runEnv) : DiagSummary * option error :=
  let summary status trials failure hash :=
    mkDiagSummary status (do_Seconds o) (do_Repeats o) (do_Workers o) 1 100 2 (do_Quick o) trials failure hash in
  match DiagValidate o with
  | Some err => (summary "failed" [] "" "", Some err)
  | None =>
      match re_mkdir env with
      | Some err => (summary "failed" [] "" "", Some err)
      | None =>
          let '(hash, trials, result) := runBody o env in
          (summary (match result with None => "passed" | Some _ => "failed" end) trials
             (match result with None => "" | Some err => Error err end) hash,
           Join [result; re_write env])
      end
  end.
End Metrics.

Example Fields_sample : Fields ("  simplecache_cache_bytes 12" +:+ String "009" " x ") = ["simplecache_cache_bytes"; "12"; "x"].
Proof. vm_compute. reflexivity. Qed.

(** ** Proofs: errors and metrics *)
Lemma Join_none l : Join l = None <-> forall e, e ∈ l -> e = None.
Proof.
  unfold Join. destruct (omap id l) as [|x xs] eqn:E.
  - split; [intros _ e He|done]. destruct e as [err|]; [|done]. exfalso.
    assert (err ∈ omap id l) as Hin by (apply list_elem_of_omap; by exists (Some err)). rewrite E in Hin. by apply elem_of_nil in Hin.
  - split; [done|]. intros Hall. exfalso. assert (x ∈ omap id l) as Hin by (rewrite E; by left).
    apply list_elem_of_omap in Hin as (e & He & Hx). by rewrite (Hall e He) in Hx.
Qed.
Lemma Join2_none a b : Join [a; b] = None <-> a = None /\ b = None.
Proof.
  rewrite Join_none. split.
  - intros H. split; apply H; [by left|by right; left].
  - intros [-> ->] e He. rewrite !elem_of_cons, elem_of_nil in He. tauto.
Qed.

Section Facts.
Variable ParseFloat : string -> spec_float + error.
Variable sha256 : string -> string.

Lemma metricAlias_required name alias : metricAlias name = Some alias -> alias ∈ requiredMetrics.
Proof.
  unfold metricAlias. case_bool; [intros [= <-]; vm_compute; set_solver|].
  intros H%elem_of_list_to_map_2. unfold metricNames in H. rewrite !elem_of_cons, elem_of_nil in H.
  unfold requiredMetrics. destruct H as [[= _ ->]|[[= _ ->]|[[= _ ->]|[[= _ ->]|[[= _ ->]|[]]]]]]; set_solver.
Qed.

(** Every name seen has a number, and none but the sum can be out of range. *)
Definition numbers_ok (out : gmap string spec_float) (seen : list string) : Prop :=
  (forall name, name ∈ seen -> is_Some (out !! name)) /\
  (forall name v, out !! name = Some v -> name = "source" \/ invalidMetric v = false).

Lemma metricLine_ok line out seen out' seen' :
  numbers_ok out seen -> metricLine ParseFloat line out seen = inl (out', seen') -> numbers_ok out' seen'.
Proof.
  intros [H1 H2]. unfold metricLine. destruct (Fields line) as [|first [|second l]]; [by intros [= <- <-]..|].
  case_bool; [by intros [= <- <-]|]. destruct (metricAlias _) as [alias|]; [|by intros [= <- <-]].
  destruct (ParseFloat second) as [value|err]; [|done]. destruct (invalidMetric value) eqn:Ei; [done|].
  destruct (String.eqb_spec alias "source") as [->|Hne]; intros [= <- <-]; (split; [intros name [->|Hn]%elem_of_cons|intros name v]).
  - rewrite lookup_insert_eq. by eexists.
  - destruct (decide (name = "source")) as [->|]; [rewrite lookup_insert_eq; by eexists|rewrite lookup_insert_ne by done; auto].
  - rewrite lookup_insert_Some. intros [[<- _]|[_ Hv]]; [by left|eauto].
  - rewrite lookup_insert_eq. by eexists.
  - destruct (decide (name = alias)) as [->|]; [rewrite lookup_insert_eq; by eexists|rewrite lookup_insert_ne by done; auto].
  - rewrite lookup_insert_Some. intros [[<- <-]|[_ Hv]]; [by right|eauto].
Qed.

Lemma metricLines_ok lines out seen out' seen' :
  numbers_ok out seen -> metricLines ParseFloat lines out seen = inl (out', seen') -> numbers_ok out' seen'.
Proof.
  revert out seen. induction lines as [|line l IH]; intros out seen Hok; cbn [metricLines]; [by intros [= <- <-]|].
  destruct (metricLine _ line out seen) as [[o s]|err] eqn:E; [|done]. apply IH. by eapply metricLine_ok.
Qed.

(** A text that is accepted has every number a trial needs, and all but the
    sum of the source loads are finite and not negative. *)
Lemma parseMetrics_complete body out :
  parseMetrics ParseFloat body = inl out ->
  (forall name, name ∈ requiredMetrics -> is_Some (out !! name)) /\
  (forall name v, out !! name = Some v -> name <> "source" -> invalidMetric v = false).
Proof.
  unfold parseMetrics. destruct (metricLines _ _ _ _) as [[o seen]|err] eqn:E; [|done].
  destruct (list_find _ _) as [[k name]|] eqn:Ef; [done|]. intros [= ->].
  apply metricLines_ok in E as [H1 H2].
  - split.
    + intros name Hn. apply H1. rewrite list_find_None, Forall_forall in Ef. specialize (Ef name Hn). cbv beta in Ef.
      by destruct (decide (name ∈ seen)).
    + intros name v Hv Hne. destruct (H2 name v Hv); done.
  - split; [intros name Hn; by apply elem_of_nil in Hn|]. intros name v. rewrite !lookup_insert_Some.
    intros [[<- _]|[_ [[<- <-]|[_ Hv]]]]; [by left|by right|]. by rewrite lookup_empty in Hv.
Qed.

(** ** Proofs: one trial *)

(** What a trial is for, and who ran it. *)
Record labelled (clientPID : Z) (job : bool * Z * string) (t : Trial) : Prop := {
  lb_profiled : tr_Profiled t = job.1.1;
  lb_repeat : tr_Repeat t = job.1.2;
  lb_scenario : tr_Scenario t = job.2;
  lb_id : tr_ID t = trialID job.1.1 job.2 job.1.2;
  lb_client : tr_ClientPID t = clientPID;
}.

Definition sound_trial (t : Trial) : Prop :=
  tr_Failure t = "" /\ checkTrial t = None.

Lemma newTrial_labelled clientPID scenario repeat profiled :
  labelled clientPID (profiled, repeat, scenario) (newTrial clientPID scenario repeat profiled).
Proof. by split. Qed.

Lemma load_labelled clientPID job t run t' err :
  labelled clientPID job t -> load t run = (t', err) ->
  labelled clientPID job t' /\ tr_ServerPID t' = tr_ServerPID t /\ tr_Failure t' = tr_Failure t.
Proof. intros [] H. apply (f_equal fst) in H. cbn [load fst] in H. subst t'. by split. Qed.

(** The first failing step decides; a result without error has passed every
    step and the checks. *)
Lemma runServed_labelled clientPID job env t t' err :
  labelled clientPID job t -> tr_Failure t = "" -> runServed ParseFloat env t = (t', err) ->
  labelled clientPID job t' /\ tr_ServerPID t' = tr_ServerPID t /\ tr_Failure t' = "" /\ (err = None -> checkTrial t' = None).
Proof.
  intros Hl Hf. unfold runServed. cbv zeta.
  assert (forall n before, labelled clientPID job (withWarmup n before t)) as Hwarm by (intros; destruct Hl; by split).
  destruct (te_ready env); [by intros [= <- <-]|]. destruct (warmup env); [by intros [= <- <-]|].
  destruct (metrics _ (te_before env) true) as [before|e]; [|by intros [= <- <-]].
  set (t1 := withWarmup _ before t). assert (labelled clientPID job t1) as Hl1 by apply Hwarm.
  destruct (if tr_Profiled t1 then te_heapBefore env else None); [by intros [= <- <-]|].
  destruct (if tr_Profiled t1 then te_profileCtx env else None); [by intros [= <- <-]|].
  destruct (load t1 (te_load env)) as [t2 e2] eqn:Eload. destruct (load_labelled _ _ _ _ _ _ Hl1 Eload) as (Hl2 & Hp2 & Hf2).
  assert (tr_Failure t2 = "") as Hf3 by (rewrite Hf2; exact Hf).
  destruct e2; [by intros [= <- <-]|]. destruct (metrics _ (te_after env) true) as [after|e]; [|by intros [= <- <-]].
  assert (labelled clientPID job (withAfter after t2)) as Hl3 by (destruct Hl2; by split).
  destruct (if tr_Profiled (withAfter after t2) then te_heapAfter env else None); [by intros [= <- <-]|].
  destruct (if tr_Profiled (withAfter after t2) then te_profiles env else None); [by intros [= <- <-]|].
  intros [= <- <-]. split_and!; try done.
Qed.

Lemma runTrial_passed clientPID env scenario repeat profiled t err :
  runTrial ParseFloat clientPID env scenario repeat profiled = (t, err) ->
  labelled clientPID (profiled, repeat, scenario) t /\
  (err = None -> sound_trial t /\ te_server env = inl (tr_ServerPID t) /\ te_stop env = None).
Proof.
  unfold runTrial. cbv zeta. destruct (te_mkdir env); [intros H; simplify_eq; split; [apply newTrial_labelled|done]|].
  destruct (te_server env) as [pid|e] eqn:Es; [|intros H; simplify_eq; split; [apply newTrial_labelled|done]].
  destruct (runServed _ _ _) as [t' result] eqn:Er.
  assert (labelled clientPID (profiled, repeat, scenario) (withServer pid (newTrial clientPID scenario repeat profiled))) as Hl by by split.
  destruct (runServed_labelled _ _ _ _ _ _ Hl eq_refl Er) as (Hl' & Hpid & Hf & Hc).
  destruct (Join [result; te_stop env]) as [e|] eqn:Ej; intros H; simplify_eq.
  - split; [|done]. destruct Hl'. by split.
  - split; [done|]. intros _. apply Join2_none in Ej as [-> Hst]. split; [by split; auto|]. split; [by rewrite Hpid|done].
Qed.

(** ** Proofs: the run *)
Lemma runTrials_passed clientPID envs plan acc trials err :
  runTrials ParseFloat clientPID envs plan acc = (trials, err) ->
  exists new, trials = acc ++ new /\ (length new <= length plan)%nat /\
    (forall k t, new !! k = Some t -> exists job, plan !! k = Some job /\ labelled clientPID job t) /\
    (err = None -> length new = length plan /\ forall k t, new !! k = Some t ->
       sound_trial t /\ exists env, envs !! k = Some env /\ te_server env = inl (tr_ServerPID t)).
Proof.
  revert envs acc. induction plan as [|[[profiled repeat] scenario] plan IH]; intros envs acc; cbn [runTrials].
  { intros H; simplify_eq. exists []. rewrite app_nil_r. by split_and!. }
  destruct envs as [|env envs]; [intros H; simplify_eq; exists []; rewrite app_nil_r; split_and!; try done; simpl; lia|].
  destruct (te_ctx env); [intros H; simplify_eq; exists []; rewrite app_nil_r; split_and!; try done; simpl; lia|].
  destruct (runTrial _ _ _ _ _ _) as [t e] eqn:Et. apply runTrial_passed in Et as [Hl Hp]. destruct e as [e|].
  - intros H; simplify_eq. exists [t]. split; [done|]. split; [simpl; lia|]. split; [|done].
    intros [|k] t' Hk; [|done]. injection Hk as <-. by eexists.
  - intros H. destruct (IH _ _ H) as (new & -> & HL & Hlab & Hok). exists (t :: new). rewrite <- app_assoc. split; [done|].
    split; [simpl; lia|]. split.
    + intros [|k] t' Hk; [injection Hk as <-; by eexists|]. by apply Hlab.
    + intros He. destruct (Hok He) as [HL' Hs]. split; [simpl; lia|]. destruct (Hp eq_refl) as (Hsound & Hserver & _).
      intros [|k] t' Hk; [injection Hk as <-; split; [done|by exists env]|]. by apply Hs.
Qed.

(** What a run that reports no error leaves. *)
Lemma run_passed o env s :
  RunDiagnostics ParseFloat sha256 o env = (s, None) ->
  DiagValidate o = None /\
  ds_Status s = "passed" /\ ds_Failure s = "" /\ ds_Seconds s = do_Seconds o /\ ds_Repeats s = do_Repeats o /\
  ds_Workers s = do_Workers o /\ ds_Quick s = do_Quick o /\ ds_ThinkMS s = 1 /\ ds_SourceDelayMS s = 100 /\
  ds_ServerGOMAXPROCS s = 2 /\ (exists binary, re_binary env = inl binary /\ ds_ServerSHA256 s = EncodeToString (sha256 binary)) /\
  length (ds_Trials s) = length (plannedTrials (do_Repeats o)) /\
  forall k t, ds_Trials s !! k = Some t -> sound_trial t /\
    (exists job, plannedTrials (do_Repeats o) !! k = Some job /\ labelled (re_clientPID env) job t) /\
    (exists te, re_trials env !! k = Some te /\ te_server te = inl (tr_ServerPID t)).
Proof.
  unfold RunDiagnostics. cbv zeta. destruct (DiagValidate o) eqn:Ev; [done|]. destruct (re_mkdir env); [done|].
  destruct (runBody _ _ _ _) as [[hash trials] result] eqn:Eb. intros [= <- Hj]. apply Join2_none in Hj as [-> _].
  unfold runBody in Eb. destruct (re_ctx env); [done|]. destruct (re_binary env) as [binary|]; [|done].
  destruct (runTrials _ _ _ _ _) as [ts e] eqn:Er. injection Eb as <- <- ->.
  apply runTrials_passed in Er as (new & -> & _ & Hlab & Hok). destruct (Hok eq_refl) as [HL Hs].
  split_and!; try done; [by eexists|]. intros k t Hk. destruct (Hs k t Hk) as [H1 H2]. split_and!; [done|by apply Hlab|done].
Qed.
End Facts.

(** The keys of a load without error: under "distinct-keys" every request has
    a key of its own that the demo source holds and the warm-up did not touch;
    under "capacity-pressure" they cycle through the working set. *)
Lemma load_keys clientPID repeat profiled scenario run t t' :
  labelled clientPID (profiled, repeat, scenario) t -> load t run = (t', None) ->
  (scenario = "distinct-keys" -> forall i, 1 <= i <= ld_next run ->
     0 < loadIndex t i < AutoKeys /\ forall j, 1 <= j <= ld_next run -> loadIndex t i = loadIndex t j -> i = j) /\
  (scenario = "capacity-pressure" -> 0 < tr_WorkingKeys t -> forall i, 1 <= i -> 0 <= loadIndex t i < tr_WorkingKeys t).
Proof.
  intros [_ _ Hs _ _] Hl. apply (f_equal snd) in Hl. unfold load, loadIndex in *. cbn [snd] in Hl, Hs. rewrite Hs in *. split.
  - intros -> i Hi. rewrite String.eqb_refl in *. cbn [andb] in Hl.
    destruct (AutoKeys <=? ld_next run) eqn:E; [done|]. reflect_bool. split; [lia|]. auto.
  - intros -> Hw i Hi. change (String.eqb "capacity-pressure" "distinct-keys") with false.
    change (String.eqb "capacity-pressure" "capacity-pressure") with true. cbv iota. apply Z.rem_bound_pos; lia.
Qed.
