(* ===== verification/DiagLoad.v ===== *)
(** * The workers of the diagnostics benchmark ([load.go] of
      [internal/bench/diagnostics])

    The warm-up and the load of one trial as step relations: the workers share
    a counter, the log of the reads behind a mutex and the context; the sampler
    runs beside them. The environment lets the deadline pass, ends the context
    and answers the reads and the scrapes. What the relations end in is what
    [Diagnostics.warmup] and [Diagnostics.load] are given. *)
From S2P Require Import Prelude GoStrings Errors Config Bootstrap Demo Measurement Dataset Diagnostics.

(** ** Polling for readiness *)

(** What one round of [waitReady] saw: the status of the answer, [None] for a
    transport error, and the error of the context if it has ended by then. *)
Record poll := mkPoll { po_status : option Z; po_ctx : option error }.

(** [None]: the rounds are used up and it still waits. *)
Fixpoint waitReady (built : option error) (polls : list poll) : option (option error) :=
  match built with
  | Some err => Some (Some err)
  | None =>
      match polls with
      | [] => None
      | p :: rest =>
          if bool_decide (po_status p = Some 200) then Some None
          else match po_ctx p with Some err => Some (Some err) | None => waitReady built rest end
      end
  end.

(** ** The warm-up *)

(** Before the addition, holding an index, reading it, or gone. *)
Inductive warmer := WFree | WHolding (i : Z) | WReading (i : Z) | WGone.

Record warm := mkWarm { wm_next : Z; wm_workers : list warmer; wm_reads : list (Z * loadRead) }.

Definition failed (rd : loadRead) : bool := lr_bad rd || lr_wrong rd.

Section Warm.
Variable count : Z.

Definition warm_at (w : nat) (pc : warmer) (s : warm) : warm := mkWarm (wm_next s) (<[w := pc]> (wm_workers s)) (wm_reads s).

Inductive warm_step : warm -> warm -> Prop :=
| wm_claim w s : wm_workers s !! w = Some WFree ->
    warm_step s (warm_at w (WHolding (wm_next s)) (mkWarm (wm_next s + 1) (wm_workers s) (wm_reads s)))
| wm_check w i s : wm_workers s !! w = Some (WHolding i) ->
    warm_step s (warm_at w (if count <=? i then WGone else WReading i) s)
| wm_read w i rd s : wm_workers s !! w = Some (WReading i) ->
    warm_step s (warm_at w (if failed rd then WGone else WFree) (mkWarm (wm_next s) (wm_workers s) (wm_reads s ++ [(i, rd)]))).

Definition warmStart (workers : nat) : warm := mkWarm 0 (replicate workers WFree) [].
Definition warmDone (s : warm) : Prop := Forall (eq WGone) (wm_workers s).
End Warm.

(** ** The load *)

(** At the head of the loop, past its condition, reading with the number it
    drew, waiting for its timer, or gone. *)
Inductive presser := PFree | PPassed | PReading (i : Z) | PWaiting | PGone.

(** The sampler runs, or has ended with or without an error. *)
Inductive sampler := Sampling | SampledOut (err : option error).

(** [ps_late]: the deadline has passed; [ps_ended]: the context has ended;
    [ps_cancelled]: [cancelSampling] was called. *)
Record press := mkPress {
  ps_next : Z;
  ps_workers : list presser;
  ps_reads : list (Z * loadRead);
  ps_late : bool;
  ps_ended : bool;
  ps_cancelled : bool;
  ps_samples : list ResourceSample;
  ps_sampler : sampler;
}.

Definition press_at (w : nat) (pc : presser) (s : press) : press :=
  mkPress (ps_next s) (<[w := pc]> (ps_workers s)) (ps_reads s) (ps_late s) (ps_ended s) (ps_cancelled s) (ps_samples s) (ps_sampler s).
Definition press_draw (s : press) : press :=
  mkPress (ps_next s + 1) (ps_workers s) (ps_reads s) (ps_late s) (ps_ended s) (ps_cancelled s) (ps_samples s) (ps_sampler s).
Definition press_log (x : Z * loadRead) (s : press) : press :=
  mkPress (ps_next s) (ps_workers s) (ps_reads s ++ [x]) (ps_late s) (ps_ended s) (ps_cancelled s) (ps_samples s) (ps_sampler s).
Definition press_clock (late ended cancelled : bool) (s : press) : press :=
  mkPress (ps_next s) (ps_workers s) (ps_reads s) late ended cancelled (ps_samples s) (ps_sampler s).
Definition press_sample (samples : list ResourceSample) (pc : sampler) (s : press) : press :=
  mkPress (ps_next s) (ps_workers s) (ps_reads s) (ps_late s) (ps_ended s) (ps_cancelled s) samples pc.
Definition pressGone (s : press) : Prop := Forall (eq PGone) (ps_workers s).

(** [sampleCtx] ends with the context it was made from, or by [cancelSampling]. *)
Definition sampleEnded (s : press) : bool := ps_ended s || ps_cancelled s.

Inductive press_step : press -> press -> Prop :=
| pr_check w s : ps_workers s !! w = Some PFree ->
    press_step s (press_at w (if ps_late s || ps_ended s then PGone else PPassed) s)
| pr_draw w s : ps_workers s !! w = Some PPassed ->
    press_step s (press_at w (PReading (ps_next s + 1)) (press_draw s))
| pr_read w i rd s : ps_workers s !! w = Some (PReading i) ->
    press_step s (press_at w PWaiting (press_log (i, rd) s))
| pr_timer w s : ps_workers s !! w = Some PWaiting -> press_step s (press_at w PFree s)
| pr_stop w s : ps_workers s !! w = Some PWaiting -> ps_ended s = true -> press_step s (press_at w PGone s)
| pr_late s : press_step s (press_clock true (ps_ended s) (ps_cancelled s) s)
| pr_end s : press_step s (press_clock (ps_late s) true (ps_cancelled s) s)
| pr_cancel s : pressGone s -> press_step s (press_clock (ps_late s) (ps_ended s) true s)
| pr_sample sample s : ps_sampler s = Sampling ->
    press_step s (press_sample (ps_samples s ++ [sample]) Sampling s)
| pr_sampler_fails err s : ps_sampler s = Sampling ->
    press_step s (press_sample (ps_samples s) (SampledOut (if sampleEnded s then None else Some err)) s)
| pr_sampler_stops s : ps_sampler s = Sampling -> sampleEnded s = true ->
    press_step s (press_sample (ps_samples s) (SampledOut None) s).

Definition pressStart (workers : nat) : press := mkPress 0 (replicate workers PFree) [] false false false [] Sampling.
(** [wg.Wait] has returned, the sampler was cancelled and has been waited for. *)
Definition pressDone (s : press) : Prop := pressGone s /\ ps_cancelled s = true /\ ps_sampler s <> Sampling.

(** What [Diagnostics.load] is given of a finished load. *)
Definition pressRun (s : press) (elapsed : Duration) (ended : error) : loadRun :=
  mkLoadRun (ps_reads s).*2 (ps_samples s) (ps_next s) elapsed (if ps_ended s then Some ended else None)
    (match ps_sampler s with SampledOut err => err | Sampling => None end).

(** The key indices that were read, in the order of the log. *)
Definition readIndices (trial : Trial) (s : press) : list Z := (fun x => loadIndex trial x.1) <$> ps_reads s.

(** ** Proofs: readiness *)

(** It reports success only after an answer with status 200, and an error only
    when no request can be built or the context ended before such an answer. *)
Lemma waitReady_sound built polls res :
  waitReady built polls = Some res ->
  match res with
  | None => built = None /\ exists p, p ∈ polls /\ po_status p = Some 200
  | Some err => built = Some err \/ exists p, p ∈ polls /\ po_status p <> Some 200 /\ po_ctx p = Some err
  end.
Proof.
  destruct built as [err|]; [destruct polls; intros [= <-]; by left|].
  induction polls as [|p l IH]; cbn [waitReady]; [done|]. case_bool_decide; [intros [= <-]; split; [done|]; exists p; set_solver|].
  destruct (po_ctx p) as [err|] eqn:Ec; [intros [= <-]; right; exists p; set_solver|]. intros Hrest. specialize (IH Hrest).
  destruct res as [err|]; [destruct IH as [?|(q & ? & ?)]; [done|right; exists q; set_solver]|].
  destruct IH as [_ (q & ? & ?)]. split; [done|]. exists q. set_solver.
Qed.

(** ** Proofs: the load *)

(** A worker of a pool moves: what the pool holds changes by what the worker
    held before and holds after. *)
Lemma omap_move {A B} (f : A -> option B) (l : list A) w x y :
  l !! w = Some x ->
  exists rest, omap f l ≡ₚ option_list (f x) ++ rest /\ omap f (<[w := y]> l) ≡ₚ option_list (f y) ++ rest.
Proof.
  intros Hw. exists (omap f (take w l ++ drop (S w) l)).
  assert (forall z, omap f (take w l ++ z :: drop (S w) l) ≡ₚ option_list (f z) ++ omap f (take w l ++ drop (S w) l)) as Hmid.
  { intros z. rewrite <- Permutation_middle. simpl. by destruct (f z). }
  split; [rewrite <- (take_drop_middle l w x Hw) at 1; apply Hmid|].
  rewrite insert_take_drop by (by eapply lookup_lt_Some). apply Hmid.
Qed.

Lemma omap_none {A B} (f : A -> option B) (l : list A) : (forall x, x ∈ l -> f x = None) -> omap f l = [].
Proof.
  induction l as [|x l IH]; intros H; [done|]. simpl. rewrite (H x) by by left. apply IH. intros y Hy. apply H. by right.
Qed.

Lemma omap_gone {A B} (f : A -> option B) (gone : A) (l : list A) : f gone = None -> Forall (eq gone) l -> omap f l = [].
Proof. intros Hf Hl. apply omap_none. intros x Hx. rewrite Forall_forall in Hl. by rewrite <- (Hl x Hx). Qed.

Definition drawn (pc : presser) : option Z := match pc with PReading i => Some i | _ => None end.

Record press_ok (s : press) : Prop := {
  pk_next : 0 <= ps_next s;
  pk_numbers : (ps_reads s).*1 ++ omap drawn (ps_workers s) ≡ₚ seqZ 1 (ps_next s);
  pk_gone : PGone ∈ ps_workers s -> ps_late s = true \/ ps_ended s = true;
  pk_cancelled : ps_cancelled s = true -> pressGone s;
}.

Lemma pressStart_ok n : press_ok (pressStart n).
Proof.
  split; cbn [pressStart ps_next ps_reads ps_workers ps_late ps_ended ps_cancelled]; try done.
  - rewrite omap_none; [done|]. by intros x [-> _]%elem_of_replicate.
  - by intros [? _]%elem_of_replicate.
Qed.

(** Only a worker that is not gone moves. *)
Lemma press_moves s w pc : press_ok s -> ps_workers s !! w = Some pc -> pc <> PGone -> ps_cancelled s <> true.
Proof. intros [] Hw Hne Hc. apply pk_cancelled0 in Hc. unfold pressGone in Hc. rewrite Forall_lookup in Hc. by destruct (Hc w pc Hw). Qed.

(** A worker moves and the drawn numbers stay where they were. *)
Lemma press_at_ok w pc pc' s :
  press_ok s -> ps_workers s !! w = Some pc -> pc <> PGone -> drawn pc' = drawn pc ->
  (pc' = PGone -> ps_late s = true \/ ps_ended s = true) -> press_ok (press_at w pc' s).
Proof.
  intros Hs Hw Hne Hd Hg. pose proof (press_moves _ _ _ Hs Hw Hne) as Hc. destruct Hs.
  split; cbn [press_at ps_next ps_reads ps_workers ps_late ps_ended ps_cancelled]; try done.
  - destruct (omap_move drawn _ w pc pc' Hw) as (rest & H1 & H2). by rewrite H2, Hd, <- H1.
  - intros [j Hj]%list_elem_of_lookup. apply list_lookup_insert_Some in Hj as [(_ & E & _)|[_ Hj]]; [auto|].
    by apply pk_gone0, (list_elem_of_lookup_2 _ j).
Qed.

Lemma press_draw_ok w s :
  press_ok s -> ps_workers s !! w = Some PPassed -> press_ok (press_at w (PReading (ps_next s + 1)) (press_draw s)).
Proof.
  intros Hs Hw. pose proof (press_moves _ _ _ Hs Hw ltac:(done)) as Hc. destruct Hs.
  split; cbn [press_at press_draw ps_next ps_reads ps_workers ps_late ps_ended ps_cancelled]; try done; try lia.
  - destruct (omap_move drawn _ w PPassed (PReading (ps_next s + 1)) Hw) as (rest & H1 & H2).
    rewrite seqZ_app by lia. rewrite <- pk_numbers0, H2, H1. simpl. rewrite <- !app_assoc. f_equiv.
    replace (1 + ps_next s) with (ps_next s + 1) by lia. apply (Permutation_app_comm [ps_next s + 1] rest).
  - intros [j Hj]%list_elem_of_lookup. apply list_lookup_insert_Some in Hj as [(_ & [=] & _)|[_ Hj]].
    by apply pk_gone0, (list_elem_of_lookup_2 _ j).
Qed.

Lemma press_read_ok w i rd s :
  press_ok s -> ps_workers s !! w = Some (PReading i) -> press_ok (press_at w PWaiting (press_log (i, rd) s)).
Proof.
  intros Hs Hw. pose proof (press_moves _ _ _ Hs Hw ltac:(done)) as Hc. destruct Hs.
  split; cbn [press_at press_log ps_next ps_reads ps_workers ps_late ps_ended ps_cancelled]; try done.
  - destruct (omap_move drawn _ w (PReading i) PWaiting Hw) as (rest & H1 & H2).
    rewrite <- pk_numbers0, H2, H1. rewrite fmap_app. simpl. by rewrite <- app_assoc.
  - intros [j Hj]%list_elem_of_lookup. apply list_lookup_insert_Some in Hj as [(_ & [=] & _)|[_ Hj]].
    by apply pk_gone0, (list_elem_of_lookup_2 _ j).
Qed.

Lemma press_step_ok s s' : press_step s s' -> press_ok s -> press_ok s'.
Proof.
  intros Hst Hs. destruct Hst as [w s Hw|w s Hw|w i rd s Hw|w s Hw|w s Hw He|s|s|s Hg|x s Hr|err s Hr|s Hr He].
  - destruct (ps_late s || ps_ended s) eqn:E; eapply press_at_ok; try done. intros _. by apply orb_true_iff.
  - by apply press_draw_ok.
  - by apply press_read_ok.
  - by eapply press_at_ok.
  - eapply press_at_ok; try done. by right.
  - destruct Hs. split; cbn; try done. by left.
  - destruct Hs. split; cbn; try done. by right.
  - destruct Hs. by split.
  - destruct Hs. by split.
  - destruct Hs. by split.
  - destruct Hs. by split.
Qed.

Lemma press_steps_ok n s : rtc press_step (pressStart n) s -> press_ok s.
Proof.
  intros H. cut (press_ok (pressStart n) -> press_ok s); [intros Hc; apply Hc, pressStart_ok|].
  induction H; eauto using press_step_ok.
Qed.

Lemma press_steps_workers n s : rtc press_step (pressStart n) s -> length (ps_workers s) = n.
Proof.
  intros H. cut (length (ps_workers (pressStart n)) = n -> length (ps_workers s) = n).
  { intros Hc. apply Hc. apply length_replicate. }
  induction H as [|s1 s2 s3 H12 _ IH]; [done|]. intros E. apply IH. destruct H12; cbn; rewrite ?length_insert; done.
Qed.

(** The load of a trial is exact: when the workers are gone and the sampler has
    been waited for, every number that was drawn belongs to exactly one read of
    the log, and the trial counts exactly these. Without an error the load went
    on until the deadline, and the keys are those of the scenario: one and the
    same, or one per request which no other request read and the demo source
    holds, or those of the working set. *)
Theorem load_exact clientPID repeat profiled scenario n t s elapsed ended t' err :
  labelled clientPID (profiled, repeat, scenario) t ->
  rtc press_step (pressStart (S n)) s -> pressDone s -> load t (pressRun s elapsed ended) = (t', err) ->
  (ps_reads s).*1 ≡ₚ seqZ 1 (ps_next s) /\ tr_Requests t' = ps_next s /\
  (err = None ->
    ps_late s = true /\ ps_ended s = false /\ ps_sampler s = SampledOut None /\
    (scenario = "warm-hot" -> Forall (eq 0) (readIndices t s)) /\
    (scenario = "distinct-keys" -> NoDup (readIndices t s) /\ Forall (fun i => 0 < i < AutoKeys) (readIndices t s)) /\
    (scenario = "capacity-pressure" -> 0 < tr_WorkingKeys t -> Forall (fun i => 0 <= i < tr_WorkingKeys t) (readIndices t s))).
Proof.
  intros Hl Hr (Hgone & Hc & Hsam) Hload. pose proof (press_steps_ok _ _ Hr) as [Hn Hnum Hg _].
  pose proof (press_steps_workers _ _ Hr) as Hlen.
  rewrite (omap_gone drawn PGone _ eq_refl Hgone), app_nil_r in Hnum. split; [done|]. split.
  { apply (f_equal fst) in Hload. cbn [load fst] in Hload. subst t'. cbn [tr_Requests pressRun ld_reads].
    rewrite length_fmap, <- (length_fmap fst), Hnum, length_seqZ. lia. }
  intros ->. pose proof Hload as Hload2. apply (f_equal snd) in Hload2. unfold load in Hload2. cbn [snd pressRun ld_next ld_ctxErr ld_samplingErr] in Hload2.
  destruct (String.eqb _ _ && _); [done|]. apply Join2_none in Hload2 as [He Hs].
  destruct (ps_ended s) eqn:Ee; [done|]. destruct (ps_sampler s) as [|e] eqn:Es; [done|]. subst e.
  assert (PGone ∈ ps_workers s) as Hin.
  { destruct (ps_workers s) as [|x l] eqn:Ew; [done|]. unfold pressGone in Hgone. rewrite Ew in Hgone. inversion Hgone; subst. by left. }
  destruct (Hg Hin) as [Hlate|?]; [|congruence]. destruct (load_keys _ _ _ _ _ _ _ Hl Hload) as [Hk1 Hk2].
  assert (forall x, x ∈ (ps_reads s).*1 -> 1 <= x <= ps_next s) as Hrange by (intros x Hx; rewrite Hnum, elem_of_seqZ in Hx; lia).
  assert (readIndices t s = loadIndex t <$> (ps_reads s).*1) as -> by (unfold readIndices; by rewrite <- list_fmap_compose).
  split_and!; try done.
  - intros ->. apply Forall_fmap, Forall_forall. intros x _. unfold loadIndex. cbv beta. by rewrite (lb_scenario _ _ _ Hl).
  - intros Hd. specialize (Hk1 Hd). cbn [pressRun ld_next] in Hk1. split.
    + apply NoDup_fmap_2_strong; [|rewrite Hnum; apply NoDup_seqZ]. intros x y Hx%Hrange Hy%Hrange E. by apply Hk1.
    + apply Forall_fmap, Forall_forall. intros x Hx%Hrange. by apply Hk1.
  - intros Hd Hw. apply Forall_fmap, Forall_forall. intros x Hx%Hrange. apply Hk2; [done|done|lia].
Qed.

(** ** Proofs: the load ends *)
Lemma worker_goes s w pc :
  ps_late s = true -> ps_workers s !! w = Some pc ->
  exists s', rtc press_step s s' /\ ps_workers s' = <[w := PGone]> (ps_workers s) /\ ps_late s' = true.
Proof.
  assert (forall s, ps_late s = true -> ps_workers s !! w = Some PFree ->
    exists s', rtc press_step s s' /\ ps_workers s' = <[w := PGone]> (ps_workers s) /\ ps_late s' = true) as Hfree.
  { intros s0 Hl Hw. exists (press_at w PGone s0). split; [|done]. apply rtc_once. pose proof (pr_check w s0 Hw) as H. by rewrite Hl in H. }
  assert (forall s, ps_late s = true -> ps_workers s !! w = Some PWaiting ->
    exists s', rtc press_step s s' /\ ps_workers s' = <[w := PGone]> (ps_workers s) /\ ps_late s' = true) as Hwait.
  { intros s0 Hl Hw. pose proof (lookup_lt_Some _ _ _ Hw) as Hlt. destruct (Hfree (press_at w PFree s0) Hl) as (s' & H1 & H2 & H3).
    - by apply list_lookup_insert_eq.
    - exists s'. split; [eapply rtc_l; [by apply (pr_timer w)|done]|]. split; [|done]. rewrite H2. cbn. apply list_insert_insert_eq. }
  assert (forall s i, ps_late s = true -> ps_workers s !! w = Some (PReading i) ->
    exists s', rtc press_step s s' /\ ps_workers s' = <[w := PGone]> (ps_workers s) /\ ps_late s' = true) as Hread.
  { intros s0 i Hl Hw. pose proof (lookup_lt_Some _ _ _ Hw) as Hlt. set (rd := mkLoadRead 0 false false).
    destruct (Hwait (press_at w PWaiting (press_log (i, rd) s0)) Hl) as (s' & H1 & H2 & H3).
    - by apply list_lookup_insert_eq.
    - exists s'. split; [eapply rtc_l; [by apply (pr_read w i rd)|done]|]. split; [|done]. rewrite H2. cbn. apply list_insert_insert_eq. }
  intros Hl Hw. pose proof (lookup_lt_Some _ _ _ Hw) as Hlt. destruct pc as [| |i| |]; [by apply Hfree| |by eapply Hread|by apply Hwait|].
  - destruct (Hread (press_at w (PReading (ps_next s + 1)) (press_draw s)) (ps_next s + 1) Hl) as (s' & H1 & H2 & H3).
    + by apply list_lookup_insert_eq.
    + exists s'. split; [eapply rtc_l; [by apply (pr_draw w)|done]|]. split; [|done]. rewrite H2. cbn. apply list_insert_insert_eq.
  - exists s. split; [done|]. split; [|done]. by rewrite list_insert_id.
Qed.

(** Wherever a load has got to, once its deadline passes it can be completed,
    whatever the context does. *)
Lemma load_ends s : exists s', rtc press_step s s' /\ pressDone s'.
Proof.
  destruct (drive_all press_step ps_workers PGone (fun s => ps_late s = true)) with (s := press_clock true (ps_ended s) (ps_cancelled s) s)
    as (s1 & H1 & Hg & _); [intros s1 w pc; apply worker_goes|done|].
  set (s2 := press_clock (ps_late s1) (ps_ended s1) true s1).
  assert (rtc press_step s s2) as H5.
  { eapply rtc_l; [apply pr_late|]. etrans; [done|]. apply rtc_once. by apply pr_cancel. }
  destruct (ps_sampler s1) as [|e] eqn:Es.
  - exists (press_sample (ps_samples s2) (SampledOut None) s2). split; [|by split_and!]. eapply rtc_r; [done|].
    apply pr_sampler_stops; [done|]. unfold sampleEnded. cbn. apply orb_true_r.
  - exists s2. split; [done|]. split_and!; try done. cbn. by rewrite Es.
Qed.

(** ** Proofs: the warm-up *)
Section WarmFacts.
Variable count : Z.
Hypothesis Hcount : 0 <= count.

Definition warming (pc : warmer) : option Z :=
  match pc with WHolding i => if i <? count then Some i else None | WReading i => Some i | _ => None end.

Record warm_ok (s : warm) : Prop := {
  wk_next : 0 <= wm_next s;
  wk_numbers : (wm_reads s).*1 ++ omap warming (wm_workers s) ≡ₚ seqZ 0 (Z.min (wm_next s) count);
  wk_held : forall w i, wm_workers s !! w = Some (WHolding i) -> i < wm_next s;
  wk_gone : WGone ∈ wm_workers s -> count <= wm_next s \/ exists x, x ∈ wm_reads s /\ failed x.2 = true;
}.

Lemma warmStart_ok n : warm_ok (warmStart n).
Proof.
  split; cbn [warmStart wm_next wm_reads wm_workers]; try done.
  - rewrite omap_none; [by rewrite Z.min_l|]. by intros x [-> _]%elem_of_replicate.
  - by intros w i [? _]%lookup_replicate.
  - by intros [? _]%elem_of_replicate.
Qed.

Lemma warm_step_ok s s' : warm_step count s s' -> warm_ok s -> warm_ok s'.
Proof.
  intros Hst []. destruct Hst as [w s Hw|w i s Hw|w i rd s Hw]; split; cbn [warm_at wm_next wm_reads wm_workers]; try done; try lia.
  - destruct (omap_move warming _ w WFree (WHolding (wm_next s)) Hw) as (rest & H1 & H2). rewrite H2. simpl.
    destruct (wm_next s <? count) eqn:E; reflect_bool.
    + rewrite Z.min_l by lia. rewrite seqZ_app by lia. rewrite Z.min_l in wk_numbers0 by lia. rewrite <- wk_numbers0, H1. simpl.
      rewrite <- app_assoc. f_equiv. apply (Permutation_app_comm [wm_next s] rest).
    + rewrite Z.min_r by lia. rewrite Z.min_r in wk_numbers0 by lia. by rewrite <- wk_numbers0, H1.
  - intros w' i Hi. apply list_lookup_insert_Some in Hi as [(_ & [= <-] & _)|[_ Hi]]; [lia|]. apply wk_held0 in Hi. lia.
  - intros [j Hj]%list_elem_of_lookup. apply list_lookup_insert_Some in Hj as [(_ & [=] & _)|[_ Hj]].
    destruct wk_gone0 as [?|?]; [by apply (list_elem_of_lookup_2 _ j)|left; lia|by right].
  - destruct (omap_move warming _ w (WHolding i) (if count <=? i then WGone else WReading i) Hw) as (rest & H1 & H2).
    rewrite H2, <- wk_numbers0, H1. f_equiv. simpl. destruct (count <=? i) eqn:E, (i <? count) eqn:E2; try done; reflect_bool; lia.
  - intros w' j Hj. apply list_lookup_insert_Some in Hj as [(_ & E & _)|[_ Hj]]; [by destruct (count <=? i)|by eapply wk_held0].
  - intros [j Hj]%list_elem_of_lookup. apply list_lookup_insert_Some in Hj as [(_ & E & _)|[_ Hj]].
    + left. apply wk_held0 in Hw. destruct (count <=? i) eqn:E'; [reflect_bool; lia|done].
    + by apply wk_gone0, (list_elem_of_lookup_2 _ j).
  - destruct (omap_move warming _ w (WReading i) (if failed rd then WGone else WFree) Hw) as (rest & H1 & H2).
    rewrite H2, <- wk_numbers0, H1, fmap_app. rewrite <- app_assoc. f_equiv. simpl. by destruct (failed rd).
  - intros w' j Hj. apply list_lookup_insert_Some in Hj as [(_ & E & _)|[_ Hj]]; [by destruct (failed rd)|by eapply wk_held0].
  - intros [j Hj]%list_elem_of_lookup. apply list_lookup_insert_Some in Hj as [(_ & E & _)|[_ Hj]].
    + right. exists (i, rd). split; [set_solver|]. cbn. by destruct (failed rd).
    + destruct wk_gone0 as [?|(x & Hx & Hf)]; [by apply (list_elem_of_lookup_2 _ j)|by left|]. right. exists x. split; [set_solver|done].
Qed.

Lemma warm_steps_ok n s : rtc (warm_step count) (warmStart n) s -> warm_ok s.
Proof.
  intros H. cut (warm_ok (warmStart n) -> warm_ok s); [intros Hc; apply Hc, warmStart_ok|].
  induction H; eauto using warm_step_ok.
Qed.

Lemma warm_steps_workers n s : rtc (warm_step count) (warmStart n) s -> length (wm_workers s) = n.
Proof.
  intros H. cut (length (wm_workers (warmStart n)) = n -> length (wm_workers s) = n).
  { intros Hc. apply Hc. apply length_replicate. }
  induction H as [|s1 s2 s3 H12 _ IH]; [done|]. intros E. apply IH. destruct H12; cbn; rewrite ?length_insert; done.
Qed.

(** A warm-up that reports no error has read each of the keys [0..count-1]
    exactly once, and every one of these reads got the right value. *)
Lemma warmup_exact n s env :
  rtc (warm_step count) (warmStart (S n)) s -> warmDone s -> te_warm env = (wm_reads s).*2 -> warmup env = None ->
  (wm_reads s).*1 ≡ₚ seqZ 0 count /\ (forall x, x ∈ wm_reads s -> failed x.2 = false) /\ te_warmCtx env = None.
Proof.
  intros Hr Hd He. pose proof (warm_steps_ok _ _ Hr) as [_ Hnum _ Hg]. pose proof (warm_steps_workers _ _ Hr) as Hlen.
  unfold warmup. cbv zeta. rewrite He. destruct (negb _) eqn:E; [done|]. intros Hctx. apply negb_false_iff, Z.eqb_eq in E.
  assert (forall x, x ∈ wm_reads s -> failed x.2 = false) as Hok.
  { intros x Hx. destruct (failed x.2) eqn:Ef; [|done]. exfalso. unfold count_if in E.
    assert (x.2 ∈ filter (fun r => (fun r => lr_bad r || lr_wrong r) r = true) (wm_reads s).*2) as Hin.
    { apply list_elem_of_filter. split; [exact Ef|]. by apply list_elem_of_fmap_2. }
    destruct (filter _ _); [by apply elem_of_nil in Hin|]. simpl in E. lia. }
  split_and!; [|done|done]. rewrite (omap_gone warming WGone _ eq_refl Hd), app_nil_r in Hnum. rewrite Hnum.
  destruct Hg as [Hge|(x & Hx & Hf)]; [|by rewrite Z.min_r|by rewrite (Hok x Hx) in Hf].
  destruct (wm_workers s) as [|x l] eqn:Ew; [done|]. unfold warmDone in Hd. rewrite Ew in Hd. inversion Hd; subst. by left.
Qed.
End WarmFacts.
