(* ===== verification/Children.v ===== *)
(** * The server processes of the diagnostics benchmark ([process.go],
      [profiles.go] of [internal/bench/diagnostics])

    [startServer] and the [stop] it hands out as a step relation: the child,
    the goroutine that reads its output and reaps it, and the caller that waits
    for the first start-up line, an early exit, a time-out or its context. The
    theorems say that a failed start leaves no child behind, that a start that
    succeeds hands out the addresses of the first start-up line and a [stop]
    that ends, and when a profile is accepted. Reading a line as JSON is a
    parameter. *)
From S2P Require Import Prelude GoStrings Errors Config Bootstrap Demo Measurement Dataset Diagnostics.

(** ** The command line *)

(** [cmd.Env]: the environment without a foreign [GOMAXPROCS], and the fixed
    one; the arguments of the server. *)
Definition serverEnv (environ : list string) : list string :=
  filter (fun entry => HasPrefix entry "GOMAXPROCS=" = false) environ ++ ["GOMAXPROCS=2"].
Definition FormatBool (b : bool) : string := if b then "true" else "false".
Definition serverArgs (capacity valueBytes : Z) (contention : bool) : list string :=
  ["-capacity"; FormatInt capacity; "-value-bytes"; FormatInt valueBytes; "-contention=" +:+ FormatBool contention].

(** ** One child *)
Record service := mkService { sv_api : string; sv_debug : string; sv_pid : Z }.

Inductive child := Alive | Exited (status : option error) | Reaped.
Inductive reader := Scanning | Joining | Ended.

(** The caller: in the first [select], in [stop] before its time-out, after it
    has killed the child, or back with a result. [after] is what it returns
    once [stop] is over; a [stop] of a running service returns its own result. *)
Inductive afterStop := Return (e : error) | ReturnStop.
Inductive caller :=
| Selecting
| Stopping (after : afterStop)
| Killing (after : afterStop)
| Started (s : service)
| Failed (e : error)
| Stopped (result : option error).

Record startState := mkStart {
  st_child : child;
  st_killed : bool;                          (* SIGKILL was sent *)
  st_reader : reader;
  st_addresses : option (gmap string string);  (* the channel [addresses] *)
  st_done : option (option error);           (* the channel [done] *)
  st_caller : caller;
  st_announced : option (gmap string string);  (* the first start-up line, for the record *)
}.

Section Child.
(** [json.Unmarshal] of a line into [event]: message and listeners. *)
Variable decodeEvent : string -> option (string * gmap string string).
Variable pid : Z.

Definition startupEvent (line : string) : option (gmap string string) :=
  match decodeEvent line with
  | Some (message, listeners) => if String.eqb message "Cache server started" then Some listeners else None
  | None => None
  end.

Definition listener (a : gmap string string) (name : string) : string := default "" (a !! name).

(** What the first [select] makes of the addresses. *)
Definition acceptAddresses (a : gmap string string) : caller :=
  if String.eqb (listener a "api") "" || String.eqb (listener a "debug") ""
  then Stopping (Return (NewError "missing bound server addresses"))
  else Started (mkService ("http://" +:+ listener a "api") ("http://" +:+ listener a "debug") pid).

Definition errorText (e : option error) : string := match e with Some e => Error e | None => "<nil>" end.

(** The result of [stop] once the child is gone. *)
Definition stopped (after : afterStop) (result : option error) : caller :=
  match after with Return e => Failed e | ReturnStop => Stopped result end.
Definition graceExceeded : option error := Some (NewError "server exceeded graceful shutdown budget").

Inductive start_step : startState -> startState -> Prop :=
(* the child and the goroutine behind its output *)
| ch_line line c k a d cl an :
    start_step (mkStart c k Scanning a d cl an)
      (match startupEvent line with
       | Some l => mkStart c k Scanning (match a with None => Some l | _ => a end) d cl (match an with None => Some l | _ => an end)
       | None => mkStart c k Scanning a d cl an
       end)
| ch_exit status k r a d cl an :
    start_step (mkStart Alive k r a d cl an) (mkStart (Exited status) k r a d cl an)
| ch_eof c k a d cl an :
    start_step (mkStart c k Scanning a d cl an) (mkStart c k Joining a d cl an)
| ch_reap status k a cl an :
    start_step (mkStart (Exited status) k Joining a None cl an) (mkStart Reaped k Ended a (Some status) cl an)
(* the caller *)
| st_addressed l c k r d an :
    start_step (mkStart c k r (Some l) d Selecting an) (mkStart c k r None d (acceptAddresses l) an)
| st_exited status c k r a an :
    start_step (mkStart c k r a (Some status) Selecting an)
      (mkStart c k r a None (Failed (NewError ("server exited before startup: " +:+ errorText status))) an)
| st_timeout c k r a d an :
    start_step (mkStart c k r a d Selecting an)
      (mkStart c k r a d (Stopping (Return (NewError "server startup timed out"))) an)
| st_ctx e c k r a d an :
    start_step (mkStart c k r a d Selecting an) (mkStart c k r a d (Stopping (Return e)) an)
| st_gone after status c k r a an :
    start_step (mkStart c k r a (Some status) (Stopping after) an) (mkStart c k r a None (stopped after status) an)
| st_kill after c k r a d an :
    start_step (mkStart c k r a d (Stopping after) an) (mkStart c true r a d (Killing after) an)
| st_killed_gone after status c k r a an :
    start_step (mkStart c k r a (Some status) (Killing after) an) (mkStart c k r a None (stopped after graceExceeded) an)
(* the trial calls [stop] of the service, once *)
| st_stop s c k r a d an :
    start_step (mkStart c k r a d (Started s) an) (mkStart c k r a d (Stopping ReturnStop) an).

Definition freshStart : startState := mkStart Alive false Scanning None None Selecting None.

(** ** Proofs *)
Definition over (c : caller) : Prop := match c with Failed _ | Stopped _ => True | _ => False end.

Record start_inv (s : startState) : Prop := {
  sti_reaped : st_child s = Reaped <-> st_reader s = Ended;
  sti_done : st_done s <> None -> st_reader s = Ended;
  sti_token : st_reader s = Ended -> st_done s <> None \/ over (st_caller s);
  sti_over : over (st_caller s) -> st_reader s = Ended;
  sti_waiting : st_caller s = Selecting -> st_addresses s = st_announced s;
  sti_started : forall sv, st_caller s = Started sv -> exists l, st_announced s = Some l /\ acceptAddresses l = Started sv;
  sti_killing : forall after, st_caller s = Killing after -> st_killed s = true;
}.

Lemma acceptAddresses_cases l :
  (acceptAddresses l = Stopping (Return (NewError "missing bound server addresses")) /\
     (listener l "api" = "" \/ listener l "debug" = "")) \/
  (acceptAddresses l = Started (mkService ("http://" +:+ listener l "api") ("http://" +:+ listener l "debug") pid) /\
     listener l "api" <> "" /\ listener l "debug" <> "").
Proof.
  unfold acceptAddresses. destruct (String.eqb_spec (listener l "api") ""), (String.eqb_spec (listener l "debug") ""); simpl; auto.
Qed.

Lemma stopped_over after r : over (stopped after r).
Proof. by destruct after. Qed.
#[local] Hint Resolve stopped_over : core.

Lemma stopped_not after r : stopped after r <> Selecting /\ (forall sv, stopped after r <> Started sv) /\
  (forall a, stopped after r <> Killing a).
Proof. by destruct after. Qed.

Lemma start_step_inv s s' : start_inv s -> start_step s s' -> start_inv s'.
Proof.
  intros [H1 H2 H3 H4 H5 H6 H7] Hs. destruct Hs; simpl in *.
  - destruct (startupEvent line); [|by split]. split; simpl; try done.
    + intros E. rewrite (H5 E). by destruct an.
    + intros sv E. destruct (H6 sv E) as (l & -> & Hl). by exists l.
  - split; simpl; naive_solver.
  - split; simpl; naive_solver.
  - split; simpl; naive_solver.
  - destruct (acceptAddresses_cases l) as [[E _]|[E _]]; rewrite E; split; simpl; try done; try naive_solver.
  - split; simpl; naive_solver.
  - split; simpl; naive_solver.
  - split; simpl; naive_solver.
  - destruct (stopped_not after status) as (N1 & N2 & N3). split; simpl; naive_solver.
  - split; simpl; naive_solver.
  - destruct (stopped_not after graceExceeded) as (N1 & N2 & N3). split; simpl; naive_solver.
  - split; simpl; naive_solver.
Qed.

Lemma start_steps_inv s : rtc start_step freshStart s -> start_inv s.
Proof.
  intros Hr. assert (start_inv freshStart) as H0 by (split; simpl; naive_solver).
  revert H0. induction Hr as [|s s1 s' Hs Hr IH]; [done|]. intros H0. apply IH. by eapply start_step_inv.
Qed.

(** From wherever the child and its reader are, the end of the child gets to
    the channel [done]. *)
Lemma child_ends c k r a d cl an :
  start_inv (mkStart c k r a d cl an) -> ~ over cl ->
  exists c' r' status, rtc start_step (mkStart c k r a d cl an) (mkStart c' k r' a (Some status) cl an).
Proof.
  intros [H1 H2 H3 H4 H5 H6 H7] Hno. simpl in *. destruct d as [status|]; [by exists c, r, status; apply rtc_refl|].
  assert (r <> Ended) as Hr by (intros E; destruct (H3 E); [by apply H|done]).
  assert (forall c' r', r' = Scanning \/ r' = Joining -> rtc start_step (mkStart c' k r' a None cl an) (mkStart c' k Joining a None cl an)) as He.
  { intros c' r' [->| ->]; [apply rtc_once, ch_eof|apply rtc_refl]. }
  assert (r = Scanning \/ r = Joining) as Hr' by (destruct r; auto; done).
  destruct c as [|status|]; [| |by destruct Hr; apply H1].
  - exists Reaped, Ended, None. eapply rtc_l; [apply (ch_exit None)|]. etrans; [by apply He|]. apply rtc_once, ch_reap.
  - exists Reaped, Ended, status. etrans; [by apply He|]. apply rtc_once, ch_reap.
Qed.

(** A server that was started is never lost: whenever [startServer] has
    reported an error, or [stop] of the service it returned has come back, the
    child has been waited for and the goroutine behind it is gone; [stop]
    reports a killed child. A start that succeeds returns the process with the
    two addresses, both non-empty, of the first start-up line the child wrote.
    From every state on the way the call can come to its end, whatever the
    child writes and however it ends. *)
Theorem child_never_lost s :
  rtc start_step freshStart s ->
  (over (st_caller s) -> st_child s = Reaped /\ st_reader s = Ended) /\
  (forall sv, st_caller s = Started sv -> exists l, st_announced s = Some l /\
     listener l "api" <> "" /\ listener l "debug" <> "" /\
     sv = mkService ("http://" +:+ listener l "api") ("http://" +:+ listener l "debug") pid) /\
  exists s', rtc start_step s s' /\ over (st_caller s').
Proof.
  intros Hr. pose proof (start_steps_inv s Hr) as HI. split; [|split].
  - intros Ho. pose proof (sti_over _ HI Ho) as He. split; [by apply HI|done].
  - intros sv E. destruct (sti_started _ HI sv E) as (l & Hl & Ha). exists l. split; [done|].
    destruct (acceptAddresses_cases l) as [[E2 _]|(E2 & ? & ?)]; rewrite E2 in Ha; [done|]. injection Ha as <-. done.
  - destruct s as [c k r a d cl an].
    assert (forall cl', ~ over cl' -> rtc start_step (mkStart c k r a d cl an) (mkStart c k r a d cl' an) ->
      (forall c' r' status, exists s', start_step (mkStart c' k r' a (Some status) cl' an) s' /\ over (st_caller s')) ->
      exists s', rtc start_step (mkStart c k r a d cl an) s' /\ over (st_caller s')) as Hend.
    { intros cl' Hno Hto Hlast.
      assert (start_inv (mkStart c k r a d cl' an)) as HI' by (apply start_steps_inv; by etrans).
      destruct (child_ends _ _ _ _ _ _ _ HI' Hno) as (c' & r' & status & Hs).
      destruct (Hlast c' r' status) as (s' & Hs' & Ho). exists s'. split; [|done].
      etrans; [exact Hto|]. etrans; [exact Hs|]. by apply rtc_once. }
    destruct cl as [|after|after|sv|e|result]; [| | | |by eexists; split; [apply rtc_refl|]..].
    + apply (Hend Selecting); [intros []|apply rtc_refl|]. intros c' r' status. eexists. split; [apply st_exited|exact I].
    + apply (Hend (Stopping after)); [intros []|apply rtc_refl|]. intros c' r' status. eexists. split; [apply st_gone|apply stopped_over].
    + apply (Hend (Killing after)); [intros []|apply rtc_refl|]. intros c' r' status. eexists. split; [apply st_killed_gone|apply stopped_over].
    + apply (Hend (Stopping ReturnStop)); [intros []|apply rtc_once, st_stop|].
      intros c' r' status. eexists. split; [apply st_gone|exact I].
Qed.
End Child.

(** ** Profiles *)

(** What came of a request for a profile: an error, or the status, how many
    bytes the server sent, and the errors of reading and of writing the file. *)
Inductive profileAnswer := ProfileFailed (err : error) | Profiled (status size : Z) (readErr writeErr : option error).

Definition maxProfile : Z := 67108864.

Definition fetchProfile (url : string) (a : profileAnswer) : option error :=
  match a with
  | ProfileFailed err => Some err
  | Profiled status size readErr writeErr =>
      if negb (status =? 200) then Some (NewError ("profile HTTP " +:+ FormatInt status +:+ ": " +:+ url))
      else match readErr with
           | Some err => Some err
           | None =>
               let n := Z.min size (maxProfile + 1) in
               if (n =? 0) || (maxProfile <? n) then Some (NewError ("invalid profile size " +:+ FormatInt n))
               else writeErr
           end
  end.

Definition profileFiles : list (string * string) :=
  [("cpu", "profile"); ("allocs", "allocs"); ("mutex", "mutex"); ("block", "block")].
Definition profileURL (origin endpoint : string) (seconds : Z) : string :=
  origin +:+ "/debug/pprof/" +:+ endpoint +:+ "?seconds=" +:+ FormatInt seconds.

(** [completed]: the downloads in the order in which they end; the result is
    the first failure of that order. *)
Definition captureProfiles (origin : string) (seconds : Z) (answers : string -> profileAnswer) (completed : list (string * string))
    : option error :=
  head (omap (fun f => fetchProfile (profileURL origin f.2 seconds) (answers f.1)) completed).

(** A capture succeeds exactly when every one of the four profiles was answered
    with 200, was read and written without an error and has between one byte
    and 64 MiB, in whatever order the downloads end. *)
Theorem capture_complete origin seconds answers completed :
  completed ≡ₚ profileFiles ->
  captureProfiles origin seconds answers completed = None <->
  forall file endpoint, (file, endpoint) ∈ profileFiles ->
    exists size, answers file = Profiled 200 size None None /\ size <> 0 /\ size <= maxProfile.
Proof.
  intros HP. unfold captureProfiles.
  assert (forall url a, fetchProfile url a = None <-> exists size, a = Profiled 200 size None None /\ size <> 0 /\ size <= maxProfile) as Hf.
  { intros url [err|status size readErr writeErr]; simpl; [split; [done|by intros (? & ? & _)]|].
    destruct (status =? 200) eqn:Es; reflect_bool; cbn [negb]; [|split; [done|intros (? & ? & _); by simplify_eq]].
    destruct readErr as [e|]; [split; [done|by intros (? & ? & _)]|]. unfold maxProfile in *.
    destruct (_ || _) eqn:Eb.
    - split; [done|]. intros (n & ? & ? & ?). simplify_eq. apply orb_true_iff in Eb as [Eb|Eb]; reflect_bool; lia.
    - reflect_bool. split; [intros ->; exists size; subst; split; [done|lia]|]. intros (n & ? & _). by simplify_eq. }
  assert (forall l, head (omap (fun f : string * string => fetchProfile (profileURL origin f.2 seconds) (answers f.1)) l) = None <->
    forall f, f ∈ l -> fetchProfile (profileURL origin f.2 seconds) (answers f.1) = None) as Hh.
  { induction l as [|f l IH]; simpl; [split; [intros _ f Hf'; by apply not_elem_of_nil in Hf'|done]|].
    destruct (fetchProfile _ _) as [e|] eqn:E; simpl.
    - split; [done|]. intros H. specialize (H f ltac:(by left)). congruence.
    - rewrite IH. setoid_rewrite elem_of_cons. naive_solver. }
  rewrite Hh. setoid_rewrite HP. setoid_rewrite Hf. split.
  - intros H file endpoint Hin. apply (H (file, endpoint) Hin).
  - intros H [file endpoint] Hin. by apply (H file endpoint).
Qed.

(** ** A concrete start *)
Definition sample_line_event (line : string) : option (string * gmap string string) :=
  if String.eqb line "up" then Some ("Cache server started", <["api" := "127.0.0.1:1"]> {["debug" := "127.0.0.1:2"]}) else None.

Lemma child_never_lost_witness :
  exists s sv, rtc (start_step sample_line_event 7) freshStart s /\ st_caller s = Started sv /\
    exists l, st_announced s = Some l /\ sv = mkService ("http://" +:+ listener l "api") ("http://" +:+ listener l "debug") 7.
Proof.
  set (l := <["api" := "127.0.0.1:1"]> {["debug" := "127.0.0.1:2"]} : gmap string string).
  set (s := mkStart Alive false Scanning None None (acceptAddresses 7 l) (Some l)).
  assert (rtc (start_step sample_line_event 7) freshStart s) as Hr.
  { eapply rtc_l; [apply (ch_line sample_line_event 7 "up")|]. apply rtc_once. apply (st_addressed sample_line_event 7 l). }
  exists s, (mkService "http://127.0.0.1:1" "http://127.0.0.1:2" 7). split; [exact Hr|].
  assert (st_caller s = Started (mkService "http://127.0.0.1:1" "http://127.0.0.1:2" 7)) as E by reflexivity.
  split; [exact E|]. destruct (child_never_lost sample_line_event 7 s Hr) as (_ & H & _).
  destruct (H _ E) as (l' & Hl & _ & _ & Hsv). exists l'. split; [exact Hl|exact Hsv].
Defined.

Lemma capture_complete_witness :
  captureProfiles "http://d" 11 (fun _ => Profiled 200 10 None None) profileFiles = None.
Proof.
  apply capture_complete; [reflexivity|]. intros file endpoint _. exists 10. split; [reflexivity|]. split; [discriminate|].
  vm_compute. discriminate.
Defined.
