(* ===== verification/Report.v ===== *)
(** * Validation reports ([report.go], [ginkgo.go], [performance.go] of
      [internal/validation/report])

    How the evidence of a validation run becomes a verdict: test events,
    Ginkgo suites, performance trials and the probe, gathered per stage. The
    directory of the run is a function from file names to what reading them
    gives; decoding JSON into records is a parameter. Rendering the verdict as
    Markdown is not modelled. *)
From S2P Require Import Prelude GoStrings Errors Api Measurement Dataset Diagnostics.

(** ** Strings *)

(** [strings.Cut] on a string. *)
Fixpoint cutString (sep s : string) : option (string * string) :=
  if HasPrefix s sep then Some ("", TrimPrefix s sep)
  else match s with
       | EmptyString => None
       | String c s' => '(a, b) ← cutString sep s'; Some (String c a, b)
       end.

(** The lines of a [bufio.Scanner]: a final line without newline counts, a
    trailing carriage return does not. *)
Definition dropCR (line : string) : string :=
  if HasSuffix line (String "013" "") then slice 0 (String.length line - 1) line else line.
Definition maxToken : Z := 4194304.
Definition rawLines (s : string) : list string :=
  match string_rev s with
  | EmptyString => []
  | String c _ => let l := split_byte "010" s in if ascii_dec c "010" then take (length l - 1) l else l
  end.

(** What reading a file gives; one that cannot be read may still exist for
    [os.Stat]. A file that can be opened is read to its end. *)
Inductive file := Contents (s : string) | NotFound (err : error) | Unreadable (statErr : option error) (err : error).
Definition readFile (f : file) : string + error :=
  match f with Contents s => inl s | NotFound err | Unreadable _ err => inr err end.
Definition missing (f : file) : bool := match f with NotFound _ => true | _ => false end.
Definition statError (f : file) : option error :=
  match f with Contents _ => None | NotFound err => Some err | Unreadable statErr _ => statErr end.

(** [strconv.Atoi] *)
Definition unsigned (s : string) : string := match s with String "-" d | String "+" d => d | _ => s end.
Definition Atoi (quoted : string -> string) (s : string) : Z + error :=
  match ParseInt s with
  | Some z => inl z
  | None =>
      inr (NewError ("strconv.Atoi: parsing " +:+ quoted s +:+
        if negb (String.eqb (unsigned s) "") && all_bytes is_digit (unsigned s) then ": value out of range" else ": invalid syntax"))
  end.

Definition jsonValid (s : string) : bool := json_Valid (String.list_byte_of_string s).

(** ** Stages *)
Record StageCounts := mkStageCounts { sc_Passed : Z; sc_Failed : Z; sc_Skipped : Z; sc_Pending : Z; sc_Source : string }.
(** [None]: counts that were not collected. *)
Record Stage := mkReportStage {
  st_Name : string; st_ExitCode : Z; st_Seconds : Z; st_Counts : option StageCounts;
  st_Notes : list string; st_Failures : list string; st_Evidence : list string }.

Definition addFailures (l : list string) (s : Stage) : Stage :=
  mkReportStage (st_Name s) (st_ExitCode s) (st_Seconds s) (st_Counts s) (st_Notes s) (st_Failures s ++ l) (st_Evidence s).
Definition addEvidence (l : list string) (s : Stage) : Stage :=
  mkReportStage (st_Name s) (st_ExitCode s) (st_Seconds s) (st_Counts s) (st_Notes s) (st_Failures s) (st_Evidence s ++ l).
Definition addNote (n : string) (s : Stage) : Stage :=
  mkReportStage (st_Name s) (st_ExitCode s) (st_Seconds s) (st_Counts s) (st_Notes s ++ [n]) (st_Failures s) (st_Evidence s).
Definition setCounts (c : StageCounts) (s : Stage) : Stage :=
  mkReportStage (st_Name s) (st_ExitCode s) (st_Seconds s) (Some c) (st_Notes s) (st_Failures s) (st_Evidence s).

(** ** Test events *)
Record testEvent := mkEvent { ev_Action : string; ev_Package : string; ev_Test : string; ev_Output : string }.
Record eventCounts := mkEventCounts { ec_passed : Z; ec_failed : Z; ec_skipped : Z }.

Section Report.
Variable decodeEvent : string -> testEvent + error.

Definition countEvent (e : testEvent) (n : eventCounts) : eventCounts :=
  if String.eqb (ev_Test e) "" then n
  else if String.eqb (ev_Action e) "pass" then mkEventCounts (ec_passed n + 1) (ec_failed n) (ec_skipped n)
  else if String.eqb (ev_Action e) "fail" then mkEventCounts (ec_passed n) (ec_failed n + 1) (ec_skipped n)
  else if String.eqb (ev_Action e) "skip" then mkEventCounts (ec_passed n) (ec_failed n) (ec_skipped n + 1)
  else n.
Definition eventFailures (e : testEvent) : list string :=
  if String.eqb (ev_Action e) "fail" then
    [if String.eqb (ev_Test e) "" then "package " +:+ ev_Package e else ev_Package e +:+ "/" +:+ ev_Test e]
  else [].
Definition evidenceMark : string := "EVIDENCE ".

(** One line of the stream; an error leaves what the stage has so far. *)
Definition eventLine (path line : string) (n : eventCounts) (s : Stage) : eventCounts * Stage * option error :=
  match decodeEvent line with
  | inr err => (n, s, Some (Wrap ("invalid test event in " +:+ path +:+ ": " +:+ Error err) err))
  | inl e =>
      let s := addFailures (eventFailures e) s in
      match cutString evidenceMark (ev_Output e) with
      | None => (countEvent e n, s, None)
      | Some (_, payload) =>
          let payload := TrimSpace payload in
          if negb (jsonValid payload)
          then (countEvent e n, s, Some (NewError ("invalid scenario evidence: " +:+ payload)))
          else (countEvent e n, addEvidence [payload] s, None)
      end
  end.

Fixpoint eventLines (path : string) (lines : list string) (n : eventCounts) (s : Stage) : eventCounts * Stage * option error :=
  match lines with
  | [] => (n, s, None)
  | line :: rest =>
      if maxToken <=? slen line then (n, s, Some (NewError "bufio.Scanner: token too long"))
      else match eventLine path (dropCR line) n s with
           | (n, s, None) => eventLines path rest n s
           | (n, s, Some err) => (n, s, Some err)
           end
  end.

Definition parseEvents (path : string) (f : file) (s : Stage) : Stage * option error :=
  match f with
  | NotFound _ => (s, None)
  | Unreadable _ err => (s, Some err)
  | Contents text =>
      match eventLines path (rawLines text) (mkEventCounts 0 0 0) s with
      | (_, s, Some err) => (s, Some err)
      | (n, s, None) => (setCounts (mkStageCounts (ec_passed n) (ec_failed n) (ec_skipped n) 0 "go-test-events") s, None)
      end
  end.

(** ** Ginkgo *)
Record ginkgoSpec := mkSpec {
  gs_LeafNodeType : string; gs_LeafNodeText : string; gs_Hierarchy : list string; gs_State : string; gs_Message : string }.
(** [None]: a field that is absent or null. *)
Record ginkgoSuite := mkSuite { gu_Description : string; gu_Succeeded : option bool; gu_Specs : option (list ginkgoSpec) }.
Record specCounts := mkSpecCounts { gc_passed : Z; gc_failed : Z; gc_skipped : Z; gc_pending : Z }.

(** [strconv.Quote] *)
Variable quoted : string -> string.
Variable decodeSuites : string -> list ginkgoSuite + error.

Definition okStates : list string := ["passed"; "skipped"; "pending"].
Definition failureStates : list string := ["failed"; "timedout"; "panicked"; "interrupted"; "aborted"].

Definition countSpec (spec : ginkgoSpec) (n : specCounts) : specCounts :=
  if negb (String.eqb (gs_LeafNodeType spec) "It") then n
  else if String.eqb (gs_State spec) "passed" then mkSpecCounts (gc_passed n + 1) (gc_failed n) (gc_skipped n) (gc_pending n)
  else if String.eqb (gs_State spec) "skipped" then mkSpecCounts (gc_passed n) (gc_failed n) (gc_skipped n + 1) (gc_pending n)
  else if String.eqb (gs_State spec) "pending" then mkSpecCounts (gc_passed n) (gc_failed n) (gc_skipped n) (gc_pending n + 1)
  else mkSpecCounts (gc_passed n) (gc_failed n + 1) (gc_skipped n) (gc_pending n).

Definition specFailure (suite : string) (spec : ginkgoSpec) : string :=
  suite +:+ ": " +:+ joined_by " / " (gs_Hierarchy spec ++ [gs_LeafNodeText spec]) +:+ " (" +:+ gs_State spec +:+ "): " +:+
  gs_Message spec.

Fixpoint ginkgoSpecs (suite : string) (specs : list ginkgoSpec) (n : specCounts) (failures : list string)
    : (specCounts * list string) + error :=
  match specs with
  | [] => inl (n, failures)
  | spec :: rest =>
      if String.eqb (gs_LeafNodeType spec) "" then inr (NewError "missing LeafNodeType")
      else if bool_decide (gs_State spec ∈ okStates) then ginkgoSpecs suite rest (countSpec spec n) failures
      else if bool_decide (gs_State spec ∈ failureStates)
      then ginkgoSpecs suite rest (countSpec spec n) (failures ++ [specFailure suite spec])
      else inr (NewError ("unknown Ginkgo spec state " +:+ quoted (gs_State spec)))
  end.

Fixpoint ginkgoSuites (suites : list ginkgoSuite) (n : specCounts) (failures : list string)
    : (specCounts * list string) + error :=
  match suites with
  | [] => inl (n, failures)
  | suite :: rest =>
      match gu_Succeeded suite with
      | None => inr (NewError "missing SuiteSucceeded")
      | Some ok =>
          let failures := if ok then failures else failures ++ ["Ginkgo suite failed: " +:+ gu_Description suite] in
          match gu_Specs suite with
          | None => inr (NewError "missing SpecReports")
          | Some specs =>
              match ginkgoSpecs (gu_Description suite) specs n failures with
              | inl (n, failures) => ginkgoSuites rest n failures
              | inr err => inr err
              end
          end
      end
  end.

Definition parseGinkgo (f : file) (s : Stage) : Stage * option error :=
  match readFile f with
  | inr err => (s, Some err)
  | inl text =>
      match decodeSuites text with
      | inr err => (s, Some err)
      | inl [] => (s, Some (NewError "empty Ginkgo suite report"))
      | inl suites =>
          match ginkgoSuites suites (mkSpecCounts 0 0 0 0) [] with
          | inr err => (s, Some err)
          | inl (n, failures) =>
              (addFailures failures
                 (setCounts (mkStageCounts (gc_passed n) (gc_failed n) (gc_skipped n) (gc_pending n) "ginkgo-specs") s), None)
          end
      end
  end.

(** ** Performance *)
Variable decodeSummary : string -> DiagSummary + error.

Definition expectedTrials (repeats : Z) : list string :=
  scenario ← trialScenarios;
  (trialID false scenario <$> seqZ 1 (Z.min repeats 5)) ++ [trialID true scenario 1].

Definition trialFailed (expected seen : list string) (t : Trial) : bool :=
  (tr_ServerPID t <=? 0) || (tr_ClientPID t <=? 0) || (tr_ServerPID t =? tr_ClientPID t) || (tr_Requests t =? 0) ||
  negb (tr_Errors t =? 0) || negb (tr_Incorrect t =? 0) || negb (String.eqb (tr_Failure t) "") ||
  bool_decide (tr_ID t ∈ seen) || bool_decide (tr_ID t ∉ expected) ||
  negb (String.eqb (trialID (tr_Profiled t) (tr_Scenario t) (tr_Repeat t)) (tr_ID t)).

(** The loop over the trials: the counts, the failures and the identities seen. *)
Fixpoint judgeTrials (expected : list string) (trials : list Trial) (passed failed : Z) (failures seen : list string)
    : Z * Z * list string :=
  match trials with
  | [] => (passed, failed, failures)
  | t :: rest =>
      if trialFailed expected seen t
      then judgeTrials expected rest passed (failed + 1)
             (failures ++ ["performance trial failed: " +:+ tr_ID t +:+ " " +:+ tr_Failure t]) (tr_ID t :: seen)
      else judgeTrials expected rest (passed + 1) failed failures (tr_ID t :: seen)
  end.

Definition incompleteRun (s : DiagSummary) : bool :=
  negb (String.eqb (ds_Status s) "passed") || negb (String.eqb (ds_Failure s) "") ||
  negb (Z.of_nat (length (ds_Trials s)) =? 3 * ds_Repeats s + 3) || (ds_Repeats s <? 1) ||
  (negb (ds_Quick s) && (ds_Repeats s <? 3)).
Definition invalidMetadata (s : DiagSummary) : bool :=
  (ds_Seconds s <? 1) || (30 <? ds_Seconds s) || (negb (ds_Quick s) && (ds_Seconds s <? 10)) || (ds_Workers s <? 1) ||
  (32 <? ds_Workers s) || (5 <? ds_Repeats s) || negb (ds_SourceDelayMS s =? 100) || negb (ds_ServerGOMAXPROCS s =? 2) ||
  negb (ds_ThinkMS s =? 1) || negb (slen (ds_ServerSHA256 s) =? 64).

Definition judgeSummary (summary : DiagSummary) (s : Stage) : Stage :=
  let '(passed, failed, failures) := judgeTrials (expectedTrials (ds_Repeats summary)) (ds_Trials summary) 0 0 [] [] in
  let s := addFailures failures s in
  let s := if incompleteRun summary then addFailures ["incomplete or failed performance run: " +:+ ds_Failure summary] s else s in
  let s := if invalidMetadata summary then addFailures ["invalid performance configuration metadata"] s else s in
  setCounts (mkStageCounts passed failed 0 0 "diagnostic-trials") s.

Definition collectPerformance (f : file) (s : Stage) : Stage * option DiagSummary :=
  match readFile f with
  | inr err => (addFailures ["missing performance evidence: " +:+ Error err] s, None)
  | inl text =>
      match decodeSummary text with
      | inr err => (addFailures ["invalid performance evidence: " +:+ Error err] s, None)
      | inl summary => (judgeSummary summary s, Some summary)
      end
  end.

(** ** The probe's evidence *)

(** Whether the JSON object of the payload has an environment that is not null. *)
Variable hasEnvironment : string -> bool.

Definition logEvidence (hasProbe : bool) (line : string) : list string :=
  if HasPrefix line evidenceMark then
    let payload := TrimPrefix line evidenceMark in
    if jsonValid payload then if hasProbe && hasEnvironment payload then [] else [payload] else []
  else [].

Definition smokeStage (probe log : file) (s : Stage) : Stage :=
  let '(hasProbe, s) :=
    match readFile probe with
    | inl data => if negb (jsonValid data) then (false, addFailures ["invalid probe evidence"] s)
                  else (true, addEvidence [data] s)
    | inr _ => (false, addFailures ["missing continuity probe evidence"] s)
    end in
  match readFile log with
  | inl data => addEvidence (split_byte "010" data ≫= logEvidence hasProbe) s
  | inr _ => s
  end.

(** ** The report *)
Variable dir : string -> file.

Definition legacyNote : string := "Legacy run: Ginkgo spec counts were not collected; counts are N/A.".

(** The test results of a stage. *)
Definition testResults (s : Stage) : Stage :=
  if String.eqb (st_Name s) "operator-tests" then
    match parseGinkgo (dir "ginkgo.json") s with
    | (s, None) => s
    | (s, Some err) =>
        if missing (dir "ginkgo.json") && missing (dir "ginkgo-required") then addNote legacyNote s
        else addFailures ["cannot collect Ginkgo evidence: " +:+ Error err] s
    end
  else
    match parseEvents (st_Name s +:+ ".jsonl") (dir (st_Name s +:+ ".jsonl")) s with
    | (s, None) => s
    | (s, Some err) => addFailures ["cannot parse test evidence: " +:+ Error err] s
    end.

Definition streamStages : list string := ["engine-race"; "engine-unit"; "diagnostics"].

(** A stage, with the performance summary it found. *)
Definition readStage (name : string) (code seconds : Z) : Stage * option DiagSummary :=
  let s := mkReportStage name code seconds None [] [] [] in
  let s := if bool_decide (name ∈ streamStages)
           then match statError (dir (name +:+ ".jsonl")) with
                | Some err => addFailures ["missing test event stream: " +:+ Error err] s
                | None => s
                end
           else s in
  let s := testResults s in
  let '(s, performance) := if String.eqb name "performance" then collectPerformance (dir "performance.json") s else (s, None) in
  (if String.eqb name "kind-smoke" then smokeStage (dir "probe.json") (dir "kind-smoke.log") s else s, performance).

(** Whether a stage makes the report fail. *)
Definition stageFailed (s : Stage) : bool :=
  negb (st_ExitCode s =? 0) || match st_Counts s with Some c => negb (sc_Failed c =? 0) | None => false end ||
  negb (length (st_Failures s) =? 0)%nat.

Record Report := mkReport { rp_Status : string; rp_Stages : list Stage; rp_Performance : option DiagSummary }.

Fixpoint readStages (lines : list string) (r : Report) : Report * option error :=
  match lines with
  | [] => (r, None)
  | line :: rest =>
      match split_byte "009" line with
      | [name; code; seconds] =>
          match Atoi quoted code with
          | inr err => (r, Some err)
          | inl code =>
              match Atoi quoted seconds with
              | inr err => (r, Some err)
              | inl seconds =>
                  let '(s, performance) := readStage name code seconds in
                  readStages rest
                    (mkReport (if stageFailed s then "failed" else rp_Status r) (rp_Stages r ++ [s])
                       (if String.eqb name "performance" then performance else rp_Performance r))
              end
          end
      | _ => (r, Some (NewError ("invalid stage metadata " +:+ quoted line)))
      end
  end.

(** [Generate] up to the listing of the directory and the writing of the files. *)
Definition Generate : Report * option error :=
  let r := mkReport "passed" [] None in
  match readFile (dir "stages.tsv") with
  | inr err => (r, Some err)
  | inl text => readStages (split_byte "010" (TrimSpace text)) r
  end.
End Report.

(** ** Proofs: stages only gain failures *)

(** What every operation on a stage keeps: its line of metadata and the
    failures it already has. *)
Record grows (s s' : Stage) : Prop := {
  gr_name : st_Name s' = st_Name s;
  gr_code : st_ExitCode s' = st_ExitCode s;
  gr_seconds : st_Seconds s' = st_Seconds s;
  gr_failures : exists l, st_Failures s' = st_Failures s ++ l;
}.
#[export] Instance grows_preorder : PreOrder grows.
Proof.
  split.
  - intros s. split; try done. exists []. by rewrite app_nil_r.
  - intros s1 s2 s3 [H1 H2 H3 [l Hl]] [G1 G2 G3 [k Hk]]. split; [congruence..|]. exists (l ++ k). by rewrite Hk, Hl, app_assoc.
Qed.
Lemma grows_clean s s' : grows s s' -> st_Failures s' = [] -> st_Failures s = [].
Proof. intros [_ _ _ [l ->]] H. by apply app_eq_nil in H as [-> _]. Qed.

Lemma addFailures_grows l s : grows s (addFailures l s).
Proof. split; try done. by exists l. Qed.
Lemma failIf_grows (b : bool) l s : grows s (if b then addFailures l s else s).
Proof. destruct b; [apply addFailures_grows|reflexivity]. Qed.
Lemma addEvidence_grows l s : grows s (addEvidence l s).
Proof. split; try done. exists []. by rewrite app_nil_r. Qed.
Lemma addNote_grows n s : grows s (addNote n s).
Proof. split; try done. exists []. by rewrite app_nil_r. Qed.
Lemma setCounts_grows c s : grows s (setCounts c s).
Proof. split; try done. exists []. by rewrite app_nil_r. Qed.
Create HintDb growth discriminated.
#[export] Hint Resolve addFailures_grows addEvidence_grows addNote_grows setCounts_grows : growth.

Section Facts.
Variable decodeEvent : string -> testEvent + error.
Variable quoted : string -> string.
Variable decodeSuites : string -> list ginkgoSuite + error.
Variable decodeSummary : string -> DiagSummary + error.
Variable hasEnvironment : string -> bool.

Lemma eventLine_spec path line n s n' s' err :
  eventLine decodeEvent path line n s = (n', s', err) ->
  grows s s' /\ (err = None -> st_Failures s' = [] -> exists e, decodeEvent line = inl e /\ ev_Action e <> "fail").
Proof.
  unfold eventLine. destruct (decodeEvent line) as [e|e0]; [|intros H; simplify_eq; by split].
  cbv zeta. set (s1 := addFailures (eventFailures e) s).
  assert (st_Failures s1 = [] -> ev_Action e <> "fail") as Hfail.
  { unfold s1, addFailures, eventFailures. cbn [st_Failures]. intros H E. rewrite E, String.eqb_refl in H.
    by apply app_eq_nil in H as [_ H]. }
  assert (grows s s1) as Hg by apply addFailures_grows.
  destruct (cutString _ _) as [[pre payload]|]; [destruct (negb _)|]; intros H; simplify_eq.
  - by split.
  - split; [etrans; [exact Hg|apply addEvidence_grows]|]. intros _ H. exists e. auto.
  - split; [exact Hg|]. intros _ H. exists e. auto.
Qed.

Lemma eventLines_spec path lines n s n' s' err :
  eventLines decodeEvent path lines n s = (n', s', err) ->
  grows s s' /\ (err = None -> st_Failures s' = [] -> forall line, line ∈ lines ->
    slen line < maxToken /\ exists e, decodeEvent (dropCR line) = inl e /\ ev_Action e <> "fail").
Proof.
  revert n s. induction lines as [|line l IH]; intros n s; cbn [eventLines].
  - intros H; simplify_eq. split; [reflexivity|]. intros _ _ line Hl. by apply elem_of_nil in Hl.
  - destruct (maxToken <=? slen line) eqn:Em; [intros H; simplify_eq; by split|].
    destruct (eventLine _ _ _ _ _) as [[n1 s1] err1] eqn:E1. apply eventLine_spec in E1 as [Hg H1].
    destruct err1 as [e1|]; [intros H; simplify_eq; by split|].
    intros [Hg2 H2]%IH. split; [by etrans|]. intros He Hf line' [->|Hl]%elem_of_cons; [|by apply H2].
    reflect_bool. split; [lia|]. apply H1; [done|]. by eapply grows_clean.
Qed.

(** The events of a stage without failures: every line is read and none
    reports a failure, of a test or of a package. *)
Definition clean_events (f : file) : Prop :=
  match f with
  | Contents text => forall line, line ∈ rawLines text ->
      slen line < maxToken /\ exists e, decodeEvent (dropCR line) = inl e /\ ev_Action e <> "fail"
  | NotFound _ => True
  | Unreadable _ _ => False
  end.

Lemma parseEvents_spec path f s s' err :
  parseEvents decodeEvent path f s = (s', err) ->
  grows s s' /\ (err = None -> st_Failures s' = [] -> clean_events f).
Proof.
  unfold parseEvents. destruct f as [text|e|st e]; [|intros H; simplify_eq; by split..].
  destruct (eventLines _ _ _ _ _) as [[n1 s1] err1] eqn:E1. apply eventLines_spec in E1 as [Hg H1].
  destruct err1 as [e1|]; intros H; simplify_eq; [by split|]. split; [etrans; [exact Hg|apply setCounts_grows]|].
  intros _ Hf line Hl. by apply H1.
Qed.

(** ** Proofs: Ginkgo *)
Definition clean_suite (suite : ginkgoSuite) : Prop :=
  gu_Succeeded suite = Some true /\ exists specs, gu_Specs suite = Some specs /\
    forall spec, spec ∈ specs -> gs_State spec ∈ okStates.

Lemma ginkgoSpecs_spec suite specs n failures n' failures' :
  ginkgoSpecs quoted suite specs n failures = inl (n', failures') ->
  (exists l, failures' = failures ++ l) /\
  (failures' = [] -> forall spec, spec ∈ specs -> gs_State spec ∈ okStates) /\
  gc_failed n <= gc_failed n' /\ (failures' = [] -> gc_failed n' = gc_failed n).
Proof.
  revert n failures. induction specs as [|spec l IH]; intros n failures; cbn [ginkgoSpecs].
  { intros H; simplify_eq. split_and!; try done; [exists []; by rewrite app_nil_r|]. intros _ spec Hs. by apply elem_of_nil in Hs. }
  destruct (String.eqb _ ""); [done|].
  assert (gc_failed n <= gc_failed (countSpec spec n) /\ (gs_State spec ∈ okStates -> gc_failed (countSpec spec n) = gc_failed n)) as [Hc1 Hc2].
  { unfold countSpec. repeat case_bool; cbn [gc_failed]; (split; [lia|]); try done. intros H. unfold okStates in H.
    rewrite !elem_of_cons, elem_of_nil in H. repeat match goal with H : String.eqb _ _ = false |- _ => apply String.eqb_neq in H end.
    destruct H as [?|[?|[?|[]]]]; contradiction. }
  destruct (bool_decide (gs_State spec ∈ okStates)) eqn:Eb; [apply bool_decide_eq_true in Eb|case_bool; [|done]].
  - intros (Hl & Hs & Hn & Hz)%IH. split_and!; [done| |lia|].
    + intros Hf spec' [->|Hin]%elem_of_cons; [done|by apply Hs].
    + intros Hf. rewrite (Hz Hf). by apply Hc2.
  - intros ([k ->] & _ & Hn & _)%IH. split_and!; [by eexists; rewrite <- app_assoc| |lia|];
      intros H; by destruct failures.
Qed.

Lemma ginkgoSuites_spec suites n failures n' failures' :
  ginkgoSuites quoted suites n failures = inl (n', failures') ->
  (exists l, failures' = failures ++ l) /\
  (failures' = [] -> gc_failed n' = gc_failed n /\ forall suite, suite ∈ suites -> clean_suite suite).
Proof.
  revert n failures. induction suites as [|suite l IH]; intros n failures; cbn [ginkgoSuites].
  { intros H; simplify_eq. split; [exists []; by rewrite app_nil_r|]. intros _. split; [done|]. intros suite Hs. by apply elem_of_nil in Hs. }
  destruct (gu_Succeeded suite) as [ok|] eqn:Eok; [|done]. destruct (gu_Specs suite) as [specs|] eqn:Esp; [|done]. cbv zeta.
  destruct (ginkgoSpecs _ _ _ _ _) as [[n1 f1]|err] eqn:E1; [|done]. apply ginkgoSpecs_spec in E1 as ([k Hk] & Hs & _ & Hz).
  intros ([k2 ->] & H2)%IH. split.
  - rewrite Hk. destruct ok; eexists; rewrite <- ?app_assoc; reflexivity.
  - intros Hf. apply app_eq_nil in Hf as [-> ->]. destruct (H2 eq_refl) as [Hn Hall]. split; [by rewrite Hn, Hz|].
    intros suite' [->|Hin]%elem_of_cons; [|by apply Hall]. split.
    + destruct ok; [done|]. by destruct failures.
    + exists specs. split; [done|]. by apply Hs.
Qed.

Definition clean_ginkgo (f : file) : Prop :=
  exists text suites, f = Contents text /\ decodeSuites text = inl suites /\ suites <> [] /\
    forall suite, suite ∈ suites -> clean_suite suite.

Lemma parseGinkgo_spec f s s' err :
  parseGinkgo quoted decodeSuites f s = (s', err) ->
  grows s s' /\ (err = None -> st_Failures s' = [] -> clean_ginkgo f).
Proof.
  unfold parseGinkgo. destruct (readFile f) as [text|e] eqn:Er; [|intros H; simplify_eq; by split].
  assert (f = Contents text) as -> by (destruct f; simpl in Er; congruence).
  destruct (decodeSuites text) as [[|u us]|e] eqn:Ed; [intros H; simplify_eq; by split| |intros H; simplify_eq; by split].
  destruct (ginkgoSuites _ _ _ _) as [[n fs]|e] eqn:Eg; intros H; simplify_eq; [|by split].
  apply ginkgoSuites_spec in Eg as [_ Hg]. split; [etrans; [apply setCounts_grows|apply addFailures_grows]|].
  intros _ Hf. apply app_eq_nil in Hf as [_ Hf]. destruct (Hg Hf) as [_ Hall]. by exists text, (u :: us).
Qed.
End Facts.

(** ** Proofs: performance *)

(** A trial as the report demands it. *)
Record trial_ok (expected : list string) (t : Trial) : Prop := {
  to_server : 0 < tr_ServerPID t;
  to_client : 0 < tr_ClientPID t;
  to_apart : tr_ServerPID t <> tr_ClientPID t;
  to_requests : tr_Requests t <> 0;
  to_errors : tr_Errors t = 0;
  to_incorrect : tr_Incorrect t = 0;
  to_failure : tr_Failure t = "";
  to_expected : tr_ID t ∈ expected;
  to_identity : trialID (tr_Profiled t) (tr_Scenario t) (tr_Repeat t) = tr_ID t;
}.

Lemma trialFailed_false expected seen t :
  trialFailed expected seen t = false <-> tr_ID t ∉ seen /\ trial_ok expected t.
Proof.
  unfold trialFailed. split.
  - intros E. repeat (apply orb_false_iff in E as [E ?]). reflect_bool.
    repeat match goal with H : bool_decide _ = false |- _ => apply bool_decide_eq_false in H end.
    rewrite String.eqb_eq in *. split; [done|]. split; try done; try lia. by apply dec_stable.
  - intros [Hs []]. rewrite to_errors0, to_incorrect0, to_failure0, to_identity0, !String.eqb_refl.
    rewrite (bool_decide_eq_false_2 (tr_ID t ∈ seen)), (bool_decide_eq_false_2 (tr_ID t ∉ expected)) by tauto.
    rewrite (proj2 (Z.leb_gt _ _) to_server0), (proj2 (Z.leb_gt _ _) to_client0), (proj2 (Z.eqb_neq _ _) to_apart0),
      (proj2 (Z.eqb_neq _ _) to_requests0). done.
Qed.

Lemma judgeTrials_spec expected trials p f failures seen p' f' failures' :
  judgeTrials expected trials p f failures seen = (p', f', failures') ->
  p' + f' = p + f + Z.of_nat (length trials) /\ f <= f' /\
  (exists new, failures' = failures ++ new /\ (new = [] <-> f' = f)) /\
  (f' = f <-> NoDup (tr_ID <$> trials) /\ (forall id, id ∈ tr_ID <$> trials -> id ∉ seen) /\ Forall (trial_ok expected) trials).
Proof.
  revert p f failures seen. induction trials as [|t l IH]; intros p f failures seen; cbn [judgeTrials].
  { intros H; simplify_eq. split_and!; [simpl; lia|lia|by exists []; rewrite app_nil_r|].
    split; [intros _; split_and!; [constructor|intros id Hid; by apply elem_of_nil in Hid|constructor]|done]. }
  destruct (trialFailed expected seen t) eqn:Et; intros (Hsum & Hle & (new & -> & Hnew) & Hiff)%IH; cbn [length fmap list_fmap].
  - split; [lia|]. split; [lia|]. split; [eexists; rewrite <- app_assoc; split; [reflexivity|]; split; [done|lia]|].
    split; [lia|]. intros (_ & Hseen & Hall). exfalso. apply Forall_cons in Hall as [Ht _].
    rewrite (proj2 (trialFailed_false expected seen t)) in Et; [done|]. split; [|done]. apply Hseen. by left.
  - apply trialFailed_false in Et as [Hs Ht]. split; [lia|]. split; [lia|]. split; [by exists new|]. rewrite Hiff. split.
    + intros (Hnd & Hseen & Hall). split_and!.
      * constructor; [|done]. intros Hin. apply (Hseen _ Hin). by left.
      * intros id [->|Hid]%elem_of_cons; [done|]. intros Hin. apply (Hseen id Hid). by right.
      * by constructor.
    + intros (Hnd & Hseen & Hall). apply NoDup_cons in Hnd as [Hnot Hnd]. apply Forall_cons in Hall as [_ Hall]. split_and!; try done.
      intros id Hid Hin. apply elem_of_cons in Hin as [->|Hin]; [done|]. apply (Hseen id); [by right|done].
Qed.

(** The identities the report expects are those of the planned trials, each
    once: by computation for every number of repetitions. *)
Definition plannedIDs (repeats : Z) : list string := (fun job => trialID job.1.1 job.2 job.1.2) <$> plannedTrials repeats.
Definition sizes_agree (repeats : Z) : bool :=
  bool_decide (NoDup (plannedIDs repeats)) && bool_decide (NoDup (expectedTrials repeats)) &&
  (length (plannedIDs repeats) =? Z.to_nat (3 * repeats + 3))%nat && (length (expectedTrials repeats) =? Z.to_nat (3 * repeats + 3))%nat &&
  forallb (fun id => bool_decide (id ∈ expectedTrials repeats)) (plannedIDs repeats).
Lemma sizes_agree_all : forallb sizes_agree [1; 2; 3; 4; 5] = true.
Proof. vm_compute. reflexivity. Qed.

Lemma planned_expected repeats :
  1 <= repeats <= 5 ->
  NoDup (plannedIDs repeats) /\ NoDup (expectedTrials repeats) /\ length (expectedTrials repeats) = Z.to_nat (3 * repeats + 3) /\
  plannedIDs repeats ≡ₚ expectedTrials repeats.
Proof.
  intros Hr. assert (repeats ∈ [1; 2; 3; 4; 5]) as Hin by (rewrite !elem_of_cons; lia).
  pose proof sizes_agree_all as Hall. rewrite forallb_forall in Hall. specialize (Hall repeats). rewrite <- list_elem_of_In in Hall.
  specialize (Hall Hin). unfold sizes_agree in Hall. repeat (apply andb_true_iff in Hall as [Hall ?]).
  repeat match goal with H : bool_decide _ = true |- _ => apply bool_decide_eq_true in H end.
  repeat match goal with H : (_ =? _)%nat = true |- _ => apply Nat.eqb_eq in H end.
  split_and!; try done. apply submseteq_length_Permutation; [|lia]. apply NoDup_submseteq; [done|].
  intros id Hid. match goal with H : forallb _ _ = true |- _ => rewrite forallb_forall in H; specialize (H id) end.
  rewrite <- list_elem_of_In in *. by eapply bool_decide_eq_true, H.
Qed.

(** What the report accepts of a performance run. *)
Record complete_run (s : DiagSummary) : Prop := {
  cr_status : ds_Status s = "passed";
  cr_failure : ds_Failure s = "";
  cr_repeats : 1 <= ds_Repeats s <= 5;
  cr_trials : tr_ID <$> ds_Trials s ≡ₚ plannedIDs (ds_Repeats s);
  cr_sound : Forall (trial_ok (expectedTrials (ds_Repeats s))) (ds_Trials s);
  cr_full : ds_Quick s = false -> 3 <= ds_Repeats s /\ 10 <= ds_Seconds s;
  cr_seconds : 1 <= ds_Seconds s <= 30;
  cr_workers : 1 <= ds_Workers s <= 32;
  cr_settings : ds_SourceDelayMS s = 100 /\ ds_ServerGOMAXPROCS s = 2 /\ ds_ThinkMS s = 1;
  cr_hash : slen (ds_ServerSHA256 s) = 64;
}.

Lemma flags_complete (s : DiagSummary) :
  incompleteRun s = false /\ invalidMetadata s = false <->
  ds_Status s = "passed" /\ ds_Failure s = "" /\ Z.of_nat (length (ds_Trials s)) = 3 * ds_Repeats s + 3 /\ 1 <= ds_Repeats s <= 5 /\
  (ds_Quick s = false -> 3 <= ds_Repeats s /\ 10 <= ds_Seconds s) /\ 1 <= ds_Seconds s <= 30 /\ 1 <= ds_Workers s <= 32 /\
  (ds_SourceDelayMS s = 100 /\ ds_ServerGOMAXPROCS s = 2 /\ ds_ThinkMS s = 1) /\ slen (ds_ServerSHA256 s) = 64.
Proof.
  unfold incompleteRun, invalidMetadata. rewrite !orb_false_iff, !negb_false_iff, !String.eqb_eq, !Z.eqb_eq, !Z.ltb_ge, !andb_false_iff,
    !negb_false_iff, !Z.ltb_ge. split.
  - intros [((((? & ?) & ?) & ?) & Ha) (((((((((? & ?) & Hb) & ?) & ?) & ?) & ?) & ?) & ?) & ?)].
    split_and!; try done. all: intros Hq; rewrite Hq in *; destruct Ha, Hb; done.
  - intros (? & ? & ? & [? ?] & Hq & [? ?] & [? ?] & (? & ? & ?) & ?). split; split_and!; try done.
    all: destruct (ds_Quick s); [by left|right; by apply Hq].
Qed.

Lemma judgeSummary_spec summary s :
  grows s (judgeSummary summary s) /\
  (st_Failures s = [] -> st_Failures (judgeSummary summary s) = [] <-> complete_run summary) /\
  exists passed failed, st_Counts (judgeSummary summary s) = Some (mkStageCounts passed failed 0 0 "diagnostic-trials") /\
    passed + failed = Z.of_nat (length (ds_Trials summary)) /\ (complete_run summary -> failed = 0).
Proof.
  unfold judgeSummary. destruct (judgeTrials _ _ _ _ _ _) as [[passed failed] failures] eqn:Ej.
  apply judgeTrials_spec in Ej as (Hsum & Hle & (new & -> & Hnew) & Hiff). cbn [app] in *. cbv zeta.
  assert (complete_run summary -> failed = 0) as Hzero.
  { intros []. apply Hiff. destruct (planned_expected _ cr_repeats0) as (Hnd & _). split_and!; [by rewrite cr_trials0| |done].
    intros id _ Hin. by apply elem_of_nil in Hin. }
  split; [|split].
  - etrans; [apply addFailures_grows|]. etrans; [|apply setCounts_grows]. etrans; [|apply failIf_grows]. apply failIf_grows.
  - intros Hs. transitivity (new = [] /\ incompleteRun summary = false /\ invalidMetadata summary = false).
    { destruct (incompleteRun summary), (invalidMetadata summary); unfold setCounts, addFailures; cbn [st_Failures]; rewrite Hs; cbn [app].
      all: destruct new; split; try done; intros (? & ? & ?); done. }
    rewrite flags_complete. split.
    + intros (Hn & H1 & H2 & HL & Hr & H3 & H4 & H5 & H6 & H7). apply Hnew, Hiff in Hn as (Hnd & _ & Hall). split; try done.
      destruct (planned_expected _ Hr) as (_ & Hnde & HLe & ->). apply submseteq_length_Permutation.
      * apply NoDup_submseteq; [done|]. intros id (t & -> & Ht)%list_elem_of_fmap. rewrite Forall_forall in Hall.
        by destruct (Hall t Ht).
      * rewrite length_fmap, HLe. lia.
    + intros Hc. specialize (Hzero Hc). split; [by apply Hnew|]. destruct Hc. split_and!; try done; try lia.
      destruct (planned_expected _ cr_repeats0) as (_ & _ & HLe & Hp).
      rewrite <- (length_fmap tr_ID), (Permutation_length cr_trials0), (Permutation_length Hp), HLe. lia.
  - exists passed, failed. split; [done|]. split; [lia|done].
Qed.

(** What the benchmark itself reports as passed is complete. *)
Lemma passed_run_complete ParseFloat sha256 o env summary :
  (forall b, slen (sha256 b) = 32) -> 0 < re_clientPID env ->
  (forall te pid, te ∈ re_trials env -> te_server te = inl pid -> 0 < pid /\ pid <> re_clientPID env) ->
  RunDiagnostics ParseFloat sha256 o env = (summary, None) -> complete_run summary.
Proof.
  intros Hsha Hclient Hpids Hrun.
  apply run_passed in Hrun as (Hv & H1 & H2 & H3 & H4 & H5 & H6 & H7 & H8 & H9 & (binary & _ & Hh) & HL & Hall).
  unfold DiagValidate in Hv. destruct (_ || _) eqn:E; [done|]. clear Hv.
  repeat (apply orb_false_iff in E as [E ?]). reflect_bool.
  match goal with H : _ && _ = false |- _ => rename H into Hq end. apply andb_false_iff in Hq.
  assert (1 <= do_Repeats o <= 5) as Hr by lia. destruct (planned_expected _ Hr) as (_ & _ & _ & Hperm).
  assert (tr_ID <$> ds_Trials summary = plannedIDs (do_Repeats o)) as Hids.
  { apply list_eq_same_length with (length (ds_Trials summary)); rewrite ?length_fmap; try done; [by unfold plannedIDs; rewrite length_fmap|].
    intros k id id' _ Hid Hid'. apply list_lookup_fmap_Some in Hid as (t & -> & Ht).
    apply list_lookup_fmap_Some in Hid' as (job & -> & Hjob). destruct (Hall k t Ht) as (_ & (job' & Hj & Hl) & _).
    rewrite (lb_id _ _ _ Hl). congruence. }
  split; rewrite ?H4, ?H3, ?H6, ?H5; try done; try lia.
  - by rewrite Hids.
  - rewrite Forall_forall. intros t [k Ht]%list_elem_of_lookup. destruct (Hall k t Ht) as ([Hf Hc] & (job & Hj & Hl) & (te & Hte & Hs)).
    apply list_elem_of_lookup_2 in Hte. destruct (Hpids te _ Hte Hs) as [Hp1 Hp2].
    unfold checkTrial in Hc. destruct (_ || _ || _) eqn:Eb; [done|]. apply orb_false_iff in Eb as [Eb Eb3]. apply orb_false_iff in Eb as [Eb1 Eb2].
    reflect_bool. pose proof (lb_client _ _ _ Hl) as Hlc. split; try done; try lia.
    + rewrite <- Hperm, <- Hids. apply list_elem_of_fmap. exists t. split; [done|]. by eapply list_elem_of_lookup_2.
    + rewrite (lb_id _ _ _ Hl), (lb_profiled _ _ _ Hl), (lb_scenario _ _ _ Hl), (lb_repeat _ _ _ Hl). done.
  - intros Hquick. rewrite Hquick in *. cbn [negb] in Hq. destruct Hq as [Hq|Hq]; [done|]. reflect_bool. lia.
  - destruct (do_Quick o); lia.
  - rewrite Hh. destruct (EncodeToString_hex (sha256 binary)) as [_ ->]. by rewrite Hsha.
Qed.

(** ** Proofs: the report *)
Section ReportFacts.
Variable decodeEvent : string -> testEvent + error.
Variable quoted : string -> string.
Variable decodeSuites : string -> list ginkgoSuite + error.
Variable decodeSummary : string -> DiagSummary + error.
Variable hasEnvironment : string -> bool.
Variable dir : string -> file.
Notation testResults := (testResults decodeEvent quoted decodeSuites dir).
Notation collectPerformance := (collectPerformance decodeSummary).
Notation smokeStage := (smokeStage hasEnvironment).
Notation readStage := (readStage decodeEvent quoted decodeSuites decodeSummary hasEnvironment dir).
Notation readStages := (readStages decodeEvent quoted decodeSuites decodeSummary hasEnvironment dir).
Notation Generate := (Generate decodeEvent quoted decodeSuites decodeSummary hasEnvironment dir).

Lemma collectPerformance_spec f s s' summary :
  collectPerformance f s = (s', summary) ->
  grows s s' /\ (st_Failures s' = [] -> exists text found, f = Contents text /\ decodeSummary text = inl found /\
    summary = Some found /\ complete_run found).
Proof.
  unfold Report.collectPerformance. destruct (readFile f) as [text|e] eqn:Er.
  2: { intros H; simplify_eq. split; [apply addFailures_grows|]. intros H. by apply app_eq_nil in H as [_ H]. }
  assert (f = Contents text) as -> by (destruct f; simpl in Er; congruence).
  destruct (decodeSummary text) as [found|e] eqn:Ed; intros H; simplify_eq.
  2: { split; [apply addFailures_grows|]. intros H. by apply app_eq_nil in H as [_ H]. }
  destruct (judgeSummary_spec found s) as (Hg & Hiff & _). split; [done|]. intros Hf. exists text, found. split_and!; try done.
  apply Hiff; [|done]. by eapply grows_clean.
Qed.

Lemma smokeStage_spec probe log s :
  grows s (smokeStage probe log s) /\
  (st_Failures (smokeStage probe log s) = [] -> exists data, probe = Contents data /\ jsonValid data = true).
Proof.
  unfold Report.smokeStage. destruct (readFile probe) as [data|e] eqn:Er.
  - assert (probe = Contents data) as -> by (destruct probe; simpl in Er; congruence).
    destruct (jsonValid data) eqn:Ev; cbn [negb].
    + split; [|intros _; by exists data]. destruct (readFile log); [|apply addEvidence_grows].
      etrans; [apply addEvidence_grows|apply addEvidence_grows].
    + split; [destruct (readFile log); [etrans; [apply addFailures_grows|apply addEvidence_grows]|apply addFailures_grows]|].
      destruct (readFile log); cbn [addEvidence st_Failures]; intros H; by apply app_eq_nil in H as [_ H].
  - split; [destruct (readFile log); [etrans; [apply addFailures_grows|apply addEvidence_grows]|apply addFailures_grows]|].
    destruct (readFile log); cbn [addEvidence st_Failures]; intros H; by apply app_eq_nil in H as [_ H].
Qed.

(** The test results a clean stage stands on. *)
Definition clean_tests (name : string) : Prop :=
  if String.eqb name "operator-tests"
  then clean_ginkgo decodeSuites (dir "ginkgo.json") \/ (missing (dir "ginkgo.json") = true /\ missing (dir "ginkgo-required") = true)
  else clean_events decodeEvent (dir (name +:+ ".jsonl")).

Lemma testResults_spec s : grows s (testResults s) /\ (st_Failures (testResults s) = [] -> clean_tests (st_Name s)).
Proof.
  unfold Report.testResults, clean_tests. destruct (String.eqb (st_Name s) "operator-tests"); cbv iota.
  - destruct (parseGinkgo _ _ _ _) as [s1 err] eqn:E. apply parseGinkgo_spec in E as [Hg Hc]. destruct err as [err|].
    + destruct (_ && _) eqn:Em; [apply andb_true_iff in Em|].
      * split; [etrans; [exact Hg|apply addNote_grows]|]. by right.
      * split; [etrans; [exact Hg|apply addFailures_grows]|]. intros H. by apply app_eq_nil in H as [_ H].
    + split; [done|]. intros H. left. by apply Hc.
  - destruct (parseEvents _ _ _ _) as [s1 err] eqn:E. apply parseEvents_spec in E as [Hg Hc]. destruct err as [err|].
    + split; [etrans; [exact Hg|apply addFailures_grows]|]. intros H. by apply app_eq_nil in H as [_ H].
    + split; [done|]. by apply Hc.
Qed.

(** The evidence behind a stage that does not fail the report. *)
Record clean_stage (s : Stage) : Prop := {
  cl_code : st_ExitCode s = 0;
  cl_failures : st_Failures s = [];
  cl_counts : forall c, st_Counts s = Some c -> sc_Failed c = 0;
  cl_stream : st_Name s ∈ streamStages -> exists text, dir (st_Name s +:+ ".jsonl") = Contents text;
  cl_tests : clean_tests (st_Name s);
  cl_performance : st_Name s = "performance" ->
    exists text summary, dir "performance.json" = Contents text /\ decodeSummary text = inl summary /\ complete_run summary;
  cl_probe : st_Name s = "kind-smoke" -> exists data, dir "probe.json" = Contents data /\ jsonValid data = true;
}.

Lemma stageFailed_false s :
  stageFailed s = false <-> st_ExitCode s = 0 /\ (forall c, st_Counts s = Some c -> sc_Failed c = 0) /\ st_Failures s = [].
Proof.
  unfold stageFailed. rewrite !orb_false_iff, !negb_false_iff, Z.eqb_eq, Nat.eqb_eq. split.
  - intros [[H1 H2] H3]. split; [done|]. split; [|by destruct (st_Failures s)].
    intros c Hc. rewrite Hc in H2. apply negb_false_iff, Z.eqb_eq in H2. done.
  - intros (H1 & H2 & H3). rewrite H3. split; [|done]. split; [done|]. destruct (st_Counts s) as [c|]; [|done].
    by rewrite (H2 c eq_refl).
Qed.

Lemma readStage_spec name code seconds s summary :
  readStage name code seconds = (s, summary) ->
  grows (mkReportStage name code seconds None [] [] []) s /\ (stageFailed s = false -> clean_stage s).
Proof.
  unfold Report.readStage. cbv zeta. set (s0 := mkReportStage name code seconds None [] [] []).
  set (s1 := if bool_decide (name ∈ streamStages) then _ else s0).
  assert (grows s0 s1 /\ (st_Failures s1 = [] -> name ∈ streamStages -> statError (dir (name +:+ ".jsonl")) = None)) as [Hg1 Hs1].
  { unfold s1. destruct (bool_decide (name ∈ streamStages)) eqn:Eb; [|split; [reflexivity|intros _ H; by apply bool_decide_eq_false in Eb]].
    destruct (statError _) as [e|]; [|by split]. split; [apply addFailures_grows|]. intros H. by apply app_eq_nil in H as [_ H]. }
  destruct (testResults_spec s1) as [Hg2 Hs2]. set (s2 := testResults s1) in *.
  destruct (if String.eqb name "performance" then _ else _) as [s3 perf] eqn:E3.
  assert (grows s2 s3 /\ (st_Failures s3 = [] -> name = "performance" -> exists text found, dir "performance.json" = Contents text /\
    decodeSummary text = inl found /\ complete_run found)) as [Hg3 Hs3].
  { destruct (String.eqb_spec name "performance"); [|simplify_eq; by split].
    apply collectPerformance_spec in E3 as [Hg Hc]. split; [done|]. intros H _. destruct (Hc H) as (text & found & H1 & H2 & _ & H3).
    by exists text, found. }
  set (s4 := if String.eqb name "kind-smoke" then _ else s3).
  assert (grows s3 s4 /\ (st_Failures s4 = [] -> name = "kind-smoke" -> exists data, dir "probe.json" = Contents data /\ jsonValid data = true))
    as [Hg4 Hs4].
  { unfold s4. destruct (String.eqb_spec name "kind-smoke"); [|by split]. destruct (smokeStage_spec (dir "probe.json") (dir "kind-smoke.log") s3). auto. }
  intros [= <- <-]. assert (grows s0 s4) as Hg by (repeat (etrans; [eassumption|]); reflexivity). split; [done|].
  intros (H1 & H2 & H3)%stageFailed_false. pose proof (grows_clean _ _ Hg4 H3) as F3. pose proof (grows_clean _ _ Hg3 F3) as F2.
  pose proof (grows_clean _ _ Hg2 F2) as F1. assert (st_Name s4 = name) as Hn by apply (gr_name _ _ Hg).
  assert (clean_tests name) as Ht by (rewrite <- (gr_name _ _ Hg1 : st_Name s1 = name); by apply Hs2).
  split; rewrite ?Hn; auto. intros Hst. specialize (Hs1 F1 Hst).
  unfold clean_tests in Ht. destruct (String.eqb_spec name "operator-tests") as [->|_]; [vm_compute in Hst; set_solver|].
  destruct (dir (name +:+ ".jsonl")) as [text|e|st e]; [by exists text|done|done].
Qed.

(** The stage a line of the metadata describes. *)
Definition line_of (line : string) (s : Stage) : Prop :=
  exists code seconds, split_byte "009" line = [st_Name s; code; seconds] /\
    Atoi quoted code = inl (st_ExitCode s) /\ Atoi quoted seconds = inl (st_Seconds s).

Lemma readStages_spec lines r r' :
  readStages lines r = (r', None) ->
  exists new, rp_Stages r' = rp_Stages r ++ new /\ Forall2 line_of lines new /\
    (forall s, s ∈ new -> stageFailed s = false -> clean_stage s) /\
    (rp_Status r' = "passed" <-> rp_Status r = "passed" /\ forall s, s ∈ new -> stageFailed s = false).
Proof.
  revert r. induction lines as [|line l IH]; intros r; cbn [Report.readStages].
  { intros H; simplify_eq. exists []. rewrite app_nil_r. split_and!; try done; [intros s Hs; by apply elem_of_nil in Hs|].
    split; [|by intros [? _]]. intros H. split; [done|]. intros s Hs. by apply elem_of_nil in Hs. }
  destruct (split_byte "009" line) as [|name [|code [|seconds [|x y]]]] eqn:El; try done.
  destruct (Atoi quoted code) as [c|e] eqn:Ec; [|done]. destruct (Atoi quoted seconds) as [sec|e] eqn:Es; [|done].
  destruct (readStage name c sec) as [s summary] eqn:Er. apply readStage_spec in Er as [Hg Hc].
  intros (new & Hst & Hall & Hclean & Hiff)%IH. cbn [rp_Stages rp_Status] in *. exists (s :: new). split_and!.
  - by rewrite Hst, <- app_assoc.
  - constructor; [|done]. exists code, seconds. destruct Hg as [-> -> -> _]. by split_and!.
  - intros s' [->|Hs]%elem_of_cons; [done|by apply Hclean].
  - rewrite Hiff. destruct (stageFailed s) eqn:Ef.
    + split; [by intros [? _]|]. intros [_ Hs]. rewrite (Hs s) in Ef by (by left). done.
    + split; intros [H1 H2]; (split; [done|]); [|intros s' Hs'; apply H2; by right].
      intros s' [->|Hs']%elem_of_cons; [done|by apply H2].
Qed.

(** C32: no failure is lost on the way into a validation report. A report that
    is produced lists one stage per line of the metadata, in order, with its
    exit code; it says "passed" exactly when no stage fails; and then behind
    every stage there is its evidence: exit code zero, no recorded failure and
    no failed test; the event stream of a Go stage present, readable to its
    end and without a failing test or package; a Ginkgo report in which every
    suite succeeded and every spec is in a good state (or a legacy run without
    one); a performance run with exactly the planned trials, each once and
    sound; a probe record that is valid JSON. *)
Theorem passed_report_sound r :
  Generate = (r, None) ->
  (exists text, dir "stages.tsv" = Contents text /\ Forall2 line_of (split_byte "010" (TrimSpace text)) (rp_Stages r)) /\
  (rp_Status r = "passed" <-> forall s, s ∈ rp_Stages r -> stageFailed s = false) /\
  (rp_Status r = "passed" -> forall s, s ∈ rp_Stages r -> clean_stage s).
Proof.
  unfold Report.Generate. cbv zeta. destruct (readFile (dir "stages.tsv")) as [text|e] eqn:Ef; [|done].
  assert (dir "stages.tsv" = Contents text) as Ed by (destruct (dir "stages.tsv"); simpl in Ef; congruence).
  intros (new & Hst & Hall & Hclean & Hiff)%readStages_spec. cbn [rp_Stages rp_Status app] in Hst, Hiff. rewrite Hst.
  assert (rp_Status r = "passed" <-> forall s, s ∈ new -> stageFailed s = false) as Hp.
  { rewrite Hiff. split; [by intros [_ ?]|done]. }
  split; [by exists text|]. split; [done|]. intros H s Hs. apply Hclean; [done|]. by apply Hp.
Qed.

(** C31: the benchmark and the report agree on what a complete performance run
    is: the report accepts a summary, with one passed count per planned trial,
    exactly when it is complete, that is, passed, within the bounds, with
    every planned trial once under its own identity and sound; and the summary
    of a run that [diagnostics.Run] reports without error is accepted. *)
Theorem performance_agreement name code seconds text summary :
  decodeSummary text = inl summary ->
  let s := (collectPerformance (Contents text) (mkReportStage name code seconds None [] [] [])).1 in
  (st_Failures s = [] <-> complete_run summary) /\
  (complete_run summary -> st_Counts s = Some (mkStageCounts (3 * ds_Repeats summary + 3) 0 0 0 "diagnostic-trials")) /\
  forall ParseFloat sha256 o env,
    (forall b, slen (sha256 b) = 32) -> 0 < re_clientPID env ->
    (forall te pid, te ∈ re_trials env -> te_server te = inl pid -> 0 < pid /\ pid <> re_clientPID env) ->
    RunDiagnostics ParseFloat sha256 o env = (summary, None) -> st_Failures s = [].
Proof.
  intros Hd s. unfold s, Report.collectPerformance. cbn [readFile]. rewrite Hd. cbn [fst].
  destruct (judgeSummary_spec summary (mkReportStage name code seconds None [] [] [])) as (_ & Hiff & passed & failed & Hc & Hsum & Hz).
  specialize (Hiff eq_refl). split; [done|]. split.
  - intros H. rewrite Hc. specialize (Hz H). destruct H. destruct (planned_expected _ cr_repeats0) as (_ & _ & HL & Hp).
    pose proof (Permutation_length cr_trials0) as E1. rewrite length_fmap in E1. pose proof (Permutation_length Hp) as E2.
    repeat f_equal; lia.
  - intros ParseFloat sha256 o env Hsha Hcl Hpids Hrun. apply Hiff. by eapply passed_run_complete.
Qed.
End ReportFacts.

(** ** A concrete quick run and its report *)
Definition sample_ParseFloat (s : string) : SpecFloat.spec_float + error :=
  match ParseInt s with Some z => inl (float64 z) | None => inr (NewError "syntax") end.
Definition sample_text (source removals : Z) : string :=
  joined_by (String "010" "")
    ["# HELP x"; "process_cpu_seconds_total 1"; "process_resident_memory_bytes 7"; "go_memstats_heap_alloc_bytes 5";
     "simplecache_cache_bytes 100"; "simplecache_source_loads_total{result=ok} " +:+ FormatInt source;
     "simplecache_cache_removals_total " +:+ FormatInt removals].
Definition sample_env (source removals : Z) : trialEnv :=
  mkTrialEnv None None (inl 20) None [mkLoadRead 9 false false] None (Scraped 200 (sample_text 1 0) None None) None None
    (mkLoadRun [mkLoadRead 5 false false; mkLoadRead 6 false false] [] 3 1000 None None)
    (Scraped 200 (sample_text source removals) None None) None None None.
Definition sample_run : runEnv :=
  mkRunEnv None None (inl "binary") 10
    (mjoin (replicate 2 [sample_env 1 0; sample_env 3 0; sample_env 2 1])) None.
Definition sample_diag_options : DiagOptions := mkDiagOptions "server" "out" 1 1 4 true.

Lemma performance_agreement_witness :
  exists summary, RunDiagnostics sample_ParseFloat sample_digest sample_diag_options sample_run = (summary, None) /\
    let s := (collectPerformance (fun _ => inl summary) (Contents "x") (mkReportStage "performance" 0 9 None [] [] [])).1 in
    st_Failures s = [] /\ st_Counts s = Some (mkStageCounts (3 * ds_Repeats summary + 3) 0 0 0 "diagnostic-trials").
Proof.
  assert (exists summary, RunDiagnostics sample_ParseFloat sample_digest sample_diag_options sample_run = (summary, None))
    as [summary E] by (eexists; vm_compute; reflexivity). exists summary. split; [exact E|].
  destruct (performance_agreement (fun _ => inl summary) "performance" 0 9 "x" summary eq_refl) as (H1 & H2 & H3).
  assert (forall te pid, te ∈ re_trials sample_run -> te_server te = inl pid -> 0 < pid /\ pid <> re_clientPID sample_run) as Hpid.
  { intros te pid Hte Hs. assert (te_server te = inl 20) as E20.
    { simpl in Hte. rewrite !elem_of_cons, elem_of_nil in Hte. destruct Hte as [->|[->|[->|[->|[->|[->|[]]]]]]]; reflexivity. }
    rewrite E20 in Hs. injection Hs as <-. split; [reflexivity|discriminate]. }
  pose proof (H3 sample_ParseFloat sample_digest sample_diag_options sample_run (fun _ => eq_refl) eq_refl Hpid E) as Hc. split; [exact Hc|]. exact (H2 (proj1 H1 Hc)).
Defined.

Definition sample_dir (name : string) : file :=
  if String.eqb name "stages.tsv" then Contents ("engine-unit" +:+ String "009" ("0" +:+ String "009" ("3" +:+ String "010" "")))
  else if String.eqb name "engine-unit.jsonl" then Contents ("event" +:+ String "010" "")
  else NotFound (NewError "not found").
Definition sample_event (_ : string) : testEvent + error := inl (mkEvent "pass" "cache" "TestGet" "").
Definition sample_report : Report * option error :=
  Generate sample_event (fun s => s) (fun _ => inr Canceled) (fun _ => inr Canceled) (fun _ => false) sample_dir.

Lemma passed_report_sound_witness :
  exists r, sample_report = (r, None) /\ rp_Status r = "passed" /\ forall s, s ∈ rp_Stages r -> st_ExitCode s = 0.
Proof.
  assert (sample_report.2 = None /\ rp_Status sample_report.1 = "passed") as [Hr Hp] by (vm_compute; split; reflexivity).
  unfold sample_report in *. destruct (Generate _ _ _ _ _ _) as [r err] eqn:E. cbn [fst snd] in Hr, Hp. subst err.
  exists r. split; [reflexivity|]. split; [exact Hp|]. intros s Hs.
  destruct (passed_report_sound _ _ _ _ _ _ r E) as (_ & _ & H). destruct (H Hp s Hs) as [Hc]. exact Hc.
Defined.
