(* ===== verification/Telemetry.v ===== *)
(** * Telemetry ([internal/telemetry/metrics.go])

    The metrics of a process live in the Prometheus library; a method of
    [Metrics] is the list of calls it makes on it, and [New] the list of what
    it registers. The library panics on a metric registered twice and on a
    call with the wrong number of labels, so both are theorems here, next to
    what the counters say about the observations of the code. Floats that
    carry counts and durations are kept as integers. *)
From S2P Require Import Prelude GoStrings NetAddr Errors LRU CacheStore Bloom Admission Group Read Directory Protocol Postgres Api Measurement.

Inductive metricKind := CounterKind | GaugeKind | HistogramKind | FuncKind.
Record registration := mkRegistration { rg_name : string; rg_kind : metricKind; rg_labels : nat }.

(** [New], in the order of the registrations of the fields. *)
Definition New : list registration :=
  [mkRegistration "simplecache_outbox_purge_eligible_events" GaugeKind 0;
   mkRegistration "simplecache_outbox_table_bytes" GaugeKind 0;
   mkRegistration "simplecache_outbox_operations_total" CounterKind 2;
   mkRegistration "simplecache_outbox_pending_events" GaugeKind 0;
   mkRegistration "simplecache_outbox_oldest_pending_seconds" GaugeKind 0;
   mkRegistration "simplecache_api_requests_total" CounterKind 1;
   mkRegistration "simplecache_source_loads_total" CounterKind 1;
   mkRegistration "simplecache_local_lookups_total" CounterKind 2;
   mkRegistration "simplecache_api_duration_seconds" HistogramKind 1;
   mkRegistration "simplecache_source_duration_seconds" HistogramKind 1;
   mkRegistration "simplecache_source_slot_wait_seconds" HistogramKind 1;
   mkRegistration "simplecache_bloom_rejections_total" CounterKind 0;
   mkRegistration "simplecache_membership_updates_total" CounterKind 0;
   mkRegistration "simplecache_discovery_errors_total" CounterKind 0;
   mkRegistration "simplecache_source_inflight" GaugeKind 0;
   mkRegistration "simplecache_members" GaugeKind 0;
   mkRegistration "simplecache_source_writes_total" CounterKind 1;
   mkRegistration "simplecache_invalidations_total" CounterKind 1;
   mkRegistration "simplecache_invalidation_broadcasts_total" CounterKind 1;
   mkRegistration "simplecache_source_retries_total" CounterKind 1;
   mkRegistration "simplecache_discarded_fills_total" CounterKind 1;
   mkRegistration "simplecache_version_invalidations_total" CounterKind 1;
   mkRegistration "simplecache_version_rejections_total" CounterKind 1;
   mkRegistration "simplecache_source_write_duration_seconds" HistogramKind 1;
   mkRegistration "simplecache_invalidation_broadcast_duration_seconds" HistogramKind 1;
   mkRegistration "simplecache_admission_rejections_total" CounterKind 1;
   mkRegistration "simplecache_source_unknown_commits_total" CounterKind 0;
   mkRegistration "simplecache_cleanup_checked_total" CounterKind 0;
   mkRegistration "simplecache_cleanup_removed_total" CounterKind 0;
   mkRegistration "simplecache_cleanup_busy_total" CounterKind 0;
   mkRegistration "simplecache_cleanup_duration_seconds" HistogramKind 0;
   mkRegistration "simplecache_write_requests_inflight" GaugeKind 0].

(** [ObserveCache]: functions of the group, read when the metrics are. *)
Definition ObserveCache : list registration :=
  (fun name => mkRegistration name FuncKind 0) <$>
    ["simplecache_version_records"; "simplecache_version_record_capacity"; "simplecache_version_record_evictions_total";
     "simplecache_cache_bytes"; "simplecache_cache_capacity_bytes"; "simplecache_cache_entries";
     "simplecache_cache_removals_total"; "simplecache_api_miss_waiters"; "simplecache_source_pending"].

(** A call on the library: [Inc] or [Add] of a counter, [Add] and [Set] of a
    gauge, [Observe] of a histogram, on the labels of a vector. *)
Inductive update :=
| Inc (name : string) (labels : list string)
| AddCounter (name : string) (n : Z)
| AddGauge (name : string) (n : Z)
| SetGauge (name : string) (v : Z)
| Sample (name : string) (labels : list string) (elapsed : Duration).

Definition Observe (operation result : string) (elapsed : Duration) : list update :=
  if String.eqb operation "source_retry" then [Inc "simplecache_source_retries_total" [result]]
  else if String.eqb operation "version_event" then [Inc "simplecache_version_invalidations_total" [result]]
  else if String.eqb operation "version_rejected" then [Inc "simplecache_version_rejections_total" [result]]
  else if String.eqb operation "api" then
    [Inc "simplecache_api_requests_total" [result]; Sample "simplecache_api_duration_seconds" [result] elapsed]
  else if String.eqb operation "source" then
    [Inc "simplecache_source_loads_total" [result]; Sample "simplecache_source_duration_seconds" [result] elapsed]
  else if String.eqb operation "lookup_api" then [Inc "simplecache_local_lookups_total" ["api"; result]]
  else if String.eqb operation "slot" then [Sample "simplecache_source_slot_wait_seconds" [result] elapsed]
  else if String.eqb operation "bloom" then [Inc "simplecache_bloom_rejections_total" []]
  else if String.eqb operation "write" then
    [Inc "simplecache_source_writes_total" [result]; Sample "simplecache_source_write_duration_seconds" [result] elapsed] ++
    (if String.eqb result "error" || String.eqb result "timeout" then [Inc "simplecache_source_unknown_commits_total" []] else [])
  else if String.eqb operation "invalidate" then [Inc "simplecache_invalidations_total" [result]]
  else if String.eqb operation "broadcast" then
    [Inc "simplecache_invalidation_broadcasts_total" [result];
     Sample "simplecache_invalidation_broadcast_duration_seconds" [result] elapsed]
  else if String.eqb operation "rejected" then [Inc "simplecache_admission_rejections_total" [result]]
  else if String.eqb operation "discard_source" then [Inc "simplecache_discarded_fills_total" ["source"]]
  else [].

Definition Inflight (delta : Z) : list update := [AddGauge "simplecache_source_inflight" delta].
Definition WriteInflight (delta : Z) : list update := [AddGauge "simplecache_write_requests_inflight" delta].
Definition Cleanup (checked removed : Z) (elapsed : Duration) (busy : bool) : list update :=
  [AddCounter "simplecache_cleanup_checked_total" checked; AddCounter "simplecache_cleanup_removed_total" removed;
   Sample "simplecache_cleanup_duration_seconds" [] elapsed] ++
  (if busy then [Inc "simplecache_cleanup_busy_total" []] else []).
Definition Membership (count : Z) (changed : bool) : list update :=
  SetGauge "simplecache_members" count :: (if changed then [Inc "simplecache_membership_updates_total" []] else []).
Definition DiscoveryError : list update := [Inc "simplecache_discovery_errors_total" []].
Definition OutboxEvent (operation result : string) : list update := [Inc "simplecache_outbox_operations_total" [operation; result]].
Definition OutboxBacklog (backlog : Z) (oldest : Duration) : list update :=
  [SetGauge "simplecache_outbox_pending_events" backlog; SetGauge "simplecache_outbox_oldest_pending_seconds" oldest].
Definition OutboxStorage (eligible bytes : Z) : list update :=
  [SetGauge "simplecache_outbox_purge_eligible_events" eligible; SetGauge "simplecache_outbox_table_bytes" bytes].

(** ** What the calls amount to *)

(** What one use of [Metrics] is. *)
Inductive use :=
| UObserve (operation result : string) (elapsed : Duration)
| UInflight (delta : Z) | UWriteInflight (delta : Z)
| UCleanup (checked removed : Z) (elapsed : Duration) (busy : bool)
| UMembership (count : Z) (changed : bool) | UDiscoveryError
| UOutboxEvent (operation result : string) | UOutboxBacklog (backlog : Z) (oldest : Duration)
| UOutboxStorage (eligible bytes : Z).

Definition calls (u : use) : list update :=
  match u with
  | UObserve operation result elapsed => Observe operation result elapsed
  | UInflight delta => Inflight delta
  | UWriteInflight delta => WriteInflight delta
  | UCleanup checked removed elapsed busy => Cleanup checked removed elapsed busy
  | UMembership n changed => Membership n changed
  | UDiscoveryError => DiscoveryError
  | UOutboxEvent operation result => OutboxEvent operation result
  | UOutboxBacklog backlog oldest => OutboxBacklog backlog oldest
  | UOutboxStorage eligible bytes => OutboxStorage eligible bytes
  end.

(** How often a counter is incremented, and a histogram observes. *)
Definition is_inc (name : string) (labels : list string) (u : update) : Prop :=
  match u with Inc n l => n = name /\ l = labels | _ => False end.
Definition is_sample (name : string) (labels : list string) (u : update) : Prop :=
  match u with Sample n l _ => n = name /\ l = labels | _ => False end.
#[export] Instance is_inc_dec name labels u : Decision (is_inc name labels u).
Proof. destruct u; apply _. Defined.
#[export] Instance is_sample_dec name labels u : Decision (is_sample name labels u).
Proof. destruct u; apply _. Defined.
Definition incs (name : string) (labels : list string) (l : list update) : Z := count (is_inc name labels) l.
Definition samples (name : string) (labels : list string) (l : list update) : Z := count (is_sample name labels) l.

(** The library accepts a call: the metric is registered, of that kind, and
    with as many labels as the call gives; a counter never decreases. *)
Definition registered (name : string) (k : metricKind) (labels : nat) : Prop := mkRegistration name k labels ∈ New.
Definition accepted (u : update) : Prop :=
  match u with
  | Inc name labels => registered name CounterKind (length labels)
  | AddCounter name n => registered name CounterKind 0 /\ 0 <= n
  | AddGauge name _ | SetGauge name _ => registered name GaugeKind 0
  | Sample name labels _ => registered name HistogramKind (length labels)
  end.
Definition accepted_use (u : use) : Prop :=
  match u with UCleanup checked removed _ _ => 0 <= checked /\ 0 <= removed | _ => True end.

(** The observations of a history, by operation and result. *)
Definition observes (operation result : string) (u : use) : Prop :=
  match u with UObserve op res _ => op = operation /\ res = result | _ => False end.
#[export] Instance observes_dec operation result u : Decision (observes operation result u).
Proof. destruct u; apply _. Defined.

(** The counters that count the results of an operation. *)
Definition counterOf : list (string * string) :=
  [("source_retry", "simplecache_source_retries_total"); ("version_event", "simplecache_version_invalidations_total");
   ("version_rejected", "simplecache_version_rejections_total"); ("api", "simplecache_api_requests_total");
   ("source", "simplecache_source_loads_total"); ("write", "simplecache_source_writes_total");
   ("invalidate", "simplecache_invalidations_total"); ("broadcast", "simplecache_invalidation_broadcasts_total");
   ("rejected", "simplecache_admission_rejections_total")].
Definition histogramOf : list (string * string) :=
  [("api", "simplecache_api_duration_seconds"); ("source", "simplecache_source_duration_seconds");
   ("slot", "simplecache_source_slot_wait_seconds"); ("write", "simplecache_source_write_duration_seconds");
   ("broadcast", "simplecache_invalidation_broadcast_duration_seconds")].

(** ** Proofs *)
#[export] Instance metricKind_eq_dec : EqDecision metricKind.
Proof. solve_decision. Defined.
#[export] Instance registration_eq_dec : EqDecision registration.
Proof. solve_decision. Defined.

(** Membership in the table of registrations by evaluation. *)
Ltac is_registered := unfold registered; cbn [length]; apply (bool_decide_eq_true_1 _); vm_compute; reflexivity.

Lemma registrations_distinct : NoDup (rg_name <$> New ++ ObserveCache).
Proof. apply (bool_decide_eq_true_1 _). vm_compute. reflexivity. Qed.

(** A list of calls, call by call. *)
Ltac each_accepted :=
  repeat first [apply Forall_app_2 | apply Forall_cons_2 | apply Forall_nil_2 | progress case_match];
  cbn [accepted]; try (split; [|assumption]); try is_registered.

Lemma Observe_accepted operation result elapsed : Forall accepted (Observe operation result elapsed).
Proof. unfold Observe. each_accepted. Qed.

Lemma calls_accepted u : accepted_use u -> Forall accepted (calls u).
Proof.
  destruct u; cbn [calls accepted_use]; intros Hu; try apply Observe_accepted; try destruct Hu as [? ?].
  all: unfold Inflight, WriteInflight, Cleanup, Membership, DiscoveryError, OutboxEvent, OutboxBacklog, OutboxStorage; each_accepted.
Qed.

(** ** Proofs: what the counters say *)
Lemma incs_app name labels l1 l2 : incs name labels (l1 ++ l2) = incs name labels l1 + incs name labels l2.
Proof. apply count_app. Qed.
Lemma samples_app name labels l1 l2 : samples name labels (l1 ++ l2) = samples name labels l1 + samples name labels l2.
Proof. apply count_app. Qed.

(** The branch of [Observe], and one call against one counter. *)
Ltac by_operation :=
  unfold Observe; repeat match goal with |- context [String.eqb ?o ?s] => destruct (String.eqb_spec o s); [subst; cbv iota|cbv iota] end.
Ltac count_calls :=
  unfold incs, samples, count; cbn [app orb]; rewrite ?filter_app, ?filter_cons, ?filter_nil;
  repeat case_decide; unfold is_inc, is_sample, observes in *; destruct_and?; simplify_eq/=; try done; try (exfalso; tauto).

Lemma observe_counts op name res operation result elapsed :
  (op, name) ∈ counterOf ->
  incs name [res] (Observe operation result elapsed) = if decide (operation = op /\ result = res) then 1 else 0.
Proof.
  unfold counterOf. rewrite !elem_of_cons, elem_of_nil. intros H.
  repeat (destruct H as [[= -> ->]|H]); [..|done]; by_operation; first [reflexivity | count_calls].
Qed.

Lemma observe_samples op name res operation result elapsed :
  (op, name) ∈ histogramOf ->
  samples name [res] (Observe operation result elapsed) = if decide (operation = op /\ result = res) then 1 else 0.
Proof.
  unfold histogramOf. rewrite !elem_of_cons, elem_of_nil. intros H.
  repeat (destruct H as [[= -> ->]|H]); [..|done]; by_operation; first [reflexivity | count_calls].
Qed.

Definition unknownCommits : string := "simplecache_source_unknown_commits_total".
Lemma observe_unknown operation result elapsed :
  incs unknownCommits [] (Observe operation result elapsed)
  = if decide (operation = "write" /\ (result = "error" \/ result = "timeout")) then 1 else 0.
Proof. unfold unknownCommits. by_operation; first [reflexivity | count_calls]. Qed.

(** Only observations move these counters and histograms. *)
Lemma other_calls u op name res :
  match u with UObserve _ _ _ => False | _ => True end ->
  ((op, name) ∈ counterOf -> incs name [res] (calls u) = 0) /\ ((op, name) ∈ histogramOf -> samples name [res] (calls u) = 0) /\
  incs unknownCommits [] (calls u) = 0.
Proof.
  intros Hu. unfold counterOf, histogramOf. rewrite !elem_of_cons, !elem_of_nil.
  destruct u as [op' res' elapsed|delta|delta|checked removed elapsed []|n []| |op' res'|backlog oldest|eligible bytes]; [done|..].
  all: split_and!; try (intros H; repeat (destruct H as [[= -> ->]|H]); [..|done]); reflexivity.
Qed.

Lemma history_sum (f : list update -> Z) (P : use -> Prop) `{forall u, Decision (P u)} (us : list use) :
  (forall l1 l2, f (l1 ++ l2) = f l1 + f l2) -> f [] = 0 ->
  (forall u, f (calls u) = if decide (P u) then 1 else 0) -> f (us ≫= calls) = count P us.
Proof.
  intros Happ Hnil Hone. induction us as [|u us IH]; [done|]. change ((u :: us) ≫= calls) with (calls u ++ (us ≫= calls)).
  change (u :: us) with ([u] ++ us). by rewrite Happ, Hone, IH, count_app, count_one.
Qed.

Definition unknown_write (u : use) : Prop :=
  match u with UObserve op res _ => op = "write" /\ (res = "error" \/ res = "timeout") | _ => False end.
#[export] Instance unknown_write_dec u : Decision (unknown_write u).
Proof. destruct u; apply _. Defined.

Lemma history_counts us op name res : (op, name) ∈ counterOf -> incs name [res] (us ≫= calls) = count (observes op res) us.
Proof.
  intros Hin. apply history_sum; [apply incs_app|done|]. intros u. destruct u eqn:Eu.
  1: { cbn [calls]. rewrite (observe_counts op) by done. by repeat case_decide. }
  all: rewrite <- Eu; destruct (other_calls u op name res) as (H & _); subst u; [done|]; rewrite H by done; by case_decide.
Qed.
Lemma history_samples us op name res : (op, name) ∈ histogramOf -> samples name [res] (us ≫= calls) = count (observes op res) us.
Proof.
  intros Hin. apply history_sum; [apply samples_app|done|]. intros u. destruct u eqn:Eu.
  1: { cbn [calls]. rewrite (observe_samples op) by done. by repeat case_decide. }
  all: rewrite <- Eu; destruct (other_calls u op name res) as (_ & H & _); subst u; [done|]; rewrite H by done; by case_decide.
Qed.
Lemma history_unknown us : incs unknownCommits [] (us ≫= calls) = count unknown_write us.
Proof.
  apply history_sum; [apply incs_app|done|]. intros u. destruct u eqn:Eu.
  1: { cbn [calls]. rewrite observe_unknown. by repeat case_decide. }
  all: rewrite <- Eu; destruct (other_calls u "" "" "") as (_ & _ & H); subst u; [done|]; rewrite H; by case_decide.
Qed.

(** The metrics neither break the process nor lie about it: no metric is
    registered twice and every call names a metric of its kind with as many
    labels as it has, so the library never panics and no counter decreases;
    over any history each result counter is the number of observations with
    that operation and result, each duration histogram has exactly as many
    samples, and the counter of unknown commits is the number of writes
    observed as an error or a timeout. *)
Theorem metrics_truthful (us : list use) :
  (forall u, u ∈ us -> accepted_use u) ->
  NoDup (rg_name <$> New ++ ObserveCache) /\ Forall accepted (us ≫= calls) /\
  (forall op name res, (op, name) ∈ counterOf -> incs name [res] (us ≫= calls) = count (observes op res) us) /\
  (forall op name res, (op, name) ∈ histogramOf -> samples name [res] (us ≫= calls) = count (observes op res) us) /\
  incs unknownCommits [] (us ≫= calls) = count unknown_write us.
Proof.
  intros Hus. split; [exact registrations_distinct|]. split; [|split; [|split]].
  - induction us as [|u us IH]; [constructor|]. change ((u :: us) ≫= calls) with (calls u ++ (us ≫= calls)).
    apply Forall_app_2; [apply calls_accepted, Hus; by left|]. apply IH. intros u' Hu'. apply Hus. by right.
  - intros op name res. apply history_counts.
  - intros op name res. apply history_samples.
  - apply history_unknown.
Qed.

(** ** With the writes of the API *)

(** The uses of a list of observations. *)
Definition uses (evs : list event) : list use := (fun e => UObserve e.1 e.2 0) <$> evs.

Lemma Result_precondition e : Is e ErrPreconditionFailed = true -> Result (Some e) ∈ ["precondition_failed"; "timeout"; "error"] -> Result (Some e) = "precondition_failed".
Proof.
  intros Hp. unfold Result. rewrite Hp. rewrite !elem_of_cons, elem_of_nil. repeat case_match; intuition (try discriminate).
Qed.

Lemma Result_other e : Is e ErrPreconditionFailed = false -> Result (Some e) <> "precondition_failed".
Proof. intros Hp. unfold Result. rewrite Hp. repeat case_match; discriminate. Qed.

(** A write through the API is observed once, with the result of its error;
    its broadcast is observed once unless the precondition failed. *)
Lemma executeMutation_events {C : Type} `{!Store C} {St : Type} `{!MutableSource St}
    (g g' : Group C) (store store' : option St) d cmd we se out evs :
  executeMutation g store d cmd true we se = Some (store', g', out, evs) -> kind cmd <> mutationNotify ->
  (IsErr (writeErr out) ErrPreconditionFailed = true /\ evs = [("write", Result (writeErr out))]) \/
  (IsErr (writeErr out) ErrPreconditionFailed = false /\ exists res, evs = [("write", Result (writeErr out)); ("broadcast", res)]).
Proof.
  unfold executeMutation. intros H Hk. destruct (kind cmd) eqn:Ek; try done.
  all: apply bind_Some in H as (st & _ & H); destruct (sourceWrite st cmd we) as [st' [v wErr]]; destruct (IsErr wErr ErrPreconditionFailed) eqn:Ep.
  all: try (injection H as <- <- <- <-; left; by split).
  all: apply bind_Some in H as ([[g1 out1] evs1] & Hn & [= <- <- <- <-]); right; unfold notifyMembers in Hn;
    apply bind_Some in Hn as ([[g2 report] err] & _ & Hn); destruct err; injection Hn as <- <- <-; split; try done; by eexists.
Qed.

(** The counter of unknown commits follows the writes: for a source whose
    errors say what they mean, a write through the API moves it by one exactly
    when the write failed other than by its precondition, which is when the
    answer warns that the commit is unknown; the write itself is counted once
    under its result. *)
Theorem unknown_commits_counted {C : Type} `{!Store C} {St : Type} `{!MutableSource St}
    (g g' : Group C) (store store' : option St) d cmd we se out evs :
  executeMutation g store d cmd true we se = Some (store', g', out, evs) -> kind cmd <> mutationNotify ->
  (forall e, writeErr out = Some e -> Result (Some e) ∈ ["precondition_failed"; "timeout"; "error"]) ->
  let l := uses evs ≫= calls in
  incs unknownCommits [] l = (match writeErr out with None => 0 | Some e => if Is e ErrPreconditionFailed then 0 else 1 end) /\
  incs "simplecache_source_writes_total" [Result (writeErr out)] l = 1.
Proof.
  intros Hm Hk Herr l. unfold l. rewrite history_unknown, (history_counts _ "write") by (apply (bool_decide_eq_true_1 _); vm_compute; reflexivity).
  assert (forall res, Result (writeErr out) = res -> count unknown_write [UObserve "write" res 0]
            = match writeErr out with None => 0 | Some e => if Is e ErrPreconditionFailed then 0 else 1 end) as Hone.
  { intros res <-. rewrite count_one. unfold unknown_write. destruct (writeErr out) as [e|] eqn:Ee; [|by case_decide; destruct_and?; naive_solver].
    specialize (Herr e eq_refl). destruct (Is e ErrPreconditionFailed) eqn:Ep.
    - rewrite (Result_precondition e Ep Herr). by rewrite decide_False by naive_solver.
    - rewrite decide_True; [done|]. split; [done|]. pose proof (Result_other e Ep) as Hn.
      rewrite !elem_of_cons, elem_of_nil in Herr. naive_solver. }
  destruct (executeMutation_events _ _ _ _ _ _ _ _ _ _ Hm Hk) as [[_ ->]|[_ [res ->]]].
  all: unfold uses; cbn [fmap list_fmap fst snd].
  - split; [by apply Hone|]. rewrite count_one. unfold observes. by rewrite decide_True.
  - split.
    + change [UObserve "write" (Result (writeErr out)) 0; UObserve "broadcast" res 0]
        with ([UObserve "write" (Result (writeErr out)) 0] ++ [UObserve "broadcast" res 0]).
      rewrite count_app, (Hone _ eq_refl), count_one. unfold unknown_write. rewrite decide_False by naive_solver. lia.
    + change [UObserve "write" (Result (writeErr out)) 0; UObserve "broadcast" res 0]
        with ([UObserve "write" (Result (writeErr out)) 0] ++ [UObserve "broadcast" res 0]).
      rewrite count_app, !count_one. unfold observes. rewrite decide_True, decide_False by naive_solver. lia.
Qed.

(** ** Witnesses *)
Lemma metrics_truthful_witness :
  let us := [UObserve "api" "ok" 3; UCleanup 4 1 2 true; UObserve "write" "timeout" 9] in
  Forall accepted (us ≫= calls) /\ incs "simplecache_api_requests_total" ["ok"] (us ≫= calls) = 1 /\
  incs unknownCommits [] (us ≫= calls) = 1.
Proof.
  intros us. destruct (metrics_truthful us) as (_ & H1 & H2 & _ & H3).
  - intros u Hu. unfold us in Hu. rewrite !elem_of_cons, elem_of_nil in Hu.
    destruct Hu as [->|[->|[->|[]]]]; [exact I|split; discriminate|exact I].
  - split; [exact H1|]. split; [|rewrite H3; reflexivity].
    rewrite (H2 "api"); [reflexivity|]. apply (bool_decide_eq_true_1 _). vm_compute. reflexivity.
Defined.

(** The answer of a committed write is lost. *)
Definition lost_write : writeEnv := mkWriteEnv (Unheard (NewError "connection lost")) None 20.

Lemma unknown_commits_counted_witness :
  exists store' g' out evs,
    executeMutation sample_group (Some db_created) sample_ring sample_put true lost_write sample_broadcast = Some (store', g', out, evs) /\
    writeErr out <> None /\ incs unknownCommits [] (uses evs ≫= calls) = 1.
Proof.
  destruct (executeMutation sample_group (Some db_created) sample_ring sample_put true lost_write sample_broadcast)
    as [[[[store' g'] out] evs]|] eqn:E.
  2: { apply (f_equal (fmap snd)) in E. vm_compute in E. discriminate E. }
  assert (writeErr out = Some (databaseError "PostgreSQL write failed" (NewError "connection lost"))) as Hw
    by (apply (f_equal (fmap (fun x => writeErr x.1.2))) in E; vm_compute in E; by injection E).
  exists store', g', out, evs. split; [reflexivity|]. split; [rewrite Hw; discriminate|].
  destruct (unknown_commits_counted _ _ _ _ _ _ _ _ _ _ E) as [H _].
  - discriminate.
  - intros e He. rewrite Hw in He. injection He as <-. apply (bool_decide_eq_true_1 _). vm_compute. reflexivity.
  - rewrite H, Hw. reflexivity.
Defined.
