(* ===== verification/Commands.v ===== *)
(** * The commands around the system ([cmd/diagnostic-server],
      [cmd/arrival-reference], [cmd/validation-report])

    The server the diagnostics benchmark starts, the fixture the load generator
    is calibrated against, and the exit status of a report. Flag parsing,
    signals and listening are left to the libraries. *)
From S2P Require Import Prelude GoStrings NetAddr Errors LRU CacheStore Bloom Admission Group Read Directory Protocol Postgres Api Config Bootstrap Demo Measurement Dataset LoadClient Diagnostics Report.

(** ** [diagnostic-server] *)
Definition fixtureAccepted (capacity valueBytes : Z) : bool :=
  negb ((capacity <? 1048576) || (134217728 <? capacity) || (valueBytes <? 0) || (MaxDiagnosticValueBytes <? valueBytes)).

Definition fixtureConfig (capacity : Z) (contention : bool) : Config :=
  mkConfiguration "127.0.0.1:0" "127.0.0.1:0" "diagnostic-fixture" "static" "" "" true capacity Hour 32
    DefaultSourcePending DefaultMissWaiters DefaultWriteConcurrency [] "127.0.0.1:0" contention "" "" "".

(** What the command ends in before it serves: the exit status 2, or what
    [RunWithSource] makes of the demo source; the outer [None] is a panic. *)
Definition diagnosticServer (parseIPLiteral : string -> option string) (unicodeLower : string -> string)
    (optimalBits : Z -> Z) (optimalHashes : Z -> Z -> Z) (capacity valueBytes : Z) (contention : bool)
    : option (Z + (Node + error)) :=
  if negb (fixtureAccepted capacity valueBytes) then Some (inl 2)
  else
    s ← Demo.NewSized (100 * Millisecond) valueBytes;
    r ← buildNode parseIPLiteral unicodeLower optimalBits optimalHashes (fixtureConfig capacity contention) (Some (demoSource s)) None;
    Some (inr r).

(** ** [arrival-reference] *)
Definition referenceAccepted (prefix : string) (keys size : Z) : bool :=
  negb ((keys <? 1) || (4096 <? keys) || (size <? 128) || (16384 <? size) || (80 <? slen prefix)).

Section Reference.
Variable sha256 : string -> string.

Definition referenceValues (prefix : string) (keys size : Z) : gmap string string :=
  foldl (fun m i => <[Key prefix i := Value sha256 (Key prefix i) 1 size]> m) ∅ (seqZ 0 keys).

(** The handler of [/api], with the counter of the requests received. *)
Definition referenceHandler (values : gmap string string) (req : Request) (received : Z) : Response * Z :=
  let hdr : Header := HeaderSet ∅ "X-SimpleCache-Node" "calibration-reference" in
  let key := match (ParseQuery (RawQuery req)).1 !! "key" with Some (k :: _) => k | _ => "" end in
  (match values !! key with
   | None => http_Error hdr "404 page not found" StatusNotFound
   | Some value =>
       mkResponse StatusOK (HeaderSet (HeaderSet hdr "ETag" (versionETag 1)) "Content-Type" "application/octet-stream") value
   end, received + 1).
End Reference.

(** ** [validation-report] *)
Definition reportExit (dir : string) (result : Report * option error) : Z :=
  if String.eqb dir "" then 2
  else match result.2 with
       | Some _ => 1
       | None => if negb (String.eqb (rp_Status result.1) "passed") then 1 else 0
       end.

(** ** Proofs *)
Section DiagnosticServer.
Variable parseIPLiteral : string -> option string.
Variable unicodeLower : string -> string.
Variables (optimalBits : Z -> Z) (optimalHashes : Z -> Z -> Z).
Notation diagnosticServer := (diagnosticServer parseIPLiteral unicodeLower optimalBits optimalHashes).

Lemma fixture_validates capacity valueBytes contention :
  fixtureAccepted capacity valueBytes = true -> Validate parseIPLiteral unicodeLower (fixtureConfig capacity contention) = None.
Proof.
  unfold fixtureAccepted. rewrite negb_true_iff. intros H. reflect_bool. unfold Config.Validate.
  rewrite !bool_decide_eq_true_2 by reflexivity. cbn [negb].
  change (validateDebugAddr (cfg_DebugAddr (fixtureConfig capacity contention))) with (@None error).
  cbv iota. cbn [cfg_CacheBytes fixtureConfig]. unfold MiB.
  by rewrite (proj2 (Z.ltb_ge capacity _)), (proj2 (Z.ltb_ge (128 * _) capacity)) by lia; destruct contention.
Qed.

(** The diagnostics server starts whenever its flags are accepted: it never
    panics and never ends in a start-up error; refused flags end it with status
    2 before anything is built. The node it runs has the capacity asked for,
    serves the API with a free write slot, and its key filter passes every key
    of the fixture. The flags the benchmark passes for any of its scenarios are
    accepted. *)
Theorem diagnostic_server_starts capacity valueBytes contention :
  (exists r, diagnosticServer capacity valueBytes contention = Some r /\
   match r with
   | inl code => code = 2 /\ fixtureAccepted capacity valueBytes = false
   | inr (inr _) => False
   | inr (inl n) =>
       fixtureAccepted capacity valueBytes = true /\ Capacity (GroupStats (n_group n)) = capacity /\
       n_watched n = false /\ (exists slots, n_writeSlots n = Some slots /\ occupied slots < buffer slots) /\
       exists s bf, Demo.NewSized (100 * Millisecond) valueBytes = Some s /\ bloom (n_group n) = Some bf /\
         forall key, key ∈ Demo.Keys s -> Contains bf key = Some true
   end) /\
  forall pid scenario repeat profiled,
    let t := newTrial pid scenario repeat profiled in fixtureAccepted (tr_Capacity t) (tr_ValueBytes t) = true.
Proof.
  split.
  2: { intros pid scenario repeat profiled. unfold newTrial. simpl. by destruct (String.eqb scenario _). }
  unfold Commands.diagnosticServer. destruct (fixtureAccepted capacity valueBytes) eqn:Ea; cbn [negb].
  2: { eexists. split; [done|]. done. }
  pose proof (fixture_validates capacity valueBytes contention Ea) as Hv.
  assert (0 <= valueBytes <= MaxDiagnosticValueBytes) as Hb
    by (unfold fixtureAccepted in Ea; rewrite negb_true_iff in Ea; reflect_bool; lia).
  destruct (Demo.NewSized (100 * Millisecond) valueBytes) as [s|] eqn:Es.
  2: { unfold Demo.NewSized in Es. rewrite (proj2 (Z.ltb_ge valueBytes 0)), (proj2 (Z.ltb_ge MaxDiagnosticValueBytes _)) in Es by lia. done. }
  cbn [mbind option_bind]. set (c := fixtureConfig capacity contention) in *.
  pose proof (Validate_bounded _ _ c Hv) as Hbd.
  destruct (buildNode parseIPLiteral unicodeLower optimalBits optimalHashes c (Some (demoSource s)) None) as [r|] eqn:En.
  all: pose proof En as Eb; unfold buildNode in En; rewrite Hv in En.
  all: destruct (validated_directory parseIPLiteral unicodeLower c Hbd) as (d & Hd & _ & Hbr); rewrite Hd in En; cbn [mbind option_bind] in En.
  all: destruct (Update d (cfg_Members c)) as [d' [e|]] eqn:Eu;
    [exfalso; destruct Hbr as (m & Hm & _); [done|by apply not_elem_of_nil in Hm]|].
  all: destruct (validated_group parseIPLiteral unicodeLower optimalBits optimalHashes c (demoSource s) Hbd) as (l & g & Hl & Hg & _ & Hn & Hc).
  all: rewrite Hl in En; cbn [mbind option_bind] in En; rewrite Hg in En; cbn [mbind option_bind] in En.
  all: destruct (buildServers_ok parseIPLiteral unicodeLower c d' g false Hbd Hn) as (n & Hs & Hgr & _ & _ & _ & Hw & Hslots).
  all: change (buildWatcher c None) with (@inl bool error false) in En; cbv iota in En; rewrite Hs in En; cbn [mbind option_bind] in En; try done.
  injection En as <-. eexists. split; [done|]. cbv iota. split; [done|]. split.
  { unfold GroupStats. by rewrite Hgr, Hc. }
  split; [done|]. split; [exact Hslots|].
  apply buildNode_bloom in Eb as (bf & ? & ?). by exists s, bf.
Qed.
End DiagnosticServer.

Section ReferenceFacts.
Variable sha256 : string -> string.
Hypothesis sha256_size : forall s, slen (sha256 s) = 32.
Variable decodeValue : string -> option (string * Z).
Variable decodeWrite : string -> WriteAck * bool.
Notation requestExpected := (requestExpected sha256 decodeValue decodeWrite).
Notation Value := (Value sha256).

Lemma referenceValues_lookup prefix keys size key v :
  referenceValues sha256 prefix keys size !! key = Some v <->
  exists i, 0 <= i < keys /\ key = Key prefix i /\ v = Value (Key prefix i) 1 size.
Proof.
  unfold referenceValues.
  assert (forall l (m : gmap string string), (forall k w, m !! k = Some w -> w = Value k 1 size) ->
    foldl (fun m i => <[Key prefix i := Value (Key prefix i) 1 size]> m) m l !! key = Some v <->
    m !! key = Some v \/ exists i, i ∈ l /\ key = Key prefix i /\ v = Value (Key prefix i) 1 size) as H.
  { induction l as [|j l IH]; intros m Hm; simpl.
    { split; [by left|]. intros [?|(i & Hi & _)]; [done|by apply not_elem_of_nil in Hi]. }
    rewrite IH; [rewrite lookup_insert_Some; setoid_rewrite elem_of_cons|].
    - split; [intros [[[<- <-]|[_ ?]]|(i & ? & ?)]; eauto 10|].
      intros [Hk|(i & [->|Hi] & -> & ->)]; [|by left; left|by right; exists i].
      destruct (decide (Key prefix j = key)) as [<-|]; [|by left; right]. left; left. by rewrite (Hm _ _ Hk).
    - intros k w [[<- <-]|[_ ?]]%lookup_insert_Some; auto. }
  rewrite H by (intros k w Hk; by rewrite lookup_empty in Hk). rewrite lookup_empty. setoid_rewrite elem_of_seqZ.
  split; [intros [?|(i & ? & ?)]; [done|]|intros (i & ? & ?); right]; exists i; (split; [lia|done]).
Qed.

Lemma http_Error_etag h message code : HeaderGet h "ETag" = "" -> HeaderGet (RespHeader (http_Error h message code)) "ETag" = "".
Proof.
  unfold http_Error, HeaderGet, Values, HeaderSet. simpl. intros H. rewrite !lookup_insert_ne by done.
  by rewrite lookup_delete_ne by done.
Qed.

(** The calibration fixture answers what the load generator expects: for an
    unpadded-key, uniform dataset every read of a dataset key is recorded as a
    success at version 1, and so is every read of a key outside it, so a
    failure during calibration is the client's and not the fixture's. *)
Theorem reference_calibrates r index i elapsed received :
  let c := rn_c r in
  let Do req := Responded (referenceHandler (referenceValues sha256 (Prefix c) (Keys c) (ValueBytes c)) req received).1 false in
  validateDataset sha256 c = None -> DatasetProfile c <> "mixed" -> KeyStyle c <> "mixed" ->
  runner_ok sha256 r -> 0 <= i < Keys c ->
  (forall s, productValue sha256 c i 1 = inl s -> decodeValue s = Some (datasetKey c i, 1)) ->
  (exists rec, requestExpected r false Do elapsed index i "GET" 0 1 1 false = Some rec /\ success rec) /\
  (exists rec, requestExpected r false Do elapsed index i "GET" 0 1 1 true = Some rec /\ success rec).
Proof.
  intros c Do Hc Hp Hk Hr Hi Hdec.
  assert (forall j, datasetKey c j = Key (Prefix c) j) as Hkey
    by (intros j; unfold datasetKey; by rewrite (proj2 (String.eqb_neq _ _) Hk)).
  assert (forall key, Do (buildRequest r "GET" key 0 "") =
    Responded (match referenceValues sha256 (Prefix c) (Keys c) (ValueBytes c) !! key with
     | None => http_Error (HeaderSet ∅ "X-SimpleCache-Node" "calibration-reference") "404 page not found" StatusNotFound
     | Some value => mkResponse StatusOK (HeaderSet (HeaderSet (HeaderSet ∅ "X-SimpleCache-Node" "calibration-reference")
         "ETag" (versionETag 1)) "Content-Type" "application/octet-stream") value end) false) as HDo.
  { intros key. unfold Do, referenceHandler. simpl RawQuery. fold (wire key). rewrite ParseQuery_wire.
    cbn [fst]. by rewrite lookup_singleton_eq. }
  split; rewrite request_answer; cbv iota.
  - rewrite HDo. fold c. rewrite (proj2 (referenceValues_lookup (Prefix c) (Keys c) (ValueBytes c) _ _))
      by (exists i; split_and!; [lia|lia|apply Hkey|done]).
    destruct (verdict_200 sha256 sha256_size decodeValue decodeWrite r i 1 1 elapsed index
      (mkResponse StatusOK (HeaderSet (HeaderSet (HeaderSet ∅ "X-SimpleCache-Node" "calibration-reference")
         "ETag" (versionETag 1)) "Content-Type" "application/octet-stream") (Value (Key (Prefix c) i) 1 (ValueBytes c))))
      as (rec & E & _ & _ & Hs); [done|done|done| |done|lia|].
    { intros v s Hv. replace v with 1 by lia. apply Hdec. }
    exists rec. split; [exact E|]. apply Hs. exists 1.
    assert (productValue sha256 c i 1 = inl (Value (Key (Prefix c) i) 1 (ValueBytes c))) as Hval.
    { destruct (validateDataset_sound sha256 sha256_size c Hc) as [H _]. destruct (H i Hi) as (_ & (s & Hs' & _) & _).
      rewrite Hs'. revert Hs'. unfold productValue, sizeClass. rewrite (proj2 (String.eqb_neq _ _) Hp). simpl. rewrite Hkey.
      case_bool; [done|]. by intros [= <-]. }
    split_and!; [lia|lia|done|done|exact Hval|]. by apply Hdec.
  - rewrite HDo. fold c. replace (referenceValues _ _ _ _ !! missingKey c i) with (@None string).
    2: { symmetry. apply eq_None_not_Some. intros [v (j & ? & E & _)%referenceValues_lookup].
         rewrite <- Hkey in E. symmetry in E. apply missingKey_absent in E; [done|lia]. }
    set (resp := http_Error _ _ _).
    destruct (verdict_missing sha256 decodeValue decodeWrite r i 1 1 elapsed index resp) as (rec & E & _ & _ & Hs).
    exists rec. split; [exact E|]. apply Hs. split; [done|]. split; [done|]. by apply http_Error_etag.
Qed.
End ReferenceFacts.

(** ** A concrete calibration *)
Lemma reference_calibrates_witness :
  exists rec, requestExpected sample_digest sample_decode sample_decodeWrite sample_runner false
    (fun req => Responded (referenceHandler (referenceValues sample_digest "pre" 1 128) req 0).1 false)
    5 0 0 "GET" 0 1 1 false = Some rec /\ success rec.
Proof.
  destruct (reference_calibrates sample_digest (fun _ => eq_refl) sample_decode sample_decodeWrite sample_runner 0 0 5 0)
    as [H _]; [..|exact H].
  - vm_compute. reflexivity.
  - discriminate.
  - discriminate.
  - exact I.
  - split; [discriminate|reflexivity].
  - intros s Hs. assert (s = sample_value) as -> by (unfold sample_value; cbn [rn_c sample_runner] in Hs; by rewrite Hs).
    unfold sample_decode. by rewrite String.eqb_refl.
Defined.
