(* ===== verification/Programs.v ===== *)
(** * The ends of the programs

    What the validation tools leave behind and the status their processes end
    with: the end of [Run] of [validation/probe/run.go], the end of [Generate]
    of [validation/report/report.go], the [main] functions of [cmd/simplecache],
    [cmd/validation-probe] and [cmd/diagnostic-bench], and the entry point of
    the operator ([cmd/main.go] of [src/simplecache-operator]). Flags are parsed
    by the library; their values and what the files and the libraries answer
    are arguments. *)
From S2P Require Import Prelude GoStrings Errors Config Operator Kube Gateway Reconcile.
From S2P Require Import Bootstrap Demo Measurement Dataset LoadClient Diagnostics Report Probe Commands.

Definition newline : string := String "010" "".

(** ** The node: [cmd/simplecache] *)
Definition serverExit (config : Config.Config * option error) (Run : Config.Config -> option error) : Z :=
  match config.2 with
  | Some _ => 1
  | None => match Run config.1 with Some _ => 1 | None => 0 end
  end.

(** ** [cmd/diagnostic-bench] *)
Definition diagnosticExit (result : DiagSummary * option error) : Z := match result.2 with Some _ => 1 | None => 0 end.

(** ** The continuity probe *)
Definition emptyProbe : ProbeSummary := mkProbeSummary 0 0 0 (Some (mkPercentiles 0 0 0 0)) [] false "".
Definition probeFailed : error := NewError "continuity probe failed; evidence retained".

(** [workErr]: what [work.Err()] says after the workers are gone; [written]: of
    writing [probe.json]. *)
Definition probeOutcome (p : probe) (workErr written : option error) : ProbeSummary * option error :=
  let summary := probeSummary p in
  (summary,
   match written with
   | Some err => Some err
   | None => if negb (String.eqb (ps_Status summary) "passed") then Join [Some probeFailed; workErr; pb_control p] else None
   end).

Section Probe.
Variable parseIPLiteral : string -> option string.
Variable quoted : string -> string.

Inductive probeRun (options : Options) (mkdir written : option error) : ProbeSummary * option error -> Prop :=
| pr_options err :
    (normalize parseIPLiteral options).2 = Some err -> probeRun options mkdir written (emptyProbe, Some err)
| pr_mkdir err :
    (normalize parseIPLiteral options).2 = None -> mkdir = Some err -> probeRun options mkdir written (emptyProbe, Some err)
| pr_run p workErr :
    (normalize parseIPLiteral options).2 = None -> mkdir = None ->
    rtc (probe_step parseIPLiteral quoted (normalize parseIPLiteral options).1)
        (probeStart (op_Workers (normalize parseIPLiteral options).1)) p ->
    probeDone p -> (pb_ended p = true -> is_Some workErr) ->
    probeRun options mkdir written (probeOutcome p workErr written).
End Probe.

(** The exit status of [cmd/validation-probe], and whether it prints evidence. *)
Definition probeExit (target dir : string) (result : ProbeSummary * option error) : Z * bool :=
  if String.eqb target "" || String.eqb dir "" then (2, false)
  else (match result.2 with Some _ => 1 | None => 0 end, negb (String.eqb (ps_Status result.1) "")).

(** ** The files of a report *)

(** What the directory and the files answer: the entries with whether they are
    directories, encoding, and writing the two files. *)
Record ReportFiles := mkReportFiles {
  rf_entries : list (string * bool) + error;
  rf_encode : option error;
  rf_json : option error;
  rf_md : option error;
}.

Definition Artifacts (entries : list (string * bool)) : list string := (filter (fun e => e.2 = false) entries).*1.

(** The end of [Generate]: the report, its artifacts and the error. *)
Definition finishReport (f : ReportFiles) (body : Report * option error) : Report * list string * option error :=
  match body with
  | (r, Some err) => (r, [], Some err)
  | (r, None) =>
      match rf_entries f with
      | inr err => (r, [], Some err)
      | inl entries =>
          (r, Artifacts entries,
           match rf_encode f with
           | Some err => Some err
           | None => match rf_json f with Some err => Some err | None => rf_md f end
           end)
      end
  end.

Definition countText (n : option Z) : string := match n with None => "N/A" | Some n => FormatInt n end.

(** The row of a stage in the table. *)
Definition stageRow (s : Stage) : string :=
  let source := match st_Counts s with Some c => if String.eqb (sc_Source c) "" then "N/A" else sc_Source c | None => "N/A" end in
  "| " +:+ st_Name s +:+ " | " +:+ FormatInt (st_ExitCode s) +:+ " | " +:+ FormatInt (st_Seconds s) +:+ " | " +:+ source +:+
  " | " +:+ countText (sc_Passed <$> st_Counts s) +:+ " | " +:+ countText (sc_Failed <$> st_Counts s) +:+
  " | " +:+ countText (sc_Skipped <$> st_Counts s) +:+ " | " +:+ countText (sc_Pending <$> st_Counts s) +:+ " |" +:+ newline.

Definition concatText (l : list string) : string := foldr String.append "" l.
Definition stageTable (stages : list Stage) : string := concatText (stageRow <$> stages).

Section Evidence.
(** [json.Unmarshal] and [json.MarshalIndent] of a piece of evidence. *)
Variable pretty : string -> string.
Definition failureText (failure : string) : string := "Failed: `" +:+ failure +:+ "`" +:+ newline +:+ newline.
Definition noteText (note : string) : string := note +:+ newline +:+ newline.
Definition evidenceText (e : string) : string :=
  "```json" +:+ newline +:+ pretty e +:+ newline +:+ "```" +:+ newline +:+ newline.
Definition stageSection (s : Stage) : string :=
  newline +:+ "## " +:+ st_Name s +:+ " evidence" +:+ newline +:+ newline +:+
  "Raw log: [" +:+ st_Name s +:+ ".log](" +:+ st_Name s +:+ ".log)." +:+ newline +:+ newline +:+
  concatText (failureText <$> st_Failures s) +:+ concatText (noteText <$> st_Notes s) +:+ concatText (evidenceText <$> st_Evidence s).
Definition stageSections (stages : list Stage) : string := concatText (stageSection <$> stages).
End Evidence.

(** ** The entry point of the operator *)
Record Flags := mkFlags {
  fg_metricsAddr : string; fg_metricsCertPath : string; fg_metricsCertName : string; fg_metricsCertKey : string;
  fg_webhookCertPath : string; fg_webhookCertName : string; fg_webhookCertKey : string;
  fg_enableLeaderElection : bool; fg_probeAddr : string; fg_secureMetrics : bool; fg_enableHTTP2 : bool;
  fg_enableGateway : bool }.
Definition defaultFlags : Flags := mkFlags "0" "" "tls.crt" "tls.key" "" "tls.crt" "tls.key" false ":8081" true false false.

(** Of a [tls.Config] only [NextProtos] is set here. *)
Definition tlsOption : Type := list string -> list string.
Definition disableHTTP2 : tlsOption := fun _ => ["http/1.1"].
Definition tlsOpts (f : Flags) : list tlsOption := if fg_enableHTTP2 f then [] else [disableHTTP2].
(** A server applies its options in order. *)
Definition nextProtos (opts : list tlsOption) (initial : list string) : list string := foldl (fun protos opt => opt protos) initial opts.

Record WebhookOptions := mkWebhook { wo_TLSOpts : list tlsOption; wo_CertDir : string; wo_CertName : string; wo_KeyName : string }.
Definition webhookServerOptions (f : Flags) : WebhookOptions :=
  let plain := mkWebhook (tlsOpts f) "" "" "" in
  if 0 <? slen (fg_webhookCertPath f)
  then mkWebhook (tlsOpts f) (fg_webhookCertPath f) (fg_webhookCertName f) (fg_webhookCertKey f) else plain.

(** [mo_Filter]: requests are authenticated and authorised. *)
Record MetricsOptions := mkMetricsOptions {
  mo_BindAddress : string; mo_SecureServing : bool; mo_TLSOpts : list tlsOption; mo_Filter : bool;
  mo_CertDir : string; mo_CertName : string; mo_KeyName : string }.
Definition metricsServerOptions (f : Flags) : MetricsOptions :=
  let cert := 0 <? slen (fg_metricsCertPath f) in
  mkMetricsOptions (fg_metricsAddr f) (fg_secureMetrics f) (tlsOpts f) (fg_secureMetrics f)
    (if cert then fg_metricsCertPath f else "") (if cert then fg_metricsCertName f else "") (if cert then fg_metricsCertKey f else "").

Record ManagerOptions := mkManager {
  mg_Metrics : MetricsOptions; mg_Webhook : WebhookOptions; mg_HealthProbeBindAddress : string;
  mg_LeaderElection : bool; mg_LeaderElectionID : string }.
Definition managerOptions (f : Flags) : ManagerOptions :=
  mkManager (metricsServerOptions f) (webhookServerOptions f) (fg_probeAddr f) (fg_enableLeaderElection f) "b2a09cb7.x1kun.com".

(** The calls that take effect, in order. *)
Inductive call :=
| NewManager (options : ManagerOptions)
| Complete (kinds : list (string * string))
| AddHealthzCheck (name : string)
| AddReadyzCheck (name : string)
| Start.

(** What the library answers; [en_Complete] is the registration of the
    controller once [SetupWithManager] has named its kinds. *)
Record OperatorEnv := mkOperatorEnv {
  en_NewManager : option error; en_RESTMapping : GroupVersionKind -> option string; en_Complete : option error;
  en_Healthz : option error; en_Readyz : option error; en_Start : option error }.

(** [main] of the operator: the calls made and the exit status. *)
Definition operatorMain (f : Flags) (env : OperatorEnv) : list call * Z :=
  let created := [NewManager (managerOptions f)] in
  match en_NewManager env with
  | Some _ => (created, 1)
  | None =>
      match SetupWithManager (en_RESTMapping env) (fg_enableGateway f) with
      | inl _ => (created, 1)
      | inr kinds =>
          let watched := created ++ [Complete kinds] in
          match en_Complete env with
          | Some _ => (watched, 1)
          | None =>
              let healthz := watched ++ [AddHealthzCheck "healthz"] in
              match en_Healthz env with
              | Some _ => (healthz, 1)
              | None =>
                  let readyz := healthz ++ [AddReadyzCheck "readyz"] in
                  match en_Readyz env with
                  | Some _ => (readyz, 1)
                  | None => (readyz ++ [Start], match en_Start env with Some _ => 1 | None => 0 end)
                  end
              end
          end
      end
  end.

(** ** Proofs: the operator *)

Lemma stopped_short mo rest :
  Forall (fun c => c <> Start /\ forall o, c <> NewManager o) rest ->
  Start ∉ NewManager mo :: rest /\ forall options, NewManager options ∈ NewManager mo :: rest -> options = mo.
Proof.
  rewrite Forall_forall. intros Hr. split; [intros [?|[? _]%Hr]%elem_of_cons; done|].
  intros options [[= ->]|[_ Hn]%Hr]%elem_of_cons; [done|]. by destruct (Hn options).
Qed.
Ltac stops mo H :=
  let Hno := fresh in let Hmo := fresh in
  injection H as <- <-; cbn [app];
  match goal with |- context [Start ∈ _ :: ?rest] => destruct (stopped_short mo rest) as [Hno Hmo]; [by repeat constructor|] end;
  split; [by right|]; split; [intros ?; exfalso; by apply Hno|]; split; [done|]; auto.

(** A manager is started only with the controller and both checks registered;
    HTTP/2 is off on both servers unless it was asked for; metrics that are
    served securely are served to authorised clients only; with a gateway the
    controller is registered only if every gateway kind is installed, and then
    it watches each of them. The process ends with 0 exactly when every call
    succeeded. *)
Theorem operatorMain_sound f env calls status :
  operatorMain f env = (calls, status) ->
  (status = 0 \/ status = 1) /\
  (Start ∈ calls -> exists kinds,
     calls = [NewManager (managerOptions f); Complete kinds; AddHealthzCheck "healthz"; AddReadyzCheck "readyz"; Start] /\
     SetupWithManager (en_RESTMapping env) (fg_enableGateway f) = inr kinds) /\
  (status = 0 -> Start ∈ calls /\ en_Start env = None) /\
  (forall options, NewManager options ∈ calls ->
     (fg_enableHTTP2 f = false -> forall initial,
        nextProtos (mo_TLSOpts (mg_Metrics options)) initial = ["http/1.1"] /\
        nextProtos (wo_TLSOpts (mg_Webhook options)) initial = ["http/1.1"]) /\
     mo_Filter (mg_Metrics options) = mo_SecureServing (mg_Metrics options)).
Proof.
  assert (forall options, options = managerOptions f ->
    (fg_enableHTTP2 f = false -> forall initial,
        nextProtos (mo_TLSOpts (mg_Metrics options)) initial = ["http/1.1"] /\
        nextProtos (wo_TLSOpts (mg_Webhook options)) initial = ["http/1.1"]) /\
     mo_Filter (mg_Metrics options) = mo_SecureServing (mg_Metrics options)) as Hopt.
  { intros options ->. split; [|done]. intros Hf initial. cbn [managerOptions mg_Metrics mg_Webhook metricsServerOptions mo_TLSOpts].
    unfold webhookServerOptions, tlsOpts. rewrite Hf. by destruct (0 <? _). }
  unfold operatorMain. cbv zeta. revert Hopt. generalize (managerOptions f) as mo. intros mo Hopt H.
  destruct (en_NewManager env); [stops mo H|].
  destruct (SetupWithManager _ _) as [e|kinds]; [stops mo H|].
  destruct (en_Complete env); [stops mo H|].
  destruct (en_Healthz env); [stops mo H|].
  destruct (en_Readyz env); [stops mo H|].
  injection H as <- <-. cbn [app]. split; [destruct (en_Start env); auto|]. split; [intros _; by eexists|]. split.
  - destruct (en_Start env); [done|]. intros _. split; [|done]. rewrite !elem_of_cons. auto 10.
  - intros options Ho. rewrite !elem_of_cons, elem_of_nil in Ho. apply Hopt. by destruct Ho as [[= ->]|[|[|[|[|]]]]].
Qed.

Lemma ownKinds_all RESTMapping kinds owned res :
  ownKinds RESTMapping kinds owned = inr res ->
  (forall gvk, gvk ∈ kinds -> RESTMapping gvk = None) /\
  res = owned ++ ((fun gvk => objKind (OUnstructured (gatewayObject gvk "" ""))) <$> kinds).
Proof.
  revert owned. induction kinds as [|gvk l IH]; intros owned; cbn [ownKinds fmap list_fmap].
  - intros [= <-]. rewrite app_nil_r. split; [intros ? []%elem_of_nil|done].
  - destruct (RESTMapping gvk) eqn:E; [done|]. intros [Hall ->]%IH. rewrite <- app_assoc. split; [|done].
    intros g [->|Hg]%elem_of_cons; auto.
Qed.

(** With a gateway every gateway kind is installed and watched. *)
Lemma SetupWithManager_gateway RESTMapping kinds :
  SetupWithManager RESTMapping true = inr kinds ->
  forall gvk, gvk ∈ gatewayKinds -> RESTMapping gvk = None /\ objKind (OUnstructured (gatewayObject gvk "" "")) ∈ kinds.
Proof.
  intros [Hall ->]%ownKinds_all gvk Hg. split; [by apply Hall|]. apply elem_of_app. right. by apply list_elem_of_fmap_2'  with gvk.
Qed.

(** ** Proofs: the node and the benchmark *)

(** A node's process ends with 0 only if its environment was accepted and it
    was shut down without an error. *)
Lemma serverExit_zero config Run : serverExit config Run = 0 <-> config.2 = None /\ Run config.1 = None.
Proof. unfold serverExit. destruct config as [c [e|]]; cbn [fst snd]; [split; [done|by intros [? _]]|]. destruct (Run c); split; try done. by intros [_ ?]. Qed.

(** The benchmark of separate processes ends with 0 only after a complete run:
    every planned trial was run against its server and is sound. *)
Lemma diagnosticExit_zero ParseFloat sha256 options env :
  diagnosticExit (RunDiagnostics ParseFloat sha256 options env) = 0 ->
  let s := (RunDiagnostics ParseFloat sha256 options env).1 in
  ds_Status s = "passed" /\ length (ds_Trials s) = length (plannedTrials (do_Repeats options)) /\
  forall t, t ∈ ds_Trials s -> sound_trial t.
Proof.
  unfold diagnosticExit. destruct (RunDiagnostics _ _ _ _) as [s [e|]] eqn:E; [done|]. intros _. cbn [fst].
  apply run_passed in E as (_ & Hs & _ & _ & _ & _ & _ & _ & _ & _ & _ & HL & Hall). split_and!; [done..|].
  intros t [k Hk]%list_elem_of_lookup. by apply (Hall k).
Qed.

(** ** Proofs: the probe *)
Section ProbeFacts.
Variable parseIPLiteral : string -> option string.
Variable quoted : string -> string.
Notation normalize := (normalize parseIPLiteral).
Notation probe_step := (probe_step parseIPLiteral quoted).
Notation probeRun := (probeRun parseIPLiteral quoted).

Lemma probe_worker_goes o p w pc :
  pb_ended p = true -> pb_workers p !! w = Some pc ->
  exists p', rtc (probe_step o) p p' /\ pb_workers p' = <[w := Gone]> (pb_workers p) /\ pb_ended p' = true.
Proof.
  intros He Hw. pose proof (lookup_lt_Some _ _ _ Hw) as Hlt. destruct pc as [i|i|i|i|].
  - exists (at_point w Gone p). split; [|done]. apply rtc_once. pose proof (ps_top parseIPLiteral quoted o w i p Hw) as H. by rewrite He in H.
  - eexists. split; [apply rtc_once; by apply (ps_look parseIPLiteral quoted o w i Exists)|done].
  - eexists. split; [eapply rtc_l; [by apply (ps_read parseIPLiteral quoted o w i false (fun _ => TransportFailed) 0)|]|].
    + apply rtc_once. apply (ps_done parseIPLiteral quoted o w i); [by apply list_lookup_insert_eq|done].
    + split; [|done]. cbn. apply list_insert_insert_eq.
  - exists (at_point w Gone p). split; [|done]. apply rtc_once. by apply (ps_done parseIPLiteral quoted o w i).
  - exists p. split; [done|]. split; [|done]. by rewrite list_insert_id.
Qed.

(** Wherever the probe has got to, it can be completed, at the latest when its
    context ends. *)
Lemma probe_completes o p : exists p', rtc (probe_step o) p p' /\ probeDone p'.
Proof.
  destruct (drive_all (probe_step o) pb_workers Gone (fun p => pb_ended p = true)) with (s := endProbe p) as (p' & H1 & H2 & _).
  - intros. by eapply probe_worker_goes.
  - done.
  - exists p'. split; [|done]. eapply rtc_l; [apply ps_end|done].
Qed.

Lemma probeOutcome_none p workErr written :
  (probeOutcome p workErr written).2 = None -> written = None /\ ps_Status (probeSummary p) = "passed".
Proof.
  unfold probeOutcome. cbv zeta. cbn [snd]. destruct written as [e|]; [done|]. generalize (ps_Status (probeSummary p)) as status.
  intros status. destruct (String.eqb_spec status "passed") as [->|_]; [done|]. cbn [negb]. rewrite Join_none. intros H.
  by specialize (H (Some probeFailed) ltac:(by left)).
Qed.

(** The probe has an outcome for all options and whatever the files do; and its
    process ends with 0 only if both flags were given, the summary is on disk
    and says passed, which it says only of a run that saw the stop file before
    its context ended and read at least once, every read being good. Evidence
    is printed exactly when there is a summary. *)
Theorem probe_exit options mkdir written :
  (exists res, probeRun options mkdir written res) /\
  (forall s err status evidence, probeRun options mkdir written (s, err) ->
     probeExit (op_Origin options) (op_Dir options) (s, err) = (status, evidence) ->
     (status = 0 -> op_Origin options <> "" /\ op_Dir options <> "" /\ mkdir = None /\ written = None /\
        (normalize options).2 = None /\ ps_Status s = "passed" /\ evidence = true /\
        exists p, rtc (probe_step (normalize options).1) (probeStart (op_Workers (normalize options).1)) p /\ probeDone p /\
          s = probeSummary p /\ pb_log p <> [] /\ (forall w i a r, (w, i, a, r) ∈ pb_log p -> good r) /\
          pb_stopped p = true /\ pb_ended p = false) /\
     (evidence = true -> exists p, probeDone p /\ s = probeSummary p)).
Proof.
  split.
  { destruct (normalize options).2 as [e|] eqn:En; [eexists; by apply pr_options|].
    destruct mkdir as [e|] eqn:Em; [eexists; by apply pr_mkdir|].
    destruct (probe_completes (normalize options).1 (probeStart (op_Workers (normalize options).1))) as (p & Hp & Hd).
    exists (probeOutcome p (Some Canceled) written). by apply pr_run. }
  intros s err status evidence Hrun. unfold probeExit. case_bool; [by intros [= <- <-]|].
  intros [= <- <-]. cbn [fst snd]. reflect_bool.
  remember (s, err) as res eqn:Eres. destruct Hrun as [e En|e En Em|p workErr En Em Hr Hd Hw];
    [injection Eres as <- <-; split; [done|intros [=]]..|].
  assert (s = probeSummary p) as -> by (by apply (f_equal fst) in Eres).
  assert (err = (probeOutcome p workErr written).2) as -> by (by apply (f_equal snd) in Eres).
  split; [|intros _; by exists p]. destruct (probeOutcome p workErr written).2 eqn:Eo; [intros [=]|]. intros _.
  apply probeOutcome_none in Eo as [-> Hs]. split_and!; [by apply String.eqb_neq..|done|done|done|done| |].
  - by rewrite Hs.
  - exists p. split; [exact Hr|]. split; [exact Hd|]. split; [done|]. eapply passed_iff; [|exact Hs]. eapply probe_steps_ok; [exact Hr|apply probeStart_ok].
Qed.
End ProbeFacts.

(** ** Proofs: the report *)
Lemma Artifacts_spec entries name : name ∈ Artifacts entries <-> (name, false) ∈ entries.
Proof.
  unfold Artifacts. rewrite list_elem_of_fmap. split.
  - intros ([n d] & -> & [Hd Hin]%list_elem_of_filter). cbn in *. by subst d.
  - intros H. exists (name, false). split; [done|]. by apply list_elem_of_filter.
Qed.

(** What a text contains stays in a text around it. *)
Definition shows (text part : string) : Prop := exists before after, text = before +:+ part +:+ after.

Lemma shows_refl s : shows s s.
Proof. exists "", "". by rewrite append_nil_r. Qed.
Lemma shows_before a text part : shows text part -> shows (a +:+ text) part.
Proof. intros (b & c & ->). exists (a +:+ b), c. by rewrite !append_assoc. Qed.
Lemma shows_after a text part : shows text part -> shows (text +:+ a) part.
Proof. intros (b & c & ->). exists b, (c +:+ a). by rewrite !append_assoc. Qed.
Lemma shows_in l x part : x ∈ l -> shows x part -> shows (concatText l) part.
Proof.
  induction l as [|y l IH]; [intros []%elem_of_nil|]. change (concatText (y :: l)) with (y +:+ concatText l).
  intros [->|Hx]%elem_of_cons Hs; [by apply shows_after|apply shows_before; auto].
Qed.

Section EvidenceFacts.
Variable pretty : string -> string.

(** The sections of a report show every recorded failure and note of every
    stage, and every piece of evidence as it is printed. *)
Lemma stageSections_show stages s part :
  s ∈ stages ->
  (exists failure, failure ∈ st_Failures s /\ part = failureText failure) \/
  (exists note, note ∈ st_Notes s /\ part = noteText note) \/
  (exists e, e ∈ st_Evidence s /\ part = evidenceText pretty e) ->
  shows (stageSections pretty stages) part.
Proof.
  intros Hs Hp. apply (shows_in _ (stageSection pretty s)); [by apply list_elem_of_fmap_2|]. unfold stageSection.
  do 13 apply shows_before. destruct Hp as [(x & Hx & ->)|[(x & Hx & ->)|(x & Hx & ->)]].
  - by apply shows_after, (shows_in _ (failureText x)); [apply list_elem_of_fmap_2|apply shows_refl].
  - apply shows_before. by apply shows_after, (shows_in _ (noteText x)); [apply list_elem_of_fmap_2|apply shows_refl].
  - do 2 apply shows_before. by apply (shows_in _ (evidenceText pretty x)); [apply list_elem_of_fmap_2|apply shows_refl].
Qed.
End EvidenceFacts.

(** [validation-report] ends with 0 exactly when the directory was given, the
    report could be made and says passed, and both files are written; its
    artifacts are then the files of the directory. *)
Theorem report_exit dir f body :
  let '(r, artifacts, err) := finishReport f body in
  (reportExit dir (r, err) = 0 <->
     dir <> "" /\ body = (r, None) /\ rp_Status r = "passed" /\
     (exists entries, rf_entries f = inl entries) /\
     rf_encode f = None /\ rf_json f = None /\ rf_md f = None) /\
  (err = None -> exists entries, rf_entries f = inl entries /\ forall name, name ∈ artifacts <-> (name, false) ∈ entries).
Proof.
  destruct f as [entries enc js md], body as [r [e|]]; cbn [finishReport rf_entries rf_encode rf_json rf_md].
  - split; [|done]. unfold reportExit. cbn [snd]. destruct (String.eqb dir ""); (split; [done|by intros (_ & [=] & _)]).
  - destruct entries as [l|e]; cbv beta iota zeta.
    + split; [|intros _; exists l; split; [done|apply Artifacts_spec]]. unfold reportExit. cbn [fst snd].
      destruct (String.eqb_spec dir "") as [->|Hd]; [split; [done|by intros [? _]]|].
      destruct enc, js, md; try (split; [done|intros (_ & _ & _ & _ & ? & ? & ?); congruence]).
      destruct (String.eqb_spec (rp_Status r) "passed") as [Hs|Hs]; cbn [negb]; split; try done.
      * intros _. split; [done|]. split; [done|]. split; [done|]. split; [by eexists|done].
      * by intros (_ & _ & ? & _).
    + split; [|done]. unfold reportExit. cbn [snd]. destruct (String.eqb dir ""); (split; [done|by intros (_ & _ & _ & [? [=]] & _)]).
Qed.
